(* ===== verification/_CoqProject ===== *)
-Q . S2P
Prelude.v
Types.v
ProcessLoop.v
SizeArith.v
Registry.v
Checksum.v
GzipHeader.v
Stream.v
Deflate.v
DeflateProps.v
DeflateFraming.v
DeflateDecode.v
Frames.v
FramedDecoder.v
Zstd.v
ZstdProps.v
Lz4.v
Lz4Props.v
Lz4Block.v
Lz4BlockProps.v
Identity.v
StreamProps.v
Builtins.v
Session.v
Whole.v
WholeProps.v
WholeRuns.v
DeflateRuns.v
CodecRuns.v
Liveness.v
Statuses.v
RoundTrip.v
OneShot.v
RValues.v
Build.v
RGlue.v
KompRoundTrip.v
Api.v
Xor5a.v
Lifetimes.v
CodecLifetimes.v
Consumer.v
ConsumerProps.v
Harness.v
ZipConsume.v
Load.v
Fuzz.v
Findings.v
