(* ===== verification/Prelude.v ===== *)
(** * zukomp: a verification development

    zukomp is an R package around a registry of compression codecs with one byte-in,
    byte-out C interface.  A caller makes an encoder or decoder handle for a codec, calls
    [process] on a buffer of two windows with cursors until the stream ends or fails, and
    frees the handle.  The driver (src/zu_stream.c) looks the codec up in the registry
    (src/zu_registry.c), enforces the caller's limits and calls the codec's vtable; the codecs
    wrap miniz, libzstd and liblz4.  A drive loop (src/zu_whole.c) runs a whole buffer
    through a handle for the R entry points (src/zukomp_r.c); other packages reach the same
    functions through a table of pointers (src/zukomp_api.c).

    ** Files, and the code each models

    The library, bottom up:
    - Prelude.v: machine integers, byte strings, the [result] monad, the allocator as an
      oracle, tactics, the hint database [zu].
    - Types.v: inst/include/zukomp.h and src/zu_status.c -- statuses, buffers, option
      structs byte by byte, capability records, vtables; [CursorContract], the interface
      between codecs and driver.
    - ProcessLoop.v: the [for (;;)] of a process function with its measure; [moved], what a
      call did to a buffer; [codec_run], a history of calls; [ordered_run], one that offers
      the input in order; [HonestRuns], a codec that says it is stuck only when it is.
    - SizeArith.v: src/zu_buf.c.
    - Registry.v: src/zu_registry.c; Builtins.v: the built-in table at its end.
    - Stream.v and StreamProps.v: src/zu_stream.c and what it guarantees.
    - Session.v: the abstract specification of driving a handle to its end, and the way
      from a handle's history to its codec's.

    The codecs:
    - Identity.v: src/codec_identity.c, and the specification of byte-by-byte codecs.
    - Checksum.v: the CRC-32 and Adler-32 of src/vendor/miniz/miniz.c.
    - GzipHeader.v: src/zu_gzip.c.
    - Deflate.v, DeflateProps.v, DeflateFraming.v, DeflateDecode.v: src/codec_deflate.c --
      the definitions, the loop, what the encoders write, what the decoders accept.
    - Frames.v: src/zu_frames.c; FramedDecoder.v: the decoder loop zstd and lz4-frame share.
    - Zstd.v, ZstdProps.v: src/codec_zstd.c.
    - Lz4.v, Lz4Props.v, Lz4Block.v, Lz4BlockProps.v: src/codec_lz4.c.

    Runs of them:
    - Whole.v, WholeProps.v, WholeRuns.v: src/zu_whole.c -- the loop, its sink, and whole
      runs; [CodecInverse], the interface a codec owes the round trip.
    - DeflateRuns.v, CodecRuns.v: that each codec keeps that interface.  Liveness.v: that
      each moves when it asks for another call.  Statuses.v: the statuses each can answer.
    - RoundTrip.v, OneShot.v: the round trips of the built-in registry, through the drive
      loop and through the one-shot pair.
    - Lifetimes.v, CodecLifetimes.v: the blocks a handle allocates and frees, over its life
      -- src/zu_stream.c's constructors and frees, and every codec's callbacks again with
      the trace of their allocations, proved equal to the definitions without it.

    Around them:
    - RValues.v, Build.v, RGlue.v: src/zukomp_r.c; KompRoundTrip.v: the round trip at its
      entry points.  Api.v: src/zukomp_api.c and inst/include/zukomp-r.h.  Load.v:
      src/init.c and the satellite's.
    - Harness.v: src/zukomp_test.c.  Fuzz.v: the targets of fuzz/.
    - Xor5a.v, Consumer.v, ConsumerProps.v: tools/zukomptest/src, a satellite package.
      ZipConsume.v: tools/zukomplink/src/zip_consume.c.
    - Findings.v: runs that show where code and comments part.

    ** How state and effects are modelled

    A handle is a record over the state type its vtable names, and an operation returns the
    new handle; the registry and the API table's reads of it are values passed around.
    A C pointer that may be NULL is an option; memory behind it is the list of its bytes; an
    out-parameter is whether the pointer is set ([outp]) and a component of the answer.
    [size_t] and the fixed-width integers are [Z] with [u8], [u32], [u64] where the source
    can wrap.  [malloc] answers as the class [Allocator] says, per request; fresh memory
    holds what [HeapBytes] says; [realloc] always moves.  Heap blocks, external pointers and
    the leak counter are the record [r_world]; an interrupt is the class [Interrupts], and an
    entry point left by one is an outcome of its own, after which only finalizers run.
    A double is a rational, an infinity or a NaN, and R's coercions are the class [RApi].

    miniz, libzstd, liblz4 and miniz's ZIP reader are classes of functions ([Miniz], [Zstd],
    [Lz4], [MzZip]); what zukomp relies on in them is a class of laws beside each
    ([MinizOk], [ZstdOk], [Lz4FrameOk], [Lz4BlockOk], [MzZipReads]; [MinizInverse],
    [MinizDrains], [ZstdInverse] and [Lz4Inverse] for the round trips; [MinizMoves] for
    termination): cursors move forward within the windows, error codes are those
    documented, a session that ends has decoded what an encoder of that library made of
    it, a finished session's output can be drained, a call that asks for another has moved.
    [RApiOk] says that R's integer coercion gives a C int.  Small concrete libraries satisfy
    the laws and carry the witnesses.

    What a codec keeps on the heap is not in its state's record but in a trace of [get] and
    [put] events over the blocks of a handle, carried by the monad [traced]; [life] replays
    a trace and is stuck where a block is freed that is not live or that keeps the only
    pointer to another, and where a pointer is overwritten while it owns a block.

    ** What the theorems show

    - Driver: no sequence of calls passes [max_output] or the expected size; success implies
      every limit and policy; a limit error is never spurious; options of any size are read
      within bounds; reset gives a fresh stream and budget; the one-shot pair terminates
      within its buffer.
    - Registry: every sequence of attempts leaves it well formed; what is registered is
      found; detection is longest magic first; the built-in vtables are well typed.
    - Codecs: process functions end and honour the cursor contract; encoders frame exactly
      what they took; decoders that report the end have checked exactly what they wrote,
      however input and output are cut; the header parser is the RFC 1952 grammar; the
      checksums are their definitions; the lz4-block size search is complete and ends.
    - Whole runs: the loop refines a session of a fresh handle with no chunk size in it;
      every exit releases every block once; for every built-in codec, a decode under a
      ceiling returns, and what the encoder put in the sink a decoder gives back -- through
      the loop, through the one-shot pair, and from [komp_compress] to [komp_decompress].
    - Lifetimes: from creation through any calls and resets to the free, or to a refused
      creation, each block of a handle is freed once.
    - Clients: the entry points leave the heap as they found it; the codec table is the
      registry; narrowing is exact; an outside codec round-trips through the table; the HTTP
      consumer's size and checksum are those of one session; two messages on one handle
      each keep their budget; loading in order gives the expected registry; the fuzz
      targets return on every input and free what they made.

    ** Fuel

    A codec's loop takes [process_loop] with a measure of the bytes its cursors can still
    move, and is proved to end.  The one-shot loops take [one_shot_fuel n cap] = n + cap + 1
    calls, enough because every call but the last moves a cursor.  The drive loops of
    Whole.v, Consumer.v, Harness.v and Fuzz.v take their fuel from the caller, one unit per
    driver call: a codec that neither moves nor fails keeps the code itself going round.
    For a codec that moves whenever it asks for another call, and a ceiling on the
    output, [run_fuel] = 2 n + ceiling + 1 is proved enough, and every built-in codec is
    such a codec; [fuzz_fuel] is the same bound for the fuzz targets.  Zip extraction takes one
    read per declared byte and one more.

    ** Not modelled

    The bodies of the vendored libraries, apart from the two checksums, and what they
    allocate beyond one context or stream; the R code; the PROTECT stack, R's own allocation
    failures and the text of R errors beyond what a test or a client reads;
    fuzz/standalone_main.c (file replay) and fuzz/msan_canary.c (reads uninitialised memory
    on purpose); concurrency, which the code excludes by writing the registry only
    while packages load. *)
From Stdlib Require Export ZArith Lia.
From stdpp Require Export base tactics strings numbers option.
From stdpp Require Export list.

#[export] Set Default Goal Selector "!".
#[export] Set Warnings "-clear-no-such-hyp".

Global Open Scope Z_scope.

(** ** Machine integers

    A [size_t] and a [uint64_t] are 64 bits wide, as on every platform zukomp's
    vtable layout is written for; an [int] is 32 bits wide.  They are kept as [Z]
    with the wrap-around written out where the source can wrap. *)
Definition SIZE_MAX : Z := 2 ^ 64 - 1.
Definition UINT64_MAX : Z := 2 ^ 64 - 1.
Definition INT_MAX : Z := 2 ^ 31 - 1.

Definition u8 (z : Z) : Z := z mod 2 ^ 8.
Definition u16 (z : Z) : Z := z mod 2 ^ 16.
Definition u32 (z : Z) : Z := z mod 2 ^ 32.
Definition u64 (z : Z) : Z := z mod 2 ^ 64.

(** Two's complement reading of a 32-bit pattern. *)
Definition s32 (z : Z) : Z :=
  let w := u32 z in if w <? 2 ^ 31 then w else w - 2 ^ 32.

Definition INT32_MIN : Z := - 2 ^ 31.

(** Reading a flag word: [flags & bit] as a C condition. *)
Definition has_flag (flags bit : Z) : bool := negb (Z.land flags bit =? 0).

(** ** Bytes in memory

    An object in memory is the list of its bytes; a pointer into it is the tail of
    that list.  A NULL pointer is [None] wherever the source allows one. *)
Abbreviation bytes := (list Z).

Definition byte_ok (b : Z) : Prop := 0 <= b < 256.
Definition bytes_ok (l : bytes) : Prop := Forall byte_ok l.

Definition zlen {A} (l : list A) : Z := Z.of_nat (length l).

(** [p[i]]: a byte read through a pointer. *)
Definition byte_at (p : bytes) (i : Z) : Z := nth (Z.to_nat i) p 0.

(** [p + off]. *)
Definition ptr_add (p : bytes) (off : Z) : bytes := drop (Z.to_nat off) p.

(** The [n] bytes at [p + off]. *)
Definition sub (p : bytes) (off n : Z) : bytes :=
  take (Z.to_nat n) (drop (Z.to_nat off) p).

(** [memcpy(p + off, bs, |bs|)].  A copy that runs past the end of the object
    makes the list longer, so "the length is unchanged" says no overflow. *)
Definition memcpy_at (p : bytes) (off : Z) (bs : bytes) : bytes :=
  take (Z.to_nat off) p ++ bs ++ drop (Z.to_nat off + length bs) p.

(** [memcmp(p, q, n) == 0]. *)
Definition memeq (p q : bytes) (n : Z) : bool :=
  bool_decide (sub p 0 n = sub q 0 n).

(** ** Little-endian integers *)
Fixpoint le_bytes (n : nat) (z : Z) : bytes :=
  match n with
  | O => []
  | S n' => z mod 256 :: le_bytes n' (z / 256)
  end.

Fixpoint le_value (l : bytes) : Z :=
  match l with
  | [] => 0
  | b :: l' => b + 256 * le_value l'
  end.

(** ** Allocation

    [malloc], [calloc] and [realloc] may fail.  An allocator answers each request;
    the model is correct for every answer it may give. *)
Inductive alloc_req :=
  | req_encoder                 (** [calloc(1, sizeof(zu_encoder))] *)
  | req_decoder                 (** [calloc(1, sizeof(zu_decoder))] *)
  | req_state                   (** a codec's own [calloc(1, sizeof( *s))] *)
  | req_library                 (** a context created by a vendored library *)
  | req_bytes (n : Z).          (** [malloc(n)] or [realloc(p, n)] *)

Class Allocator := alloc_ok : alloc_req -> bool.

(** ** Generic lemmas *)
Lemma has_flag_spec flags bit : has_flag flags bit = true <-> Z.land flags bit <> 0.
Proof.
  unfold has_flag. destruct (Z.eqb_spec (Z.land flags bit) 0); naive_solver.
Qed.

Lemma u64_small z : 0 <= z < 2 ^ 64 -> u64 z = z.
Proof. apply Z.mod_small. Qed.

Lemma u32_small z : 0 <= z < 2 ^ 32 -> u32 z = z.
Proof. apply Z.mod_small. Qed.

Lemma u64_range z : 0 <= u64 z < 2 ^ 64.
Proof. apply Z.mod_pos_bound; lia. Qed.

Lemma u32_range z : 0 <= u32 z < 2 ^ 32.
Proof. apply Z.mod_pos_bound; lia. Qed.

Lemma u8_range z : 0 <= u8 z < 2 ^ 8.
Proof. apply Z.mod_pos_bound; lia. Qed.

Lemma s32_range z : INT32_MIN <= s32 z < 2 ^ 31.
Proof.
  unfold s32, INT32_MIN. pose proof (u32_range z).
  destruct (Z.ltb_spec (u32 z) (2 ^ 31)); lia.
Qed.

Lemma s32_small z : INT32_MIN <= z < 2 ^ 31 -> s32 z = z.
Proof.
  unfold s32, INT32_MIN, u32. intros Hz.
  destruct (Z_lt_le_dec z 0).
  - replace (z mod 2 ^ 32) with (z + 2 ^ 32)
      by (symmetry; rewrite <- (Z.mod_add z 1 (2 ^ 32)) by lia; apply Z.mod_small; lia).
    destruct (Z.ltb_spec (z + 2 ^ 32) (2 ^ 31)); lia.
  - rewrite Z.mod_small by lia. destruct (Z.ltb_spec z (2 ^ 31)); lia.
Qed.

Lemma zlen_nonneg {A} (l : list A) : 0 <= zlen l.
Proof. unfold zlen. lia. Qed.

Lemma zlen_app {A} (l k : list A) : zlen (l ++ k) = zlen l + zlen k.
Proof. unfold zlen. rewrite length_app. lia. Qed.

Lemma zlen_nil {A} : zlen (@nil A) = 0.
Proof. reflexivity. Qed.

Lemma zlen_cons {A} (x : A) l : zlen (x :: l) = 1 + zlen l.
Proof. unfold zlen. simpl. lia. Qed.

Lemma zlen_replicate {A} (x : A) n : zlen (replicate n x) = Z.of_nat n.
Proof. unfold zlen. by rewrite length_replicate. Qed.

Lemma length_sub p off n :
  0 <= off -> 0 <= n -> off + n <= zlen p -> length (sub p off n) = Z.to_nat n.
Proof.
  unfold sub, zlen. intros. rewrite length_take, length_drop. lia.
Qed.

Lemma zlen_sub p off n :
  0 <= off -> 0 <= n -> off + n <= zlen p -> zlen (sub p off n) = n.
Proof. intros. unfold zlen at 1. rewrite length_sub by done. lia. Qed.

Lemma length_memcpy_at p off bs :
  0 <= off -> off + zlen bs <= zlen p -> length (memcpy_at p off bs) = length p.
Proof.
  unfold memcpy_at, zlen. intros.
  rewrite !length_app, length_take, length_drop. lia.
Qed.

Lemma zlen_memcpy_at p off bs :
  0 <= off -> off + zlen bs <= zlen p -> zlen (memcpy_at p off bs) = zlen p.
Proof. intros. unfold zlen. f_equal. by apply length_memcpy_at. Qed.

Lemma memcpy_at_nil p off : memcpy_at p off [] = p.
Proof.
  unfold memcpy_at. simpl. rewrite Nat.add_0_r. apply take_drop.
Qed.

(** A copy leaves every byte outside its range alone. *)
Lemma memcpy_at_lookup_outside p off bs i :
  0 <= off -> off + zlen bs <= zlen p ->
  (Z.of_nat i < off \/ off + zlen bs <= Z.of_nat i) ->
  memcpy_at p off bs !! i = p !! i.
Proof.
  unfold memcpy_at, zlen. intros Hoff Hlen [Hi | Hi].
  - rewrite lookup_app_l by (rewrite length_take; lia).
    apply lookup_take_lt. lia.
  - rewrite lookup_app_r by (rewrite length_take; lia).
    rewrite lookup_app_r by (rewrite length_take; lia).
    rewrite lookup_drop, length_take. f_equal. lia.
Qed.

(** ... and what it wrote reads back. *)
Lemma sub_memcpy_at p off bs :
  0 <= off -> off + zlen bs <= zlen p ->
  sub (memcpy_at p off bs) off (zlen bs) = bs.
Proof.
  unfold sub, memcpy_at, zlen. intros.
  rewrite drop_app_length' by (rewrite length_take; lia).
  rewrite take_app_length' by lia. done.
Qed.

Lemma sub_memcpy_at_before p off bs n :
  0 <= n <= off -> off <= zlen p ->
  sub (memcpy_at p off bs) 0 n = sub p 0 n.
Proof.
  unfold sub, memcpy_at, zlen. intros.
  rewrite !drop_0, take_app_le by (rewrite length_take; lia).
  rewrite take_take. f_equal. lia.
Qed.

Lemma sub_split p off n m :
  0 <= off -> 0 <= n -> 0 <= m ->
  sub p off (n + m) = sub p off n ++ sub p (off + n) m.
Proof.
  unfold sub. intros.
  rewrite (Z2Nat.inj_add n m), (Z2Nat.inj_add off n) by lia.
  by rewrite <- take_take_drop, drop_drop.
Qed.

Lemma sub_0 p off : sub p off 0 = [].
Proof. unfold sub. done. Qed.

Lemma sub_all p : sub p 0 (zlen p) = p.
Proof. unfold sub, zlen. rewrite drop_0. apply take_ge. lia. Qed.

Lemma length_le_bytes n z : length (le_bytes n z) = n.
Proof. revert z. induction n; intros; simpl; auto. Qed.

Lemma le_bytes_ok n z : bytes_ok (le_bytes n z).
Proof.
  revert z. induction n as [|n IH]; intros z; simpl; constructor.
  - unfold byte_ok. apply Z.mod_pos_bound. lia.
  - apply IH.
Qed.

Lemma le_value_bytes n z :
  le_value (le_bytes n z) = z mod 256 ^ Z.of_nat n.
Proof.
  revert z. induction n as [|n IH]; intros z.
  - simpl. by rewrite Z.mod_1_r.
  - cbn [le_bytes le_value]. rewrite IH, Nat2Z.inj_succ, Z.pow_succ_r by lia.
    rewrite Z.rem_mul_r by lia. done.
Qed.

Lemma le_value_range l : bytes_ok l -> 0 <= le_value l < 256 ^ zlen l.
Proof.
  induction 1 as [|b l Hb Hl IH]; [done|].
  cbn [le_value]. rewrite zlen_cons, Z.pow_add_r by (pose proof (zlen_nonneg l); lia).
  unfold byte_ok in Hb. lia.
Qed.

Lemma le_bytes_value l :
  bytes_ok l -> le_bytes (length l) (le_value l) = l.
Proof.
  induction 1 as [|b l Hb Hl IH]; [done|].
  unfold byte_ok in Hb. cbn [le_value le_bytes length]. f_equal.
  - rewrite Z.mul_comm, Z.mod_add by lia. by apply Z.mod_small.
  - rewrite Z.mul_comm, Z.div_add, Z.div_small by lia. by rewrite Z.add_0_l.
Qed.

(** ** Automation *)
Create HintDb zu.
Create Rewrite HintDb zu_norm.
#[export] Hint Resolve zlen_nonneg u64_range u32_range u8_range : zu.
#[export] Hint Rewrite @zlen_app @zlen_cons @zlen_nil : zu_norm.

(** Turn boolean comparisons in the context into propositions. *)
Ltac zbool :=
  repeat match goal with
  | H : (_ =? _) = true |- _ => apply Z.eqb_eq in H
  | H : (_ =? _) = false |- _ => apply Z.eqb_neq in H
  | H : (_ <? _) = true |- _ => apply Z.ltb_lt in H
  | H : (_ <? _) = false |- _ => apply Z.ltb_ge in H
  | H : (_ <=? _) = true |- _ => apply Z.leb_le in H
  | H : (_ <=? _) = false |- _ => apply Z.leb_gt in H
  | H : (_ && _) = true |- _ => apply andb_true_iff in H as [? ?]
  | H : (_ && _) = false |- _ => apply andb_false_iff in H
  | H : (_ || _) = true |- _ => apply orb_true_iff in H
  | H : (_ || _) = false |- _ => apply orb_false_iff in H as [? ?]
  | H : negb _ = true |- _ => apply negb_true_iff in H
  | H : negb _ = false |- _ => apply negb_false_iff in H
  | H : bool_decide _ = true |- _ => apply bool_decide_eq_true in H
  | H : bool_decide _ = false |- _ => apply bool_decide_eq_false in H
  end.

(** Case split on the condition of the innermost [if] or [match] of the goal. *)
Ltac split_if :=
  match goal with
  | |- context [if ?c then _ else _] =>
      lazymatch c with context [if _ then _ else _] => fail | _ => destruct c eqn:? end
  end.

Ltac split_match_in H :=
  match type of H with
  | context [match ?c with _ => _ end] =>
      lazymatch c with context [match _ with _ => _ end] => fail | _ => destruct c eqn:? end
  end.

Ltac znorm := autorewrite with zu_norm in *; zbool.

(** Case analysis on every integer comparison of the goal. *)
Ltac zcase :=
  rewrite ?Z.gtb_ltb, ?Z.geb_leb;
  repeat match goal with
  | |- context [?a <? ?b] => destruct (Z.ltb_spec a b)
  | |- context [?a <=? ?b] => destruct (Z.leb_spec a b)
  | |- context [?a =? ?b] => destruct (Z.eqb_spec a b)
  end; cbn [andb orb negb].

(** ** Bitwise operations on bounded integers *)
Lemma bounded_testbit a n i : 0 <= a < 2 ^ n -> 0 <= n <= i -> Z.testbit a i = false.
Proof.
  intros Ha Hi. destruct (Z.eq_dec a 0) as [->|]; [apply Z.bits_0|].
  apply Z.bits_above_log2; [lia|]. apply Z.log2_lt_pow2; [lia|].
  eapply Z.lt_le_trans; [apply Ha|]. apply Z.pow_le_mono_r; lia.
Qed.

Lemma testbit_bounded a n :
  0 <= n -> (forall i, n <= i -> Z.testbit a i = false) -> 0 <= a < 2 ^ n.
Proof.
  intros Hn H. replace a with (a mod 2 ^ n); [apply Z.mod_pos_bound; lia|].
  apply Z.bits_inj'. intros i Hi. destruct (Z_lt_le_dec i n).
  - by apply Z.mod_pow2_bits_low.
  - rewrite Z.mod_pow2_bits_high by lia. by rewrite H.
Qed.

Lemma lxor_range a b n : 0 <= n -> 0 <= a < 2 ^ n -> 0 <= b < 2 ^ n -> 0 <= Z.lxor a b < 2 ^ n.
Proof.
  intros Hn Ha Hb. apply testbit_bounded; [done|]. intros i Hi.
  rewrite Z.lxor_spec, (bounded_testbit a n), (bounded_testbit b n) by lia. done.
Qed.

Lemma shiftr_range a k n : 0 <= k -> 0 <= a < 2 ^ n -> 0 <= Z.shiftr a k < 2 ^ n.
Proof.
  intros Hk Ha. rewrite Z.shiftr_div_pow2 by done.
  pose proof (Z.pow_pos_nonneg 2 k ltac:(lia) Hk). split.
  - apply Z.div_pos; lia.
  - apply Z.div_lt_upper_bound; [lia|]. nia.
Qed.

(** Induction on the length of a list. *)
Lemma list_length_ind {A} (P : list A -> Prop) :
  (forall l, (forall k, (length k < length l)%nat -> P k) -> P l) -> forall l, P l.
Proof.
  intros H l. remember (length l) as n eqn:Hn. revert l Hn.
  induction (lt_wf n) as [n _ IH]. intros l ->. apply H. intros k Hk. by eapply IH.
Qed.

(** Concrete byte strings. *)
Definition bytes_okb (l : bytes) : bool := forallb (fun b => (0 <=? b) && (b <? 256)) l.

Lemma bytes_okb_ok l : bytes_okb l = true -> bytes_ok l.
Proof.
  unfold bytes_okb, bytes_ok. rewrite forallb_forall, List.Forall_forall.
  intros H b Hb. specialize (H b Hb). unfold byte_ok. zbool. lia.
Qed.

(** Assembling a little-endian integer with [|] and [<<]. *)
Lemma lor_shiftl_add a b n : 0 <= n -> 0 <= a < 2 ^ n -> Z.lor a (Z.shiftl b n) = a + 2 ^ n * b.
Proof.
  intros Hn Ha. rewrite <- Z.add_nocarry_lor.
  - rewrite Z.shiftl_mul_pow2 by done. lia.
  - apply Z.bits_inj'. intros i Hi. rewrite Z.land_spec, Z.bits_0.
    destruct (Z_lt_le_dec i n).
    + rewrite Z.shiftl_spec_low by done. by rewrite andb_false_r.
    + by rewrite (bounded_testbit a n).
Qed.

(** ** Byte strings stay byte strings *)
Lemma bytes_ok_sub m off n : bytes_ok m -> bytes_ok (sub m off n).
Proof. intros. unfold bytes_ok, sub. by apply Forall_take, Forall_drop. Qed.

Lemma bytes_ok_memcpy p off bs : bytes_ok p -> bytes_ok bs -> bytes_ok (memcpy_at p off bs).
Proof.
  intros. unfold bytes_ok, memcpy_at. rewrite !Forall_app.
  split_and!; [by apply Forall_take|done|by apply Forall_drop].
Qed.

Lemma bytes_ok_app l k : bytes_ok l -> bytes_ok k -> bytes_ok (l ++ k).
Proof. intros. by apply Forall_app. Qed.

Lemma bytes_ok_take n p : bytes_ok p -> bytes_ok (take n p).
Proof. apply Forall_take. Qed.

Lemma bytes_ok_drop n p : bytes_ok p -> bytes_ok (drop n p).
Proof. apply Forall_drop. Qed.

(** Unfolding a fold without looking into its function. *)
Lemma fold_left_cons {A B} (f : A -> B -> A) b l a :
  fold_left f (b :: l) a = fold_left f l (f a b).
Proof. done. Qed.

Lemma sub_1 p off : 0 <= off < zlen p -> sub p off 1 = [byte_at p off].
Proof.
  unfold sub, byte_at, zlen. intros H.
  destruct (drop (Z.to_nat off) p) as [|x r] eqn:E.
  - apply (f_equal length) in E. rewrite length_drop in E. cbn in E. lia.
  - rewrite <- (Nat.add_0_r (Z.to_nat off)), <- nth_skipn, E. done.
Qed.
