(* ===== verification/Types.v ===== *)
(** * The public vocabulary of zukomp

    inst/include/zukomp.h: statuses, codec identities, buffers, options, capability
    records and the codec vtable; src/zu_status.c.  Also the cursor contract every
    codec owes the driver, as a class that the codecs' files instantiate and the
    driver's theorems use. *)
From S2P Require Import Prelude.

(** ** Statuses *)

(** [zu_status].  A third-party codec may return an integer that is no enumerator;
    those are [ZU_STATUS_OTHER]. *)
Inductive zu_status :=
  | ZU_OK
  | ZU_NEED_INPUT
  | ZU_NEED_OUTPUT
  | ZU_STREAM_END
  | ZU_ERR_INVALID_ARGUMENT
  | ZU_ERR_UNSUPPORTED
  | ZU_ERR_INVALID_DATA
  | ZU_ERR_TRUNCATED
  | ZU_ERR_CHECKSUM
  | ZU_ERR_TRAILING
  | ZU_ERR_MEMORY
  | ZU_ERR_OUTPUT_LIMIT
  | ZU_ERR_RATIO_LIMIT
  | ZU_ERR_INTERNAL
  | ZU_STATUS_OTHER (n : Z).

#[export] Instance zu_status_eq_dec : EqDecision zu_status.
Proof. solve_decision. Defined.

(** The integer an enumerator stands for. *)
Definition status_code (st : zu_status) : Z :=
  match st with
  | ZU_OK => 0
  | ZU_NEED_INPUT => 1
  | ZU_NEED_OUTPUT => 2
  | ZU_STREAM_END => 3
  | ZU_ERR_INVALID_ARGUMENT => 4
  | ZU_ERR_UNSUPPORTED => 5
  | ZU_ERR_INVALID_DATA => 6
  | ZU_ERR_TRUNCATED => 7
  | ZU_ERR_CHECKSUM => 8
  | ZU_ERR_TRAILING => 9
  | ZU_ERR_MEMORY => 10
  | ZU_ERR_OUTPUT_LIMIT => 11
  | ZU_ERR_RATIO_LIMIT => 12
  | ZU_ERR_INTERNAL => 13
  | ZU_STATUS_OTHER n => n
  end.

(** [st != ZU_OK && st != ZU_NEED_INPUT && st != ZU_NEED_OUTPUT], negated: the
    statuses after which a drive loop goes round again. *)
Definition is_progress (st : zu_status) : bool :=
  match st with
  | ZU_OK | ZU_NEED_INPUT | ZU_NEED_OUTPUT => true
  | _ => false
  end.

(** [if (st == ...)] tests in the source. *)
Definition status_eqb (a b : zu_status) : bool := bool_decide (a = b).

Definition ZUKOMP_ABI_VERSION : Z := 1.
Definition zu_abi_version : Z := ZUKOMP_ABI_VERSION.

(** src/zu_status.c *)
Definition zu_status_string (status : zu_status) : string :=
  match status with
  | ZU_OK => "ok"%string
  | ZU_NEED_INPUT => "needs more input"%string
  | ZU_NEED_OUTPUT => "needs more output space"%string
  | ZU_STREAM_END => "end of stream"%string
  | ZU_ERR_INVALID_ARGUMENT => "invalid argument"%string
  | ZU_ERR_UNSUPPORTED => "unsupported codec or operation"%string
  | ZU_ERR_INVALID_DATA => "invalid compressed data"%string
  | ZU_ERR_TRUNCATED => "truncated input"%string
  | ZU_ERR_CHECKSUM => "checksum mismatch"%string
  | ZU_ERR_TRAILING => "unexpected trailing bytes"%string
  | ZU_ERR_MEMORY => "out of memory"%string
  | ZU_ERR_OUTPUT_LIMIT => "output size limit exceeded"%string
  | ZU_ERR_RATIO_LIMIT => "compression ratio limit exceeded"%string
  | ZU_ERR_INTERNAL => "internal error"%string
  | ZU_STATUS_OTHER _ => "unrecognised status"%string
  end.

(** A function with one out-parameter returns [ZU_OK] and the value it stored, or
    a status and nothing. *)
Inductive result (A : Type) :=
  | Ok (a : A)
  | Err (st : zu_status).
Arguments Ok {A} a.
Arguments Err {A} st.

#[export] Instance result_ret : MRet result := fun A a => Ok a.
#[export] Instance result_bind : MBind result := fun A B f m =>
  match m with
  | Ok a => f a
  | Err st => Err st
  end.
#[export] Instance result_fmap : FMap result := fun A B f m =>
  match m with
  | Ok a => Ok (f a)
  | Err st => Err st
  end.

(** The status such a function returns. *)
Definition result_status {A} (r : result A) : zu_status :=
  match r with
  | Ok _ => ZU_OK
  | Err st => st
  end.

(** [if (cond) { return st; }] *)
Definition guard_or (cond : bool) (st : zu_status) : result unit :=
  if cond then Err st else Ok tt.

(** An out-pointer the caller passed: [true] when it is not NULL. *)
Abbreviation outp := bool (only parsing).

(** ** Codec identities

    [zu_codec] is an [int]-sized enumeration that third-party identities extend. *)
Abbreviation zu_codec := Z (only parsing).

Definition ZU_CODEC_NONE : zu_codec := 0.
Definition ZU_CODEC_IDENTITY : zu_codec := 1.
Definition ZU_CODEC_DEFLATE_RAW : zu_codec := 2.
Definition ZU_CODEC_ZLIB : zu_codec := 3.
Definition ZU_CODEC_GZIP : zu_codec := 4.
Definition ZU_CODEC_BROTLI : zu_codec := 16.
Definition ZU_CODEC_ZSTD : zu_codec := 17.
Definition ZU_CODEC_LZ4_FRAME : zu_codec := 18.
Definition ZU_CODEC_LZ4_BLOCK : zu_codec := 19.
Definition ZU_CODEC_SNAPPY_FRAME : zu_codec := 20.
Definition ZU_CODEC_SNAPPY_RAW : zu_codec := 21.
Definition ZU_CODEC_VENDOR_BASE : zu_codec := 1024.

(** ** Buffers *)

(** [zu_buffer].  [src] and [dst] are the objects the pointers point at. *)
Record zu_buffer := mk_buffer {
  src : option bytes;
  src_size : Z;
  src_pos : Z;
  dst : option bytes;
  dst_size : Z;
  dst_pos : Z;
}.

Definition avail_in (b : zu_buffer) : Z := src_size b - src_pos b.
Definition avail_out (b : zu_buffer) : Z := dst_size b - dst_pos b.

(** [b->src[b->src_pos + i]] and [b->src + b->src_pos]. *)
Definition src_bytes (b : zu_buffer) : bytes := default [] (src b).
Definition src_at (b : zu_buffer) (i : Z) : Z := byte_at (src_bytes b) (src_pos b + i).
Definition src_window (b : zu_buffer) : bytes := sub (src_bytes b) (src_pos b) (avail_in b).

(** [b->src_pos += n]. *)
Definition buf_consume (b : zu_buffer) (n : Z) : zu_buffer :=
  mk_buffer (src b) (src_size b) (src_pos b + n) (dst b) (dst_size b) (dst_pos b).

(** [memcpy(b->dst + b->dst_pos, bs, |bs|); b->dst_pos += |bs|]. *)
Definition buf_emit (b : zu_buffer) (bs : bytes) : zu_buffer :=
  mk_buffer (src b) (src_size b) (src_pos b)
    ((fun m => memcpy_at m (dst_pos b) bs) <$> dst b) (dst_size b)
    (dst_pos b + zlen bs).

(** [b->dst_size = n]. *)
Definition buf_set_dst_size (b : zu_buffer) (n : Z) : zu_buffer :=
  mk_buffer (src b) (src_size b) (src_pos b) (dst b) n (dst_pos b).

(** The bytes written so far. *)
Definition dst_written (b : zu_buffer) : bytes := sub (default [] (dst b)) 0 (dst_pos b).

(** [zu_flush]; a caller may also pass an integer that is no enumerator. *)
Inductive zu_flush :=
  | ZU_RUN
  | ZU_FLUSH
  | ZU_FINISH
  | ZU_FLUSH_OTHER (n : Z).

#[export] Instance zu_flush_eq_dec : EqDecision zu_flush.
Proof. solve_decision. Defined.

Definition is_finish (f : zu_flush) : bool :=
  match f with
  | ZU_FINISH => true
  | _ => false
  end.
Definition is_flush (f : zu_flush) : bool :=
  match f with
  | ZU_FLUSH => true
  | _ => false
  end.

(** ** Options *)

Definition ZU_LEVEL_DEFAULT : Z := INT32_MIN.

Definition ZU_DEC_REJECT_TRAILING : Z := 1.
Definition ZU_DEC_CONCAT_MEMBERS : Z := 2.
Definition ZU_DEC_EXPECTED_SIZE : Z := 4.

Record zu_encoder_opts := mk_encoder_opts {
  eo_struct_size : Z;
  eo_codec : zu_codec;
  eo_level : Z;
  eo_flags : Z;
}.

Record zu_decoder_opts := mk_decoder_opts {
  do_struct_size : Z;
  do_codec : zu_codec;
  do_max_output : Z;
  do_max_ratio : Z;
  do_flags : Z;
  do_expected_size : Z;
}.

(** The structs as a caller lays them out in memory (LP64, little-endian): 16 and
    32 bytes, fields at their natural alignment. *)
Definition encoder_opts_bytes (o : zu_encoder_opts) : bytes :=
  le_bytes 4 (eo_struct_size o) ++ le_bytes 4 (eo_codec o) ++
  le_bytes 4 (eo_level o) ++ le_bytes 4 (eo_flags o).

Definition decoder_opts_bytes (o : zu_decoder_opts) : bytes :=
  le_bytes 4 (do_struct_size o) ++ le_bytes 4 (do_codec o) ++
  le_bytes 8 (do_max_output o) ++ le_bytes 4 (do_max_ratio o) ++
  le_bytes 4 (do_flags o) ++ le_bytes 8 (do_expected_size o).

Definition sizeof_encoder_opts : Z := 16.
Definition sizeof_decoder_opts : Z := 32.

(** Reading the fields back through a pointer. *)
Definition opts_struct_size (m : bytes) : Z := le_value (sub m 0 4).

Definition encoder_opts_of (m : bytes) : zu_encoder_opts :=
  mk_encoder_opts (le_value (sub m 0 4)) (le_value (sub m 4 4))
    (s32 (le_value (sub m 8 4))) (le_value (sub m 12 4)).

Definition decoder_opts_of (m : bytes) : zu_decoder_opts :=
  mk_decoder_opts (le_value (sub m 0 4)) (le_value (sub m 4 4))
    (le_value (sub m 8 8)) (le_value (sub m 16 4)) (le_value (sub m 20 4))
    (le_value (sub m 24 8)).

(** [offsetof(..., flags) + sizeof(uint32_t)]. *)
Definition ZU_ENCODER_OPTS_REQUIRED_SIZE : Z := 12 + 4.
Definition ZU_DECODER_OPTS_REQUIRED_SIZE : Z := 20 + 4.

(** ** Capabilities and the codec vtable *)

Definition ZU_CAN_ENCODE : Z := 1.
Definition ZU_CAN_DECODE : Z := 2.
Definition ZU_CAN_FLUSH : Z := 4.

Record zu_codec_info := mk_info {
  ci_struct_size : Z;
  ci_codec : zu_codec;
  ci_name : option string;
  ci_content_encoding : option string;
  ci_source : option string;
  ci_level_min : Z;
  ci_level_max : Z;
  ci_level_default : Z;
  ci_flags : Z;
  ci_detectable : bool;
  ci_level_fast : Z;
  ci_level_best : Z;
}.

(** [zu_codec_vtable].  A function pointer is an [option]; [vt_state] is what the
    codec's [void *st] points at.  [vt_encoder_free] and [vt_decoder_free] record
    only whether the pointer is set. *)
Record zu_codec_vtable := mk_vtable {
  vt_state : Type;
  vt_struct_size : Z;
  vt_codec : zu_codec;
  vt_name : option string;
  vt_content_encoding : option string;
  vt_source : option string;
  vt_level_min : Z;
  vt_level_max : Z;
  vt_level_default : Z;
  vt_flags : Z;
  vt_magic : option bytes;
  vt_magic_len : Z;
  vt_magic_offset : Z;
  vt_sniff : option (option bytes -> Z -> bool);
  vt_encoder_new : option (zu_encoder_opts -> result vt_state);
  vt_encoder_process :
    option (vt_state -> zu_buffer -> zu_flush -> zu_status * vt_state * zu_buffer);
  vt_encoder_reset : option (vt_state -> zu_encoder_opts -> zu_status * vt_state);
  vt_encoder_free : bool;
  vt_decoder_new : option (zu_decoder_opts -> result vt_state);
  vt_decoder_process :
    option (vt_state -> zu_buffer -> zu_flush -> zu_status * vt_state * zu_buffer);
  vt_decoder_reset : option (vt_state -> zu_decoder_opts -> zu_status * vt_state);
  vt_decoder_free : bool;
  vt_bound : option (Z -> Z -> result Z);
  vt_level_fast : Z;
  vt_level_best : Z;
}.

(** [offsetof(zu_codec_vtable, bound) + sizeof(pointer)] and the full size. *)
Definition ZU_VTABLE_REQUIRED_SIZE : Z := 144 + 8.
Definition sizeof_vtable : Z := 160.

(** ** The cursor contract

    zukomp.h: "the callee advances src_pos and dst_pos and never touches the other
    fields".  A buffer is well formed when its cursors are inside its sizes and its
    sizes inside the objects behind the pointers. *)
Definition object_covers (p : option bytes) (n : Z) : Prop :=
  match p with
  | Some m => n <= zlen m
  | None => n = 0
  end.

Record buffer_ok (b : zu_buffer) : Prop := {
  bo_src_pos : 0 <= src_pos b <= src_size b;
  bo_dst_pos : 0 <= dst_pos b <= dst_size b;
  bo_src_size : src_size b < 2 ^ 64;
  bo_dst_size : dst_size b < 2 ^ 64;
  bo_src : object_covers (src b) (src_size b);
  bo_dst : object_covers (dst b) (dst_size b);
}.

(** Only the bytes [lo..hi) of the object behind the pointer may have changed. *)
Definition changed_within (lo hi : Z) (p q : option bytes) : Prop :=
  match p, q with
  | None, None => True
  | Some m, Some m' =>
      length m = length m' /\
      forall i : nat, (Z.of_nat i < lo \/ hi <= Z.of_nat i) -> m !! i = m' !! i
  | _, _ => False
  end.

Record buffer_step (b b' : zu_buffer) : Prop := {
  bs_src : src b' = src b;
  bs_src_size : src_size b' = src_size b;
  bs_dst_size : dst_size b' = dst_size b;
  bs_src_pos : src_pos b <= src_pos b' <= src_size b;
  bs_dst_pos : dst_pos b <= dst_pos b' <= dst_size b;
  bs_dst : changed_within (dst_pos b) (dst_pos b') (dst b) (dst b');
}.

(** A process function that honours the contract on well-formed buffers. *)
Class CursorContract {S : Type}
    (process : S -> zu_buffer -> zu_flush -> zu_status * S * zu_buffer) : Prop :=
  cursor_contract : forall s b f st s' b',
    buffer_ok b -> process s b f = (st, s', b') -> buffer_step b b'.

(** ** Lemmas on buffers *)

Lemma changed_within_refl lo hi p : changed_within lo hi p p.
Proof. destruct p; simpl; auto. Qed.

Lemma changed_within_trans lo mid hi p q r :
  lo <= mid <= hi ->
  changed_within lo mid p q -> changed_within mid hi q r -> changed_within lo hi p r.
Proof.
  intros Hle. destruct p, q, r; simpl; try done.
  intros [Hl1 H1] [Hl2 H2]. split; [congruence|].
  intros i Hi. rewrite H1 by lia. apply H2. lia.
Qed.

Lemma changed_within_mono lo hi lo' hi' p q :
  lo' <= lo -> hi <= hi' -> changed_within lo hi p q -> changed_within lo' hi' p q.
Proof.
  intros Hlo Hhi. destruct p, q; simpl; try done.
  intros [Hl H]. split; [done|]. intros i Hi. apply H. lia.
Qed.

Lemma changed_within_memcpy p off bs :
  0 <= off -> object_covers p (off + zlen bs) ->
  changed_within off (off + zlen bs) p ((fun m => memcpy_at m off bs) <$> p).
Proof.
  intros Hoff. destruct p as [m|]; simpl; [|done]. intros Hcov. split.
  - symmetry. by apply length_memcpy_at.
  - intros i Hi. symmetry. by apply memcpy_at_lookup_outside.
Qed.

Lemma object_covers_mono p n m : 0 <= m <= n -> object_covers p n -> object_covers p m.
Proof. destruct p; simpl; lia. Qed.

Lemma changed_within_covers lo hi p q n :
  changed_within lo hi p q -> object_covers p n -> object_covers q n.
Proof.
  destruct p, q; simpl; try done. unfold zlen. intros [-> _]. done.
Qed.

Lemma buffer_step_refl b : buffer_ok b -> buffer_step b b.
Proof. intros []. constructor; auto; try lia. apply changed_within_refl. Qed.

Lemma buffer_step_trans b1 b2 b3 :
  buffer_step b1 b2 -> buffer_step b2 b3 -> buffer_step b1 b3.
Proof.
  intros [s1 z1 d1 p1 q1 m1] [s2 z2 d2 p2 q2 m2].
  constructor; try congruence; try lia.
  eapply changed_within_trans; [|exact m1|exact m2]. lia.
Qed.

Lemma buffer_step_ok b b' : buffer_ok b -> buffer_step b b' -> buffer_ok b'.
Proof.
  intros [o1 o2 o3 o4 o5 o6] [s1 z1 d1 p1 q1 m1]. constructor; try lia.
  - rewrite s1, z1. done.
  - rewrite d1. eapply changed_within_covers; eauto.
Qed.

Lemma buf_consume_step b n :
  buffer_ok b -> 0 <= n <= avail_in b -> buffer_step b (buf_consume b n).
Proof.
  unfold avail_in. intros [] Hn. constructor; simpl; auto; try lia.
  apply changed_within_refl.
Qed.

Lemma buf_emit_step b bs :
  buffer_ok b -> zlen bs <= avail_out b -> buffer_step b (buf_emit b bs).
Proof.
  unfold avail_out. intros [] Hn. pose proof (zlen_nonneg bs).
  constructor; simpl; auto; try lia.
  apply changed_within_memcpy; [lia|]. eapply object_covers_mono; [|eauto]. lia.
Qed.

Lemma avail_in_nonneg b : buffer_ok b -> 0 <= avail_in b.
Proof. unfold avail_in. intros []. lia. Qed.

Lemma avail_out_nonneg b : buffer_ok b -> 0 <= avail_out b.
Proof. unfold avail_out. intros []. lia. Qed.

Lemma src_some b : buffer_ok b -> 0 < avail_in b -> exists m, src b = Some m.
Proof.
  unfold avail_in. intros [] H. destruct (src b); simpl in *; [eauto|lia].
Qed.

Lemma dst_some b : buffer_ok b -> 0 < avail_out b -> exists m, dst b = Some m.
Proof.
  unfold avail_out. intros [] H. destruct (dst b); simpl in *; [eauto|lia].
Qed.

Lemma zlen_src_window b : buffer_ok b -> zlen (src_window b) = avail_in b.
Proof.
  unfold src_window, src_bytes, avail_in. intros [? ? ? ? Hs ?].
  destruct (src b) as [m|]; simpl in *.
  - apply zlen_sub; lia.
  - unfold sub, zlen. rewrite drop_nil, take_nil. simpl. lia.
Qed.

(** What was written so far survives a step; an emitted string is appended to it. *)
Lemma dst_written_emit b bs :
  buffer_ok b -> zlen bs <= avail_out b ->
  dst_written (buf_emit b bs) = dst_written b ++ bs.
Proof.
  unfold dst_written, avail_out. intros [? ? ? ? ? Hd] Hn. simpl.
  pose proof (zlen_nonneg bs).
  destruct (dst b) as [m|]; simpl in *.
  - rewrite sub_split by lia. rewrite sub_memcpy_at_before by lia.
    rewrite Z.add_0_l, sub_memcpy_at by lia. done.
  - destruct bs; [|rewrite zlen_cons in *; pose proof (zlen_nonneg bs); lia].
    unfold sub. by rewrite !drop_nil, !take_nil.
Qed.

#[export] Hint Resolve buffer_step_refl buffer_step_trans buffer_step_ok
  buf_consume_step buf_emit_step avail_in_nonneg avail_out_nonneg
  changed_within_refl : zu.

(** ** Lemmas on statuses and the option structs *)

Lemma status_eqb_spec a b : status_eqb a b = true <-> a = b.
Proof. apply bool_decide_eq_true. Qed.

Lemma length_encoder_opts_bytes o : length (encoder_opts_bytes o) = 16%nat.
Proof. unfold encoder_opts_bytes. by rewrite !length_app, !length_le_bytes. Qed.

Lemma length_decoder_opts_bytes o : length (decoder_opts_bytes o) = 32%nat.
Proof. unfold decoder_opts_bytes. by rewrite !length_app, !length_le_bytes. Qed.

Definition decoder_opts_fit (o : zu_decoder_opts) : Prop :=
  0 <= do_struct_size o < 2 ^ 32 /\ 0 <= do_codec o < 2 ^ 32 /\
  0 <= do_max_output o < 2 ^ 64 /\ 0 <= do_max_ratio o < 2 ^ 32 /\
  0 <= do_flags o < 2 ^ 32 /\ 0 <= do_expected_size o < 2 ^ 64.

Definition encoder_opts_fit (o : zu_encoder_opts) : Prop :=
  0 <= eo_struct_size o < 2 ^ 32 /\ 0 <= eo_codec o < 2 ^ 32 /\
  INT32_MIN <= eo_level o < 2 ^ 31 /\ 0 <= eo_flags o < 2 ^ 32.

Lemma le_value_le_bytes_small n z :
  0 <= z < 256 ^ Z.of_nat n -> le_value (le_bytes n z) = z.
Proof. intros. rewrite le_value_bytes. by apply Z.mod_small. Qed.

(** Reading back what the caller stored. *)
Lemma decoder_opts_roundtrip o :
  decoder_opts_fit o -> decoder_opts_of (decoder_opts_bytes o) = o.
Proof.
  intros (H1 & H2 & H3 & H4 & H5 & H6). destruct o as [a b c d e f]. simpl in *.
  change (decoder_opts_of (decoder_opts_bytes (mk_decoder_opts a b c d e f))) with
    (mk_decoder_opts (le_value (le_bytes 4 a)) (le_value (le_bytes 4 b))
      (le_value (le_bytes 8 c)) (le_value (le_bytes 4 d)) (le_value (le_bytes 4 e))
      (le_value (le_bytes 8 f))).
  by rewrite !le_value_le_bytes_small by (simpl; lia).
Qed.

Lemma encoder_opts_roundtrip o :
  encoder_opts_fit o -> encoder_opts_of (encoder_opts_bytes o) = o.
Proof.
  intros (H1 & H2 & H3 & H4). destruct o as [a b c d]. simpl in *.
  change (encoder_opts_of (encoder_opts_bytes (mk_encoder_opts a b c d))) with
    (mk_encoder_opts (le_value (le_bytes 4 a)) (le_value (le_bytes 4 b))
      (s32 (le_value (le_bytes 4 c))) (le_value (le_bytes 4 d))).
  rewrite (le_value_bytes 4 c), !le_value_le_bytes_small by (simpl; lia).
  f_equal. change (256 ^ Z.of_nat 4) with (2 ^ 32). unfold s32, u32.
  rewrite Z.mod_mod by lia. by apply s32_small.
Qed.

(** Decide comparisons of two known statuses. *)
Ltac status_simpl :=
  repeat match goal with
  | |- context [status_eqb ?a ?b] =>
      let r := eval vm_compute in (status_eqb a b) in
      lazymatch r with
      | true => change (status_eqb a b) with true
      | false => change (status_eqb a b) with false
      end
  end; cbn [is_progress andb orb negb].

(** ** The input window, byte by byte *)

Lemma zlen_src_sub b n :
  buffer_ok b -> 0 <= n <= avail_in b -> zlen (sub (src_bytes b) (src_pos b) n) = n.
Proof.
  unfold avail_in, src_bytes. intros [? ? ? ? Hs ?] Hn. destruct (src b); simpl in *.
  - apply zlen_sub; lia.
  - unfold sub. rewrite drop_nil, take_nil. change (zlen (@nil Z)) with 0. lia.
Qed.

Lemma src_window_consume b n :
  buffer_ok b -> 0 <= n <= avail_in b ->
  src_window b = sub (src_bytes b) (src_pos b) n ++ src_window (buf_consume b n).
Proof.
  intros Hb Hn. unfold src_window, avail_in in *. cbn [src src_bytes src_size src_pos buf_consume].
  replace (src_size b - src_pos b) with (n + (src_size b - (src_pos b + n))) at 1 by lia.
  destruct Hb. rewrite sub_split by lia. done.
Qed.

Lemma src_window_byte b :
  buffer_ok b -> 0 < avail_in b -> src_window b = src_at b 0 :: src_window (buf_consume b 1).
Proof.
  intros Hb Ha. rewrite (src_window_consume b 1) by (done || lia).
  unfold src_at, src_bytes, avail_in in *. rewrite Z.add_0_r.
  destruct (src_some b Hb Ha) as [m Em]. destruct Hb as [? ? ? ? Hs ?]. rewrite Em in *.
  cbn [object_covers from_option id] in *. by rewrite sub_1 by lia.
Qed.

Lemma src_window_nil b : buffer_ok b -> avail_in b = 0 <-> src_window b = [].
Proof.
  intros Hb. pose proof (zlen_src_window b Hb) as H. split.
  - intros E. rewrite E in H. destruct (src_window b); [done|]. rewrite zlen_cons in H.
    pose proof (zlen_nonneg l). lia.
  - intros E. by rewrite E in H.
Qed.
