(* ===== verification/ProcessLoop.v ===== *)
(** * The [for (;;)] of a codec's process function

    Every codec's [*_process] is a loop whose rounds either return a status or go round
    again.  [process_loop] runs such rounds with fuel; the lemmas here give the loop's
    termination from a measure and its properties from an invariant of the rounds.
    [moved] is what a round did to the caller's buffer: which bytes it took and which it
    wrote.  [codec_run] is a history of calls on one codec state. *)
From S2P Require Import Prelude Types.

(** ** The loop *)
Section loop.
Context {S : Type}.

(** One round: [Some st] is [return st;], [None] is [continue;]. *)
Context (step : S -> zu_buffer -> zu_flush -> option zu_status * S * zu_buffer).

Fixpoint process_loop (fuel : nat) (s : S) (buf : zu_buffer) (flush : zu_flush) :
    option (zu_status * S * zu_buffer) :=
  match fuel with
  | O => None
  | Datatypes.S fuel' =>
      match step s buf flush with
      | (Some st, s', buf') => Some (st, s', buf')
      | (None, s', buf') => process_loop fuel' s' buf' flush
      end
  end.

(** The process function: [fuel] is a bound on the rounds. *)
Definition run_process (fuel : S -> zu_buffer -> nat) (s : S) (buf : zu_buffer)
    (flush : zu_flush) : zu_status * S * zu_buffer :=
  default (ZU_ERR_INTERNAL, s, buf) (process_loop (fuel s buf) s buf flush).

(** A round preserves [I] and lowers [mu] when it goes round, and ends in [Q]. *)
Definition round_ok (I : S -> zu_buffer -> Prop) (Q : zu_status -> S -> zu_buffer -> Prop)
    (mu : S -> zu_buffer -> Z) (flush : zu_flush) : Prop :=
  forall s b, I s b ->
    match step s b flush with
    | (Some st, s', b') => Q st s' b'
    | (None, s', b') => I s' b' /\ 0 <= mu s' b' < mu s b
    end.

Lemma process_loop_run I Q mu flush :
  round_ok I Q mu flush ->
  forall fuel s b, I s b -> (Z.to_nat (mu s b) < fuel)%nat ->
  exists st s' b', process_loop fuel s b flush = Some (st, s', b') /\ Q st s' b'.
Proof.
  intros Hr. induction fuel as [|fuel IH]; intros s b HI Hf; [lia|]. cbn [process_loop].
  specialize (Hr s b HI). destruct (step s b flush) as [[[st|] s'] b']; [eauto|].
  destruct Hr as [HI' Hmu]. apply IH; [done|]. lia.
Qed.

(** The same without the measure, for a loop already known to end. *)
Lemma process_loop_inv (I : S -> zu_buffer -> Prop) (Q : zu_status -> S -> zu_buffer -> Prop)
    flush :
  (forall s b, I s b ->
    match step s b flush with
    | (Some st, s', b') => Q st s' b'
    | (None, s', b') => I s' b'
    end) ->
  forall fuel s b r, I s b -> process_loop fuel s b flush = Some r ->
  Q (r.1.1) (r.1.2) (r.2).
Proof.
  intros Hr. induction fuel as [|fuel IH]; intros s b r HI E; [done|]. cbn [process_loop] in E.
  specialize (Hr s b HI). destruct (step s b flush) as [[[st|] s'] b'].
  - injection E as <-. exact Hr.
  - exact (IH s' b' r Hr E).
Qed.

(** Fuel beyond what the loop needs changes nothing. *)
Lemma process_loop_more fuel : forall fuel' s b flush r,
  process_loop fuel s b flush = Some r -> (fuel <= fuel')%nat ->
  process_loop fuel' s b flush = Some r.
Proof.
  induction fuel as [|fuel IH]; intros fuel' s b flush r E Hle; [done|].
  destruct fuel' as [|fuel']; [lia|]. cbn [process_loop] in *.
  destruct (step s b flush) as [[[st|] s'] b']; [done|]. apply IH; [done|lia].
Qed.

End loop.

(** A field no round changes is not changed by the loop. *)
Lemma run_process_field {S A} (field : S -> A) step fuel (s : S) b f :
  (forall s b, field (step s b f).1.2 = field s) ->
  field (run_process step fuel s b f).1.2 = field s.
Proof.
  intros Hstep. unfold run_process. generalize (fuel s b) as n. intros n.
  assert (H : forall n s b, field (default (ZU_ERR_INTERNAL, s, b) (process_loop step n s b f)).1.2 = field s \/
    process_loop step n s b f = None).
  { clear n s b. induction n as [|n IH]; intros s b; [by right|]. cbn [process_loop].
    pose proof (Hstep s b) as Hs. destruct (step s b f) as [ [ [st|] s'] b']; cbn [fst snd] in Hs.
    - by left.
    - destruct (IH s' b') as [E|E]; [left|by right].
      destruct (process_loop step n s' b' f) as [ [ [? ?] ?] |]; cbn in *; congruence. }
  destruct (H n s b) as [E|E]; [done|by rewrite E].
Qed.

(** ** What a round moves *)

Record moved (b b' : zu_buffer) (taken given : bytes) : Prop := {
  mv_step : buffer_step b b';
  mv_taken : src_window b = taken ++ src_window b';
  mv_given : dst_written b' = dst_written b ++ given;
}.

Lemma moved_refl b : buffer_ok b -> moved b b [] [].
Proof. intros. constructor; [by apply buffer_step_refl|done|by rewrite app_nil_r]. Qed.

Lemma moved_trans b1 b2 b3 i1 i2 o1 o2 :
  moved b1 b2 i1 o1 -> moved b2 b3 i2 o2 -> moved b1 b3 (i1 ++ i2) (o1 ++ o2).
Proof.
  intros [s1 t1 g1] [s2 t2 g2]. constructor.
  - by eapply buffer_step_trans.
  - by rewrite t1, t2, app_assoc.
  - by rewrite g2, g1, app_assoc.
Qed.

Lemma moved_ok b b' i o : buffer_ok b -> moved b b' i o -> buffer_ok b'.
Proof. intros Hb [Hs _ _]. by eapply buffer_step_ok. Qed.

Lemma dst_written_consume b n : dst_written (buf_consume b n) = dst_written b.
Proof. done. Qed.

Lemma moved_consume b n :
  buffer_ok b -> 0 <= n <= avail_in b ->
  moved b (buf_consume b n) (sub (src_bytes b) (src_pos b) n) [].
Proof.
  intros Hb Hn. constructor.
  - by apply buf_consume_step.
  - by apply src_window_consume.
  - by rewrite app_nil_r.
Qed.

Lemma moved_consume_1 b :
  buffer_ok b -> 0 < avail_in b -> moved b (buf_consume b 1) [src_at b 0] [].
Proof.
  intros Hb Hn. constructor.
  - apply buf_consume_step; [done|lia].
  - by apply src_window_byte.
  - by rewrite app_nil_r.
Qed.

Lemma moved_emit b bs :
  buffer_ok b -> zlen bs <= avail_out b -> moved b (buf_emit b bs) [] bs.
Proof.
  intros Hb Hn. constructor.
  - by apply buf_emit_step.
  - done.
  - by apply dst_written_emit.
Qed.

Lemma moved_through b n bs :
  buffer_ok b -> 0 <= n <= avail_in b -> zlen bs <= avail_out b ->
  moved b (buf_emit (buf_consume b n) bs) (sub (src_bytes b) (src_pos b) n) bs.
Proof.
  intros Hb Hn Ho. pose proof (moved_consume b n Hb Hn) as Hc.
  rewrite <- (app_nil_r (sub _ _ n)). change bs with ([] ++ bs) at 2.
  eapply moved_trans; [exact Hc|]. apply moved_emit; [|done]. by eapply moved_ok.
Qed.

(** What was moved is determined by the buffers. *)
Lemma moved_unique b b' i o i' o' : moved b b' i o -> moved b b' i' o' -> i' = i /\ o' = o.
Proof.
  intros [_ Ht Hg] [_ Ht' Hg']. split.
  - rewrite Ht in Ht'. symmetry. by eapply app_inv_tail.
  - rewrite Hg in Hg'. symmetry. by eapply app_inv_head.
Qed.

(** The counts that go with it. *)
Lemma moved_counts b b' i o :
  buffer_ok b -> moved b b' i o ->
  avail_in b = zlen i + avail_in b' /\ avail_out b = zlen o + avail_out b'.
Proof.
  intros Hb [Hs Ht Hg]. pose proof (buffer_step_ok b b' Hb Hs) as Hb'. split.
  - rewrite <- !zlen_src_window by done. by rewrite Ht, zlen_app.
  - apply (f_equal zlen) in Hg. rewrite zlen_app in Hg. revert Hg.
    unfold dst_written, avail_out. destruct Hb as [? ? ? ? ? Hd], Hb' as [? ? ? ? ? Hd'].
    destruct Hs as [? ? Hsz ? Hdp Hc]. rewrite Hsz in *.
    destruct (dst b) as [m|], (dst b') as [m'|]; cbn in Hc, Hd, Hd'; try done; cbn.
    + rewrite !zlen_sub by lia. lia.
    + unfold sub. rewrite !drop_nil, !take_nil, zlen_nil. lia.
Qed.

(** A step of the cursor contract moved some bytes. *)
Lemma changed_within_prefix lo hi p q n :
  0 <= n <= lo -> changed_within lo hi p q -> sub (default [] p) 0 n = sub (default [] q) 0 n.
Proof.
  intros Hn. destruct p as [m|], q as [m'|]; cbn; try done. intros [Hl Hsame].
  unfold sub. rewrite !drop_0. apply list_eq. intros i.
  destruct (Nat.lt_ge_cases i (Z.to_nat n)).
  - rewrite !lookup_take_lt by done. apply Hsame. lia.
  - by rewrite !lookup_take_ge by done.
Qed.

Lemma step_moved b b' : buffer_ok b -> buffer_step b b' -> exists i o, moved b b' i o.
Proof.
  intros Hb Hs. pose proof Hs as [E1 E2 E3 Hsp Hdp Hc]. destruct Hb.
  exists (sub (src_bytes b) (src_pos b) (src_pos b' - src_pos b)),
    (sub (default [] (dst b')) (dst_pos b) (dst_pos b' - dst_pos b)).
  constructor; [done| |].
  - unfold src_window, avail_in, src_bytes. rewrite E1, E2.
    replace (src_size b - src_pos b) with
      ((src_pos b' - src_pos b) + (src_size b - src_pos b')) by lia.
    rewrite sub_split by lia. do 2 f_equal. lia.
  - unfold dst_written. replace (dst_pos b') with (dst_pos b + (dst_pos b' - dst_pos b)) at 1 by lia.
    rewrite sub_split by lia. rewrite Z.add_0_l. f_equal. symmetry.
    eapply changed_within_prefix; [|done]. lia.
Qed.

(** Rounds that honour the cursor contract make a process function that does. *)
Lemma run_process_contract {S : Type}
    (step : S -> zu_buffer -> zu_flush -> option zu_status * S * zu_buffer) fuel :
  (forall s b f, buffer_ok b -> buffer_step b (step s b f).2) ->
  CursorContract (run_process step fuel).
Proof.
  intros Hstep s b f st s' b' Hb E. unfold run_process in E.
  destruct (process_loop step (fuel s b) s b f) as [r|] eqn:El; cbn in E.
  2:{ injection E as <- <- <-. by apply buffer_step_refl. }
  subst r. pose proof (process_loop_inv step (fun _ b1 => buffer_step b b1)
    (fun _ _ b1 => buffer_step b b1) f) as H. cbn beta in H.
  apply H in El; [exact El| |by apply buffer_step_refl]. clear El.
  intros s1 b1 H1. pose proof (Hstep s1 b1 f ltac:(by eapply buffer_step_ok)) as H2.
  destruct (step s1 b1 f) as [ [ [] ?] ?]; by eapply buffer_step_trans.
Qed.

(** ** A history of calls

    [codec_run process s0 s taken given]: from [s0], calls that each asked for more
    took [taken] and wrote [given], leaving [s]. *)
Section history.
Context {S : Type} (process : S -> zu_buffer -> zu_flush -> zu_status * S * zu_buffer).

Inductive codec_run (s0 : S) : S -> bytes -> bytes -> Prop :=
  | run_start : codec_run s0 s0 [] []
  | run_call s taken given b f st s' b' i o :
      codec_run s0 s taken given ->
      buffer_ok b -> bytes_ok (src_bytes b) ->
      process s b f = (st, s', b') -> is_progress st = true ->
      moved b b' i o ->
      codec_run s0 s' (taken ++ i) (given ++ o).

(** An invariant of the calls, as a relation between the state and what was moved. *)
Lemma codec_run_inv (I : S -> bytes -> bytes -> Prop) s0 :
  I s0 [] [] ->
  (forall s taken given b f st s' b' i o,
     I s taken given -> buffer_ok b -> bytes_ok (src_bytes b) ->
     process s b f = (st, s', b') -> is_progress st = true ->
     moved b b' i o -> I s' (taken ++ i) (given ++ o)) ->
  forall s taken given, codec_run s0 s taken given -> I s taken given.
Proof. intros H0 Hc s taken given. induction 1; eauto. Qed.

(** The same for a client with the whole input [x], which says ZU_FINISH once the rest of it
    is in the window, and sticks to it; [fin] is whether it has. *)
Inductive ordered_run (x : bytes) (s0 : S) : bool -> S -> bytes -> bytes -> Prop :=
  | ordered_start : ordered_run x s0 false s0 [] []
  | ordered_call fin s taken given b f st s' b' i o :
      ordered_run x s0 fin s taken given ->
      buffer_ok b -> bytes_ok (src_bytes b) ->
      (fin = true -> f = ZU_FINISH) -> (f = ZU_FINISH -> taken ++ src_window b = x) ->
      process s b f = (st, s', b') -> is_progress st = true ->
      moved b b' i o ->
      ordered_run x s0 (is_finish f) s' (taken ++ i) (given ++ o).

Lemma ordered_codec_run x s0 fin s taken given :
  ordered_run x s0 fin s taken given -> codec_run s0 s taken given.
Proof. induction 1; [constructor|by eapply run_call]. Qed.

Lemma ordered_run_inv (I : bool -> S -> bytes -> bytes -> Prop) x s0 :
  I false s0 [] [] ->
  (forall fin s taken given b f st s' b' i o,
     I fin s taken given -> buffer_ok b -> bytes_ok (src_bytes b) ->
     (fin = true -> f = ZU_FINISH) -> (f = ZU_FINISH -> taken ++ src_window b = x) ->
     process s b f = (st, s', b') -> is_progress st = true ->
     moved b b' i o -> I (is_finish f) s' (taken ++ i) (given ++ o)) ->
  forall fin s taken given, ordered_run x s0 fin s taken given -> I fin s taken given.
Proof. intros H0 Hc fin s taken given. induction 1; eauto. Qed.

(** An answer is honest: more input is asked for when there is none left, more room when
    there is none left, and a status is one the header names. *)
Definition honest (st : zu_status) (b' : zu_buffer) : Prop :=
  match st with
  | ZU_OK | ZU_STATUS_OTHER _ => False
  | ZU_NEED_INPUT => avail_in b' = 0
  | ZU_NEED_OUTPUT => avail_out b' = 0
  | _ => True
  end.

Definition honest_at (s : S) : Prop :=
  forall b f st s' b', buffer_ok b -> process s b f = (st, s', b') -> honest st b'.

Class HonestRuns (s0 : S) : Prop :=
  honest_run : forall s taken given, codec_run s0 s taken given -> honest_at s.

(** A call that asks for another one moved a cursor, or lacks what it asks for. *)
Lemma honest_moves `{Hcc : !CursorContract process} s b f st s' b' :
  honest_at s -> buffer_ok b -> process s b f = (st, s', b') -> is_progress st = true ->
  src_pos b < src_pos b' \/ dst_pos b < dst_pos b' \/
  (st = ZU_NEED_INPUT /\ avail_in b = 0) \/ (st = ZU_NEED_OUTPUT /\ avail_out b = 0).
Proof.
  intros Hs Hb E Hst. pose proof (Hs _ _ _ _ _ Hb E) as Hh.
  pose proof (Hcc _ _ _ _ _ _ Hb E) as [_ Hss Hds Hsp Hdp _].
  unfold honest, avail_in, avail_out in *. destruct st; try done; rewrite ?Hss, ?Hds in Hh.
  - destruct (Z.eq_dec (src_pos b) (src_pos b')); [right; right; left; split; [done|lia]|left; lia].
  - destruct (Z.eq_dec (dst_pos b) (dst_pos b')); [do 3 right; split; [done|lia]|right; left; lia].
Qed.

End history.

(** An error: one the header names. *)
Definition failed (st : zu_status) : Prop :=
  match st with
  | ZU_OK | ZU_NEED_INPUT | ZU_NEED_OUTPUT | ZU_STREAM_END | ZU_STATUS_OTHER _ => False
  | _ => True
  end.

Lemma failed_not_ok st : failed st -> st <> ZU_OK.
Proof. by intros H ->. Qed.

Lemma failed_honest st b : failed st -> honest st b.
Proof. by destruct st. Qed.

Lemma progress_not_failed st : is_progress st = true -> ~ failed st.
Proof. intros H Hf. by destruct st. Qed.

Lemma failed_no_progress st : failed st -> is_progress st || status_eqb st ZU_STREAM_END = false.
Proof. by destruct st. Qed.

#[export] Hint Resolve moved_refl moved_consume moved_consume_1 moved_emit moved_through
  moved_ok mv_step : zu.
