(* ===== verification/SizeArith.v ===== *)
(** * Checked size arithmetic: src/zu_buf.c

    [zu_int_add], [zu_int_mul] and [zu_int_grow] over 64-bit [size_t].  [out] says
    whether the caller's out-pointer is non-NULL. *)
From S2P Require Import Prelude Types.

(** [ZU_INT_MIN_BUFFER], src/zu_internal.h *)
Definition ZU_INT_MIN_BUFFER : Z := 4096.

Definition zu_int_add (a b : Z) (out : outp) : result Z :=
  if negb out then Err ZU_ERR_INVALID_ARGUMENT
  else if b >? SIZE_MAX - a then Err ZU_ERR_MEMORY
  else Ok (u64 (a + b)).

Definition zu_int_mul (a b : Z) (out : outp) : result Z :=
  if negb out then Err ZU_ERR_INVALID_ARGUMENT
  else if negb (a =? 0) && (b >? SIZE_MAX / a) then Err ZU_ERR_MEMORY
  else Ok (u64 (a * b)).

Definition zu_int_grow (current needed : Z) (out : outp) : result Z :=
  if negb out then Err ZU_ERR_INVALID_ARGUMENT
  else
    required ← zu_int_add current needed true;
    let doubled :=
      match zu_int_mul current 2 true with
      | Ok d => d
      | Err _ => required
      end in
    let next := if doubled >? required then doubled else required in
    let next := if next <? ZU_INT_MIN_BUFFER then ZU_INT_MIN_BUFFER else next in
    Ok next.

(** A value of type [size_t]. *)
Definition is_size (n : Z) : Prop := 0 <= n <= SIZE_MAX.

(** ** Lemmas the components share *)

Lemma zu_int_add_ok a b :
  is_size a -> is_size b -> a + b <= SIZE_MAX -> zu_int_add a b true = Ok (a + b).
Proof.
  unfold is_size, SIZE_MAX, zu_int_add, SIZE_MAX. intros. simpl.
  rewrite Z.gtb_ltb. destruct (Z.ltb_spec (2 ^ 64 - 1 - a) b); [lia|].
  f_equal. apply u64_small. lia.
Qed.

Lemma zu_int_add_overflow a b :
  SIZE_MAX < a + b -> zu_int_add a b true = Err ZU_ERR_MEMORY.
Proof.
  unfold zu_int_add. intros. simpl.
  rewrite Z.gtb_ltb. by destruct (Z.ltb_spec (SIZE_MAX - a) b); [|lia].
Qed.

Lemma zu_int_add_inv a b r :
  is_size a -> is_size b -> zu_int_add a b true = Ok r -> r = a + b /\ is_size r.
Proof.
  intros Ha Hb. destruct (Z.le_gt_cases (a + b) SIZE_MAX).
  - rewrite zu_int_add_ok by done. intros [= <-]. unfold is_size in *. lia.
  - by rewrite zu_int_add_overflow by lia.
Qed.

Lemma zu_int_mul_ok a b :
  is_size a -> is_size b -> a * b <= SIZE_MAX -> zu_int_mul a b true = Ok (a * b).
Proof.
  unfold is_size, zu_int_mul, SIZE_MAX. intros Ha Hb Hab. simpl negb.
  destruct (Z.eqb_spec a 0) as [->|Hne]; simpl.
  - rewrite u64_small; [done|lia].
  - rewrite Z.gtb_ltb. destruct (Z.ltb_spec ((2 ^ 64 - 1) / a) b) as [Hlt|Hge].
    + exfalso. assert (a * b > 2 ^ 64 - 1); [|lia].
      pose proof (Z.mul_succ_div_gt (2 ^ 64 - 1) a ltac:(lia)). nia.
    + f_equal. apply u64_small. nia.
Qed.

Lemma zu_int_mul_overflow a b :
  is_size a -> is_size b -> SIZE_MAX < a * b -> zu_int_mul a b true = Err ZU_ERR_MEMORY.
Proof.
  unfold is_size, zu_int_mul, SIZE_MAX. intros Ha Hb Hab. simpl negb.
  destruct (Z.eqb_spec a 0) as [->|Hne]; [lia|]. simpl.
  rewrite Z.gtb_ltb. destruct (Z.ltb_spec ((2 ^ 64 - 1) / a) b) as [Hlt|Hge]; [done|].
  exfalso. pose proof (Z.mul_div_le (2 ^ 64 - 1) a ltac:(lia)). nia.
Qed.

Lemma zu_int_grow_cases current needed :
  is_size current -> is_size needed ->
  (current + needed <= SIZE_MAX /\
   zu_int_grow current needed true =
     Ok (Z.max ZU_INT_MIN_BUFFER
           (if 2 * current <=? SIZE_MAX then Z.max (2 * current) (current + needed)
            else current + needed))) \/
  (SIZE_MAX < current + needed /\ zu_int_grow current needed true = Err ZU_ERR_MEMORY).
Proof.
  intros Hc Hn. unfold zu_int_grow. simpl negb. cbn iota.
  destruct (Z.le_gt_cases (current + needed) SIZE_MAX) as [Hle|Hgt].
  - left. split; [done|]. rewrite zu_int_add_ok by done. cbn [mbind result_bind].
    destruct (Z.leb_spec (2 * current) SIZE_MAX).
    + rewrite zu_int_mul_ok by (unfold is_size, SIZE_MAX in *; lia).
      rewrite Z.gtb_ltb. do 2 f_equal.
      destruct (Z.ltb_spec (current + needed) (current * 2)), (Z.ltb_spec (current * 2) ZU_INT_MIN_BUFFER), (Z.ltb_spec (current + needed) ZU_INT_MIN_BUFFER); lia.
    + rewrite zu_int_mul_overflow by (unfold is_size, SIZE_MAX in *; lia).
      rewrite Z.gtb_ltb. do 2 f_equal.
      destruct (Z.ltb_spec (current + needed) (current + needed)), (Z.ltb_spec (current + needed) ZU_INT_MIN_BUFFER); lia.
  - right. split; [done|]. by rewrite zu_int_add_overflow by lia.
Qed.

(** ** Properties *)

(** [zu_int_grow] never hands back a wrapped size.  For every pair of [size_t]
    arguments it either returns a capacity that is itself a [size_t], is at least
    [current + needed], at least the minimum buffer and at least double [current]
    whenever doubling is representable, or it reports [ZU_ERR_MEMORY], and it does
    so exactly when [current + needed] is not representable. *)
Theorem zu_int_grow_sound (current needed : Z)
    (Hc : is_size current) (Hn : is_size needed) :
  match zu_int_grow current needed true with
  | Ok next =>
      is_size next /\ current + needed <= next /\ ZU_INT_MIN_BUFFER <= next /\
      (2 * current <= SIZE_MAX -> 2 * current <= next) /\
      next <= Z.max ZU_INT_MIN_BUFFER (Z.max (2 * current) (current + needed))
  | Err st => st = ZU_ERR_MEMORY /\ SIZE_MAX < current + needed
  end.
Proof.
  destruct (zu_int_grow_cases current needed Hc Hn) as [[Hle ->]|[Hgt ->]]; [|done].
  unfold is_size, SIZE_MAX, ZU_INT_MIN_BUFFER in *.
  destruct (Z.leb_spec (2 * current) (2 ^ 64 - 1)); lia.
Qed.

Lemma zu_int_grow_sound_witness :
  is_size 5000 /\ is_size 10 /\
  match zu_int_grow 5000 10 true with
  | Ok next =>
      is_size next /\ 5000 + 10 <= next /\ ZU_INT_MIN_BUFFER <= next /\
      (2 * 5000 <= SIZE_MAX -> 2 * 5000 <= next) /\
      next <= Z.max ZU_INT_MIN_BUFFER (Z.max (2 * 5000) (5000 + 10))
  | Err st => st = ZU_ERR_MEMORY /\ SIZE_MAX < 5000 + 10
  end.
Proof.
  assert (H : is_size 5000 /\ is_size 10) by (unfold is_size, SIZE_MAX; lia).
  split; [apply H|]. split; [apply H|].
  exact (zu_int_grow_sound 5000 10 (proj1 H) (proj2 H)).
Defined.

(** The checked addition and multiplication are exact.  On [size_t] arguments
    they return the mathematical sum or product when it is representable and
    [ZU_ERR_MEMORY] otherwise, so no caller ever sees a wrapped value; with a NULL
    out-pointer they report [ZU_ERR_INVALID_ARGUMENT]. *)
Theorem zu_int_add_mul_exact (a b : Z) (Ha : is_size a) (Hb : is_size b) :
  zu_int_add a b true =
    (if a + b <=? SIZE_MAX then Ok (a + b) else Err ZU_ERR_MEMORY) /\
  zu_int_mul a b true =
    (if a * b <=? SIZE_MAX then Ok (a * b) else Err ZU_ERR_MEMORY) /\
  zu_int_add a b false = Err ZU_ERR_INVALID_ARGUMENT /\
  zu_int_mul a b false = Err ZU_ERR_INVALID_ARGUMENT.
Proof.
  repeat split.
  - destruct (Z.leb_spec (a + b) SIZE_MAX).
    + by apply zu_int_add_ok.
    + by apply zu_int_add_overflow.
  - destruct (Z.leb_spec (a * b) SIZE_MAX).
    + by apply zu_int_mul_ok.
    + by apply zu_int_mul_overflow.
Qed.

Lemma zu_int_add_mul_exact_witness :
  zu_int_add SIZE_MAX 1 true = Err ZU_ERR_MEMORY /\
  zu_int_mul SIZE_MAX 2 true = Err ZU_ERR_MEMORY.
Proof.
  assert (H : is_size SIZE_MAX /\ is_size 1 /\ is_size 2)
    by (unfold is_size, SIZE_MAX; lia).
  split.
  - exact (proj1 (zu_int_add_mul_exact SIZE_MAX 1 (proj1 H) (proj1 (proj2 H)))).
  - exact (proj1 (proj2 (zu_int_add_mul_exact SIZE_MAX 2 (proj1 H) (proj2 (proj2 H))))).
Defined.
