(* ===== verification/Registry.v ===== *)
(** * The codec registry: src/zu_registry.c

    The declared-name table, registration with its identity invariants, the
    lookups by identity, name and content-coding token, the capability projection
    and magic-byte detection.  The registry is a value: the array of vtables in
    registration order and the mutation counter. *)
From S2P Require Import Prelude Types SizeArith.

(** ** Declared names *)

Record zu_int_codec_decl := mk_decl {
  cd_codec : zu_codec;
  cd_name : string;
  cd_content_encoding : option string;
}.

Definition zu_int_declared : list zu_int_codec_decl := [
  mk_decl ZU_CODEC_IDENTITY "identity" (Some "identity");
  mk_decl ZU_CODEC_DEFLATE_RAW "deflate-raw" None;
  mk_decl ZU_CODEC_ZLIB "zlib" (Some "deflate");
  mk_decl ZU_CODEC_GZIP "gzip" (Some "gzip");
  mk_decl ZU_CODEC_BROTLI "brotli" (Some "br");
  mk_decl ZU_CODEC_ZSTD "zstd" (Some "zstd");
  mk_decl ZU_CODEC_LZ4_FRAME "lz4-frame" None;
  mk_decl ZU_CODEC_LZ4_BLOCK "lz4-block" None;
  mk_decl ZU_CODEC_SNAPPY_FRAME "snappy-frame" None;
  mk_decl ZU_CODEC_SNAPPY_RAW "snappy-raw" None
]%string.
Arguments zu_int_declared : simpl never.

Definition zu_int_declared_count : Z := zlen zu_int_declared.

Definition zu_int_declared_at (i : Z) : option zu_int_codec_decl :=
  if i <? zu_int_declared_count then zu_int_declared !! Z.to_nat i else None.

Definition zu_int_declared_for (codec : zu_codec) : option zu_int_codec_decl :=
  List.find (fun d => cd_codec d =? codec) zu_int_declared.

(** ** The registry *)

Definition ZU_INT_REGISTRY_CAP : Z := 32.

Record registry := mk_registry {
  reg_vtables : list zu_codec_vtable;
  reg_gen : Z;
}.

Definition empty_registry : registry := mk_registry [] 0.

Definition zu_int_registry_count (reg : registry) : Z := zlen (reg_vtables reg).

Definition zu_int_registry_at (reg : registry) (i : Z) : option zu_codec_vtable :=
  if i <? zu_int_registry_count reg then nth_error (reg_vtables reg) (Z.to_nat i)
  else None.

Definition zu_int_registry_generation (reg : registry) : Z := reg_gen reg.

Definition zu_int_registry_lookup (reg : registry) (codec : zu_codec) :
    option zu_codec_vtable :=
  if codec =? ZU_CODEC_NONE then None
  else List.find (fun v => vt_codec v =? codec) (reg_vtables reg).

(** ASCII lower case of one [unsigned char]. *)
Definition ascii_lower (c : Z) : Z :=
  if (65 <=? c) && (c <=? 90) then c - 65 + 97 else c.

Definition char_code (c : Ascii.ascii) : Z := Z.of_N (Ascii.N_of_ascii c).

(** [*p] and [p + 1] for a C string: past its end a string reads as NUL. *)
Definition str_head (s : string) : Z :=
  match s with
  | String.EmptyString => 0
  | String.String c _ => char_code c
  end.
Definition str_tail (s : string) : string :=
  match s with
  | String.EmptyString => String.EmptyString
  | String.String _ s' => s'
  end.

Fixpoint zu_int_ieq (a b : string) {struct a} : bool :=
  let ca := ascii_lower (str_head a) in
  let cb := ascii_lower (str_head b) in
  if negb (ca =? cb) then false
  else if ca =? 0 then true
  else
    match a with
    | String.EmptyString => true
    | String.String _ a' => zu_int_ieq a' (str_tail b)
    end.

(** Two content-coding tokens that are both set and equal up to case. *)
Definition tokens_clash (a b : option string) : bool :=
  match a, b with
  | Some x, Some y => zu_int_ieq x y
  | _, _ => false
  end.

(** [strcmp(p, q) == 0] on names the NULL check has let through. *)
Definition same_name (a b : option string) : bool :=
  match a, b with
  | Some x, Some y => String.eqb x y
  | _, _ => false
  end.

Definition is_null {A} (p : option A) : bool :=
  match p with
  | None => true
  | Some _ => false
  end.

(** The body of the loop over the declared table. *)
Definition conflicts_declared (v : zu_codec_vtable) (d : zu_int_codec_decl) : bool :=
  (same_name (Some (cd_name d)) (vt_name v) && negb (cd_codec d =? vt_codec v)) ||
  (tokens_clash (cd_content_encoding d) (vt_content_encoding v) &&
   negb (cd_codec d =? vt_codec v)).

(** The body of the loop over the registered codecs. *)
Definition conflicts_registered (v w : zu_codec_vtable) : bool :=
  same_name (vt_name w) (vt_name v) ||
  tokens_clash (vt_content_encoding w) (vt_content_encoding v).

Definition lacks_encoder (v : zu_codec_vtable) : bool :=
  has_flag (vt_flags v) ZU_CAN_ENCODE &&
  (is_null (vt_encoder_new v) || is_null (vt_encoder_process v) ||
   negb (vt_encoder_free v)).

Definition lacks_decoder (v : zu_codec_vtable) : bool :=
  has_flag (vt_flags v) ZU_CAN_DECODE &&
  (is_null (vt_decoder_new v) || is_null (vt_decoder_process v) ||
   negb (vt_decoder_free v)).

(** The declared identity carries its declared name; an undeclared identity is in
    the vendor range. *)
Definition bad_identity (v : zu_codec_vtable) : bool :=
  match zu_int_declared_for (vt_codec v) with
  | Some d => negb (same_name (vt_name v) (Some (cd_name d)))
  | None => vt_codec v <? ZU_CODEC_VENDOR_BASE
  end.

Definition zu_register_codec (reg : registry) (vtable : option zu_codec_vtable) :
    zu_status * registry :=
  match vtable with
  | None => (ZU_ERR_INVALID_ARGUMENT, reg)
  | Some v =>
      if is_null (vt_name v) || is_null (vt_source v) then (ZU_ERR_INVALID_ARGUMENT, reg)
      else if vt_struct_size v <? ZU_VTABLE_REQUIRED_SIZE then (ZU_ERR_INVALID_ARGUMENT, reg)
      else if vt_codec v =? ZU_CODEC_NONE then (ZU_ERR_INVALID_ARGUMENT, reg)
      else if lacks_encoder v then (ZU_ERR_INVALID_ARGUMENT, reg)
      else if lacks_decoder v then (ZU_ERR_INVALID_ARGUMENT, reg)
      else if negb (is_null (zu_int_registry_lookup reg (vt_codec v)))
      then (ZU_ERR_INVALID_ARGUMENT, reg)
      else if bad_identity v then (ZU_ERR_INVALID_ARGUMENT, reg)
      else if existsb (conflicts_declared v) zu_int_declared
      then (ZU_ERR_INVALID_ARGUMENT, reg)
      else if existsb (conflicts_registered v) (reg_vtables reg)
      then (ZU_ERR_INVALID_ARGUMENT, reg)
      else if zu_int_registry_count reg >=? ZU_INT_REGISTRY_CAP
      then (ZU_ERR_MEMORY, reg)
      else (ZU_OK, mk_registry (reg_vtables reg ++ [v]) (u64 (reg_gen reg + 1)))
  end.

(** ** Lookups *)

Definition zu_codec_lookup (reg : registry) (name : option string) : zu_codec :=
  match name with
  | None => ZU_CODEC_NONE
  | Some s =>
      match List.find (fun d => String.eqb (cd_name d) s) zu_int_declared with
      | Some d => cd_codec d
      | None =>
          match List.find (fun v => same_name (vt_name v) (Some s)) (reg_vtables reg) with
          | Some v => vt_codec v
          | None => ZU_CODEC_NONE
          end
      end
  end.

Definition zu_codec_from_content_encoding (reg : registry) (token : option string) :
    zu_codec :=
  match token with
  | None => ZU_CODEC_NONE
  | Some t =>
      match List.find (fun d => tokens_clash (cd_content_encoding d) (Some t))
              zu_int_declared with
      | Some d => cd_codec d
      | None =>
          match List.find (fun v => tokens_clash (vt_content_encoding v) (Some t))
                  (reg_vtables reg) with
          | Some v => vt_codec v
          | None => ZU_CODEC_NONE
          end
      end
  end.

Definition zu_codec_available (reg : registry) (codec : zu_codec) : bool :=
  negb (is_null (zu_int_registry_lookup reg codec)).

(** ** Capabilities *)

(** [offsetof(zu_codec_vtable, level_best) + sizeof(int32_t)]. *)
Definition vtable_levels_end : Z := 156 + 4.

Definition zu_int_vtable_level_fast (v : zu_codec_vtable) : Z :=
  if (vt_struct_size v <? vtable_levels_end) ||
     ((vt_level_fast v =? 0) && (vt_level_best v =? 0))
  then vt_level_default v
  else vt_level_fast v.

Definition zu_int_vtable_level_best (v : zu_codec_vtable) : Z :=
  if (vt_struct_size v <? vtable_levels_end) ||
     ((vt_level_fast v =? 0) && (vt_level_best v =? 0))
  then vt_level_default v
  else vt_level_best v.

(** [offsetof(zu_codec_info, detectable) + sizeof(int)] and
    [offsetof(zu_codec_info, level_best) + sizeof(int32_t)]. *)
Definition info_required_size : Z := 48 + 4.
Definition info_levels_end : Z := 56 + 4.

(** [v->magic != NULL || v->sniff != NULL]. *)
Definition vtable_detectable (v : zu_codec_vtable) : bool :=
  negb (is_null (vt_magic v)) || negb (is_null (vt_sniff v)).

Definition zu_codec_get_info (reg : registry) (codec : zu_codec)
    (out : option zu_codec_info) : zu_status * option zu_codec_info :=
  match out with
  | None => (ZU_ERR_INVALID_ARGUMENT, None)
  | Some o =>
      if ci_struct_size o <? info_required_size then (ZU_ERR_INVALID_ARGUMENT, Some o)
      else
        match zu_int_registry_lookup reg codec with
        | None => (ZU_ERR_UNSUPPORTED, Some o)
        | Some v =>
            let levels := ci_struct_size o >=? info_levels_end in
            (ZU_OK,
             Some (mk_info (ci_struct_size o) (vt_codec v) (vt_name v)
                     (vt_content_encoding v) (vt_source v) (vt_level_min v)
                     (vt_level_max v) (vt_level_default v) (vt_flags v)
                     (vtable_detectable v)
                     (if levels then zu_int_vtable_level_fast v else ci_level_fast o)
                     (if levels then zu_int_vtable_level_best v else ci_level_best o)))
        end
  end.

(** [out] is the caller's array ([None] for NULL), [n_out] whether that pointer is
    set; the answer holds the array afterwards and what was stored in [*n_out]. *)
Definition zu_codec_list (reg : registry) (out : option (list zu_codec)) (cap : Z)
    (n_out : outp) : zu_status * option (list zu_codec) * option Z :=
  if negb n_out then (ZU_ERR_INVALID_ARGUMENT, out, None)
  else
    let n := zu_int_registry_count reg in
    match out with
    | None => (ZU_OK, None, Some n)
    | Some a =>
        if cap <? n then (ZU_ERR_INVALID_ARGUMENT, out, Some n)
        else (ZU_OK, Some (memcpy_at a 0 (map vt_codec (reg_vtables reg))), Some n)
    end.

(** ** Detection *)

(** The three [continue]s of the first loop, negated. *)
Definition magic_matches (buf : option bytes) (n : Z) (v : zu_codec_vtable) : bool :=
  match vt_magic v with
  | None => false
  | Some magic =>
      if vt_magic_len v =? 0 then false
      else
        match zu_int_add (vt_magic_offset v) (vt_magic_len v) true with
        | Err _ => false
        | Ok last =>
            if n <? last then false
            else memeq (ptr_add (default [] buf) (vt_magic_offset v)) magic (vt_magic_len v)
        end
  end.

(** One round of the first loop over [(best_len, *out)]. *)
Definition sniff_magic_step (buf : option bytes) (n : Z) (acc : Z * zu_codec)
    (v : zu_codec_vtable) : Z * zu_codec :=
  if magic_matches buf n v && (vt_magic_len v >? fst acc)
  then (vt_magic_len v, vt_codec v)
  else acc.

Definition sniff_accepts (buf : option bytes) (n : Z) (v : zu_codec_vtable) : bool :=
  match vt_sniff v with
  | None => false
  | Some f => f buf n
  end.

(** The second component is what [*out] holds afterwards, when it was written. *)
Definition zu_sniff (reg : registry) (buf : option bytes) (n : Z) (out : outp) :
    zu_status * option zu_codec :=
  if negb out || (is_null buf && negb (n =? 0)) then (ZU_ERR_INVALID_ARGUMENT, None)
  else
    let '(_, found) :=
      fold_left (sniff_magic_step buf n) (reg_vtables reg) (0, ZU_CODEC_NONE) in
    if negb (found =? ZU_CODEC_NONE) then (ZU_OK, Some found)
    else
      match List.find (sniff_accepts buf n) (reg_vtables reg) with
      | Some v => (ZU_OK, Some (vt_codec v))
      | None => (ZU_ERR_UNSUPPORTED, Some ZU_CODEC_NONE)
      end.

(** ** Registering the built-in codecs *)
Fixpoint register_all (reg : registry) (builtin : list zu_codec_vtable) :
    zu_status * registry :=
  match builtin with
  | [] => (ZU_OK, reg)
  | v :: rest =>
      match zu_register_codec reg (Some v) with
      | (ZU_OK, reg') => register_all reg' rest
      | (st, reg') => (st, reg')
      end
  end.

(** ** The identity invariants of the registry *)

(** What registration checks of a vtable on its own. *)
Record vtable_ok (v : zu_codec_vtable) : Prop := {
  vo_name : is_Some (vt_name v);
  vo_source : is_Some (vt_source v);
  vo_size : ZU_VTABLE_REQUIRED_SIZE <= vt_struct_size v;
  vo_codec : vt_codec v <> ZU_CODEC_NONE;
  vo_encoder : lacks_encoder v = false;
  vo_decoder : lacks_decoder v = false;
  vo_identity : bad_identity v = false;
  vo_declared : existsb (conflicts_declared v) zu_int_declared = false;
}.

Record registry_ok (reg : registry) : Prop := {
  ro_cap : zlen (reg_vtables reg) <= ZU_INT_REGISTRY_CAP;
  ro_gen : reg_gen reg = zlen (reg_vtables reg);
  ro_vtables : Forall vtable_ok (reg_vtables reg);
  ro_ids : NoDup (map vt_codec (reg_vtables reg));
  ro_distinct :
    ForallOrdPairs (fun w v => conflicts_registered v w = false) (reg_vtables reg);
}.

(** Field ranges the C types give a vtable: [magic_len] and [magic_offset] are
    [size_t]. *)
Definition vtable_typed (v : zu_codec_vtable) : Prop :=
  is_size (vt_magic_len v) /\ is_size (vt_magic_offset v).

(** ** Lemmas: the case-insensitive comparison *)

(** What [zu_int_ieq] compares: the bytes before the terminating NUL, lowered. *)
Fixpoint cstr_lower (s : string) : list Z :=
  match s with
  | String.EmptyString => []
  | String.String c s' =>
      if char_code c =? 0 then [] else ascii_lower (char_code c) :: cstr_lower s'
  end.

Lemma char_code_nonneg c : 0 <= char_code c.
Proof. unfold char_code. lia. Qed.

Lemma ascii_lower_zero c : 0 <= c -> ascii_lower c = 0 <-> c = 0.
Proof. unfold ascii_lower. intros. destruct (_ && _) eqn:E; zbool; lia. Qed.

Lemma zu_int_ieq_spec a b : zu_int_ieq a b = true <-> cstr_lower a = cstr_lower b.
Proof.
  revert b. induction a as [|c a IH]; intros b.
  - destruct b as [|d b]; cbn [zu_int_ieq str_head cstr_lower]; [done|].
    pose proof (char_code_nonneg d) as Hd.
    pose proof (ascii_lower_zero _ Hd) as Hz. change (ascii_lower 0) with 0.
    destruct (Z.eqb_spec (char_code d) 0) as [E|E]; destruct (Z.eqb_spec 0 (ascii_lower (char_code d)));
      cbn; try done; exfalso; intuition lia.
  - cbn [zu_int_ieq str_head cstr_lower].
    pose proof (char_code_nonneg c) as Hc. pose proof (ascii_lower_zero _ Hc) as Hz.
    destruct b as [|d b]; cbn [str_head str_tail cstr_lower].
    + change (ascii_lower 0) with 0.
      destruct (Z.eqb_spec (char_code c) 0), (Z.eqb_spec (ascii_lower (char_code c)) 0);
        simpl; try done; exfalso; lia.
    + pose proof (char_code_nonneg d) as Hd. pose proof (ascii_lower_zero _ Hd) as Hz'.
      destruct (Z.eqb_spec (ascii_lower (char_code c)) (ascii_lower (char_code d))) as [E|E]; simpl.
      * destruct (Z.eqb_spec (ascii_lower (char_code c)) 0) as [E0|E0];
          destruct (Z.eqb_spec (char_code c) 0); destruct (Z.eqb_spec (char_code d) 0);
          try (exfalso; lia); [done|].
        rewrite IH, E. split; [by intros ->|by intros [= ->]].
      * destruct (Z.eqb_spec (char_code c) 0), (Z.eqb_spec (char_code d) 0);
          try (exfalso; lia); split; try done; intros [= ? ?]; congruence.
Qed.

Lemma tokens_clash_spec a b :
  tokens_clash a b = true <->
  exists x y, a = Some x /\ b = Some y /\ cstr_lower x = cstr_lower y.
Proof.
  destruct a as [x|], b as [y|]; simpl; try (split; [done|naive_solver]).
  rewrite zu_int_ieq_spec. naive_solver.
Qed.

Lemma tokens_clash_sym a b : tokens_clash a b = tokens_clash b a.
Proof.
  apply eq_true_iff_eq. rewrite !tokens_clash_spec. naive_solver.
Qed.

Lemma tokens_clash_trans a b c :
  tokens_clash a b = true -> tokens_clash b c = true -> tokens_clash a c = true.
Proof. rewrite !tokens_clash_spec. naive_solver congruence. Qed.

Lemma same_name_spec a b :
  same_name a b = true <-> exists x, a = Some x /\ b = Some x.
Proof.
  destruct a as [x|], b as [y|]; simpl; try (split; [done|naive_solver]).
  rewrite String.eqb_eq. naive_solver.
Qed.

Lemma same_name_sym a b : same_name a b = same_name b a.
Proof. apply eq_true_iff_eq. rewrite !same_name_spec. naive_solver. Qed.

Lemma conflicts_registered_sym v w : conflicts_registered v w = conflicts_registered w v.
Proof.
  unfold conflicts_registered. by rewrite same_name_sym, tokens_clash_sym.
Qed.

(** ** Lemmas: searching *)

Lemma is_null_false {A} (p : option A) : is_null p = false <-> is_Some p.
Proof. destruct p; simpl; [|by split; [|intros [? ?]]]. split; [eauto|done]. Qed.

Lemma find_app {A} (f : A -> bool) l k :
  List.find f (l ++ k) =
    match List.find f l with
    | Some x => Some x
    | None => List.find f k
    end.
Proof. induction l as [|x l IH]; simpl; [done|]. by destruct (f x). Qed.

Lemma find_none_iff {A} (f : A -> bool) l :
  List.find f l = None <-> forall x, In x l -> f x = false.
Proof.
  split; [apply find_none|]. induction l as [|x l IH]; simpl; [done|].
  intros H. rewrite H by auto. apply IH. auto.
Qed.

(** When at most one element satisfies the test, the search finds it wherever it
    stands. *)
Lemma find_unique {A} (f : A -> bool) l x :
  In x l -> f x = true -> (forall y, In y l -> f y = true -> y = x) ->
  List.find f l = Some x.
Proof.
  intros Hin Hx Hu. destruct (List.find f l) as [y|] eqn:E.
  - apply find_some in E as [Hy Hfy]. f_equal. auto.
  - rewrite find_none_iff in E. rewrite E in Hx by done. done.
Qed.

Lemma existsb_false {A} (f : A -> bool) l :
  existsb f l = false <-> forall x, In x l -> f x = false.
Proof.
  induction l as [|x l IH]; simpl; [naive_solver|].
  rewrite orb_false_iff, IH. naive_solver.
Qed.

Lemma ForallOrdPairs_app_one {A} (R : A -> A -> Prop) l x :
  ForallOrdPairs R l -> (forall y, In y l -> R y x) -> ForallOrdPairs R (l ++ [x]).
Proof.
  induction 1 as [|a l Ha Hl IH]; intros HR; simpl.
  - repeat constructor.
  - constructor.
    + apply Forall_app. split; [done|]. repeat constructor. apply HR. by left.
    + apply IH. intros. apply HR. by right.
Qed.

(** Elements of a list whose pairs are related are equal or related one way. *)
Lemma ForallOrdPairs_pick {A} (R : A -> A -> Prop) l x y :
  ForallOrdPairs R l -> In x l -> In y l -> x = y \/ R x y \/ R y x.
Proof.
  induction 1 as [|a l Ha Hl IH]; [done|].
  rewrite List.Forall_forall in Ha.
  simpl. intros [->|Hx] [->|Hy]; auto.
Qed.

Lemma lookup_none_ids reg c :
  c <> ZU_CODEC_NONE -> zu_int_registry_lookup reg c = None ->
  ~ In c (map vt_codec (reg_vtables reg)).
Proof.
  unfold zu_int_registry_lookup. intros Hc. destruct (Z.eqb_spec c ZU_CODEC_NONE); [done|].
  rewrite find_none_iff. intros H (v & Hv & Hin)%in_map_iff.
  apply H in Hin. rewrite Hv, Z.eqb_refl in Hin. done.
Qed.

Lemma lookup_registered reg v :
  registry_ok reg -> In v (reg_vtables reg) ->
  zu_int_registry_lookup reg (vt_codec v) = Some v.
Proof.
  intros [Hcap Hgen Hv Hids Hd] Hin. unfold zu_int_registry_lookup.
  rewrite List.Forall_forall in Hv.
  pose proof (vo_codec _ (Hv _ Hin)) as Hne. rewrite <- Z.eqb_neq in Hne. rewrite Hne.
  apply find_unique; [done|apply Z.eqb_refl|].
  intros w Hw E. zbool. clear -Hids Hin Hw E.
  induction (reg_vtables reg) as [|u l IH]; [done|].
  simpl in *. apply NoDup_cons in Hids as [Hnin Hids].
  rewrite list_elem_of_In in Hnin.
  destruct Hin as [->|Hin], Hw as [->|Hw]; auto.
  - exfalso. apply Hnin. rewrite <- E. by apply in_map.
  - exfalso. apply Hnin. rewrite E. by apply in_map.
Qed.

Lemma lookup_some_in reg c v :
  zu_int_registry_lookup reg c = Some v -> In v (reg_vtables reg) /\ vt_codec v = c.
Proof.
  unfold zu_int_registry_lookup. destruct (c =? ZU_CODEC_NONE); [done|].
  intros [? ?]%find_some. zbool. auto.
Qed.

(** ** Lemmas: registration *)

(** Registration either fails and leaves the registry alone, or every check passed
    and the vtable was appended. *)
Lemma register_cases reg vt :
  (zu_register_codec reg vt = (ZU_ERR_INVALID_ARGUMENT, reg)) \/
  (zu_register_codec reg vt = (ZU_ERR_MEMORY, reg) /\
   ZU_INT_REGISTRY_CAP <= zu_int_registry_count reg) \/
  (exists v, vt = Some v /\ vtable_ok v /\
   zu_int_registry_lookup reg (vt_codec v) = None /\
   existsb (conflicts_registered v) (reg_vtables reg) = false /\
   zu_int_registry_count reg < ZU_INT_REGISTRY_CAP /\
   zu_register_codec reg vt =
     (ZU_OK, mk_registry (reg_vtables reg ++ [v]) (u64 (reg_gen reg + 1)))).
Proof.
  destruct vt as [v|]; [|by left]. unfold zu_register_codec.
  destruct (is_null (vt_name v) || is_null (vt_source v)) eqn:E1; [by left|].
  destruct (vt_struct_size v <? ZU_VTABLE_REQUIRED_SIZE) eqn:E2; [by left|].
  destruct (vt_codec v =? ZU_CODEC_NONE) eqn:E3; [by left|].
  destruct (lacks_encoder v) eqn:E4; [by left|].
  destruct (lacks_decoder v) eqn:E5; [by left|].
  destruct (zu_int_registry_lookup reg (vt_codec v)) eqn:E6; [by left|]. cbn [is_null negb].
  destruct (bad_identity v) eqn:E7; [by left|].
  destruct (existsb (conflicts_declared v) zu_int_declared) eqn:E8; [by left|].
  destruct (existsb (conflicts_registered v) (reg_vtables reg)) eqn:E9; [by left|].
  destruct (Z.geb_spec (zu_int_registry_count reg) ZU_INT_REGISTRY_CAP); right.
  - left. split; [done|lia].
  - right. exists v. zbool. repeat split; auto; by apply is_null_false.
Qed.

Lemma register_ok_inv reg v reg' :
  zu_register_codec reg (Some v) = (ZU_OK, reg') ->
  vtable_ok v /\ zu_int_registry_lookup reg (vt_codec v) = None /\
  existsb (conflicts_registered v) (reg_vtables reg) = false /\
  zu_int_registry_count reg < ZU_INT_REGISTRY_CAP /\
  reg' = mk_registry (reg_vtables reg ++ [v]) (u64 (reg_gen reg + 1)).
Proof.
  intros H. destruct (register_cases reg (Some v)) as [E|[[E _]|(w & [= <-] & ? & ? & ? & ? & E)]];
    rewrite H in E; simplify_eq; auto.
Qed.

Lemma empty_registry_ok : registry_ok empty_registry.
Proof. constructor; simpl; try done; constructor. Qed.

Lemma register_preserves reg vt st reg' :
  registry_ok reg -> zu_register_codec reg vt = (st, reg') -> registry_ok reg'.
Proof.
  intros Hok H.
  destruct (register_cases reg vt) as [E|[[E _]|(v & -> & Hv & Hl & Hc & Hcap & E)]];
    rewrite H in E; simplify_eq; [done..|].
  destruct Hok as [Hn Hg Hf Hi Hd]. unfold zu_int_registry_count in Hcap.
  constructor; simpl.
  - rewrite zlen_app, zlen_cons, zlen_nil. lia.
  - rewrite zlen_app, zlen_cons, zlen_nil, Hg. unfold ZU_INT_REGISTRY_CAP in *.
    pose proof (zlen_nonneg (reg_vtables reg)). rewrite u64_small; lia.
  - apply Forall_app. split; [done|]. by apply Forall_singleton.
  - rewrite map_app. apply NoDup_app. split_and!; [done| |apply NoDup_singleton].
    intros c Hc1 Hc2. apply list_elem_of_In in Hc1, Hc2. simpl in Hc2.
    destruct Hc2 as [<-|[]]. eapply lookup_none_ids; eauto. apply Hv.
  - apply ForallOrdPairs_app_one; [done|].
    intros w Hw. rewrite existsb_false in Hc. auto.
Qed.

(** A registered vtable conflicts with no declaration but its own, and with no other
    registered vtable. *)
Lemma registered_vtable_ok reg v :
  registry_ok reg -> In v (reg_vtables reg) -> vtable_ok v.
Proof. intros [_ _ Hf _ _] Hin. rewrite List.Forall_forall in Hf. auto. Qed.

Lemma registered_no_conflict reg v w :
  registry_ok reg -> In v (reg_vtables reg) -> In w (reg_vtables reg) ->
  conflicts_registered v w = true -> v = w.
Proof.
  intros Hok Hv Hw Hc.
  destruct (ForallOrdPairs_pick _ _ v w (ro_distinct _ Hok) Hv Hw) as [?|[E|E]]; [done| |].
  - rewrite conflicts_registered_sym in E. congruence.
  - congruence.
Qed.

Lemma vtable_ok_declared v d :
  vtable_ok v -> In d zu_int_declared -> conflicts_declared v d = false.
Proof. intros Hv. pose proof (vo_declared _ Hv) as H. rewrite existsb_false in H. auto. Qed.

Lemma lookup_name_registered reg v :
  registry_ok reg -> In v (reg_vtables reg) -> zu_codec_lookup reg (vt_name v) = vt_codec v.
Proof.
  intros Hok Hin. pose proof (registered_vtable_ok _ _ Hok Hin) as Hv.
  destruct (vo_name _ Hv) as [s Hs]. rewrite Hs. unfold zu_codec_lookup.
  destruct (List.find (fun d => String.eqb (cd_name d) s) zu_int_declared) as [d|] eqn:E.
  - apply find_some in E as [Hd Hname].
    pose proof (vtable_ok_declared _ _ Hv Hd) as Hc. unfold conflicts_declared in Hc.
    rewrite Hs in Hc. cbn [same_name] in Hc. rewrite Hname in Hc. simpl in Hc. by zbool.
  - erewrite find_unique; [done|exact Hin| |].
    + rewrite Hs. simpl. apply String.eqb_refl.
    + intros w Hw Hn. symmetry. eapply registered_no_conflict; eauto.
      unfold conflicts_registered. rewrite Hs, Hn. done.
Qed.

Lemma lookup_token_registered reg v t :
  registry_ok reg -> In v (reg_vtables reg) ->
  tokens_clash (vt_content_encoding v) (Some t) = true ->
  zu_codec_from_content_encoding reg (Some t) = vt_codec v.
Proof.
  intros Hok Hin Ht. pose proof (registered_vtable_ok _ _ Hok Hin) as Hv.
  unfold zu_codec_from_content_encoding.
  destruct (List.find (fun d => tokens_clash (cd_content_encoding d) (Some t))
              zu_int_declared) as [d|] eqn:E.
  - apply find_some in E as [Hd Htok].
    pose proof (vtable_ok_declared _ _ Hv Hd) as Hc. unfold conflicts_declared in Hc.
    rewrite tokens_clash_sym in Ht.
    rewrite (tokens_clash_trans _ _ _ Htok Ht) in Hc. zbool.
    destruct H0 as [?|?]; by zbool.
  - erewrite find_unique; [done|exact Hin|done|].
    intros w Hw Hn. symmetry. eapply registered_no_conflict; eauto.
    unfold conflicts_registered. rewrite tokens_clash_sym in Ht.
    rewrite (tokens_clash_trans _ _ _ Hn Ht). apply orb_true_r.
Qed.

Lemma lookup_appended reg v gen c :
  zu_int_registry_lookup (mk_registry (reg_vtables reg ++ [v]) gen) c =
    match zu_int_registry_lookup reg c with
    | Some w => Some w
    | None => if (vt_codec v =? c) && negb (c =? ZU_CODEC_NONE) then Some v else None
    end.
Proof.
  unfold zu_int_registry_lookup. simpl. rewrite find_app. simpl.
  destruct (c =? ZU_CODEC_NONE); simpl; [by rewrite andb_false_r|].
  rewrite andb_true_r. by destruct (List.find _ _).
Qed.

(** A registered codec that advertises a direction has its function pointers. *)
Lemma registered_decoder_pointers v :
  vtable_ok v -> has_flag (vt_flags v) ZU_CAN_DECODE = true ->
  is_Some (vt_decoder_new v) /\ is_Some (vt_decoder_process v) /\ vt_decoder_free v = true.
Proof.
  intros Hv Hf. pose proof (vo_decoder _ Hv) as H. unfold lacks_decoder in H.
  rewrite Hf in H. simpl in H. zbool. rewrite <- !is_null_false. auto.
Qed.

Lemma registered_encoder_pointers v :
  vtable_ok v -> has_flag (vt_flags v) ZU_CAN_ENCODE = true ->
  is_Some (vt_encoder_new v) /\ is_Some (vt_encoder_process v) /\ vt_encoder_free v = true.
Proof.
  intros Hv Hf. pose proof (vo_encoder _ Hv) as H. unfold lacks_encoder in H.
  rewrite Hf in H. simpl in H. zbool. rewrite <- !is_null_false. auto.
Qed.

(** ** Lemmas: detection *)

(** [v] is the first codec with the longest magic among those that match. *)
Definition best_magic (buf : option bytes) (n : Z) (l : list zu_codec_vtable)
    (v : zu_codec_vtable) : Prop :=
  exists l1 l2, l = l1 ++ v :: l2 /\ magic_matches buf n v = true /\
    (forall w, In w l1 -> magic_matches buf n w = true -> vt_magic_len w < vt_magic_len v) /\
    (forall w, In w l2 -> magic_matches buf n w = true -> vt_magic_len w <= vt_magic_len v).

Lemma magic_matches_pos buf n v :
  vtable_typed v -> magic_matches buf n v = true -> 0 < vt_magic_len v.
Proof.
  unfold magic_matches, vtable_typed, is_size. intros [Hl _].
  destruct (vt_magic v); [|done]. destruct (Z.eqb_spec (vt_magic_len v) 0); [done|lia].
Qed.

Lemma sniff_fold buf n l :
  Forall vtable_typed l ->
  let '(best, out) := fold_left (sniff_magic_step buf n) l (0, ZU_CODEC_NONE) in
  (best = 0 /\ out = ZU_CODEC_NONE /\ forall w, In w l -> magic_matches buf n w = false) \/
  (exists v, best_magic buf n l v /\ best = vt_magic_len v /\ out = vt_codec v).
Proof.
  induction l as [|v l IH] using rev_ind; intros Ht; [by left|].
  apply Forall_app in Ht as [Ht Htv]. rewrite Forall_singleton in Htv. specialize (IH Ht).
  rewrite fold_left_app. simpl.
  destruct (fold_left _ l _) as [best out]. unfold sniff_magic_step. simpl.
  destruct (magic_matches buf n v) eqn:Em; simpl.
  - pose proof (magic_matches_pos _ _ _ Htv Em) as Hpos. rewrite Z.gtb_ltb.
    destruct IH as [(-> & -> & Hno)|(u & (l1 & l2 & -> & Hu & H1 & H2) & -> & ->)].
    + destruct (Z.ltb_spec 0 (vt_magic_len v)); [|lia]. right. exists v. split; [|done].
      exists l, []. split_and!; try done. intros w Hw Hm. rewrite Hno in Hm; done.
    + destruct (Z.ltb_spec (vt_magic_len u) (vt_magic_len v)) as [Hlt|Hge]; right.
      * exists v. split; [|done]. exists (l1 ++ u :: l2), []. split_and!; try done.
        intros w [Hw|[<-|Hw]]%in_app_iff Hm; [specialize (H1 w Hw Hm); lia|lia|].
        specialize (H2 w Hw Hm). lia.
      * exists u. split; [|done]. exists l1, (l2 ++ [v]). rewrite <- app_assoc.
        split_and!; try done. intros w [Hw|[<-|[]]]%in_app_iff Hm; [auto|lia].
  - destruct IH as [(-> & -> & Hno)|(u & (l1 & l2 & -> & Hu & H1 & H2) & -> & ->)].
    + left. split_and!; try done. intros w [Hw|[<-|[]]]%in_app_iff; auto.
    + right. exists u. split; [|done]. exists l1, (l2 ++ [v]). rewrite <- app_assoc.
      split_and!; try done. intros w [Hw|[<-|[]]]%in_app_iff Hm; [auto|congruence].
Qed.

(** ** Properties *)

(** A sequence of registration attempts, whatever each one returns. *)
Definition register_attempts (reg : registry) (l : list (option zu_codec_vtable)) : registry :=
  fold_left (fun r vt => snd (zu_register_codec r vt)) l reg.

Lemma register_attempts_ok l : registry_ok (register_attempts empty_registry l).
Proof.
  unfold register_attempts. generalize empty_registry_ok. generalize empty_registry.
  induction l as [|vt l IH]; intros reg Hok; simpl; [done|].
  apply IH. destruct (zu_register_codec reg vt) eqn:E. eapply register_preserves; eauto.
Qed.

(** A codec of the given identity, name and token that can do nothing: a concrete
    vtable for the witnesses of this file. *)
Definition stub_vtable (codec : zu_codec) (name : string) (token : option string)
    (magic : option bytes) (sniff : option (option bytes -> Z -> bool)) : zu_codec_vtable :=
  mk_vtable unit sizeof_vtable codec (Some name) token (Some "stub"%string) 0 0 0 0
    magic (zlen (default [] magic)) 0 sniff
    None None None false None None None false None 0 0.

(** C12: the registry's identity invariants hold after any sequence of registration
    attempts, successful or not: at most 32 entries, pairwise distinct identities,
    names and (up to ASCII case) content-coding tokens, no entry under another
    declared codec's name or token, every entry under its declared name or in the
    vendor range, every advertised direction backed by its function pointers, and a
    generation counter equal to the number of entries. *)
Theorem registry_invariant (attempts : list (option zu_codec_vtable)) :
  registry_ok (register_attempts empty_registry attempts).
Proof. apply register_attempts_ok. Qed.


(** Names, tokens and identities resolve to one codec.  In every registry that
    registration can build, an entry is what its identity looks up, its name looks
    up its identity, and every token that equals its content-coding token up to case
    looks up its identity, whatever the registration order. *)
Theorem registered_codec_resolves (attempts : list (option zu_codec_vtable))
    (v : zu_codec_vtable)
    (Hin : In v (reg_vtables (register_attempts empty_registry attempts))) :
  let reg := register_attempts empty_registry attempts in
  zu_int_registry_lookup reg (vt_codec v) = Some v /\
  zu_codec_lookup reg (vt_name v) = vt_codec v /\
  (forall t, tokens_clash (vt_content_encoding v) (Some t) = true ->
     zu_codec_from_content_encoding reg (Some t) = vt_codec v) /\
  zu_codec_available reg (vt_codec v) = true.
Proof.
  pose proof (register_attempts_ok attempts) as Hok. simpl.
  pose proof (lookup_registered _ _ Hok Hin) as Hl. split_and!.
  - done.
  - by apply lookup_name_registered.
  - intros t. by apply lookup_token_registered.
  - unfold zu_codec_available. by rewrite Hl.
Qed.

Lemma registered_codec_resolves_witness :
  let br := stub_vtable ZU_CODEC_BROTLI "brotli" (Some "br"%string) None None in
  let bad := stub_vtable 1024 "gzip" None None None in
  let reg := register_attempts empty_registry [Some br; None; Some bad] in
  In br (reg_vtables reg) /\
  zu_codec_from_content_encoding reg (Some "BR"%string) = ZU_CODEC_BROTLI.
Proof.
  intros br bad reg.
  assert (Hin : In br (reg_vtables reg)) by (left; reflexivity).
  split; [exact Hin|].
  exact (proj1 (proj2 (proj2 (registered_codec_resolves [Some br; None; Some bad] br Hin)))
           "BR"%string eq_refl).
Defined.

(** C31: detection.  On a registry that registration built, [zu_sniff] answers with
    the first codec whose magic is the longest among the magics found at their
    offsets; only when no magic matches does it ask the predicate sniffers, in
    registration order, and takes the first that accepts; and it reports
    [ZU_ERR_UNSUPPORTED] with [ZU_CODEC_NONE] exactly when neither recognises the
    bytes.  A codec with neither magic nor sniffer is never the answer. *)
Theorem zu_sniff_spec (reg : registry) (buf : option bytes) (n : Z)
    (Hok : registry_ok reg) (Htyped : Forall vtable_typed (reg_vtables reg))
    (Hbuf : is_null buf && negb (n =? 0) = false) :
  (exists v, best_magic buf n (reg_vtables reg) v /\
     zu_sniff reg buf n true = (ZU_OK, Some (vt_codec v)) /\ vtable_detectable v = true) \/
  ((forall w, In w (reg_vtables reg) -> magic_matches buf n w = false) /\
   ((exists l1 v l2, reg_vtables reg = l1 ++ v :: l2 /\ sniff_accepts buf n v = true /\
       (forall w, In w l1 -> sniff_accepts buf n w = false) /\
       zu_sniff reg buf n true = (ZU_OK, Some (vt_codec v)) /\ vtable_detectable v = true) \/
    ((forall w, In w (reg_vtables reg) -> sniff_accepts buf n w = false) /\
     zu_sniff reg buf n true = (ZU_ERR_UNSUPPORTED, Some ZU_CODEC_NONE)))).
Proof.
  unfold zu_sniff. rewrite Hbuf. cbn [negb orb].
  pose proof (sniff_fold buf n _ Htyped) as Hf.
  destruct (fold_left _ _ _) as [best out].
  destruct Hf as [(-> & -> & Hno)|(v & Hbest & -> & ->)].
  - right. split; [done|]. simpl.
    destruct (List.find (sniff_accepts buf n) (reg_vtables reg)) as [v|] eqn:E.
    + left. clear Hno Htyped Hok. induction (reg_vtables reg) as [|u l IH]; [done|].
      simpl in E. destruct (sniff_accepts buf n u) eqn:Eu.
      * injection E as ->. exists [], v, l. split_and!; try done.
        unfold sniff_accepts, vtable_detectable in *.
        destruct (vt_sniff v); [by rewrite orb_true_r|done].
      * destruct (IH E) as (l1 & w & l2 & -> & Hw & Hl1 & Hres & Hdet).
        exists (u :: l1), w, l2. split_and!; try done.
        intros x [<-|Hx]; auto.
    + right. split; [|done]. by rewrite find_none_iff in E.
  - left. exists v. destruct Hbest as (l1 & l2 & Hl & Hm & H1 & H2).
    assert (Hin : In v (reg_vtables reg)) by (rewrite Hl; apply in_elt).
    pose proof (vo_codec _ (registered_vtable_ok _ _ Hok Hin)) as Hn.
    rewrite <- Z.eqb_neq in Hn. rewrite Hn. split_and!; [|done|].
    + by exists l1, l2.
    + unfold magic_matches, vtable_detectable in *. by destruct (vt_magic v).
Qed.

Lemma zu_sniff_spec_witness :
  let short := stub_vtable 2000 "short" None (Some [31]) None in
  let long := stub_vtable 2001 "long" None (Some [31; 139]) None in
  let reg := register_attempts empty_registry [Some short; Some long] in
  let buf := Some [31; 139; 8] in
  registry_ok reg /\ Forall vtable_typed (reg_vtables reg) /\
  zu_sniff reg buf 3 true = (ZU_OK, Some 2001).
Proof.
  intros short long reg buf.
  assert (Hok : registry_ok reg) by apply register_attempts_ok.
  assert (Ht : Forall vtable_typed (reg_vtables reg)).
  { change (reg_vtables reg) with [short; long].
    apply Forall_cons_2; [|apply Forall_cons_2; [|by apply Forall_nil_2]];
      vm_compute; repeat split; discriminate. }
  split; [exact Hok|]. split; [exact Ht|].
  destruct (zu_sniff_spec reg buf 3 Hok Ht eq_refl) as [(v & _ & E & _)|[H _]].
  - rewrite E. symmetry. etransitivity; [|exact E]. vm_compute. reflexivity.
  - exfalso. discriminate (H short (or_introl eq_refl)).
Defined.

(** The struct_size contract of the capability projection.  A vtable whose
    struct stops before the appended level fields, or that leaves both at 0,
    resolves "fast" and "best" to its default level; [zu_codec_get_info] fills the
    required prefix from the vtable, writes the appended fields only when the
    caller's struct covers them and otherwise leaves them as they were, and refuses
    a struct shorter than the prefix without touching it. *)
Theorem zu_codec_get_info_spec (reg : registry) (codec : zu_codec) (o : zu_codec_info) :
  let '(st, o') := zu_codec_get_info reg codec (Some o) in
  match st with
  | ZU_OK => exists v i, zu_int_registry_lookup reg codec = Some v /\ o' = Some i /\
      info_required_size <= ci_struct_size o /\
      ci_struct_size i = ci_struct_size o /\ ci_codec i = codec /\
      ci_name i = vt_name v /\ ci_flags i = vt_flags v /\
      ci_level_default i = vt_level_default v /\
      (ci_struct_size o < info_levels_end ->
         ci_level_fast i = ci_level_fast o /\ ci_level_best i = ci_level_best o) /\
      (info_levels_end <= ci_struct_size o ->
         vt_struct_size v < vtable_levels_end \/
         (vt_level_fast v = 0 /\ vt_level_best v = 0) ->
         ci_level_fast i = vt_level_default v /\ ci_level_best i = vt_level_default v) /\
      (info_levels_end <= ci_struct_size o -> vtable_levels_end <= vt_struct_size v ->
         (vt_level_fast v <> 0 \/ vt_level_best v <> 0) ->
         ci_level_fast i = vt_level_fast v /\ ci_level_best i = vt_level_best v)
  | _ => o' = Some o /\
      (ci_struct_size o < info_required_size \/ zu_int_registry_lookup reg codec = None)
  end.
Proof.
  unfold zu_codec_get_info.
  destruct (Z.ltb_spec (ci_struct_size o) info_required_size); [auto|].
  destruct (zu_int_registry_lookup reg codec) as [v|] eqn:E; [|auto].
  pose proof (lookup_some_in _ _ _ E) as [_ Hc]. exists v.
  unfold zu_int_vtable_level_fast, zu_int_vtable_level_best.
  destruct (Z.geb_spec (ci_struct_size o) info_levels_end),
    (Z.ltb_spec (vt_struct_size v) vtable_levels_end),
    (Z.eqb_spec (vt_level_fast v) 0), (Z.eqb_spec (vt_level_best v) 0);
    eexists; simpl; split_and!; try done; intros; try lia; auto.
Qed.
