(* ===== verification/Checksum.v ===== *)
(** * Checksums: mz_adler32 and mz_crc32 of src/vendor/miniz/miniz.c

    The two functions the gzip and zlib wrappers run over the uncompressed bytes, with
    their block structure, their unrolled loops and their 32-bit arithmetic, and the
    textbook definitions they are proved equal to. *)
From S2P Require Import Prelude.

(** ** CRC-32, table driven *)

Definition s_crc_table : list Z := [
  0x00000000; 0x77073096; 0xee0e612c; 0x990951ba; 0x076dc419; 0x706af48f; 0xe963a535; 0x9e6495a3;
  0x0edb8832; 0x79dcb8a4; 0xe0d5e91e; 0x97d2d988; 0x09b64c2b; 0x7eb17cbd; 0xe7b82d07; 0x90bf1d91;
  0x1db71064; 0x6ab020f2; 0xf3b97148; 0x84be41de; 0x1adad47d; 0x6ddde4eb; 0xf4d4b551; 0x83d385c7;
  0x136c9856; 0x646ba8c0; 0xfd62f97a; 0x8a65c9ec; 0x14015c4f; 0x63066cd9; 0xfa0f3d63; 0x8d080df5;
  0x3b6e20c8; 0x4c69105e; 0xd56041e4; 0xa2677172; 0x3c03e4d1; 0x4b04d447; 0xd20d85fd; 0xa50ab56b;
  0x35b5a8fa; 0x42b2986c; 0xdbbbc9d6; 0xacbcf940; 0x32d86ce3; 0x45df5c75; 0xdcd60dcf; 0xabd13d59;
  0x26d930ac; 0x51de003a; 0xc8d75180; 0xbfd06116; 0x21b4f4b5; 0x56b3c423; 0xcfba9599; 0xb8bda50f;
  0x2802b89e; 0x5f058808; 0xc60cd9b2; 0xb10be924; 0x2f6f7c87; 0x58684c11; 0xc1611dab; 0xb6662d3d;
  0x76dc4190; 0x01db7106; 0x98d220bc; 0xefd5102a; 0x71b18589; 0x06b6b51f; 0x9fbfe4a5; 0xe8b8d433;
  0x7807c9a2; 0x0f00f934; 0x9609a88e; 0xe10e9818; 0x7f6a0dbb; 0x086d3d2d; 0x91646c97; 0xe6635c01;
  0x6b6b51f4; 0x1c6c6162; 0x856530d8; 0xf262004e; 0x6c0695ed; 0x1b01a57b; 0x8208f4c1; 0xf50fc457;
  0x65b0d9c6; 0x12b7e950; 0x8bbeb8ea; 0xfcb9887c; 0x62dd1ddf; 0x15da2d49; 0x8cd37cf3; 0xfbd44c65;
  0x4db26158; 0x3ab551ce; 0xa3bc0074; 0xd4bb30e2; 0x4adfa541; 0x3dd895d7; 0xa4d1c46d; 0xd3d6f4fb;
  0x4369e96a; 0x346ed9fc; 0xad678846; 0xda60b8d0; 0x44042d73; 0x33031de5; 0xaa0a4c5f; 0xdd0d7cc9;
  0x5005713c; 0x270241aa; 0xbe0b1010; 0xc90c2086; 0x5768b525; 0x206f85b3; 0xb966d409; 0xce61e49f;
  0x5edef90e; 0x29d9c998; 0xb0d09822; 0xc7d7a8b4; 0x59b33d17; 0x2eb40d81; 0xb7bd5c3b; 0xc0ba6cad;
  0xedb88320; 0x9abfb3b6; 0x03b6e20c; 0x74b1d29a; 0xead54739; 0x9dd277af; 0x04db2615; 0x73dc1683;
  0xe3630b12; 0x94643b84; 0x0d6d6a3e; 0x7a6a5aa8; 0xe40ecf0b; 0x9309ff9d; 0x0a00ae27; 0x7d079eb1;
  0xf00f9344; 0x8708a3d2; 0x1e01f268; 0x6906c2fe; 0xf762575d; 0x806567cb; 0x196c3671; 0x6e6b06e7;
  0xfed41b76; 0x89d32be0; 0x10da7a5a; 0x67dd4acc; 0xf9b9df6f; 0x8ebeeff9; 0x17b7be43; 0x60b08ed5;
  0xd6d6a3e8; 0xa1d1937e; 0x38d8c2c4; 0x4fdff252; 0xd1bb67f1; 0xa6bc5767; 0x3fb506dd; 0x48b2364b;
  0xd80d2bda; 0xaf0a1b4c; 0x36034af6; 0x41047a60; 0xdf60efc3; 0xa867df55; 0x316e8eef; 0x4669be79;
  0xcb61b38c; 0xbc66831a; 0x256fd2a0; 0x5268e236; 0xcc0c7795; 0xbb0b4703; 0x220216b9; 0x5505262f;
  0xc5ba3bbe; 0xb2bd0b28; 0x2bb45a92; 0x5cb36a04; 0xc2d7ffa7; 0xb5d0cf31; 0x2cd99e8b; 0x5bdeae1d;
  0x9b64c2b0; 0xec63f226; 0x756aa39c; 0x026d930a; 0x9c0906a9; 0xeb0e363f; 0x72076785; 0x05005713;
  0x95bf4a82; 0xe2b87a14; 0x7bb12bae; 0x0cb61b38; 0x92d28e9b; 0xe5d5be0d; 0x7cdcefb7; 0x0bdbdf21;
  0x86d3d2d4; 0xf1d4e242; 0x68ddb3f8; 0x1fda836e; 0x81be16cd; 0xf6b9265b; 0x6fb077e1; 0x18b74777;
  0x88085ae6; 0xff0f6a70; 0x66063bca; 0x11010b5c; 0x8f659eff; 0xf862ae69; 0x616bffd3; 0x166ccf45;
  0xa00ae278; 0xd70dd2ee; 0x4e048354; 0x3903b3c2; 0xa7672661; 0xd06016f7; 0x4969474d; 0x3e6e77db;
  0xaed16a4a; 0xd9d65adc; 0x40df0b66; 0x37d83bf0; 0xa9bcae53; 0xdebb9ec5; 0x47b2cf7f; 0x30b5ffe9;
  0xbdbdf21c; 0xcabac28a; 0x53b39330; 0x24b4a3a6; 0xbad03605; 0xcdd70693; 0x54de5729; 0x23d967bf;
  0xb3667a2e; 0xc4614ab8; 0x5d681b02; 0x2a6f2b94; 0xb40bbe37; 0xc30c8ea1; 0x5a05df1b; 0x2d02ef8d
].

(** [crc32 = (crc32 >> 8) ^ s_crc_table[(crc32 ^ b) & 0xFF]] *)
Definition crc_byte (crc b : Z) : Z :=
  Z.lxor (Z.shiftr crc 8) (byte_at s_crc_table (Z.land (Z.lxor crc b) 255)).

(** Four bytes per round while there are four, then one at a time. *)
Fixpoint crc_loop (crc : Z) (p : bytes) : Z :=
  match p with
  | b0 :: b1 :: b2 :: b3 :: rest =>
      crc_loop (crc_byte (crc_byte (crc_byte (crc_byte crc b0) b1) b2) b3) rest
  | _ => fold_left crc_byte p crc
  end.

Definition lnot32 (z : Z) : Z := Z.lxor z (2 ^ 32 - 1).

(** [p] holds the [buf_len] bytes. *)
Definition mz_crc32 (crc : Z) (p : bytes) : Z :=
  lnot32 (crc_loop (Z.lxor (u32 crc) (2 ^ 32 - 1)) p).

(** ** Adler-32 *)

Definition MZ_ADLER32_INIT : Z := 1.
Definition ADLER_BASE : Z := 65521.
Definition ADLER_BLOCK : nat := Z.to_nat 5552.

(** [s1 += *p, s2 += s1] on [mz_uint32]. *)
Definition adler_byte (s : Z * Z) (b : Z) : Z * Z :=
  let s1 := u32 (s.1 + b) in (s1, u32 (s.2 + s1)).

(** Eight bytes per round while there are eight, then one at a time. *)
Fixpoint adler_block (s : Z * Z) (p : bytes) : Z * Z :=
  match p with
  | b0 :: b1 :: b2 :: b3 :: b4 :: b5 :: b6 :: b7 :: rest =>
      adler_block (fold_left adler_byte [b0; b1; b2; b3; b4; b5; b6; b7] s) rest
  | _ => fold_left adler_byte p s
  end.

Definition adler_reduce (s : Z * Z) : Z * Z := (s.1 mod ADLER_BASE, s.2 mod ADLER_BASE).

(** [while (buf_len)]: a first block of [buf_len % 5552] bytes, then full ones.  [fuel]
    bounds the number of rounds. *)
Fixpoint adler_rounds (fuel : nat) (s : Z * Z) (block_len : nat) (p : bytes) : Z * Z :=
  match fuel, p with
  | _, [] => s
  | O, _ => s
  | S fuel', _ =>
      adler_rounds fuel' (adler_reduce (adler_block s (take block_len p)))
        ADLER_BLOCK (drop block_len p)
  end.

Definition mz_adler32 (adler : Z) (ptr : option bytes) : Z :=
  match ptr with
  | None => MZ_ADLER32_INIT
  | Some p =>
      let s := (Z.land (u32 adler) 65535, u32 (Z.shiftr adler 16)) in
      let '(s1, s2) := adler_rounds (S (length p)) s (length p mod ADLER_BLOCK) p in
      u32 (Z.shiftl s2 16 + s1)
  end.

(** ** The textbook definitions *)

(** One bit of the reflected CRC-32 with polynomial 0xEDB88320. *)
Definition crc_poly : Z := 0xedb88320.
Definition crc_bit (c : Z) : Z :=
  Z.lxor (Z.shiftr c 1) (if Z.odd c then crc_poly else 0).

Definition crc_ref_byte (c b : Z) : Z := Nat.iter 8 crc_bit (Z.lxor c b).

Definition crc_ref (crc : Z) (p : bytes) : Z :=
  lnot32 (fold_left crc_ref_byte p (lnot32 crc)).

(** Adler-32 as two running sums modulo 65521. *)
Definition adler_ref_byte (s : Z * Z) (b : Z) : Z * Z :=
  let s1 := (s.1 + b) mod ADLER_BASE in (s1, (s.2 + s1) mod ADLER_BASE).

Definition adler_ref (adler : Z) (p : bytes) : Z :=
  let '(s1, s2) := fold_left adler_ref_byte p (adler mod 65536, adler / 65536) in
  s2 * 65536 + s1.

(** Conversion should look into the arithmetic last. *)
#[global] Strategy 100 [crc_byte crc_ref_byte crc_bit mz_crc32 mz_adler32 lnot32
  adler_byte adler_ref_byte ADLER_BLOCK].

(** ** CRC-32: the table, the unrolled loop, the reference *)

Lemma s_crc_table_spec i : 0 <= i < 256 -> byte_at s_crc_table i = Nat.iter 8 crc_bit i.
Proof.
  intros Hi.
  assert (H : forallb (fun k => byte_at s_crc_table (Z.of_nat k) =?
    Nat.iter 8 crc_bit (Z.of_nat k)) (seq 0 256) = true) by (vm_compute; reflexivity).
  rewrite forallb_forall in H. specialize (H (Z.to_nat i)).
  rewrite Z2Nat.id in H by lia. apply Z.eqb_eq, H, in_seq. lia.
Qed.

Lemma odd_lxor a b : Z.odd (Z.lxor a b) = xorb (Z.odd a) (Z.odd b).
Proof. rewrite <- !Z.bit0_odd. apply Z.lxor_spec. Qed.

Lemma crc_bit_lxor a b : crc_bit (Z.lxor a b) = Z.lxor (crc_bit a) (crc_bit b).
Proof.
  unfold crc_bit. rewrite Z.shiftr_lxor, odd_lxor.
  apply Z.bits_inj'. intros i _. rewrite !Z.lxor_spec.
  destruct (Z.odd a), (Z.odd b); cbn [xorb]; rewrite ?Z.lxor_spec, ?Z.bits_0;
    destruct (Z.testbit _ i), (Z.testbit _ i); try done; by destruct (Z.testbit crc_poly i).
Qed.

Lemma crc_bits_lxor n a b :
  Nat.iter n crc_bit (Z.lxor a b) = Z.lxor (Nat.iter n crc_bit a) (Nat.iter n crc_bit b).
Proof. induction n as [|n IH]; [done|]. by rewrite !Nat.iter_succ, IH, crc_bit_lxor. Qed.

Lemma crc_bits_shiftl n y : Nat.iter n crc_bit (Z.shiftl y (Z.of_nat n)) = y.
Proof.
  revert y. induction n as [|n IH]; intros y; [apply Z.shiftl_0_r|].
  rewrite Nat.iter_succ_r. rewrite <- (IH y) at 2. f_equal. unfold crc_bit.
  assert (Z.odd (Z.shiftl y (Z.of_nat (S n))) = false) as ->.
  { rewrite <- Z.bit0_odd. apply Z.shiftl_spec_low. lia. }
  rewrite Z.lxor_0_r, Z.shiftr_shiftl_l by lia. f_equal. lia.
Qed.

Lemma split_low_byte x : x = Z.lxor (Z.land x 255) (Z.shiftl (Z.shiftr x 8) 8).
Proof.
  change 255 with (Z.ones 8). apply Z.bits_inj'. intros i Hi.
  rewrite Z.lxor_spec, Z.land_spec.
  destruct (Z_lt_le_dec i 8).
  - rewrite Z.ones_spec_low, Z.shiftl_spec_low by lia. by rewrite andb_true_r, xorb_false_r.
  - rewrite Z.ones_spec_high, Z.shiftl_spec, Z.shiftr_spec by lia.
    rewrite andb_false_r, xorb_false_l. f_equal. lia.
Qed.

(** A table step is eight bit steps. *)
Lemma crc_byte_ref c b : 0 <= b < 256 -> crc_byte c b = crc_ref_byte c b.
Proof.
  intros Hb. unfold crc_byte, crc_ref_byte. set (x := Z.lxor c b).
  assert (Z.shiftr c 8 = Z.shiftr x 8) as ->.
  { unfold x. rewrite Z.shiftr_lxor, (Z.shiftr_div_pow2 b), (Z.div_small b) by lia.
    by rewrite Z.lxor_0_r. }
  rewrite s_crc_table_spec.
  - rewrite (split_low_byte x) at 3. rewrite crc_bits_lxor.
    rewrite (crc_bits_shiftl 8). apply Z.lxor_comm.
  - change 255 with (Z.ones 8). rewrite Z.land_ones by lia. apply Z.mod_pos_bound. lia.
Qed.

Lemma crc_loop_fold p crc : crc_loop crc p = fold_left crc_byte p crc.
Proof.
  revert crc. induction p as [p IH] using list_length_ind. intros crc.
  destruct p as [|b0 [|b1 [|b2 [|b3 p]]]]; [done..|].
  cbn [crc_loop fold_left]. apply IH. cbn [length]. lia.
Qed.

Lemma crc_fold_ref p crc :
  bytes_ok p -> fold_left crc_byte p crc = fold_left crc_ref_byte p crc.
Proof.
  intros Hp. revert crc. induction Hp as [|b p Hb Hp IH]; intros crc; [done|].
  by rewrite !fold_left_cons, crc_byte_ref, IH.
Qed.

Lemma crc_bit_range c : 0 <= c < 2 ^ 32 -> 0 <= crc_bit c < 2 ^ 32.
Proof.
  intros Hc. unfold crc_bit. apply lxor_range; [lia|by apply shiftr_range|].
  destruct (Z.odd c); unfold crc_poly; lia.
Qed.

Lemma crc_bits_range n c : 0 <= c < 2 ^ 32 -> 0 <= Nat.iter n crc_bit c < 2 ^ 32.
Proof.
  intros Hc. induction n as [|n IH]; [done|]. rewrite Nat.iter_succ. by apply crc_bit_range.
Qed.

Lemma crc_ref_byte_range c b :
  0 <= c < 2 ^ 32 -> 0 <= b < 256 -> 0 <= crc_ref_byte c b < 2 ^ 32.
Proof.
  intros Hc Hb. unfold crc_ref_byte. apply crc_bits_range, lxor_range; lia.
Qed.

Lemma crc_fold_range p crc :
  bytes_ok p -> 0 <= crc < 2 ^ 32 -> 0 <= fold_left crc_ref_byte p crc < 2 ^ 32.
Proof.
  intros Hp. revert crc. induction Hp as [|b p Hb Hp IH]; intros crc Hc; [done|].
  rewrite fold_left_cons. apply IH, crc_ref_byte_range; [done|]. exact Hb.
Qed.

Lemma lnot32_range c : 0 <= c < 2 ^ 32 -> 0 <= lnot32 c < 2 ^ 32.
Proof. intros. apply lxor_range; lia. Qed.

Lemma lnot32_invol c : lnot32 (lnot32 c) = c.
Proof. unfold lnot32. by rewrite Z.lxor_assoc, Z.lxor_nilpotent, Z.lxor_0_r. Qed.

Lemma mz_crc32_ref crc p :
  0 <= crc < 2 ^ 32 -> bytes_ok p -> mz_crc32 crc p = crc_ref crc p.
Proof.
  intros Hc Hp. unfold mz_crc32, crc_ref. rewrite u32_small, crc_loop_fold by done.
  by rewrite crc_fold_ref.
Qed.

Lemma mz_crc32_range crc p :
  0 <= crc < 2 ^ 32 -> bytes_ok p -> 0 <= mz_crc32 crc p < 2 ^ 32.
Proof.
  intros Hc Hp. rewrite mz_crc32_ref by done.
  apply lnot32_range, crc_fold_range; [done|]. by apply lnot32_range.
Qed.

Lemma mz_crc32_app crc p q :
  0 <= crc < 2 ^ 32 -> bytes_ok p -> bytes_ok q ->
  mz_crc32 (mz_crc32 crc p) q = mz_crc32 crc (p ++ q).
Proof.
  intros Hc Hp Hq. pose proof (mz_crc32_range crc p Hc Hp).
  rewrite (mz_crc32_ref _ q), (mz_crc32_ref crc p), (mz_crc32_ref crc (p ++ q)) by
    (done || by apply Forall_app).
  unfold crc_ref. by rewrite lnot32_invol, fold_left_app.
Qed.

(** ** Adler-32: no overflow, and blocks do not matter *)

Lemma adler_block_fold p s : adler_block s p = fold_left adler_byte p s.
Proof.
  revert s. induction p as [p IH] using list_length_ind. intros s.
  destruct p as [|b0 [|b1 [|b2 [|b3 [|b4 [|b5 [|b6 [|b7 p]]]]]]]]; [done..|].
  cbn [adler_block]. rewrite IH by (cbn [length]; lia). done.
Qed.

Definition adler_ok (s : Z * Z) : Prop := 0 <= s.1 < ADLER_BASE /\ 0 <= s.2 < ADLER_BASE.

(** The sums after [k] bytes of a block that started from 16-bit halves. *)
Definition adler_bound (k : Z) (s : Z * Z) : Prop :=
  0 <= s.1 <= 65535 + 255 * k /\
  0 <= s.2 /\ 2 * s.2 <= 131070 * (k + 1) + 255 * k * (k + 1).

Lemma adler_byte_bound k s b :
  0 <= k < 5552 -> adler_bound k s -> byte_ok b ->
  adler_bound (k + 1) (adler_byte s b) /\
  adler_byte s b = (s.1 + b, s.2 + (s.1 + b)).
Proof.
  intros Hk (H1 & H2 & H3) Hb. unfold byte_ok in Hb. unfold adler_byte, adler_bound.
  assert (u32 (s.1 + b) = s.1 + b) as E1 by (apply u32_small; lia). rewrite E1.
  assert (u32 (s.2 + (s.1 + b)) = s.2 + (s.1 + b)) as E2 by (apply u32_small; nia).
  rewrite E2. split; [|done]. cbn [fst snd]. split; [lia|]. split; [lia|]. nia.
Qed.

Lemma adler_fold_ref p k s :
  bytes_ok p -> 0 <= k -> k + zlen p <= 5552 -> adler_bound k s ->
  adler_reduce (fold_left adler_byte p s) = fold_left adler_ref_byte p (adler_reduce s).
Proof.
  intros Hp. revert k s. induction Hp as [|b p Hb Hp IH]; intros k s Hk Hlen Hs; [done|].
  rewrite zlen_cons in Hlen. pose proof (zlen_nonneg p). cbn [fold_left].
  destruct (adler_byte_bound k s b ltac:(lia) Hs Hb) as [Hs' E].
  rewrite (IH (k + 1)) by (done || lia). f_equal. rewrite E.
  unfold adler_reduce, adler_ref_byte. cbn [fst snd].
  rewrite Z.add_mod_idemp_l by done. f_equal.
  rewrite <- Z.add_mod by done. done.
Qed.

Lemma adler_ok_reduce s : adler_ok s -> adler_reduce s = s.
Proof.
  intros [H1 H2]. unfold adler_reduce. rewrite !Z.mod_small by done. by destruct s.
Qed.

Lemma adler_ok_bound s : adler_ok s -> adler_bound 0 s.
Proof. unfold adler_ok, adler_bound, ADLER_BASE. lia. Qed.

Lemma adler_ref_ok p s : adler_ok s -> adler_ok (fold_left adler_ref_byte p s).
Proof.
  revert s. induction p as [|b p IH]; intros s Hs; [done|]. cbn [fold_left]. apply IH.
  unfold adler_ok, adler_ref_byte, ADLER_BASE. cbn [fst snd].
  split; apply Z.mod_pos_bound; lia.
Qed.

(** One round, on halves already reduced. *)
Lemma adler_round_ref p s n :
  bytes_ok p -> adler_ok s -> Z.of_nat n <= 5552 ->
  adler_reduce (adler_block s (take n p)) = fold_left adler_ref_byte (take n p) s.
Proof.
  intros Hp Hs Hn. rewrite adler_block_fold, (adler_fold_ref _ 0).
  - by rewrite adler_ok_reduce.
  - by apply bytes_ok_take.
  - done.
  - unfold zlen. rewrite length_take. lia.
  - by apply adler_ok_bound.
Qed.

Lemma adler_rounds_ref fuel p s n :
  bytes_ok p -> adler_ok s -> Z.of_nat n <= 5552 ->
  (length p < fuel + (if (n =? 0)%nat then 0 else 1))%nat \/ (0 < n /\ length p <= fuel)%nat ->
  adler_rounds fuel s n p = fold_left adler_ref_byte p s.
Proof.
  intros Hp Hs Hn Hfuel. revert p s n Hp Hs Hn Hfuel.
  induction fuel as [|fuel IH]; intros p s n Hp Hs Hn Hfuel.
  - destruct p; [done|]. cbn [length] in Hfuel. destruct (Nat.eqb_spec n 0); lia.
  - destruct p as [|b p]; [done|]. cbn [adler_rounds].
    set (q := b :: p) in *. rewrite adler_round_ref by done.
    rewrite IH.
    + by rewrite <- fold_left_app, take_drop.
    + by apply bytes_ok_drop.
    + by apply adler_ref_ok.
    + reflexivity.
    + right. split; [unfold ADLER_BLOCK; lia|]. rewrite length_drop.
      assert (0 < length q)%nat by (subst q; simpl; lia).
      destruct (Nat.eqb_spec n 0); lia.
Qed.

(** A running Adler-32 value: both halves are residues. *)
Definition adler_valid (a : Z) : Prop := adler_ok (a mod 65536, a / 65536).

Lemma adler_valid_range a : adler_valid a -> 0 <= a < 2 ^ 32.
Proof.
  intros [H1 H2]. cbn [fst snd] in *. unfold ADLER_BASE in *.
  pose proof (Z.div_mod a 65536 ltac:(lia)). lia.
Qed.

Lemma mz_adler32_ref a p :
  adler_valid a -> bytes_ok p -> mz_adler32 a (Some p) = adler_ref a p.
Proof.
  intros Ha Hp. pose proof (adler_valid_range a Ha) as Hr.
  unfold mz_adler32, adler_ref. rewrite u32_small by done.
  change 65535 with (Z.ones 16). rewrite Z.land_ones, Z.shiftr_div_pow2 by lia.
  change (2 ^ 16) with 65536. rewrite (u32_small (a / 65536)) by
    (split; [apply Z.div_pos; lia|apply Z.div_lt_upper_bound; lia]).
  rewrite adler_rounds_ref; [|done|done| |].
  - pose proof (adler_ref_ok p _ Ha) as [H1 H2].
    destruct (fold_left adler_ref_byte p (a mod 65536, a / 65536)) as [s1 s2].
    cbn [fst snd] in *. unfold ADLER_BASE in *. rewrite Z.shiftl_mul_pow2 by lia.
    apply u32_small. lia.
  - pose proof (Nat.mod_upper_bound (length p) ADLER_BLOCK) as H.
    unfold ADLER_BLOCK in *. lia.
  - left. lia.
Qed.

Lemma mz_adler32_valid a p :
  adler_valid a -> bytes_ok p -> adler_valid (mz_adler32 a (Some p)).
Proof.
  intros Ha Hp. rewrite mz_adler32_ref by done. unfold adler_ref.
  pose proof (adler_ref_ok p _ Ha) as Hok.
  destruct (fold_left adler_ref_byte p (a mod 65536, a / 65536)) as [s1 s2].
  unfold adler_valid. destruct Hok as [H1 H2]. cbn [fst snd] in *. unfold ADLER_BASE in *.
  rewrite Z.add_comm, Z.mod_add, Z.div_add, Z.mod_small, Z.div_small by lia. done.
Qed.

Lemma mz_adler32_app a p q :
  adler_valid a -> bytes_ok p -> bytes_ok q ->
  mz_adler32 (mz_adler32 a (Some p)) (Some q) = mz_adler32 a (Some (p ++ q)).
Proof.
  intros Ha Hp Hq. pose proof (mz_adler32_valid a p Ha Hp) as Hv.
  rewrite (mz_adler32_ref _ q), (mz_adler32_ref a (p ++ q)) by (done || by apply Forall_app).
  rewrite mz_adler32_ref by done. unfold adler_ref. rewrite fold_left_app.
  pose proof (adler_ref_ok p _ Ha) as [H1 H2].
  destruct (fold_left adler_ref_byte p (a mod 65536, a / 65536)) as [s1 s2].
  cbn [fst snd] in *. unfold ADLER_BASE in *.
  rewrite (Z.add_comm (s2 * 65536)), Z.mod_add, Z.div_add, (Z.mod_small s1), (Z.div_small s1) by lia.
  done.
Qed.

(** C34: the two checksums.  The table-driven, four-at-a-time CRC-32 is the bit-serial
    CRC-32 of the reflected polynomial 0xEDB88320, and the blocked, eight-at-a-time
    Adler-32, whose 32-bit sums are reduced only every 5552 bytes, never overflows and
    is the textbook pair of sums modulo 65521; both stay in 32 bits and both may be
    computed piecewise, cutting the data anywhere. *)
Theorem checksums_correct (crc adler : Z) (p q : bytes) :
  0 <= crc < 2 ^ 32 -> adler_valid adler -> bytes_ok p -> bytes_ok q ->
  mz_crc32 crc p = crc_ref crc p /\
  mz_adler32 adler (Some p) = adler_ref adler p /\
  0 <= mz_crc32 crc p < 2 ^ 32 /\
  adler_valid (mz_adler32 adler (Some p)) /\
  mz_crc32 (mz_crc32 crc p) q = mz_crc32 crc (p ++ q) /\
  mz_adler32 (mz_adler32 adler (Some p)) (Some q) = mz_adler32 adler (Some (p ++ q)).
Proof.
  intros. pose proof (mz_crc32_range crc p). split_and!;
    auto using mz_crc32_ref, mz_adler32_ref, mz_adler32_valid, mz_crc32_app, mz_adler32_app;
    tauto.
Qed.

Lemma checksums_correct_witness :
  mz_crc32 0 [49; 50; 51; 52; 53; 54; 55; 56; 57] = 0xcbf43926 /\
  mz_crc32 (mz_crc32 0 [49; 50; 51; 52]) [53; 54; 55; 56; 57] =
    mz_crc32 0 [49; 50; 51; 52; 53; 54; 55; 56; 57] /\
  mz_adler32 (mz_adler32 1 (Some [87; 105])) (Some [107; 105]) =
    mz_adler32 1 (Some [87; 105; 107; 105]).
Proof.
  destruct (checksums_correct 0 1 [49; 50; 51; 52] [53; 54; 55; 56; 57]
    ltac:(vm_compute; split; [discriminate|reflexivity])
    ltac:(vm_compute; repeat split; first [discriminate|reflexivity])
    (bytes_okb_ok [49; 50; 51; 52] eq_refl) (bytes_okb_ok [53; 54; 55; 56; 57] eq_refl)) as (_ & _ & _ & _ & E & _).
  destruct (checksums_correct 0 1 [87; 105] [107; 105]
    ltac:(vm_compute; split; [discriminate|reflexivity])
    ltac:(vm_compute; repeat split; first [discriminate|reflexivity])
    (bytes_okb_ok [87; 105] eq_refl) (bytes_okb_ok [107; 105] eq_refl)) as (_ & _ & _ & _ & _ & E').
  split; [vm_compute; reflexivity|]. split; [exact E|exact E'].
Defined.
