(* ===== verification/GzipHeader.v ===== *)
(** * The gzip header: src/zu_gzip.c

    The byte-at-a-time parser of the RFC 1952 member header and the header the encoder
    writes.  [gz_encode] is the grammar the parser is proved to recognise, exactly. *)
From S2P Require Import Prelude Types Checksum.

Definition GZ_FTEXT : Z := 1.
Definition GZ_FHCRC : Z := 2.
Definition GZ_FEXTRA : Z := 4.
Definition GZ_FNAME : Z := 8.
Definition GZ_FCOMMENT : Z := 16.
Definition GZ_RESERVED : Z := 0xe0.

Definition ZU_INT_GZIP_HEADER_LEN : Z := 10.
Definition ZU_INT_GZIP_MAX_FIELD : Z := 65535.

Inductive zu_int_gzip_state :=
  | ZU_INT_GZ_FIXED
  | ZU_INT_GZ_EXTRA_LEN
  | ZU_INT_GZ_EXTRA
  | ZU_INT_GZ_NAME
  | ZU_INT_GZ_COMMENT
  | ZU_INT_GZ_HCRC
  | ZU_INT_GZ_DONE.

#[export] Instance zu_int_gzip_state_eq_dec : EqDecision zu_int_gzip_state.
Proof. solve_decision. Defined.

Record zu_int_gzip_header := mk_gz {
  gz_state : zu_int_gzip_state;
  gz_fixed : bytes;
  gz_fixed_pos : Z;
  gz_flg : Z;
  gz_xlen : Z;
  gz_xlen_pos : Z;
  gz_xpos : Z;
  gz_field_len : Z;
  gz_hcrc : bytes;
  gz_hcrc_pos : Z;
  gz_crc : Z;
}.

(** [zu_int_gzip_write_header]: the ten bytes stored through [out]. *)
Definition zu_int_gzip_write_header : bytes := [0x1f; 0x8b; 8; 0; 0; 0; 0; 0; 0; 255].

Definition zu_int_gzip_header_init : zu_int_gzip_header :=
  mk_gz ZU_INT_GZ_FIXED (replicate 10 0) 0 0 0 0 0 0 (replicate 2 0) 0 (mz_crc32 0 []).

(** The state after the optional fields up to FEXTRA, FNAME and FCOMMENT. *)
Definition gz_after_comment (flg : Z) : zu_int_gzip_state :=
  if has_flag flg GZ_FHCRC then ZU_INT_GZ_HCRC else ZU_INT_GZ_DONE.
Definition gz_after_name (flg : Z) : zu_int_gzip_state :=
  if has_flag flg GZ_FCOMMENT then ZU_INT_GZ_COMMENT else gz_after_comment flg.
Definition gz_after_extra (flg : Z) : zu_int_gzip_state :=
  if has_flag flg GZ_FNAME then ZU_INT_GZ_NAME else gz_after_name flg.
Definition gz_after_fixed (flg : Z) : zu_int_gzip_state :=
  if has_flag flg GZ_FEXTRA then ZU_INT_GZ_EXTRA_LEN else gz_after_extra flg.

(** Record updates. *)
Definition gz_set_state (h : zu_int_gzip_header) (st : zu_int_gzip_state) : zu_int_gzip_header :=
  mk_gz st (gz_fixed h) (gz_fixed_pos h) (gz_flg h) (gz_xlen h) (gz_xlen_pos h) (gz_xpos h)
    (gz_field_len h) (gz_hcrc h) (gz_hcrc_pos h) (gz_crc h).
Definition gz_set_crc (h : zu_int_gzip_header) (crc : Z) : zu_int_gzip_header :=
  mk_gz (gz_state h) (gz_fixed h) (gz_fixed_pos h) (gz_flg h) (gz_xlen h) (gz_xlen_pos h)
    (gz_xpos h) (gz_field_len h) (gz_hcrc h) (gz_hcrc_pos h) crc.
Definition gz_set_flg (h : zu_int_gzip_header) (flg : Z) : zu_int_gzip_header :=
  mk_gz (gz_state h) (gz_fixed h) (gz_fixed_pos h) flg (gz_xlen h) (gz_xlen_pos h)
    (gz_xpos h) (gz_field_len h) (gz_hcrc h) (gz_hcrc_pos h) (gz_crc h).
Definition gz_set_field_len (h : zu_int_gzip_header) (n : Z) : zu_int_gzip_header :=
  mk_gz (gz_state h) (gz_fixed h) (gz_fixed_pos h) (gz_flg h) (gz_xlen h) (gz_xlen_pos h)
    (gz_xpos h) n (gz_hcrc h) (gz_hcrc_pos h) (gz_crc h).
Definition gz_set_xpos (h : zu_int_gzip_header) (n : Z) : zu_int_gzip_header :=
  mk_gz (gz_state h) (gz_fixed h) (gz_fixed_pos h) (gz_flg h) (gz_xlen h) (gz_xlen_pos h)
    n (gz_field_len h) (gz_hcrc h) (gz_hcrc_pos h) (gz_crc h).

(** [h->fixed[h->fixed_pos++] = byte], [h->xlen |= ...; ++h->xlen_pos] and
    [h->hcrc[h->hcrc_pos++] = byte]. *)
Definition gz_store_fixed (h : zu_int_gzip_header) (byte : Z) : zu_int_gzip_header :=
  mk_gz (gz_state h) (<[Z.to_nat (gz_fixed_pos h) := byte]> (gz_fixed h)) (gz_fixed_pos h + 1)
    (gz_flg h) (gz_xlen h) (gz_xlen_pos h) (gz_xpos h) (gz_field_len h) (gz_hcrc h)
    (gz_hcrc_pos h) (gz_crc h).
Definition gz_store_xlen (h : zu_int_gzip_header) (byte : Z) : zu_int_gzip_header :=
  mk_gz (gz_state h) (gz_fixed h) (gz_fixed_pos h) (gz_flg h)
    (u16 (Z.lor (gz_xlen h) (u16 (Z.shiftl byte (8 * gz_xlen_pos h))))) (gz_xlen_pos h + 1)
    (gz_xpos h) (gz_field_len h) (gz_hcrc h) (gz_hcrc_pos h) (gz_crc h).
Definition gz_store_hcrc (h : zu_int_gzip_header) (byte : Z) : zu_int_gzip_header :=
  mk_gz (gz_state h) (gz_fixed h) (gz_fixed_pos h) (gz_flg h) (gz_xlen h) (gz_xlen_pos h)
    (gz_xpos h) (gz_field_len h) (<[Z.to_nat (gz_hcrc_pos h) := byte]> (gz_hcrc h))
    (gz_hcrc_pos h + 1) (gz_crc h).

(** How a [case] of the switch ends: [return st;], or [break;] into the check for the
    end of the header. *)
Inductive gz_case :=
  | gz_return (st : zu_status) (h : zu_int_gzip_header)
  | gz_break (h : zu_int_gzip_header).

(** [case ZU_INT_GZ_FIXED] *)
Definition gz_feed_fixed (h0 : zu_int_gzip_header) (byte : Z) : gz_case :=
  let h := gz_store_fixed h0 byte in
  if (gz_fixed_pos h =? 1) && negb (byte =? 0x1f) then gz_return ZU_ERR_INVALID_DATA h
  else if (gz_fixed_pos h =? 2) && negb (byte =? 0x8b) then gz_return ZU_ERR_INVALID_DATA h
  else if (gz_fixed_pos h =? 3) && negb (byte =? 8) then gz_return ZU_ERR_INVALID_DATA h
  else if (gz_fixed_pos h =? 4) && has_flag byte GZ_RESERVED
  then gz_return ZU_ERR_INVALID_DATA h
  else
    let h := if gz_fixed_pos h =? 4 then gz_set_flg h byte else h in
    if gz_fixed_pos h <? ZU_INT_GZIP_HEADER_LEN then gz_return ZU_OK h
    else gz_break (gz_set_state h (gz_after_fixed (gz_flg h))).

(** [case ZU_INT_GZ_NAME] and [case ZU_INT_GZ_COMMENT], up to the state that follows. *)
Definition gz_feed_field (h : zu_int_gzip_header) (byte : Z) (next : zu_int_gzip_state) :
    gz_case :=
  if negb (byte =? 0)
  then
    let h := gz_set_field_len h (gz_field_len h + 1) in
    if gz_field_len h >? ZU_INT_GZIP_MAX_FIELD then gz_return ZU_ERR_INVALID_DATA h
    else gz_return ZU_OK h
  else gz_break (gz_set_state (gz_set_field_len h 0) next).

(** [case ZU_INT_GZ_HCRC] *)
Definition gz_feed_hcrc (h0 : zu_int_gzip_header) (byte : Z) : gz_case :=
  let h := gz_store_hcrc h0 byte in
  if gz_hcrc_pos h <? 2 then gz_return ZU_OK h
  else
    let want := u16 (Z.lor (byte_at (gz_hcrc h) 0) (Z.shiftl (byte_at (gz_hcrc h) 1) 8)) in
    if negb (want =? u16 (Z.land (gz_crc h) 0xffff)) then gz_return ZU_ERR_CHECKSUM h
    else gz_break (gz_set_state h ZU_INT_GZ_DONE).

(** The switch. *)
Definition gz_switch (h : zu_int_gzip_header) (byte : Z) : gz_case :=
  match gz_state h with
  | ZU_INT_GZ_FIXED => gz_feed_fixed h byte
  | ZU_INT_GZ_EXTRA_LEN =>
      let h := gz_store_xlen h byte in
      if gz_xlen_pos h <? 2 then gz_return ZU_OK h
      else gz_break (gz_set_state h
             (if gz_xlen h >? 0 then ZU_INT_GZ_EXTRA else gz_after_extra (gz_flg h)))
  | ZU_INT_GZ_EXTRA =>
      let h := gz_set_xpos h (gz_xpos h + 1) in
      if gz_xpos h <? gz_xlen h then gz_return ZU_OK h
      else gz_break (gz_set_state h (gz_after_extra (gz_flg h)))
  | ZU_INT_GZ_NAME => gz_feed_field h byte (gz_after_name (gz_flg h))
  | ZU_INT_GZ_COMMENT => gz_feed_field h byte (gz_after_comment (gz_flg h))
  | ZU_INT_GZ_HCRC => gz_feed_hcrc h byte
  | ZU_INT_GZ_DONE => gz_return ZU_ERR_INTERNAL h
  end.

(** One byte: the status, the parser and [*done]. *)
Definition zu_int_gzip_header_feed (h : zu_int_gzip_header) (byte : Z) :
    zu_status * zu_int_gzip_header * bool :=
  let h :=
    if bool_decide (gz_state h = ZU_INT_GZ_HCRC) then h
    else gz_set_crc h (mz_crc32 (gz_crc h) [byte]) in
  match gz_switch h byte with
  | gz_return st h' => (st, h', false)
  | gz_break h' => (ZU_OK, h', bool_decide (gz_state h' = ZU_INT_GZ_DONE))
  end.

(** ** A whole header, fed byte by byte *)

Inductive gz_outcome :=
  | gz_more (h : zu_int_gzip_header)                       (** every byte taken, header not over *)
  | gz_complete (h : zu_int_gzip_header) (rest : bytes)    (** header over, [rest] unread *)
  | gz_failed (st : zu_status) (rest : bytes).

Fixpoint gz_run (h : zu_int_gzip_header) (l : bytes) : gz_outcome :=
  match l with
  | [] => gz_more h
  | b :: l' =>
      match zu_int_gzip_header_feed h b with
      | (ZU_OK, h', true) => gz_complete h' l'
      | (ZU_OK, h', false) => gz_run h' l'
      | (st, _, _) => gz_failed st l'
      end
  end.

(** ** The grammar *)

Record gz_fields := mk_fields {
  gf_flg : Z;
  gf_rest : bytes;       (** MTIME, XFL, OS *)
  gf_extra : bytes;      (** read only with FEXTRA *)
  gf_name : bytes;       (** ... with FNAME *)
  gf_comment : bytes;    (** ... with FCOMMENT *)
}.

Definition gz_field_ok (l : bytes) : Prop :=
  Forall (fun b => 0 < b < 256) l /\ zlen l <= ZU_INT_GZIP_MAX_FIELD.

Record gz_fields_ok (g : gz_fields) : Prop := {
  gfo_flg : byte_ok (gf_flg g);
  gfo_reserved : has_flag (gf_flg g) GZ_RESERVED = false;
  gfo_rest : bytes_ok (gf_rest g) /\ length (gf_rest g) = 6%nat;
  gfo_extra : bytes_ok (gf_extra g) /\ zlen (gf_extra g) < 65536;
  gfo_name : gz_field_ok (gf_name g);
  gfo_comment : gz_field_ok (gf_comment g);
}.

Definition gz_when (flg bit : Z) (l : bytes) : bytes := if has_flag flg bit then l else [].

(** The header up to FHCRC, and with it. *)
Definition gz_body (g : gz_fields) : bytes :=
  [0x1f; 0x8b; 8; gf_flg g] ++ gf_rest g ++
  gz_when (gf_flg g) GZ_FEXTRA (le_bytes 2 (zlen (gf_extra g)) ++ gf_extra g) ++
  gz_when (gf_flg g) GZ_FNAME (gf_name g ++ [0]) ++
  gz_when (gf_flg g) GZ_FCOMMENT (gf_comment g ++ [0]).

Definition gz_encode (g : gz_fields) : bytes :=
  gz_body g ++ gz_when (gf_flg g) GZ_FHCRC (le_bytes 2 (mz_crc32 0 (gz_body g))).

(** ** Lemmas: the parser, phase by phase *)

Definition gz_resume (h : zu_int_gzip_header) (l : bytes) : gz_outcome :=
  if bool_decide (gz_state h = ZU_INT_GZ_DONE) then gz_complete h l else gz_run h l.

(** From [h], the parser takes a prefix of [l] as the rest of the header and leaves [tl]. *)
Definition gz_accepts (h : zu_int_gzip_header) (l tl : bytes) : Prop :=
  exists h', gz_resume h l = gz_complete h' tl.

(** What the phases after the extra field rely on. *)
Record gz_tail_ok (h : zu_int_gzip_header) : Prop := {
  gto_field : gz_field_len h = 0;
  gto_hcrc_pos : gz_hcrc_pos h = 0;
  gto_hcrc : length (gz_hcrc h) = 2%nat;
  gto_crc : 0 <= gz_crc h < 2 ^ 32;
}.

Definition gz_eat (h : zu_int_gzip_header) (b : Z) : zu_int_gzip_header :=
  gz_set_crc h (mz_crc32 (gz_crc h) [b]).

Lemma gz_feed_eat h b :
  gz_state h <> ZU_INT_GZ_HCRC ->
  zu_int_gzip_header_feed h b =
  match gz_switch (gz_eat h b) b with
  | gz_return st h' => (st, h', false)
  | gz_break h' => (ZU_OK, h', bool_decide (gz_state h' = ZU_INT_GZ_DONE))
  end.
Proof. intros H. unfold zu_int_gzip_header_feed. by rewrite bool_decide_eq_false_2. Qed.

Lemma gz_resume_run h l : gz_state h <> ZU_INT_GZ_DONE -> gz_resume h l = gz_run h l.
Proof. intros. unfold gz_resume. by rewrite bool_decide_eq_false_2. Qed.

Lemma gz_run_break h b h' l :
  zu_int_gzip_header_feed h b = (ZU_OK, h', bool_decide (gz_state h' = ZU_INT_GZ_DONE)) ->
  gz_run h (b :: l) = gz_resume h' l.
Proof. intros E. cbn [gz_run]. rewrite E. unfold gz_resume. by case_bool_decide. Qed.

Lemma gz_accepts_done h l tl : gz_state h = ZU_INT_GZ_DONE -> gz_accepts h l tl <-> l = tl.
Proof.
  intros H. unfold gz_accepts, gz_resume. rewrite bool_decide_eq_true_2 by done.
  split; [by intros [h' [= _ ->]]|intros ->; eauto].
Qed.

Lemma mz_crc32_byte_range crc b :
  0 <= crc < 2 ^ 32 -> byte_ok b -> 0 <= mz_crc32 crc [b] < 2 ^ 32.
Proof. intros. apply mz_crc32_range; [done|]. by apply Forall_singleton. Qed.

Lemma mz_crc32_cons crc b l :
  0 <= crc < 2 ^ 32 -> byte_ok b -> bytes_ok l ->
  mz_crc32 (mz_crc32 crc [b]) l = mz_crc32 crc (b :: l).
Proof. intros. apply (mz_crc32_app crc [b] l); [done| |done]. by apply Forall_singleton. Qed.

Lemma le_bytes_2 z : le_bytes 2 z = [z mod 256; (z / 256) mod 256].
Proof. done. Qed.

Lemma gz_feed_hcrc_eq h b :
  gz_state h = ZU_INT_GZ_HCRC ->
  zu_int_gzip_header_feed h b =
  match gz_feed_hcrc h b with
  | gz_return st h' => (st, h', false)
  | gz_break h' => (ZU_OK, h', bool_decide (gz_state h' = ZU_INT_GZ_DONE))
  end.
Proof.
  intros H. unfold zu_int_gzip_header_feed. rewrite bool_decide_eq_true_2 by done.
  unfold gz_switch. by rewrite H.
Qed.

Lemma hcrc_word a b c :
  byte_ok a -> byte_ok b ->
  (u16 (Z.lor a (Z.shiftl b 8)) =? u16 (Z.land c 0xffff)) = true <-> [a; b] = le_bytes 2 c.
Proof.
  unfold byte_ok. intros Ha Hb. rewrite lor_shiftl_add, le_bytes_2 by lia.
  change 0xffff with (Z.ones 16). rewrite Z.land_ones by lia. unfold u16.
  rewrite Z.mod_mod, Z.mod_small by lia. rewrite Z.eqb_eq.
  change (2 ^ 16) with (256 * 256). rewrite Z.rem_mul_r by lia.
  pose proof (Z.mod_pos_bound c 256 ltac:(lia)).
  pose proof (Z.mod_pos_bound (c / 256) 256 ltac:(lia)).
  split; [intros; f_equal; [|f_equal]; lia|intros [= -> ->]; lia].
Qed.

(** FHCRC: the two bytes are the low half of the running CRC. *)
Lemma gz_accepts_hcrc h l tl :
  gz_tail_ok h -> gz_state h = ZU_INT_GZ_HCRC -> bytes_ok l ->
  gz_accepts h l tl <-> l = le_bytes 2 (gz_crc h) ++ tl.
Proof.
  intros [_ Hp Hl Hc] Hs Hb. unfold gz_accepts. rewrite gz_resume_run by (by rewrite Hs).
  destruct (gz_hcrc h) as [|c0 [|c1 [|]]] eqn:Eh; try done.
  assert (Hfeed : forall a, zu_int_gzip_header_feed h a = (ZU_OK, gz_store_hcrc h a, false)).
  { intros a. rewrite gz_feed_hcrc_eq by done. unfold gz_feed_hcrc. cbn. by rewrite Hp. }
  destruct l as [|a [|b l]]; cbn [gz_run]; rewrite ?Hfeed.
  - split; [by intros [h' [=]]|done].
  - split; [by intros [h' [=]]|done].
  - apply Forall_cons in Hb as [Ha [Hb _]%Forall_cons].
    rewrite gz_feed_hcrc_eq by done. unfold gz_feed_hcrc.
    replace (gz_hcrc_pos (gz_store_hcrc (gz_store_hcrc h a) b)) with 2 by (cbn; lia).
    replace (gz_hcrc (gz_store_hcrc (gz_store_hcrc h a) b)) with [a; b]
      by (cbn; by rewrite Hp, Eh).
    change (2 <? 2) with false. cbv iota. cbn [gz_crc gz_store_hcrc].
    change (byte_at [a; b] 0) with a. change (byte_at [a; b] 1) with b.
    pose proof (hcrc_word a b (gz_crc h) Ha Hb) as Hw.
    change (a :: b :: l) with ([a; b] ++ l).
    destruct (u16 _ =? u16 _); cbn [negb].
    + destruct Hw as [Hw _]. rewrite <- Hw by done.
      rewrite bool_decide_eq_true_2 by done. split; [by intros [h' [= _ ->]]|].
      intros [= ->]. eauto.
    + split; [by intros [h' [=]]|]. intros E. exfalso.
      rewrite le_bytes_2 in *. cbn [app] in E. injection E as -> -> ->.
      by destruct Hw as [_ Hw]; specialize (Hw eq_refl).
Qed.

Lemma gz_accepts_after_comment h l tl :
  gz_tail_ok h -> gz_state h = gz_after_comment (gz_flg h) -> bytes_ok l ->
  gz_accepts h l tl <-> l = gz_when (gz_flg h) GZ_FHCRC (le_bytes 2 (gz_crc h)) ++ tl.
Proof.
  intros Ht Hs Hb. unfold gz_after_comment, gz_when in *.
  destruct (has_flag (gz_flg h) GZ_FHCRC).
  - by apply gz_accepts_hcrc.
  - by apply gz_accepts_done.
Qed.

(** The header after a NUL-terminated field was taken. *)
Definition gz_field_done (h : zu_int_gzip_header) (next : zu_int_gzip_state) (eaten : bytes) :
    zu_int_gzip_header :=
  gz_set_state (gz_set_field_len (gz_set_crc h (mz_crc32 (gz_crc h) eaten)) 0) next.

(** FNAME and FCOMMENT, with what follows them. *)
Definition gz_in_field (h : zu_int_gzip_header) (next : zu_int_gzip_state) : Prop :=
  (gz_state h = ZU_INT_GZ_NAME /\ next = gz_after_name (gz_flg h)) \/
  (gz_state h = ZU_INT_GZ_COMMENT /\ next = gz_after_comment (gz_flg h)).

Lemma gz_feed_in_field h next b :
  gz_in_field h next ->
  zu_int_gzip_header_feed h b =
  match gz_feed_field (gz_eat h b) b next with
  | gz_return st h' => (st, h', false)
  | gz_break h' => (ZU_OK, h', bool_decide (gz_state h' = ZU_INT_GZ_DONE))
  end.
Proof.
  intros [[Hs ->]|[Hs ->]]; rewrite gz_feed_eat by (by rewrite Hs); unfold gz_switch;
    change (gz_state (gz_eat h b)) with (gz_state h); by rewrite Hs.
Qed.

Lemma gz_in_field_not_done h next : gz_in_field h next -> gz_state h <> ZU_INT_GZ_DONE.
Proof. by intros [[-> _]|[-> _]]. Qed.

Lemma bytes_ok_zero : byte_ok 0.
Proof. unfold byte_ok. lia. Qed.

Lemma gz_accepts_field l tl : forall h next,
  gz_in_field h next -> 0 <= gz_field_len h <= ZU_INT_GZIP_MAX_FIELD ->
  0 <= gz_crc h < 2 ^ 32 -> bytes_ok l ->
  gz_accepts h l tl <->
  exists c l', l = c ++ 0 :: l' /\ Forall (fun b => 0 < b < 256) c /\
    gz_field_len h + zlen c <= ZU_INT_GZIP_MAX_FIELD /\
    gz_accepts (gz_field_done h next (c ++ [0])) l' tl.
Proof.
  induction l as [|b l IH]; intros h next Hin Hlen Hcrc Hl; unfold gz_accepts at 1;
    rewrite gz_resume_run by (by eapply gz_in_field_not_done).
  { split; [by intros [h' [=]]|]. by intros ([|? ?] & l' & [=] & _). }
  apply Forall_cons in Hl as [Hb Hl].
  destruct (Z.eq_dec b 0) as [->|Hb0].
  - rewrite (gz_run_break h 0 (gz_field_done h next [0])) by
      (rewrite (gz_feed_in_field h next) by done; done).
    split.
    + intros Hacc. exists [], l. split_and!; try done. change (zlen []) with 0. lia.
    + intros ([|x c] & l' & E & Hc & _ & Hacc); simplify_eq/=; [done|].
      apply Forall_cons in Hc as [Hx _]. lia.
  - cbn [gz_run]. rewrite (gz_feed_in_field h next) by done. unfold gz_feed_field.
    destruct (Z.eqb_spec b 0); [lia|]. cbn [negb].
    change (gz_field_len (gz_set_field_len (gz_eat h b) (gz_field_len (gz_eat h b) + 1)))
      with (gz_field_len h + 1).
    change (gz_field_len (gz_eat h b)) with (gz_field_len h).
    set (h1 := gz_set_field_len (gz_eat h b) (gz_field_len h + 1)).
    assert (Hsplit : (exists c l', b :: l = c ++ 0 :: l' /\ Forall (fun b => 0 < b < 256) c /\
        gz_field_len h + zlen c <= ZU_INT_GZIP_MAX_FIELD /\
        gz_accepts (gz_field_done h next (c ++ [0])) l' tl) <->
      (exists c l', l = c ++ 0 :: l' /\ Forall (fun b => 0 < b < 256) c /\
        gz_field_len h + 1 + zlen c <= ZU_INT_GZIP_MAX_FIELD /\
        gz_accepts (gz_field_done h1 next (c ++ [0])) l' tl)).
    { assert (Heq : forall c, Forall (fun b => 0 < b < 256) c ->
        gz_field_done h1 next (c ++ [0]) = gz_field_done h next ((b :: c) ++ [0])).
      { intros c Hc. unfold gz_field_done, h1, gz_set_state, gz_set_field_len, gz_set_crc, gz_eat.
        cbn. f_equal. apply mz_crc32_cons; [done|done|].
        apply Forall_app. split; [|by apply Forall_singleton, bytes_ok_zero].
        eapply Forall_impl; [exact Hc|]. unfold byte_ok. intros; lia. }
      split.
      - intros ([|x c] & l' & E & Hc & Hn & Hacc); simplify_eq/=.
        apply Forall_cons in Hc as [Hx Hc]. rewrite zlen_cons in Hn.
        exists c, l'. split_and!; [done|done|lia|]. by rewrite Heq.
      - intros (c & l' & -> & Hc & Hn & Hacc). exists (b :: c), l'.
        rewrite zlen_cons. unfold byte_ok in Hb.
        split_and!; [done|apply Forall_cons_2; [lia|done]|lia|]. by rewrite <- Heq. }
    rewrite Hsplit. clear Hsplit. rewrite Z.gtb_ltb.
    destruct (Z.ltb_spec ZU_INT_GZIP_MAX_FIELD (gz_field_len h + 1)) as [Hover|Hok].
    + split; [by intros [h' [=]]|]. intros (c & l' & _ & _ & Hn & _).
      pose proof (zlen_nonneg c). lia.
    + assert (Hin1 : gz_in_field h1 next) by exact Hin.
      pose proof (IH h1 next Hin1) as IH1. change (gz_field_len h1) with (gz_field_len h + 1) in IH1.
      rewrite <- IH1; [|lia|by apply mz_crc32_byte_range|done].
      unfold gz_accepts. by rewrite gz_resume_run by (by eapply gz_in_field_not_done).
Qed.

Lemma gz_field_ok_nil : gz_field_ok [].
Proof. split; [apply Forall_nil_2|]. unfold ZU_INT_GZIP_MAX_FIELD. change (zlen []) with 0. lia. Qed.

Lemma gz_field_bytes c : gz_field_ok c -> bytes_ok (c ++ [0]).
Proof.
  intros [Hc _]. apply Forall_app. split; [|by apply Forall_singleton, bytes_ok_zero].
  eapply Forall_impl; [exact Hc|]. unfold byte_ok. intros; lia.
Qed.

Lemma mz_crc32_nil crc : 0 <= crc < 2 ^ 32 -> mz_crc32 crc [] = crc.
Proof. intros. rewrite mz_crc32_ref by (done || apply Forall_nil_2). apply lnot32_invol. Qed.

Lemma gz_field_done_ok h next eaten :
  gz_tail_ok h -> bytes_ok eaten -> gz_tail_ok (gz_field_done h next eaten).
Proof.
  intros [H1 H2 H3 H4] He. constructor; try done. by apply mz_crc32_range.
Qed.

(** FCOMMENT and what follows. *)
Lemma gz_accepts_after_name h l tl :
  gz_tail_ok h -> gz_state h = gz_after_name (gz_flg h) -> bytes_ok l ->
  gz_accepts h l tl <->
  exists c, gz_field_ok c /\
    let B := gz_when (gz_flg h) GZ_FCOMMENT (c ++ [0]) in
    l = B ++ gz_when (gz_flg h) GZ_FHCRC (le_bytes 2 (mz_crc32 (gz_crc h) B)) ++ tl.
Proof.
  intros Ht Hs Hl. unfold gz_after_name in Hs. unfold gz_when.
  destruct (has_flag (gz_flg h) GZ_FCOMMENT).
  - assert (Hin : gz_in_field h (gz_after_comment (gz_flg h))) by (by right).
    rewrite (gz_accepts_field _ _ _ _ Hin);
      [|rewrite (gto_field _ Ht); unfold ZU_INT_GZIP_MAX_FIELD; lia|by apply gto_crc|done].
    rewrite (gto_field _ Ht). split.
    + intros (c & l' & -> & Hc & Hn & Hacc). exists c.
      assert (Hok : gz_field_ok c) by (split; [done|lia]). split; [done|].
      apply Forall_app in Hl as [_ [_ Hl]%Forall_cons].
      apply gz_accepts_after_comment in Hacc; [|by apply gz_field_done_ok, gz_field_bytes|done|done].
      rewrite Hacc. by rewrite <- (assoc_L (++)).
    + intros (c & Hok & ->). eexists c, _. rewrite <- (assoc_L (++)) in *. split; [done|].
      split; [by destruct Hok|]. split; [destruct Hok; lia|].
      apply gz_accepts_after_comment; [by apply gz_field_done_ok, gz_field_bytes|done| |done].
      apply Forall_app in Hl as [_ [_ Hl]%Forall_cons]. done.
  - rewrite gz_accepts_after_comment by done. rewrite mz_crc32_nil by (by apply gto_crc).
    split; [intros ->; exists []; split; [apply gz_field_ok_nil|done]|by intros (c & _ & ->)].
Qed.

(** FNAME, FCOMMENT and FHCRC, as the header's [flg] announces them; [crc] covers what
    came before. *)
Definition gz_rest (flg crc : Z) (l tl : bytes) : Prop :=
  exists n c, gz_field_ok n /\ gz_field_ok c /\
    let AB := gz_when flg GZ_FNAME (n ++ [0]) ++ gz_when flg GZ_FCOMMENT (c ++ [0]) in
    l = AB ++ gz_when flg GZ_FHCRC (le_bytes 2 (mz_crc32 crc AB)) ++ tl.

Lemma gz_when_bytes flg bit l : bytes_ok l -> bytes_ok (gz_when flg bit l).
Proof. unfold gz_when. destruct (has_flag flg bit); [done|]. intros. apply Forall_nil_2. Qed.

Lemma gz_when_on flg bit l : has_flag flg bit = true -> gz_when flg bit l = l.
Proof. unfold gz_when. by intros ->. Qed.

Lemma gz_when_off flg bit l : has_flag flg bit = false -> gz_when flg bit l = [].
Proof. unfold gz_when. by intros ->. Qed.

Lemma gz_accepts_after_extra h l tl :
  gz_tail_ok h -> gz_state h = gz_after_extra (gz_flg h) -> bytes_ok l ->
  gz_accepts h l tl <-> gz_rest (gz_flg h) (gz_crc h) l tl.
Proof.
  intros Ht Hs Hl. pose proof (gto_crc _ Ht) as Hcrc. unfold gz_rest.
  unfold gz_after_extra in Hs. destruct (has_flag (gz_flg h) GZ_FNAME) eqn:Ef.
  - assert (Hin : gz_in_field h (gz_after_name (gz_flg h))) by (by left).
    rewrite (gz_accepts_field _ _ _ _ Hin);
      [|rewrite (gto_field _ Ht); unfold ZU_INT_GZIP_MAX_FIELD; lia|done|done].
    rewrite (gto_field _ Ht). split.
    + intros (n & l' & -> & Hn & Hlen & Hacc).
      assert (Hok : gz_field_ok n) by (split; [done|lia]).
      apply Forall_app in Hl as [_ [_ Hl]%Forall_cons].
      apply gz_accepts_after_name in Hacc as (c & Hc & E);
        [|by apply gz_field_done_ok, gz_field_bytes|done|done].
      exists n, c. split_and!; [done|done|]. rewrite (gz_when_on _ _ _ Ef), E. cbn [gz_field_done gz_crc gz_flg
        gz_set_state gz_set_field_len gz_set_crc].
      rewrite mz_crc32_app; [|done|by apply gz_field_bytes|by apply gz_when_bytes, gz_field_bytes].
      by rewrite <- !(assoc_L (++)).
    + intros (n & c & Hn & Hc & E). rewrite (gz_when_on _ _ _ Ef) in E.
      rewrite <- !(assoc_L (++)) in E. rewrite E in Hl |- *.
      eexists n, _. split; [done|]. split; [by destruct Hn|]. split; [destruct Hn; lia|].
      apply gz_accepts_after_name; [by apply gz_field_done_ok, gz_field_bytes|done| |].
      { apply Forall_app in Hl as [_ [_ Hl]%Forall_cons]. done. }
      exists c. split; [done|]. cbn [gz_field_done gz_crc gz_flg gz_set_state gz_set_field_len
        gz_set_crc app].
      rewrite mz_crc32_app; [by rewrite <- (assoc_L (++) n)|done|by apply gz_field_bytes|
        by apply gz_when_bytes, gz_field_bytes].
  - rewrite gz_accepts_after_name by done. split.
    + intros (c & Hc & ->). exists [], c.
      split_and!; [apply gz_field_ok_nil|done|]. by rewrite (gz_when_off _ _ _ Ef).
    + intros (n & c & Hn & Hc & ->). exists c. by rewrite (gz_when_off _ _ _ Ef).
Qed.

(** The extra field's bytes. *)
Lemma gz_accepts_extra l tl : forall h,
  gz_tail_ok h -> gz_state h = ZU_INT_GZ_EXTRA -> gz_xpos h < gz_xlen h -> bytes_ok l ->
  gz_accepts h l tl <->
  exists e l', l = e ++ l' /\ zlen e = gz_xlen h - gz_xpos h /\
    gz_rest (gz_flg h) (mz_crc32 (gz_crc h) e) l' tl.
Proof.
  induction l as [|b l IH]; intros h Ht Hs Hx Hl; unfold gz_accepts at 1;
    rewrite gz_resume_run by (by rewrite Hs); pose proof (gto_crc _ Ht) as Hcrc.
  { split; [by intros [h' [=]]|]. intros ([|? ?] & l' & [=] & Hn & _).
    change (zlen []) with 0 in Hn. lia. }
  apply Forall_cons in Hl as [Hb Hl].
  assert (Hfeed : zu_int_gzip_header_feed h b =
    let h1 := gz_set_xpos (gz_eat h b) (gz_xpos h + 1) in
    if gz_xpos h + 1 <? gz_xlen h then (ZU_OK, h1, false)
    else (ZU_OK, gz_set_state h1 (gz_after_extra (gz_flg h)),
          bool_decide (gz_after_extra (gz_flg h) = ZU_INT_GZ_DONE))).
  { rewrite gz_feed_eat by (by rewrite Hs). unfold gz_switch.
    change (gz_state (gz_eat h b)) with (gz_state h). rewrite Hs.
    cbn [gz_set_xpos gz_xpos gz_eat gz_set_crc gz_xlen gz_flg]. by destruct (_ <? _). }
  assert (Hcut : forall e l', b :: l = e ++ l' -> zlen e = gz_xlen h - gz_xpos h ->
    exists e', e = b :: e' /\ l = e' ++ l').
  { intros [|x e] l' E Hn; simplify_eq/=; [change (zlen []) with 0 in Hn; lia|eauto]. }
  destruct (Z.ltb_spec (gz_xpos h + 1) (gz_xlen h)) as [Hlt|Hge].
  - cbn [gz_run]. rewrite Hfeed. cbv zeta.
    set (h1 := gz_set_xpos (gz_eat h b) (gz_xpos h + 1)).
    assert (Ht1 : gz_tail_ok h1).
    { destruct Ht as [H1 H2 H3 H4]. constructor; try done. by apply mz_crc32_byte_range. }
    pose proof (IH h1 Ht1 Hs Hlt Hl) as IH1. unfold gz_accepts in IH1 at 1.
    rewrite gz_resume_run in IH1 by (unfold h1; cbn; by rewrite Hs). rewrite IH1. clear IH1.
    cbn [h1 gz_set_xpos gz_xpos gz_eat gz_set_crc gz_xlen gz_flg gz_crc]. split.
    + intros (e & l' & -> & Hn & Hr). exists (b :: e), l'. rewrite zlen_cons.
      apply Forall_app in Hl as [He _]. rewrite mz_crc32_cons in Hr by done.
      split_and!; [done|lia|done].
    + intros (e & l' & E & Hn & Hr). destruct (Hcut e l' E Hn) as (e' & -> & ->).
      rewrite zlen_cons in Hn. apply Forall_app in Hl as [He _].
      exists e', l'. rewrite mz_crc32_cons by done. split_and!; [done|lia|done].
  - rewrite (gz_run_break h b (gz_set_state (gz_set_xpos (gz_eat h b) (gz_xpos h + 1))
      (gz_after_extra (gz_flg h)))) by (rewrite Hfeed; done).
    set (h1 := gz_set_state _ _).
    assert (Ht1 : gz_tail_ok h1).
    { destruct Ht as [H1 H2 H3 H4]. constructor; try done. by apply mz_crc32_byte_range. }
    change (gz_accepts h1 l tl <-> exists e l', b :: l = e ++ l' /\
      zlen e = gz_xlen h - gz_xpos h /\ gz_rest (gz_flg h) (mz_crc32 (gz_crc h) e) l' tl).
    rewrite gz_accepts_after_extra by done. split.
    + intros Hr. exists [b], l. split_and!; [done|change (zlen [b]) with 1; lia|done].
    + intros (e & l' & E & Hn & Hr). destruct (Hcut e l' E Hn) as (e' & -> & ->).
      rewrite zlen_cons in Hn. destruct e' as [|? e']; [done|].
      rewrite zlen_cons in Hn. pose proof (zlen_nonneg e'). lia.
Qed.

Lemma u16_small z : 0 <= z < 2 ^ 16 -> u16 z = z.
Proof. apply Z.mod_small. Qed.

Lemma le_bytes_2_word a b : byte_ok a -> byte_ok b -> le_bytes 2 (a + 256 * b) = [a; b].
Proof.
  unfold byte_ok. intros Ha Hb. rewrite le_bytes_2.
  rewrite (Z.mul_comm 256), Z.mod_add, Z.div_add, Z.mod_small, Z.div_small by lia.
  by rewrite Z.add_0_l, Z.mod_small.
Qed.

Lemma le_bytes_2_inj n m :
  0 <= n < 65536 -> 0 <= m < 65536 -> le_bytes 2 n = le_bytes 2 m -> n = m.
Proof.
  intros Hn Hm E. apply (f_equal le_value) in E. rewrite !le_value_bytes in E.
  change (256 ^ Z.of_nat 2) with 65536 in E. by rewrite !Z.mod_small in E.
Qed.

Lemma gz_set_state_fields h st :
  gz_xlen (gz_set_state h st) = gz_xlen h /\ gz_xpos (gz_set_state h st) = gz_xpos h /\
  gz_flg (gz_set_state h st) = gz_flg h.
Proof. done. Qed.

(** The two bytes of XLEN, and what they say about the field after them. *)
Lemma gz_extra_word a b l e l' :
  byte_ok a -> byte_ok b -> zlen e < 65536 ->
  a :: b :: l = (le_bytes 2 (zlen e) ++ e) ++ l' <-> zlen e = a + 256 * b /\ l = e ++ l'.
Proof.
  intros Ha Hb He. pose proof (zlen_nonneg e).
  rewrite <- (assoc_L (++)). change (a :: b :: l) with ([a; b] ++ l).
  rewrite <- (le_bytes_2_word a b) by done. split.
  - intros E. apply app_inj_1 in E as [E ->]; [|by rewrite !length_le_bytes].
    split; [|done]. symmetry. apply le_bytes_2_inj; [unfold byte_ok in *; lia|lia|done].
  - by intros [-> ->].
Qed.

(** The header once XLEN is read: its length, and the state it moved to. *)
Definition gz_xlen_read (h : zu_int_gzip_header) (a b : Z) : zu_int_gzip_header :=
  gz_set_state (gz_store_xlen (gz_eat (gz_store_xlen (gz_eat h a) a) b) b)
    (if a + 256 * b >? 0 then ZU_INT_GZ_EXTRA else gz_after_extra (gz_flg h)).

Lemma gz_run_xlen h a b l :
  gz_state h = ZU_INT_GZ_EXTRA_LEN -> gz_xlen h = 0 -> gz_xlen_pos h = 0 -> byte_ok a -> byte_ok b ->
  gz_run h (a :: b :: l) = gz_resume (gz_xlen_read h a b) l /\
  gz_xlen (gz_xlen_read h a b) = a + 256 * b.
Proof.
  intros Hs Hx0 Hp0 Ha Hb. set (h1 := gz_store_xlen (gz_eat h a) a).
  set (h2 := gz_store_xlen (gz_eat h1 b) b).
  assert (Hxlen : gz_xlen h2 = a + 256 * b).
  { unfold h2, h1. cbn [gz_store_xlen gz_xlen gz_xlen_pos gz_eat gz_set_crc].
    rewrite Hx0, Hp0. change (8 * 0) with 0. change (8 * (0 + 1)) with 8.
    rewrite Z.shiftl_0_r, Z.lor_0_l, !(u16_small a) by (unfold byte_ok in *; lia).
    rewrite (u16_small (Z.shiftl b 8)) by
      (rewrite Z.shiftl_mul_pow2 by lia; unfold byte_ok in *; lia).
    rewrite lor_shiftl_add by (unfold byte_ok in *; lia). apply u16_small. unfold byte_ok in *; lia. }
  split; [|exact Hxlen]. cbn [gz_run].
  assert (Hfeed : zu_int_gzip_header_feed h a = (ZU_OK, h1, false)).
  { rewrite gz_feed_eat by (by rewrite Hs). unfold gz_switch.
    change (gz_state (gz_eat h a)) with (gz_state h). rewrite Hs.
    cbn [gz_store_xlen gz_xlen_pos gz_eat gz_set_crc]. by rewrite Hp0. }
  rewrite Hfeed. change (gz_run h1 (b :: l) = gz_resume (gz_xlen_read h a b) l).
  apply gz_run_break. rewrite gz_feed_eat by (cbn; by rewrite Hs). unfold gz_switch.
  change (gz_state (gz_eat h1 b)) with (gz_state h). rewrite Hs. fold h2.
  assert (gz_xlen_pos h2 = 2) as -> by (cbn; lia). cbn [Z.ltb Z.compare Pos.compare].
  by rewrite Hxlen.
Qed.

(** What follows XLEN, for the header that has read it. *)
Lemma gz_accepts_after_xlen h h3 a b l tl :
  let n := a + 256 * b in
  gz_tail_ok h3 -> gz_xlen h3 = n -> gz_xpos h3 = 0 -> gz_flg h3 = gz_flg h ->
  gz_state h3 = (if n >? 0 then ZU_INT_GZ_EXTRA else gz_after_extra (gz_flg h)) ->
  gz_crc h3 = mz_crc32 (gz_crc h) [a; b] -> 0 <= gz_crc h < 2 ^ 32 ->
  byte_ok a -> byte_ok b -> bytes_ok l ->
  gz_accepts h3 l tl <-> exists e l', zlen e < 65536 /\
    a :: b :: l = (le_bytes 2 (zlen e) ++ e) ++ l' /\
    gz_rest (gz_flg h) (mz_crc32 (gz_crc h) (le_bytes 2 (zlen e) ++ e)) l' tl.
Proof.
  intros n Ht3 Hx3 Hxp3 Hf3 Hst Hcrc3 Hcrc Ha Hb Hl.
  assert (Hn : 0 <= n < 65536) by (unfold byte_ok in *; lia). revert Hst.
  destruct (Z.gtb_spec n 0) as [Hpos|Hzero]; intros Hst.
  - rewrite gz_accepts_extra by (try done; rewrite Hx3, Hxp3; lia).
    rewrite Hx3, Hxp3, Hcrc3, Hf3, Z.sub_0_r. split.
    + intros (e & l' & -> & He & Hr). exists e, l'. split; [lia|].
      apply Forall_app in Hl as [Hle _].
      rewrite He. unfold n. rewrite le_bytes_2_word by done.
      rewrite mz_crc32_app in Hr; [done|done|by repeat apply Forall_cons_2|done].
    + intros (e & l' & He & E & Hr). apply gz_extra_word in E as [En ->]; [|done..].
      exists e, l'. split_and!; [done|done|]. apply Forall_app in Hl as [Hle _].
      rewrite En in Hr. rewrite le_bytes_2_word in Hr by done.
      rewrite mz_crc32_app; [done|done|by repeat apply Forall_cons_2|done].
  - assert (n = 0) as Hn0 by lia.
    rewrite gz_accepts_after_extra by (try done; by rewrite Hst, Hf3). rewrite Hf3, Hcrc3. split.
    + intros Hr. exists [], l. change (zlen []) with 0. rewrite <- Hn0.
      split; [lia|]. rewrite app_nil_r. unfold n at 1 2. rewrite le_bytes_2_word by done. done.
    + intros (e & l' & He & E & Hr). apply gz_extra_word in E as [En ->]; [|done..]. fold n in En.
      destruct e as [|x e]; [|rewrite zlen_cons in En; pose proof (zlen_nonneg e); lia].
      change (zlen []) with 0 in Hr. rewrite <- Hn0, app_nil_r in Hr. unfold n in Hr.
      by rewrite le_bytes_2_word in Hr by done.
Qed.

(** XLEN and the extra field. *)
Lemma gz_accepts_extra_len h l tl :
  gz_tail_ok h -> gz_state h = ZU_INT_GZ_EXTRA_LEN ->
  gz_xlen h = 0 -> gz_xlen_pos h = 0 -> gz_xpos h = 0 -> bytes_ok l ->
  gz_accepts h l tl <->
  exists e l', zlen e < 65536 /\
    let E := le_bytes 2 (zlen e) ++ e in
    l = E ++ l' /\ gz_rest (gz_flg h) (mz_crc32 (gz_crc h) E) l' tl.
Proof.
  intros Ht Hs Hx0 Hp0 Hxp Hl. unfold gz_accepts. rewrite gz_resume_run by (by rewrite Hs).
  pose proof (gto_crc _ Ht) as Hcrc.
  assert (Hshort : forall k : bytes, (length k < 2)%nat ->
    (exists e l', zlen e < 65536 /\ let E := le_bytes 2 (zlen e) ++ e in
      k = E ++ l' /\ gz_rest (gz_flg h) (mz_crc32 (gz_crc h) E) l' tl) <-> False).
  { intros k Hk. split; [|done]. intros (e & l' & _ & -> & _).
    rewrite !length_app, length_le_bytes in Hk. lia. }
  destruct l as [|a l]; [rewrite Hshort by (simpl; lia); by split; [intros [h' [=]]|]|].
  apply Forall_cons in Hl as [Ha Hl].
  destruct l as [|b l].
  { rewrite Hshort by (simpl; lia). split; [|done]. intros [h' E]. revert E. cbn [gz_run].
    rewrite gz_feed_eat by (by rewrite Hs). unfold gz_switch.
    change (gz_state (gz_eat h a)) with (gz_state h). rewrite Hs.
    cbn [gz_store_xlen gz_xlen_pos gz_eat gz_set_crc]. by rewrite Hp0. }
  apply Forall_cons in Hl as [Hb Hl]. clear Hshort.
  destruct (gz_run_xlen h a b l Hs Hx0 Hp0 Ha Hb) as [-> Hx3].
  apply gz_accepts_after_xlen; try done.
  - destruct Ht as [H1 H2 H3 H4]. constructor; try done.
    cbn. apply mz_crc32_byte_range; [by apply mz_crc32_byte_range|done].
  - cbn. apply mz_crc32_cons; [done|done|by apply Forall_singleton].
Qed.

(** Everything after the ten fixed bytes. *)
Definition gz_tail (flg crc : Z) (l tl : bytes) : Prop :=
  exists e l', zlen e < 65536 /\ bytes_ok e /\
    let E := gz_when flg GZ_FEXTRA (le_bytes 2 (zlen e) ++ e) in
    l = E ++ l' /\ gz_rest flg (mz_crc32 crc E) l' tl.

Lemma gz_accepts_after_fixed h l tl :
  gz_tail_ok h -> gz_state h = gz_after_fixed (gz_flg h) ->
  gz_xlen h = 0 -> gz_xlen_pos h = 0 -> gz_xpos h = 0 -> bytes_ok l ->
  gz_accepts h l tl <-> gz_tail (gz_flg h) (gz_crc h) l tl.
Proof.
  intros Ht Hs Hx Hxp Hp Hl. pose proof (gto_crc _ Ht) as Hcrc.
  unfold gz_after_fixed in Hs. unfold gz_tail.
  destruct (has_flag (gz_flg h) GZ_FEXTRA) eqn:Ef.
  - rewrite gz_accepts_extra_len by done. split.
    + intros (e & l' & He & -> & Hr). exists e, l'. rewrite (gz_when_on _ _ _ Ef).
      split_and!; try done. by apply Forall_app in Hl as [[_ He']%Forall_app _].
    + intros (e & l' & He & _ & E & Hr). rewrite (gz_when_on _ _ _ Ef) in E, Hr. eauto.
  - rewrite gz_accepts_after_extra by done. split.
    + intros Hr. exists [], l. rewrite (gz_when_off _ _ _ Ef), mz_crc32_nil by done.
      split_and!; [done|apply Forall_nil_2|done|done].
    + intros (e & l' & _ & _ & -> & Hr). rewrite (gz_when_off _ _ _ Ef), mz_crc32_nil in Hr by done.
      by rewrite (gz_when_off _ _ _ Ef).
Qed.

(** What byte [p] of the fixed part must be. *)
Definition gz_fixed_ok (p b : Z) : bool :=
  if p =? 0 then b =? 0x1f
  else if p =? 1 then b =? 0x8b
  else if p =? 2 then b =? 8
  else if p =? 3 then negb (has_flag b GZ_RESERVED)
  else true.

(** The parser inside the fixed part. *)
Record gz_in_fixed (h : zu_int_gzip_header) (eaten : bytes) (flg : Z) : Prop := {
  gif_state : gz_state h = ZU_INT_GZ_FIXED;
  gif_pos : gz_fixed_pos h = zlen eaten;
  gif_flg : gz_flg h = flg;
  gif_xlen : gz_xlen h = 0 /\ gz_xlen_pos h = 0 /\ gz_xpos h = 0;
  gif_tail : gz_tail_ok h;
  gif_crc : gz_crc h = mz_crc32 0 eaten;
  gif_bytes : bytes_ok eaten;
}.

Lemma gz_fixed_guard h b :
  gz_feed_fixed h b =
  let h1 := gz_store_fixed h b in
  let h2 := if gz_fixed_pos h + 1 =? 4 then gz_set_flg h1 b else h1 in
  if gz_fixed_ok (gz_fixed_pos h) b
  then if gz_fixed_pos h + 1 <? 10 then gz_return ZU_OK h2
       else gz_break (gz_set_state h2 (gz_after_fixed (gz_flg h2)))
  else gz_return ZU_ERR_INVALID_DATA h1.
Proof.
  unfold gz_feed_fixed, gz_fixed_ok. cbn [gz_store_fixed gz_fixed_pos].
  set (p := gz_fixed_pos h). change ZU_INT_GZIP_HEADER_LEN with 10.
  destruct (Z.eqb_spec (p + 1) 1), (Z.eqb_spec p 0); try lia; cbn [andb].
  { destruct (Z.eqb_spec (p + 1) 2); [lia|]. destruct (Z.eqb_spec (p + 1) 3); [lia|].
    destruct (Z.eqb_spec (p + 1) 4); [lia|]. cbn [andb]. by destruct (b =? 0x1f). }
  destruct (Z.eqb_spec (p + 1) 2), (Z.eqb_spec p 1); try lia; cbn [andb].
  { destruct (Z.eqb_spec (p + 1) 3); [lia|]. destruct (Z.eqb_spec (p + 1) 4); [lia|].
    cbn [andb]. by destruct (b =? 0x8b). }
  destruct (Z.eqb_spec (p + 1) 3), (Z.eqb_spec p 2); try lia; cbn [andb].
  { destruct (Z.eqb_spec (p + 1) 4); [lia|]. cbn [andb]. by destruct (b =? 8). }
  destruct (Z.eqb_spec (p + 1) 4), (Z.eqb_spec p 3); try lia; cbn [andb].
  - destruct (has_flag b GZ_RESERVED); [done|]. cbn [negb gz_set_flg gz_fixed_pos].
    by destruct (_ <? _).
  - by destruct (_ <? _).
Qed.

Lemma gz_feed_in_fixed h eaten flg b :
  gz_in_fixed h eaten flg -> byte_ok b ->
  let flg' := if zlen eaten =? 3 then b else flg in
  if gz_fixed_ok (zlen eaten) b
  then exists h', (forall l, gz_run h (b :: l) = gz_resume h' l) /\
    if zlen eaten <? 9 then gz_in_fixed h' (eaten ++ [b]) flg'
    else gz_tail_ok h' /\ gz_state h' = gz_after_fixed flg' /\ gz_flg h' = flg' /\
         gz_xlen h' = 0 /\ gz_xlen_pos h' = 0 /\ gz_xpos h' = 0 /\
         gz_crc h' = mz_crc32 0 (eaten ++ [b])
  else forall l tl, ~ gz_accepts h (b :: l) tl.
Proof.
  intros [Hs Hp Hf (Hx & Hxp & Hxx) Ht Hc He] Hb flg'. pose proof (gto_crc _ Ht) as Hcrc.
  assert (Hfeed : zu_int_gzip_header_feed h b =
    match gz_feed_fixed (gz_eat h b) b with
    | gz_return st h' => (st, h', false)
    | gz_break h' => (ZU_OK, h', bool_decide (gz_state h' = ZU_INT_GZ_DONE))
    end).
  { rewrite gz_feed_eat by (by rewrite Hs). unfold gz_switch.
    change (gz_state (gz_eat h b)) with (gz_state h). by rewrite Hs. }
  rewrite gz_fixed_guard in Hfeed. cbv zeta in Hfeed.
  change (gz_fixed_pos (gz_eat h b)) with (gz_fixed_pos h) in Hfeed. rewrite Hp in Hfeed.
  set (h1 := gz_store_fixed (gz_eat h b) b) in *.
  set (h2 := if zlen eaten + 1 =? 4 then gz_set_flg h1 b else h1) in *.
  assert (Hcrc2 : gz_crc h2 = mz_crc32 0 (eaten ++ [b])).
  { transitivity (mz_crc32 (gz_crc h) [b]); [unfold h2; by destruct (_ =? 4)|].
    rewrite Hc. apply mz_crc32_app; [lia|done|by apply Forall_singleton]. }
  assert (Hb' : bytes_ok (eaten ++ [b])) by (by apply Forall_app; split; [|apply Forall_singleton]).
  assert (Ht2 : gz_tail_ok h2).
  { destruct Ht as [H1 H2 H3 H4]. constructor;
      [unfold h2; by destruct (_ =? 4)..|rewrite Hcrc2; by apply mz_crc32_range]. }
  assert (Hflg2 : gz_flg h2 = flg').
  { unfold h2, flg'. destruct (Z.eqb_spec (zlen eaten + 1) 4), (Z.eqb_spec (zlen eaten) 3);
      done || lia. }
  destruct (gz_fixed_ok (zlen eaten) b).
  - destruct (Z.ltb_spec (zlen eaten + 1) 10), (Z.ltb_spec (zlen eaten) 9); try lia.
    + exists h2. split.
      * intros l. cbn [gz_run]. rewrite Hfeed. rewrite gz_resume_run; [done|].
        unfold h2, h1. destruct (_ =? 4); cbn; by rewrite Hs.
      * constructor; try done; [unfold h2, h1; destruct (_ =? 4); cbn; done| |].
        -- rewrite zlen_app. change (zlen [b]) with 1. unfold h2, h1. destruct (_ =? 4); cbn; lia.
        -- unfold h2, h1. by destruct (_ =? 4).
    + exists (gz_set_state h2 (gz_after_fixed (gz_flg h2))). split.
      * intros l. apply gz_run_break. by rewrite Hfeed.
      * rewrite Hflg2. split_and!; try done; [by destruct Ht2|..];
          unfold h2, h1; by destruct (_ =? 4).
  - intros l tl [h' E]. revert E. rewrite gz_resume_run by (by rewrite Hs).
    cbn [gz_run]. by rewrite Hfeed.
Qed.

Fixpoint gz_fixed_all (p : Z) (k : bytes) : bool :=
  match k with
  | [] => true
  | b :: k' => gz_fixed_ok p b && gz_fixed_all (p + 1) k'
  end.

Fixpoint gz_fixed_flg (p flg : Z) (k : bytes) : Z :=
  match k with
  | [] => flg
  | b :: k' => gz_fixed_flg (p + 1) (if p =? 3 then b else flg) k'
  end.

Lemma gz_fixed_flg_past p flg k : 3 < p -> gz_fixed_flg p flg k = flg.
Proof.
  revert p. induction k as [|b k IH]; intros p Hp; [done|]. cbn [gz_fixed_flg].
  destruct (Z.eqb_spec p 3); [lia|]. apply IH. lia.
Qed.

Lemma gz_accepts_fixed l tl : forall h eaten flg,
  gz_in_fixed h eaten flg -> zlen eaten < 10 -> bytes_ok l ->
  gz_accepts h l tl <->
  exists k l', l = k ++ l' /\ zlen eaten + zlen k = 10 /\ gz_fixed_all (zlen eaten) k = true /\
    gz_tail (gz_fixed_flg (zlen eaten) flg k) (mz_crc32 0 (eaten ++ k)) l' tl.
Proof.
  induction l as [|b l IH]; intros h eaten flg Hin Hlt Hl.
  { unfold gz_accepts. rewrite gz_resume_run by (by rewrite (gif_state _ _ _ Hin)).
    split; [by intros [h' [=]]|]. intros ([|? ?] & l' & [=] & Hn & _).
    change (zlen []) with 0 in Hn. lia. }
  apply Forall_cons in Hl as [Hb Hl].
  pose proof (gz_feed_in_fixed h eaten flg b Hin Hb) as Hfeed. cbv zeta in Hfeed.
  assert (Hcut : forall k l', b :: l = k ++ l' -> zlen eaten + zlen k = 10 ->
    exists k', k = b :: k' /\ l = k' ++ l').
  { intros [|x k] l' E Hn; simplify_eq/=; [change (zlen []) with 0 in Hn; lia|eauto]. }
  destruct (gz_fixed_ok (zlen eaten) b) eqn:Hok.
  - destruct Hfeed as (h' & Hrun & Hnext).
    assert (Hacc : gz_accepts h (b :: l) tl <-> gz_accepts h' l tl).
    { unfold gz_accepts at 1. rewrite gz_resume_run by (by rewrite (gif_state _ _ _ Hin)).
      by rewrite Hrun. }
    rewrite Hacc. clear Hacc Hrun.
    assert (Hcons : forall k, eaten ++ b :: k = (eaten ++ [b]) ++ k) by
      (intros; by rewrite <- (assoc_L (++))).
    destruct (Z.ltb_spec (zlen eaten) 9) as [H9|H9].
    + rewrite (IH h' _ _ Hnext); [|rewrite zlen_app; change (zlen [b]) with 1; lia|done].
      rewrite zlen_app. change (zlen [b]) with 1. split.
      * intros (k & l' & -> & Hn & Hall & Ht). exists (b :: k), l'. rewrite zlen_cons, Hcons.
        split_and!; [done|lia| |done]. cbn [gz_fixed_all]. by rewrite Hok.
      * intros (k & l' & E & Hn & Hall & Ht). destruct (Hcut k l' E Hn) as (k' & -> & ->).
        rewrite zlen_cons in Hn. rewrite Hcons in Ht. cbn [gz_fixed_all] in Hall.
        rewrite Hok in Hall. exists k', l'. split_and!; [done|lia|done|done].
    + destruct Hnext as (Ht & Hs & Hf & Hx & Hxp & Hxx & Hc).
      rewrite gz_accepts_after_fixed by (done || by rewrite Hf). rewrite Hf, Hc. split.
      * intros Htl. exists [b], l. split_and!; [done|change (zlen [b]) with 1; lia| |done].
        cbn [gz_fixed_all]. by rewrite Hok.
      * intros (k & l' & E & Hn & Hall & Htl). destruct (Hcut k l' E Hn) as (k' & -> & ->).
        rewrite zlen_cons in Hn. destruct k' as [|x k'];
          [done|rewrite zlen_cons in Hn; pose proof (zlen_nonneg k'); lia].
  - split; [by intros H%Hfeed|].
    intros (k & l' & E & Hn & Hall & _). destruct (Hcut k l' E Hn) as (k' & -> & ->).
    cbn [gz_fixed_all] in Hall. by rewrite Hok in Hall.
Qed.

Lemma gz_init_in_fixed : gz_in_fixed zu_int_gzip_header_init [] 0.
Proof.
  constructor; try done. apply Forall_nil_2.
Qed.

Lemma gz_fixed_shape k :
  zlen k = 10 -> bytes_ok k ->
  gz_fixed_all 0 k = true <->
  exists flg rest, k = [0x1f; 0x8b; 8; flg] ++ rest /\ length rest = 6%nat /\
    has_flag flg GZ_RESERVED = false /\ gz_fixed_flg 0 0 k = flg.
Proof.
  intros Hk Hb.
  destruct k as [|b0 [|b1 [|b2 [|b3 [|b4 [|b5 [|b6 [|b7 [|b8 [|b9 [|]]]]]]]]]]];
    try (exfalso; revert Hk; unfold zlen; cbn [length]; lia).
  change (gz_fixed_all 0 [b0; b1; b2; b3; b4; b5; b6; b7; b8; b9]) with
    ((b0 =? 0x1f) && ((b1 =? 0x8b) && ((b2 =? 8) && (negb (has_flag b3 GZ_RESERVED) && true)))).
  change (gz_fixed_flg 0 0 _) with b3. split.
  - intros H. repeat apply andb_true_iff in H as [?%Z.eqb_eq H]. subst.
    apply andb_true_iff in H as [H%negb_true_iff _]. by exists b3, [b4; b5; b6; b7; b8; b9].
  - intros (flg & rest & E & _ & Hf & ->). injection E as -> -> -> _. by rewrite Hf.
Qed.

Ltac bytes_solve :=
  repeat first [assumption | apply bytes_ok_zero | apply le_bytes_ok | apply Forall_nil_2
    | apply gz_when_bytes | apply gz_field_bytes | apply bytes_ok_app | apply Forall_cons_2];
  try (unfold byte_ok; lia).

(** The checksum of the fixed part, the extra field and the strings is that of the body. *)
Lemma gz_body_crc g fixed E AB :
  fixed = [0x1f; 0x8b; 8; gf_flg g] ++ gf_rest g ->
  E = gz_when (gf_flg g) GZ_FEXTRA (le_bytes 2 (zlen (gf_extra g)) ++ gf_extra g) ->
  AB = gz_when (gf_flg g) GZ_FNAME (gf_name g ++ [0]) ++
       gz_when (gf_flg g) GZ_FCOMMENT (gf_comment g ++ [0]) ->
  gz_fields_ok g ->
  gz_body g = fixed ++ E ++ AB /\
  mz_crc32 (mz_crc32 (mz_crc32 0 fixed) E) AB = mz_crc32 0 (gz_body g) /\
  bytes_ok (gz_body g).
Proof.
  intros -> -> -> [Hf _ [Hr _] [He _] Hn Hc].
  assert (gz_body g = ([0x1f; 0x8b; 8; gf_flg g] ++ gf_rest g) ++
    gz_when (gf_flg g) GZ_FEXTRA (le_bytes 2 (zlen (gf_extra g)) ++ gf_extra g) ++
    gz_when (gf_flg g) GZ_FNAME (gf_name g ++ [0]) ++
    gz_when (gf_flg g) GZ_FCOMMENT (gf_comment g ++ [0])) as ->
    by (unfold gz_body; by rewrite <- !(assoc_L (++))).
  split; [done|]. split; [|bytes_solve].
  rewrite (mz_crc32_app 0) by (lia || bytes_solve).
  rewrite (mz_crc32_app 0) by (lia || bytes_solve). by rewrite <- (assoc_L (++)).
Qed.

(** The grammar, assembled. *)
Lemma gz_accepts_init l tl :
  bytes_ok l ->
  gz_accepts zu_int_gzip_header_init l tl <->
  exists g, gz_fields_ok g /\ l = gz_encode g ++ tl.
Proof.
  intros Hl. rewrite (gz_accepts_fixed l tl _ _ _ gz_init_in_fixed) by done.
  change (zlen (@nil Z)) with 0. split.
  - intros (k & l1 & -> & Hk & Hall & e & l2 & He & Heb & -> & n & c & Hn & Hc & ->).
    assert (Hkb : bytes_ok k) by (by apply Forall_app in Hl as [? _]).
    apply (gz_fixed_shape k Hk Hkb) in Hall as (flg & rest & -> & Hr & Hres & Hflg).
    rewrite Hflg in *. cbn [app] in Hkb.
    apply Forall_cons in Hkb as [_ [_ [_ [Hfb Hrb]%Forall_cons]%Forall_cons]%Forall_cons].
    exists (mk_fields flg rest e n c).
    assert (Hg : gz_fields_ok (mk_fields flg rest e n c)) by (by constructor).
    split; [done|].
    destruct (gz_body_crc _ _ _ _ eq_refl eq_refl eq_refl Hg) as (Hbody & Hcrc & _).
    cbn [gf_flg gf_rest gf_extra gf_name gf_comment] in Hbody, Hcrc.
    unfold gz_encode. rewrite app_nil_l, Hcrc, Hbody. cbn [gf_flg].
    by rewrite <- !(assoc_L (++)).
  - intros (g & Hg & ->).
    destruct (gz_body_crc _ _ _ _ eq_refl eq_refl eq_refl Hg) as (Hbody & Hcrc & Hbb).
    exists ([0x1f; 0x8b; 8; gf_flg g] ++ gf_rest g). eexists.
    assert (Hlen : zlen ([0x1f; 0x8b; 8; gf_flg g] ++ gf_rest g) = 10).
    { unfold zlen. rewrite length_app. cbn [length]. rewrite (proj2 (gfo_rest _ Hg)). done. }
    assert (Hb : bytes_ok ([0x1f; 0x8b; 8; gf_flg g] ++ gf_rest g)).
    { rewrite Hbody in Hbb. by apply Forall_app in Hbb as [? _]. }
    assert (Hflg : gz_fixed_flg 0 0 ([0x1f; 0x8b; 8; gf_flg g] ++ gf_rest g) = gf_flg g).
    { change (gz_fixed_flg 4 (gf_flg g) (gf_rest g) = gf_flg g). by apply gz_fixed_flg_past. }
    split; [unfold gz_encode; rewrite Hbody, <- !(assoc_L (++)); cbn [app]; reflexivity|].
    split; [done|]. split.
    { apply gz_fixed_shape; [done|done|]. exists (gf_flg g), (gf_rest g).
      split_and!; [done|apply (gfo_rest _ Hg)|apply (gfo_reserved _ Hg)|exact Hflg]. }
    exists (gf_extra g). eexists. split; [apply (gfo_extra _ Hg)|].
    split; [apply (gfo_extra _ Hg)|]. cbv zeta. rewrite Hflg. split; [reflexivity|].
    exists (gf_name g), (gf_comment g).
    split; [apply (gfo_name _ Hg)|]. split; [apply (gfo_comment _ Hg)|].
    cbv zeta. cbn [app] in Hcrc |- *. rewrite Hcrc. by rewrite <- !(assoc_L (++)).
Qed.

(** ** Lemmas: every header ends *)

(** A parser that still expects bytes. *)
Definition gz_live (h : zu_int_gzip_header) : Prop :=
  0 <= gz_xlen h < 65536 /\ 0 <= gz_field_len h <= 65535 /\
  match gz_state h with
  | ZU_INT_GZ_FIXED =>
      0 <= gz_fixed_pos h < 10 /\ gz_xlen_pos h = 0 /\ gz_xpos h = 0 /\
      gz_field_len h = 0 /\ gz_hcrc_pos h = 0
  | ZU_INT_GZ_EXTRA_LEN =>
      0 <= gz_xlen_pos h < 2 /\ gz_xpos h = 0 /\ gz_field_len h = 0 /\ gz_hcrc_pos h = 0
  | ZU_INT_GZ_EXTRA => 0 <= gz_xpos h < gz_xlen h /\ gz_field_len h = 0 /\ gz_hcrc_pos h = 0
  | ZU_INT_GZ_NAME | ZU_INT_GZ_COMMENT => gz_hcrc_pos h = 0
  | ZU_INT_GZ_HCRC => 0 <= gz_hcrc_pos h < 2
  | ZU_INT_GZ_DONE => False
  end.

(** How many more bytes it can take at most. *)
Definition gz_left (h : zu_int_gzip_header) : Z :=
  match gz_state h with
  | ZU_INT_GZ_FIXED => 10 - gz_fixed_pos h + 196611
  | ZU_INT_GZ_EXTRA_LEN => 2 - gz_xlen_pos h + 196609
  | ZU_INT_GZ_EXTRA => gz_xlen h - gz_xpos h + 131074
  | ZU_INT_GZ_NAME => 65536 - gz_field_len h + 65538
  | ZU_INT_GZ_COMMENT => 65536 - gz_field_len h + 2
  | ZU_INT_GZ_HCRC => 2 - gz_hcrc_pos h
  | ZU_INT_GZ_DONE => 0
  end.

(** A state reached through [gz_after_*], with its counters still at zero. *)
Lemma gz_live_after_comment h :
  0 <= gz_xlen h < 65536 -> gz_field_len h = 0 -> gz_hcrc_pos h = 0 ->
  gz_state h = gz_after_comment (gz_flg h) -> gz_state h <> ZU_INT_GZ_DONE ->
  gz_live h /\ gz_left h <= 2.
Proof.
  intros Hx Hf Hp Hs Hd. unfold gz_live, gz_left. unfold gz_after_comment in Hs.
  destruct (has_flag _ _); rewrite Hs in *; [|done]. lia.
Qed.

Lemma gz_live_after_name h :
  0 <= gz_xlen h < 65536 -> gz_field_len h = 0 -> gz_hcrc_pos h = 0 ->
  gz_state h = gz_after_name (gz_flg h) -> gz_state h <> ZU_INT_GZ_DONE ->
  gz_live h /\ gz_left h <= 65538.
Proof.
  intros Hx Hf Hp Hs Hd. unfold gz_after_name in Hs. destruct (has_flag _ _).
  - unfold gz_live, gz_left. rewrite Hs. lia.
  - destruct (gz_live_after_comment h); try done. split; [done|lia].
Qed.

Lemma gz_live_after_extra h :
  0 <= gz_xlen h < 65536 -> gz_field_len h = 0 -> gz_hcrc_pos h = 0 ->
  gz_state h = gz_after_extra (gz_flg h) -> gz_state h <> ZU_INT_GZ_DONE ->
  gz_live h /\ gz_left h <= 131074.
Proof.
  intros Hx Hf Hp Hs Hd. unfold gz_after_extra in Hs. destruct (has_flag _ _).
  - unfold gz_live, gz_left. rewrite Hs. lia.
  - destruct (gz_live_after_name h); try done. split; [done|lia].
Qed.

(** What a byte does to a live parser. *)
Definition gz_step_ok (h : zu_int_gzip_header) (r : zu_status * zu_int_gzip_header * bool) : Prop :=
  let '(st, h', done) := r in
  (st = ZU_OK /\ done = false /\ gz_live h' /\ gz_left h' < gz_left h) \/
  (st = ZU_OK /\ done = true) \/
  st = ZU_ERR_INVALID_DATA \/ st = ZU_ERR_CHECKSUM.

Lemma gz_break_ok h h' :
  (gz_state h' <> ZU_INT_GZ_DONE -> gz_live h' /\ gz_left h' < gz_left h) ->
  gz_step_ok h (ZU_OK, h', bool_decide (gz_state h' = ZU_INT_GZ_DONE)).
Proof.
  intros H. unfold gz_step_ok. case_bool_decide as E; [by right; left|].
  left. by destruct (H E).
Qed.

(** A byte that leaves the parser where it is, or moves it on. *)
Lemma gz_stay_ok h h' :
  gz_live h' -> gz_left h' < gz_left h -> gz_step_ok h (ZU_OK, h', false).
Proof. intros. by left. Qed.

Lemma gz_bad_ok h h' : gz_step_ok h (ZU_ERR_INVALID_DATA, h', false).
Proof. by do 2 right; left. Qed.

Ltac gz_arith Est :=
  unfold gz_live, gz_left; cbn [gz_state gz_xlen gz_xlen_pos gz_xpos gz_field_len gz_hcrc_pos
    gz_fixed_pos gz_store_fixed gz_store_hcrc gz_set_field_len gz_set_xpos gz_set_crc gz_eat
    gz_set_flg gz_set_state]; rewrite ?Est; lia.

Lemma gz_live_step_fixed h b :
  gz_live h -> gz_state h = ZU_INT_GZ_FIXED -> gz_step_ok h (zu_int_gzip_header_feed h b).
Proof.
  intros (Hx & Hf & Hs) Est. rewrite Est in Hs. destruct Hs as (Hp & Hxp & Hxx & Hfl & Hhp).
  rewrite gz_feed_eat by (by rewrite Est). unfold gz_switch.
  change (gz_state (gz_eat h b)) with (gz_state h). rewrite Est, gz_fixed_guard. cbv zeta.
  change (gz_fixed_pos (gz_eat h b)) with (gz_fixed_pos h).
  destruct (gz_fixed_ok _ b); [|apply gz_bad_ok].
  set (h2 := if _ =? 4 then _ else _).
  assert (Hz : gz_xlen h2 = gz_xlen h /\ gz_field_len h2 = 0 /\ gz_hcrc_pos h2 = 0 /\
    gz_xlen_pos h2 = 0 /\ gz_xpos h2 = 0 /\ gz_fixed_pos h2 = gz_fixed_pos h + 1 /\
    gz_state h2 = ZU_INT_GZ_FIXED) by (unfold h2; destruct (_ =? 4); done).
  clearbody h2. destruct Hz as (Z1 & Z2 & Z3 & Z4 & Z5 & Z6 & Z7).
  destruct (Z.ltb_spec (gz_fixed_pos h + 1) 10).
  - apply gz_stay_ok; unfold gz_live, gz_left; rewrite ?Z7, ?Est; lia.
  - apply gz_break_ok. intros Hd. unfold gz_left at 2. rewrite Est.
    unfold gz_after_fixed in *. destruct (has_flag (gz_flg h2) GZ_FEXTRA).
    + gz_arith Est.
    + destruct (gz_live_after_extra (gz_set_state h2 (gz_after_extra (gz_flg h2)))) as [Hl Hle];
        [cbn [gz_xlen gz_set_state]; lia|exact Z2|exact Z3|done|done|]. split; [done|lia].
Qed.

Lemma gz_live_step_extra_len h b :
  gz_live h -> gz_state h = ZU_INT_GZ_EXTRA_LEN -> gz_step_ok h (zu_int_gzip_header_feed h b).
Proof.
  intros (Hx & Hf & Hs) Est. rewrite Est in Hs. destruct Hs as (Hp & Hxx & Hfl & Hhp).
  rewrite gz_feed_eat by (by rewrite Est). unfold gz_switch.
  change (gz_state (gz_eat h b)) with (gz_state h). rewrite Est.
  set (h1 := gz_store_xlen (gz_eat h b) b).
  assert (Hu : 0 <= gz_xlen h1 < 65536) by (apply Z.mod_pos_bound; lia).
  assert (Hz : gz_field_len h1 = 0 /\ gz_hcrc_pos h1 = 0 /\ gz_xpos h1 = 0 /\
    gz_xlen_pos h1 = gz_xlen_pos h + 1 /\ gz_state h1 = ZU_INT_GZ_EXTRA_LEN) by done.
  clearbody h1. destruct Hz as (Z2 & Z3 & Z5 & Z6 & Z7). rewrite Z6.
  destruct (Z.ltb_spec (gz_xlen_pos h + 1) 2).
  - apply gz_stay_ok; unfold gz_live, gz_left; rewrite ?Z7, ?Est; lia.
  - apply gz_break_ok. intros Hd. unfold gz_left at 2. rewrite Est.
    destruct (Z.gtb_spec (gz_xlen h1) 0).
    + gz_arith Est.
    + destruct (gz_live_after_extra (gz_set_state h1 (gz_after_extra (gz_flg h1)))) as [Hl Hle];
        [exact Hu|exact Z2|exact Z3|done|done|]. split; [done|lia].
Qed.

Lemma gz_live_step_extra h b :
  gz_live h -> gz_state h = ZU_INT_GZ_EXTRA -> gz_step_ok h (zu_int_gzip_header_feed h b).
Proof.
  intros (Hx & Hf & Hs) Est. rewrite Est in Hs. destruct Hs as (Hp & Hfl & Hhp).
  rewrite gz_feed_eat by (by rewrite Est). unfold gz_switch.
  change (gz_state (gz_eat h b)) with (gz_state h). rewrite Est.
  cbn [gz_xpos gz_xlen gz_flg gz_set_xpos gz_eat gz_set_crc].
  destruct (Z.ltb_spec (gz_xpos h + 1) (gz_xlen h)).
  - apply gz_stay_ok; gz_arith Est.
  - apply gz_break_ok. intros Hd. unfold gz_left at 2. rewrite Est.
    match goal with |- gz_live ?k /\ _ => destruct (gz_live_after_extra k) as [Hl Hle] end;
      [exact Hx|exact Hfl|exact Hhp|done|done|]. split; [done|lia].
Qed.

Lemma gz_live_step_field h b next :
  gz_live h -> gz_in_field h next -> gz_step_ok h (zu_int_gzip_header_feed h b).
Proof.
  intros (Hx & Hf & Hs) Hin. rewrite (gz_feed_in_field h next b Hin). unfold gz_feed_field.
  assert (Hhp : gz_hcrc_pos h = 0) by (by destruct Hin as [[E _]|[E _]]; rewrite E in Hs).
  destruct (b =? 0); cbn [negb].
  - apply gz_break_ok. intros Hd.
    destruct Hin as [[Est ->]|[Est ->]]; unfold gz_left at 2; rewrite Est;
      match goal with |- gz_live ?k /\ _ =>
        first [destruct (gz_live_after_name k) as [Hl Hle]; [exact Hx|done|exact Hhp|done|done|]
              |destruct (gz_live_after_comment k) as [Hl Hle]; [exact Hx|done|exact Hhp|done|done|]]
      end; (split; [done|lia]).
  - cbn [gz_field_len gz_set_field_len gz_eat gz_set_crc].
    destruct (Z.gtb_spec (gz_field_len h + 1) ZU_INT_GZIP_MAX_FIELD) as [|Hle]; [apply gz_bad_ok|].
    unfold ZU_INT_GZIP_MAX_FIELD in Hle.
    destruct Hin as [[Est ->]|[Est ->]]; apply gz_stay_ok; gz_arith Est.
Qed.

Lemma gz_live_step_hcrc h b :
  gz_live h -> gz_state h = ZU_INT_GZ_HCRC -> gz_step_ok h (zu_int_gzip_header_feed h b).
Proof.
  intros (Hx & Hf & Hs) Est. rewrite Est in Hs.
  rewrite gz_feed_hcrc_eq by done. unfold gz_feed_hcrc.
  change (gz_hcrc_pos (gz_store_hcrc h b)) with (gz_hcrc_pos h + 1).
  destruct (Z.ltb_spec (gz_hcrc_pos h + 1) 2).
  - apply gz_stay_ok; gz_arith Est.
  - destruct (negb _); [by do 3 right|]. by apply gz_break_ok.
Qed.

Lemma gz_live_step h b : gz_live h -> gz_step_ok h (zu_int_gzip_header_feed h b).
Proof.
  intros Hl. destruct (gz_state h) eqn:Est.
  - by apply gz_live_step_fixed.
  - by apply gz_live_step_extra_len.
  - by apply gz_live_step_extra.
  - apply (gz_live_step_field h b (gz_after_name (gz_flg h))); [done|by left].
  - apply (gz_live_step_field h b (gz_after_comment (gz_flg h))); [done|by right].
  - by apply gz_live_step_hcrc.
  - exfalso. destruct Hl as (_ & _ & H). by rewrite Est in H.
Qed.

Lemma gz_run_live l : forall h,
  gz_live h ->
  match gz_run h l with
  | gz_more h' => gz_live h' /\ gz_left h' + zlen l <= gz_left h
  | gz_complete _ _ => True
  | gz_failed st _ => st = ZU_ERR_INVALID_DATA \/ st = ZU_ERR_CHECKSUM
  end.
Proof.
  induction l as [|b l IH]; intros h Hl; cbn [gz_run].
  - split; [done|]. change (zlen []) with 0. lia.
  - pose proof (gz_live_step h b Hl) as Hstep.
    destruct (zu_int_gzip_header_feed h b) as [[st h'] fin].
    destruct Hstep as [(-> & -> & Hl' & Hlt)|[(-> & ->)|[-> | ->] ] ];
      [|done|by left|by right].
    specialize (IH h' Hl'). destruct (gz_run h' l); try done. rewrite zlen_cons. split; [tauto|lia].
Qed.

Lemma gz_left_pos h : gz_live h -> 0 < gz_left h.
Proof. unfold gz_live, gz_left. destruct (gz_state h); lia. Qed.

Definition gz_plain : gz_fields := mk_fields 0 [0; 0; 0; 0; 0; 255] [] [] [].

Lemma gz_run_init l : gz_resume zu_int_gzip_header_init l = gz_run zu_int_gzip_header_init l.
Proof. done. Qed.

Lemma gz_live_init : gz_live zu_int_gzip_header_init /\ gz_left zu_int_gzip_header_init = 196621.
Proof. split; [|done]. unfold gz_live. cbn. lia. Qed.



(** No header, however hostile, keeps the parser busy or drives it into its internal
    error: whatever bytes arrive, a header that is not over yet has taken fewer than
    196621 of them, and one that is refused is refused as invalid data or as a checksum
    mismatch; and the fixed header the encoder writes is accepted whole, with nothing
    after it touched. *)
Theorem gzip_header_bounded (l : bytes) :
  match gz_run zu_int_gzip_header_init l with
  | gz_more _ => zlen l < 196621
  | gz_complete _ _ => True
  | gz_failed st _ => st = ZU_ERR_INVALID_DATA \/ st = ZU_ERR_CHECKSUM
  end /\
  exists h, gz_run zu_int_gzip_header_init (zu_int_gzip_write_header ++ l) = gz_complete h l /\
    gz_state h = ZU_INT_GZ_DONE.
Proof.
  split.
  - destruct gz_live_init as [Hl Hn]. pose proof (gz_run_live l _ Hl) as H. rewrite Hn in H.
    destruct (gz_run zu_int_gzip_header_init l); try done.
    destruct H as [Hl' Hle]. apply gz_left_pos in Hl'. lia.
  - eexists. split; vm_compute; reflexivity.
Qed.
