(* ===== verification/Stream.v ===== *)
(** * The core stream driver: src/zu_stream.c

    Encoder and decoder handles, the validation every call goes through, the output
    ceiling enforced by shrinking the codec's window, the expected-size, trailing
    and ratio policies, reset, and the one-shot loop.  A handle is a record whose
    codec state has the type its vtable names. *)
From S2P Require Import Prelude Types SizeArith Registry.

Record zu_encoder := mk_encoder {
  enc_vtable : zu_codec_vtable;
  enc_state : vt_state enc_vtable;
  enc_opts : zu_encoder_opts;
  enc_finished : bool;
}.

Record zu_decoder := mk_decoder {
  dec_vtable : zu_codec_vtable;
  dec_state : vt_state dec_vtable;
  dec_opts : zu_decoder_opts;
  dec_finished : bool;
  dec_total_in : Z;
  dec_total_out : Z;
}.

(** Calling a NULL function pointer is undefined behaviour in C.  The model answers
    with a status no source line returns; registered vtables never get there
    (see [reachable_has_process] below). *)
Definition null_call : zu_status := ZU_STATUS_OTHER (-1).

(** ** Shared validation *)

Definition zu_int_check_buffer (buf : option zu_buffer) : zu_status :=
  match buf with
  | None => ZU_ERR_INVALID_ARGUMENT
  | Some b =>
      if (src_pos b >? src_size b) || (dst_pos b >? dst_size b)
      then ZU_ERR_INVALID_ARGUMENT
      else if is_null (src b) && negb (src_size b =? 0) then ZU_ERR_INVALID_ARGUMENT
      else if is_null (dst b) && negb (dst_size b =? 0) then ZU_ERR_INVALID_ARGUMENT
      else ZU_OK
  end.

Definition zu_int_check_flush (flush : zu_flush) : zu_status :=
  match flush with
  | ZU_RUN | ZU_FLUSH | ZU_FINISH => ZU_OK
  | ZU_FLUSH_OTHER _ => ZU_ERR_INVALID_ARGUMENT
  end.

Definition zu_int_resolve (reg : registry) (codec : zu_codec) (direction : Z) :
    result zu_codec_vtable :=
  match zu_int_registry_lookup reg codec with
  | None => Err ZU_ERR_UNSUPPORTED
  | Some v => if has_flag (vt_flags v) direction then Ok v else Err ZU_ERR_UNSUPPORTED
  end.

Definition zu_int_check_level (v : zu_codec_vtable) (level : Z) : result unit :=
  if level =? ZU_LEVEL_DEFAULT then Ok tt
  else if (vt_level_min v =? 0) && (vt_level_max v =? 0) && (vt_level_default v =? 0)
  then (if level =? 0 then Ok tt else Err ZU_ERR_INVALID_ARGUMENT)
  else if (level <? vt_level_min v) || (level >? vt_level_max v)
  then Err ZU_ERR_INVALID_ARGUMENT
  else Ok tt.

(** [dst] is filled with zeros, the common prefix copied, and [struct_size] stamped
    on the first four bytes. *)
Definition zu_int_copy_opts (dst_size : Z) (src : bytes) (src_size : Z) : bytes :=
  let n := if src_size <? dst_size then src_size else dst_size in
  memcpy_at (memcpy_at (replicate (Z.to_nat dst_size) 0) 0 (sub src 0 n))
    0 (le_bytes 4 dst_size).

(** ** Encoder *)
Section driver.
Context {alloc : Allocator}.

Definition zu_encoder_new (reg : registry) (out : outp) (opts : option bytes) :
    result zu_encoder :=
  match opts with
  | None => Err ZU_ERR_INVALID_ARGUMENT
  | Some m =>
      if negb out then Err ZU_ERR_INVALID_ARGUMENT
      else if opts_struct_size m <? ZU_ENCODER_OPTS_REQUIRED_SIZE
      then Err ZU_ERR_INVALID_ARGUMENT
      else
        v ← zu_int_resolve reg (eo_codec (encoder_opts_of m)) ZU_CAN_ENCODE;
        _ ← zu_int_check_level v (eo_level (encoder_opts_of m));
        if negb (alloc_ok req_encoder) then Err ZU_ERR_MEMORY
        else
          let o := encoder_opts_of
            (zu_int_copy_opts sizeof_encoder_opts m (opts_struct_size m)) in
          match vt_encoder_new v with
          | None => Err null_call
          | Some encoder_new => s ← encoder_new o; Ok (mk_encoder v s o false)
          end
  end.

Definition encoder_process (e : zu_encoder) (b : zu_buffer) (flush : zu_flush) :
    zu_status * zu_encoder * zu_buffer :=
  match zu_int_check_buffer (Some b) with
  | ZU_OK =>
      match zu_int_check_flush flush with
      | ZU_OK =>
          if enc_finished e
          then (if src_pos b <? src_size b then ZU_ERR_INVALID_ARGUMENT else ZU_STREAM_END,
                e, b)
          else if is_flush flush && negb (has_flag (vt_flags (enc_vtable e)) ZU_CAN_FLUSH)
          then (ZU_ERR_UNSUPPORTED, e, b)
          else
            match vt_encoder_process (enc_vtable e) with
            | None => (null_call, e, b)
            | Some process =>
                let '(st, s', b') := process (enc_state e) b flush in
                let finished := match st with ZU_STREAM_END => true | _ => enc_finished e end in
                (st, mk_encoder (enc_vtable e) s' (enc_opts e) finished, b')
            end
      | st => (st, e, b)
      end
  | st => (st, e, b)
  end.

Definition zu_encoder_process (e : option zu_encoder) (buf : option zu_buffer)
    (flush : zu_flush) : zu_status * option zu_encoder * option zu_buffer :=
  match e, buf with
  | None, _ => (ZU_ERR_INVALID_ARGUMENT, e, buf)
  | Some _, None => (zu_int_check_buffer None, e, buf)
  | Some e, Some b =>
      let '(st, e', b') := encoder_process e b flush in (st, Some e', Some b')
  end.

Definition encoder_reset (e : zu_encoder) (opts : option bytes) :
    zu_status * zu_encoder :=
  let given := default (encoder_opts_bytes (enc_opts e)) opts in
  if opts_struct_size given <? ZU_ENCODER_OPTS_REQUIRED_SIZE
  then (ZU_ERR_INVALID_ARGUMENT, e)
  else
    let use := encoder_opts_of
      (zu_int_copy_opts sizeof_encoder_opts given (opts_struct_size given)) in
    if negb (eo_codec use =? eo_codec (enc_opts e)) then (ZU_ERR_INVALID_ARGUMENT, e)
    else
      match zu_int_check_level (enc_vtable e) (eo_level use) with
      | Err st => (st, e)
      | Ok _ =>
          match vt_encoder_reset (enc_vtable e) with
          | None => (ZU_ERR_UNSUPPORTED, e)
          | Some reset =>
              match reset (enc_state e) use with
              | (ZU_OK, s') => (ZU_OK, mk_encoder (enc_vtable e) s' use false)
              | (st, s') => (st, mk_encoder (enc_vtable e) s' (enc_opts e) (enc_finished e))
              end
          end
      end.

Definition zu_encoder_reset (e : option zu_encoder) (opts : option bytes) :
    zu_status * option zu_encoder :=
  match e with
  | None => (ZU_ERR_INVALID_ARGUMENT, None)
  | Some e => let '(st, e') := encoder_reset e opts in (st, Some e')
  end.

(** What freeing a handle releases, in order. *)
Inductive release :=
  | release_state      (** the vtable's [*_free] callback ran on the codec state *)
  | release_handle.    (** the handle itself was freed *)

Definition zu_encoder_free (e : option zu_encoder) : list release :=
  match e with
  | None => []
  | Some e =>
      (if vt_encoder_free (enc_vtable e) then [release_state] else []) ++ [release_handle]
  end.

(** ** Decoder *)

Definition has_expected (o : zu_decoder_opts) : bool :=
  has_flag (do_flags o) ZU_DEC_EXPECTED_SIZE.

Definition zu_int_check_dec_opts (m : bytes) : zu_status :=
  if opts_struct_size m <? ZU_DECODER_OPTS_REQUIRED_SIZE then ZU_ERR_INVALID_ARGUMENT
  else if has_expected (decoder_opts_of m) && (opts_struct_size m <? 24 + 8)
  then ZU_ERR_INVALID_ARGUMENT
  else ZU_OK.

Definition zu_decoder_new (reg : registry) (out : outp) (opts : option bytes) :
    result zu_decoder :=
  match opts with
  | None => Err ZU_ERR_INVALID_ARGUMENT
  | Some m =>
      if negb out then Err ZU_ERR_INVALID_ARGUMENT
      else if negb (status_eqb (zu_int_check_dec_opts m) ZU_OK)
      then Err ZU_ERR_INVALID_ARGUMENT
      else
        v ← zu_int_resolve reg (do_codec (decoder_opts_of m)) ZU_CAN_DECODE;
        if negb (alloc_ok req_decoder) then Err ZU_ERR_MEMORY
        else
          let o := decoder_opts_of
            (zu_int_copy_opts sizeof_decoder_opts m (opts_struct_size m)) in
          match vt_decoder_new v with
          | None => Err null_call
          | Some decoder_new => s ← decoder_new o; Ok (mk_decoder v s o false 0 0)
          end
  end.

(** The output ceiling and what crossing it means. *)
Definition decoder_ceiling (o : zu_decoder_opts) : option (Z * zu_status) :=
  let limit :=
    if negb (do_max_output o =? 0) then Some (do_max_output o, ZU_ERR_OUTPUT_LIMIT)
    else None in
  let tighter :=
    match limit with
    | None => true
    | Some (ceiling, _) => do_expected_size o <=? ceiling
    end in
  if has_expected o && tighter then Some (do_expected_size o, ZU_ERR_INVALID_DATA)
  else limit.

(** The window the codec is given: the allowance, whether the ceiling shrank it, and
    the buffer handed down. *)
Definition decoder_window (o : zu_decoder_opts) (total_out : Z) (b : zu_buffer) :
    Z * bool * zu_buffer :=
  let allowance := dst_size b - dst_pos b in
  match decoder_ceiling o with
  | None => (allowance, false, b)
  | Some (ceiling, _) =>
      let remaining := if total_out <? ceiling then ceiling - total_out else 0 in
      if remaining <? allowance
      then (remaining, true, buf_set_dst_size b (dst_pos b + remaining))
      else (allowance, false, b)
  end.

(** What crossing the ceiling reports; unused when there is none. *)
Definition over_status (o : zu_decoder_opts) : zu_status :=
  match decoder_ceiling o with
  | Some (_, st) => st
  | None => ZU_ERR_OUTPUT_LIMIT
  end.

Definition ratio_allowed (total_in max_ratio : Z) : Z :=
  if total_in =? 0 then 0
  else if total_in >? UINT64_MAX / max_ratio then UINT64_MAX
  else u64 (total_in * max_ratio).

(** Everything after the codec returned [st]: [b] has the caller's view restored. *)
Definition decoder_verdict (o : zu_decoder_opts) (total_in total_out : Z)
    (st : zu_status) (capped : bool) (produced allowance : Z) (b : zu_buffer) : zu_status :=
  let ended := status_eqb st ZU_STREAM_END in
  let input_left := src_pos b <? src_size b in
  if ended && has_expected o && negb (total_out =? do_expected_size o)
  then ZU_ERR_INVALID_DATA
  else if ended && input_left && has_flag (do_flags o) ZU_DEC_REJECT_TRAILING
  then ZU_ERR_TRAILING
  else if capped && status_eqb st ZU_NEED_OUTPUT && (produced =? allowance)
  then over_status o
  else if capped && (allowance =? 0) && negb ended && input_left
  then over_status o
  else if negb (do_max_output o =? 0) && (total_out >? do_max_output o)
  then ZU_ERR_OUTPUT_LIMIT
  else if has_expected o && (total_out >? do_expected_size o)
  then ZU_ERR_INVALID_DATA
  else if negb (status_eqb st ZU_ERR_OUTPUT_LIMIT) && negb (do_max_ratio o =? 0) &&
          (total_out >? 0) && (total_out >? ratio_allowed total_in (do_max_ratio o))
  then ZU_ERR_RATIO_LIMIT
  else st.

Definition decoder_process (d : zu_decoder) (b : zu_buffer) (flush : zu_flush) :
    zu_status * zu_decoder * zu_buffer :=
  match zu_int_check_buffer (Some b) with
  | ZU_OK =>
      match zu_int_check_flush flush with
      | ZU_OK =>
          if dec_finished d
          then (if (src_pos b <? src_size b) &&
                   has_flag (do_flags (dec_opts d)) ZU_DEC_REJECT_TRAILING
                then ZU_ERR_TRAILING else ZU_STREAM_END, d, b)
          else if is_flush flush && negb (has_flag (vt_flags (dec_vtable d)) ZU_CAN_FLUSH)
          then (ZU_ERR_UNSUPPORTED, d, b)
          else
            match vt_decoder_process (dec_vtable d) with
            | None => (null_call, d, b)
            | Some process =>
                let '(allowance, capped, given) :=
                  decoder_window (dec_opts d) (dec_total_out d) b in
                let '(st, s', b1) := process (dec_state d) given flush in
                let used_in := u64 (src_pos b1 - src_pos b) in
                let produced := u64 (dst_pos b1 - dst_pos b) in
                let b' := if capped then buf_set_dst_size b1 (dst_size b) else b1 in
                let total_in := u64 (dec_total_in d + used_in) in
                let total_out := u64 (dec_total_out d + produced) in
                let finished := status_eqb st ZU_STREAM_END in
                (decoder_verdict (dec_opts d) total_in total_out st capped
                   produced allowance b',
                 mk_decoder (dec_vtable d) s' (dec_opts d) finished total_in total_out,
                 b')
            end
      | st => (st, d, b)
      end
  | st => (st, d, b)
  end.

Definition zu_decoder_process (d : option zu_decoder) (buf : option zu_buffer)
    (flush : zu_flush) : zu_status * option zu_decoder * option zu_buffer :=
  match d, buf with
  | None, _ => (ZU_ERR_INVALID_ARGUMENT, d, buf)
  | Some _, None => (zu_int_check_buffer None, d, buf)
  | Some d, Some b =>
      let '(st, d', b') := decoder_process d b flush in (st, Some d', Some b')
  end.

Definition decoder_reset (d : zu_decoder) (opts : option bytes) :
    zu_status * zu_decoder :=
  let given := default (decoder_opts_bytes (dec_opts d)) opts in
  if negb (status_eqb (zu_int_check_dec_opts given) ZU_OK)
  then (ZU_ERR_INVALID_ARGUMENT, d)
  else
    let use := decoder_opts_of
      (zu_int_copy_opts sizeof_decoder_opts given (opts_struct_size given)) in
    if negb (do_codec use =? do_codec (dec_opts d)) then (ZU_ERR_INVALID_ARGUMENT, d)
    else
      match vt_decoder_reset (dec_vtable d) with
      | None => (ZU_ERR_UNSUPPORTED, d)
      | Some reset =>
          match reset (dec_state d) use with
          | (ZU_OK, s') => (ZU_OK, mk_decoder (dec_vtable d) s' use false 0 0)
          | (st, s') =>
              (st, mk_decoder (dec_vtable d) s' (dec_opts d) (dec_finished d)
                     (dec_total_in d) (dec_total_out d))
          end
      end.

Definition zu_decoder_reset (d : option zu_decoder) (opts : option bytes) :
    zu_status * option zu_decoder :=
  match d with
  | None => (ZU_ERR_INVALID_ARGUMENT, None)
  | Some d => let '(st, d') := decoder_reset d opts in (st, Some d')
  end.

Definition zu_decoder_free (d : option zu_decoder) : list release :=
  match d with
  | None => []
  | Some d =>
      (if vt_decoder_free (dec_vtable d) then [release_state] else []) ++ [release_handle]
  end.

(** ** One-shot *)

Definition zu_compress_bound (reg : registry) (codec : zu_codec) (level n : Z)
    (out : outp) : result Z :=
  if negb out then Err ZU_ERR_INVALID_ARGUMENT
  else
    v ← zu_int_resolve reg codec ZU_CAN_ENCODE;
    _ ← zu_int_check_level v level;
    match vt_bound v with
    | None => Err ZU_ERR_UNSUPPORTED
    | Some bound => bound level n
    end.

(** The [for (;;)] of [zu_int_one_shot], over either direction's process function.
    [None] is "out of fuel". *)
Fixpoint one_shot_loop {H} (process : H -> zu_buffer -> zu_flush -> zu_status * H * zu_buffer)
    (fuel : nat) (h : H) (buf : zu_buffer) : option (zu_status * H * zu_buffer) :=
  match fuel with
  | O => None
  | S fuel' =>
      let '(st, h', buf') := process h buf ZU_FINISH in
      if status_eqb st ZU_STREAM_END then Some (ZU_OK, h', buf')
      else if negb (is_progress st) then Some (st, h', buf')
      else if status_eqb st ZU_NEED_OUTPUT && (dst_pos buf' =? dst_size buf')
      then Some (ZU_ERR_OUTPUT_LIMIT, h', buf')
      else if (dst_pos buf' =? dst_pos buf) && (src_pos buf' =? src_pos buf)
      then Some (ZU_ERR_INTERNAL, h', buf')
      else one_shot_loop process fuel' h' buf'
  end.

(** Every round but the last moves a cursor, so this many rounds are enough. *)
Definition one_shot_fuel (n cap : Z) : nat := S (Z.to_nat (n + cap)).

(** Status, the value of [*written] when it was stored, and the output buffer. *)
Definition one_shot_result {H} (new : result H)
    (process : H -> zu_buffer -> zu_flush -> zu_status * H * zu_buffer)
    (src : option bytes) (n : Z) (dst : option bytes) (cap : Z) (written : outp) :
    option (zu_status * option Z * option bytes) :=
  if negb written || (is_null src && negb (n =? 0)) || (is_null dst && negb (cap =? 0))
  then Some (ZU_ERR_INVALID_ARGUMENT, None, dst)
  else
    match new with
    | Err st => Some (st, Some 0, dst)
    | Ok h =>
        match one_shot_loop process (one_shot_fuel n cap) h (mk_buffer src n 0 dst cap 0) with
        | None => None
        | Some (st, _, buf) => Some (st, Some (dst_pos buf), Types.dst buf)
        end
    end.

Definition zu_compress_one (reg : registry) (opts : option bytes) (src : option bytes)
    (n : Z) (dst : option bytes) (cap : Z) (written : outp) :
    option (zu_status * option Z * option bytes) :=
  one_shot_result (zu_encoder_new reg true opts) encoder_process src n dst cap written.

Definition zu_decompress_one (reg : registry) (opts : option bytes) (src : option bytes)
    (n : Z) (dst : option bytes) (cap : Z) (written : outp) :
    option (zu_status * option Z * option bytes) :=
  one_shot_result (zu_decoder_new reg true opts) decoder_process src n dst cap written.

End driver.

(** ** Lemmas: validation *)

Lemma check_buffer_ok b : buffer_ok b -> zu_int_check_buffer (Some b) = ZU_OK.
Proof.
  intros [? ? ? ? Hs Hd]. unfold zu_int_check_buffer. rewrite !Z.gtb_ltb.
  destruct (Z.ltb_spec (src_size b) (src_pos b)); [lia|].
  destruct (Z.ltb_spec (dst_size b) (dst_pos b)); [lia|]. simpl.
  destruct (src b), (dst b); simpl in *; try rewrite Hs; try rewrite Hd; done.
Qed.

(** Outside the contract on the objects' lengths, the check is exactly the cursor and
    NULL conditions. *)
Lemma check_buffer_inv b :
  zu_int_check_buffer (Some b) = ZU_OK ->
  src_pos b <= src_size b /\ dst_pos b <= dst_size b /\
  (src b = None -> src_size b = 0) /\ (dst b = None -> dst_size b = 0).
Proof.
  unfold zu_int_check_buffer. rewrite !Z.gtb_ltb.
  destruct (Z.ltb_spec (src_size b) (src_pos b)), (Z.ltb_spec (dst_size b) (dst_pos b));
    simpl; try done.
  destruct (src b), (dst b); simpl;
    destruct (Z.eqb_spec (src_size b) 0), (Z.eqb_spec (dst_size b) 0); simpl;
    intros; try done; auto.
Qed.

Lemma resolve_ok reg codec dir v :
  zu_int_resolve reg codec dir = Ok v ->
  zu_int_registry_lookup reg codec = Some v /\ has_flag (vt_flags v) dir = true.
Proof.
  unfold zu_int_resolve. destruct (zu_int_registry_lookup reg codec) as [w|]; [|done].
  destruct (has_flag (vt_flags w) dir) eqn:E; [|done]. by intros [= ->].
Qed.

(** ** Lemmas: the copied options *)

Lemma le_value_app l k : le_value (l ++ k) = le_value l + 256 ^ zlen l * le_value k.
Proof.
  induction l as [|b l IH]; cbn [le_value app].
  - change (zlen []) with 0. lia.
  - rewrite IH, zlen_cons, Z.pow_add_r by (pose proof (zlen_nonneg l); lia). lia.
Qed.

Lemma le_value_zeros n : le_value (replicate n 0) = 0.
Proof. induction n; simpl; lia. Qed.

Lemma memcpy_at_0 p bs : memcpy_at p 0 bs = bs ++ drop (length bs) p.
Proof. unfold memcpy_at. done. Qed.

(** The copy is the caller's prefix, zero-extended, under the new [struct_size]. *)
Lemma copy_opts_eq size src src_size :
  4 <= src_size -> 4 <= size -> src_size <= zlen src ->
  zu_int_copy_opts size src src_size =
    le_bytes 4 size ++ drop 4 (take (Z.to_nat (Z.min src_size size)) src) ++
    replicate (Z.to_nat (size - src_size)) 0.
Proof.
  intros H4 Hs Hlen. unfold zu_int_copy_opts, zlen in *.
  replace (if src_size <? size then src_size else size) with (Z.min src_size size)
    by (destruct (Z.ltb_spec src_size size); lia).
  assert (Hl : length (take (Z.to_nat (Z.min src_size size)) src) =
               Z.to_nat (Z.min src_size size)) by (rewrite length_take; lia).
  rewrite !memcpy_at_0. unfold sub. rewrite drop_0, length_le_bytes, Hl. f_equal.
  rewrite drop_app_le by lia. f_equal.
  rewrite drop_replicate. f_equal. lia.
Qed.

(** ** Lemmas: one decoder call *)

Lemma decoder_window_cases o total_out b :
  decoder_window o total_out b = (avail_out b, false, b) \/
  (exists ceiling st rem, decoder_ceiling o = Some (ceiling, st) /\
     rem = (if total_out <? ceiling then ceiling - total_out else 0) /\
     rem < avail_out b /\
     decoder_window o total_out b = (rem, true, buf_set_dst_size b (dst_pos b + rem))).
Proof.
  unfold decoder_window, avail_out. destruct (decoder_ceiling o) as [[c st]|]; [|by left].
  destruct (Z.ltb_spec (if total_out <? c then c - total_out else 0) (dst_size b - dst_pos b)).
  - right. eauto 8.
  - by left.
Qed.

Lemma window_buffer_ok b rem :
  buffer_ok b -> 0 <= rem <= avail_out b -> buffer_ok (buf_set_dst_size b (dst_pos b + rem)).
Proof.
  unfold avail_out. intros [] Hr. constructor; simpl; auto; try lia.
  eapply object_covers_mono; [|eauto]. lia.
Qed.

(** A call either stops before the codec and changes nothing, or hands the codec the
    window and classifies what came back. *)
Inductive decoder_call (d : zu_decoder) (b : zu_buffer) (f : zu_flush) :
    zu_status -> zu_decoder -> zu_buffer -> Prop :=
  | dc_idle st :
      (dec_finished d = true ->
         st = (if (src_pos b <? src_size b) &&
                  has_flag (do_flags (dec_opts d)) ZU_DEC_REJECT_TRAILING
               then ZU_ERR_TRAILING else ZU_STREAM_END)) ->
      (dec_finished d = false -> st = ZU_ERR_UNSUPPORTED \/
         st = null_call /\ vt_decoder_process (dec_vtable d) = None) ->
      decoder_call d b f st d b
  | dc_codec process allowance capped given st s' b1 :
      dec_finished d = false ->
      vt_decoder_process (dec_vtable d) = Some process ->
      decoder_window (dec_opts d) (dec_total_out d) b = (allowance, capped, given) ->
      process (dec_state d) given f = (st, s', b1) ->
      let b' := if capped then buf_set_dst_size b1 (dst_size b) else b1 in
      let produced := u64 (dst_pos b1 - dst_pos b) in
      let total_in := u64 (dec_total_in d + u64 (src_pos b1 - src_pos b)) in
      let total_out := u64 (dec_total_out d + produced) in
      decoder_call d b f
        (decoder_verdict (dec_opts d) total_in total_out st capped produced allowance b')
        (mk_decoder (dec_vtable d) s' (dec_opts d) (status_eqb st ZU_STREAM_END)
           total_in total_out) b'.

Lemma decoder_process_view d b f st d' b' :
  buffer_ok b -> f = ZU_RUN \/ f = ZU_FLUSH \/ f = ZU_FINISH ->
  decoder_process d b f = (st, d', b') -> decoder_call d b f st d' b'.
Proof.
  intros Hb Hf. unfold decoder_process. rewrite check_buffer_ok by done.
  assert (zu_int_check_flush f = ZU_OK) as -> by (by destruct Hf as [-> | [-> | -> ] ]).
  destruct (dec_finished d) eqn:Hfin.
  - intros [= <- <- <-]. constructor; [done|congruence].
  - destruct (is_flush f && _); [intros [= <- <- <-]; apply dc_idle; [congruence|by left]|].
    destruct (vt_decoder_process (dec_vtable d)) as [process|] eqn:Hp;
      [|intros [= <- <- <-]; apply dc_idle; [congruence|naive_solver]].
    destruct (decoder_window (dec_opts d) (dec_total_out d) b) as [[allowance capped] given] eqn:Hw.
    destruct (process (dec_state d) given f) as [[st0 s'] b1] eqn:Hproc.
    intros [= <- <- <-]. by eapply dc_codec.
Qed.

(** The counters a live decoder keeps, against the limits of its options. *)
Record limits_ok (d : zu_decoder) : Prop := {
  lo_range : 0 <= dec_total_out d < 2 ^ 64;
  lo_max : do_max_output (dec_opts d) <> 0 ->
    dec_total_out d <= do_max_output (dec_opts d);
  lo_expected : has_expected (dec_opts d) = true ->
    dec_total_out d <= do_expected_size (dec_opts d);
  lo_fit : decoder_opts_fit (dec_opts d);
}.

Lemma ceiling_bounds o c st :
  decoder_opts_fit o -> decoder_ceiling o = Some (c, st) ->
  0 <= c < 2 ^ 64 /\
  (do_max_output o <> 0 -> c <= do_max_output o) /\
  (has_expected o = true -> c <= do_expected_size o) /\
  ((st = ZU_ERR_OUTPUT_LIMIT /\ c = do_max_output o /\ do_max_output o <> 0 /\
    (has_expected o = true -> c < do_expected_size o)) \/
   (st = ZU_ERR_INVALID_DATA /\ c = do_expected_size o /\ has_expected o = true)).
Proof.
  intros (_ & _ & Hm & _ & _ & He). unfold decoder_ceiling.
  destruct (Z.eqb_spec (do_max_output o) 0) as [E|E]; cbn [negb].
  - destruct (has_expected o); cbn [andb]; [|done]. intros [= <- <-].
    split_and!; try done; try lia. by right.
  - destruct (has_expected o); cbn [andb].
    + destruct (Z.leb_spec (do_expected_size o) (do_max_output o)); intros [= <- <-];
        split_and!; try done; try lia; [by right|left; split_and!; done || lia].
    + intros [= <- <-]. split_and!; try done; try lia. left. done.
Qed.

Lemma no_ceiling o :
  decoder_ceiling o = None -> do_max_output o = 0 /\ has_expected o = false.
Proof.
  unfold decoder_ceiling. destruct (Z.eqb_spec (do_max_output o) 0); simpl;
    destruct (has_expected o); simpl; try done. by destruct (_ <=? _).
Qed.

Section with_contract.
Context (d : zu_decoder).

(** The vtable of this decoder honours the cursor contract. *)
Definition codec_contract (v : zu_codec_vtable) : Prop :=
  match vt_decoder_process v with
  | Some process => CursorContract process
  | None => True
  end.

Context (Hcodec : codec_contract (dec_vtable d)).

(** What the codec did to the window it was given, seen from the caller's buffer. *)
Lemma decoder_call_step b f process allowance capped given st s' b1 :
  buffer_ok b ->
  vt_decoder_process (dec_vtable d) = Some process ->
  decoder_window (dec_opts d) (dec_total_out d) b = (allowance, capped, given) ->
  process (dec_state d) given f = (st, s', b1) ->
  decoder_opts_fit (dec_opts d) ->
  buffer_step b (if capped then buf_set_dst_size b1 (dst_size b) else b1) /\
  0 <= dst_pos b1 - dst_pos b <= allowance /\
  0 <= src_pos b1 - src_pos b <= avail_in b.
Proof.
  intros Hb Hp Hw Hproc Hfit. unfold codec_contract in Hcodec. rewrite Hp in Hcodec.
  destruct (decoder_window_cases (dec_opts d) (dec_total_out d) b)
    as [E|(c & cst & rem & Hc & Hrem & Hlt & E)]; rewrite Hw in E; simplify_eq.
  - pose proof (Hcodec _ _ _ _ _ _ Hb Hproc) as Hs.
    destruct Hs; unfold avail_in, avail_out. split; [by constructor|lia].
  - pose proof (ceiling_bounds _ _ _ Hfit Hc) as (Hcr & _).
    assert (Hr : 0 <= (if dec_total_out d <? c then c - dec_total_out d else 0)).
    { destruct (Z.ltb_spec (dec_total_out d) c); lia. }
    assert (Hg : buffer_ok (buf_set_dst_size b (dst_pos b +
        (if dec_total_out d <? c then c - dec_total_out d else 0)))).
    { apply window_buffer_ok; [done|]. lia. }
    pose proof (Hcodec _ _ _ _ _ _ Hg Hproc) as Hs.
    destruct Hs as [h1 h2 h3 h4 h5 h6]; simpl in *. unfold avail_in.
    unfold avail_out in Hlt.
    split; [|lia]. constructor; simpl; try done; lia.
Qed.

Lemma decoder_call_limits b f st d' b' :
  buffer_ok b -> decoder_call d b f st d' b' -> limits_ok d ->
  limits_ok d' /\ buffer_step b b' /\
  dec_opts d' = dec_opts d /\ dec_vtable d' = dec_vtable d /\
  (decoder_ceiling (dec_opts d) <> None ->
   dec_total_out d' = dec_total_out d + (dst_pos b' - dst_pos b)).
Proof.
  intros Hb Hcall Hok. destruct Hcall as
    [st _ _|process allowance capped given st s' b1 Hfin Hp Hw Hproc bb produced tin tout].
  { split_and!; auto with zu. lia. }
  destruct Hok as [Hr Hm He Hf].
  destruct (decoder_call_step _ _ _ _ _ _ _ _ _ Hb Hp Hw Hproc Hf) as (Hstep & Hout & Hin).
  assert (Hprod : produced = dst_pos b1 - dst_pos b).
  { subst produced. apply u64_small.
    destruct (decoder_window_cases (dec_opts d) (dec_total_out d) b)
      as [E|(c & cst & rem & Hc & Hrem & Hlt & E)]; rewrite Hw in E; simplify_eq;
      destruct Hb; unfold avail_out in *; lia. }
  assert (Hpos : dst_pos bb = dst_pos b1) by (subst bb; by destruct capped).
  assert (Htot : decoder_ceiling (dec_opts d) <> None ->
    tout = dec_total_out d + (dst_pos b1 - dst_pos b) /\
    forall c cst, decoder_ceiling (dec_opts d) = Some (c, cst) ->
      dec_total_out d <= c -> tout <= c).
  { intros Hne. destruct (decoder_ceiling (dec_opts d)) as [[c cst]|] eqn:Hc; [|done].
    pose proof (ceiling_bounds _ _ _ Hf Hc) as (Hcr & Hcm & Hce & Hwhich).
    assert (dec_total_out d <= c) as Hle.
    { destruct Hwhich as [(_ & -> & Hne0 & _)|(_ & -> & Hexp)]; auto. }
    assert (allowance <= c - dec_total_out d) as Hall.
    { unfold decoder_window in Hw. rewrite Hc in Hw.
      destruct (Z.ltb_spec (if dec_total_out d <? c then c - dec_total_out d else 0)
        (dst_size b - dst_pos b)) as [H|H]; simplify_eq;
      revert H; destruct (Z.ltb_spec (dec_total_out d) c); lia. }
    assert (tout = dec_total_out d + (dst_pos b1 - dst_pos b)) as Ht.
    { subst tout. rewrite Hprod. apply u64_small. lia. }
    split; [done|]. intros c' cst' [= <- <-] _. lia. }
  split_and!; try done.
  - constructor; simpl; try done.
    + subst tout. apply u64_range.
    + intros Hne0. destruct (decoder_ceiling (dec_opts d)) as [[c cst]|] eqn:Hc;
        [|by apply no_ceiling in Hc as [? _]].
      pose proof (ceiling_bounds _ _ _ Hf Hc) as (_ & Hcm & _ & Hwhich).
      destruct (Htot ltac:(done)) as [_ Hle]. transitivity c; [|by apply Hcm].
      eapply Hle; [done|]. destruct Hwhich as [(_ & -> & ? & _)|(_ & -> & ?)]; auto.
    + intros Hexp. destruct (decoder_ceiling (dec_opts d)) as [[c cst]|] eqn:Hc;
        [|apply no_ceiling in Hc as [_ ?]; congruence].
      pose proof (ceiling_bounds _ _ _ Hf Hc) as (_ & _ & Hce & Hwhich).
      destruct (Htot ltac:(done)) as [_ Hle]. transitivity c; [|by apply Hce].
      eapply Hle; [done|]. destruct Hwhich as [(_ & -> & ? & _)|(_ & -> & ?)]; auto.
  - simpl. intros Hne. rewrite Hpos. by apply Htot.
Qed.

End with_contract.

(** ** Lemmas: options read from memory *)

Lemma le_value_sub_range m off n :
  bytes_ok m -> 0 <= le_value (sub m off (Z.of_nat n)) < 256 ^ Z.of_nat n.
Proof.
  intros Hm. pose proof (le_value_range _ (bytes_ok_sub m off (Z.of_nat n) Hm)) as H.
  split; [lia|]. eapply Z.lt_le_trans; [apply H|]. apply Z.pow_le_mono_r; [lia|].
  unfold zlen, sub. rewrite length_take. lia.
Qed.

Lemma decoder_opts_of_fit m : bytes_ok m -> decoder_opts_fit (decoder_opts_of m).
Proof.
  intros Hm. unfold decoder_opts_fit, decoder_opts_of. simpl.
  split_and!; first [apply (le_value_sub_range m _ 4 Hm)|apply (le_value_sub_range m _ 8 Hm)].
Qed.

Lemma bytes_ok_copy_opts size src n : bytes_ok src -> bytes_ok (zu_int_copy_opts size src n).
Proof.
  intros. apply bytes_ok_memcpy; [apply bytes_ok_memcpy|apply le_bytes_ok].
  - apply Forall_replicate. unfold byte_ok. lia.
  - by apply bytes_ok_sub.
Qed.

Lemma decoder_opts_bytes_ok o : bytes_ok (decoder_opts_bytes o).
Proof. unfold decoder_opts_bytes. repeat apply bytes_ok_app; apply le_bytes_ok. Qed.

(** ** Reachable decoders *)

Definition valid_flush (f : zu_flush) : Prop := f = ZU_RUN \/ f = ZU_FLUSH \/ f = ZU_FINISH.

Section reachable.
Context {alloc : Allocator} (reg : registry).

(** A decoder some client can hold: created from the registry, then driven and reset
    in any order, with any well-formed buffers and any option structs. *)
Inductive decoder_reachable : zu_decoder -> Prop :=
  | dr_new m d :
      bytes_ok m -> zu_decoder_new reg true (Some m) = Ok d -> decoder_reachable d
  | dr_process d b f st d' b' :
      decoder_reachable d -> buffer_ok b -> valid_flush f ->
      decoder_process d b f = (st, d', b') -> decoder_reachable d'
  | dr_reset d opts st d' :
      decoder_reachable d -> (forall m, opts = Some m -> bytes_ok m) ->
      decoder_reset d opts = (st, d') -> decoder_reachable d'.

Definition registry_contract : Prop := Forall codec_contract (reg_vtables reg).

Lemma decoder_new_inv m d :
  zu_decoder_new reg true (Some m) = Ok d ->
  zu_int_check_dec_opts m = ZU_OK /\
  zu_int_resolve reg (do_codec (decoder_opts_of m)) ZU_CAN_DECODE = Ok (dec_vtable d) /\
  dec_opts d = decoder_opts_of
    (zu_int_copy_opts sizeof_decoder_opts m (opts_struct_size m)) /\
  dec_finished d = false /\ dec_total_in d = 0 /\ dec_total_out d = 0.
Proof.
  unfold zu_decoder_new. cbn [negb].
  destruct (status_eqb (zu_int_check_dec_opts m) ZU_OK) eqn:Hck; [|done]. cbn [negb].
  apply status_eqb_spec in Hck.
  destruct (zu_int_resolve reg _ _) as [v|] eqn:Hres; [|done]. cbn [mbind result_bind].
  destruct (negb (alloc_ok req_decoder)); [done|].
  destruct (vt_decoder_new v) as [new|]; [|done].
  destruct (new _) as [s|]; [|done]. cbn [mbind result_bind]. intros [= <-]. done.
Qed.

Lemma decoder_reset_cases d opts st d' :
  decoder_reset d opts = (st, d') ->
  dec_vtable d' = dec_vtable d /\
  ((st = ZU_OK /\ dec_finished d' = false /\ dec_total_in d' = 0 /\ dec_total_out d' = 0 /\
    let given := default (decoder_opts_bytes (dec_opts d)) opts in
    zu_int_check_dec_opts given = ZU_OK /\
    dec_opts d' = decoder_opts_of
      (zu_int_copy_opts sizeof_decoder_opts given (opts_struct_size given)) /\
    do_codec (dec_opts d') = do_codec (dec_opts d)) \/
   (st <> ZU_OK /\ dec_opts d' = dec_opts d /\ dec_finished d' = dec_finished d /\
    dec_total_in d' = dec_total_in d /\ dec_total_out d' = dec_total_out d)).
Proof.
  unfold decoder_reset.
  set (given := default (decoder_opts_bytes (dec_opts d)) opts).
  destruct (status_eqb (zu_int_check_dec_opts given) ZU_OK) eqn:Hck; cbn [negb];
    [|intros [= <- <-]; split; [done|right; done]].
  apply status_eqb_spec in Hck.
  destruct (Z.eqb_spec (do_codec (decoder_opts_of (zu_int_copy_opts sizeof_decoder_opts given
    (opts_struct_size given)))) (do_codec (dec_opts d))) as [Hc|Hc]; cbn [negb];
    [|intros [= <- <-]; split; [done|right; done]].
  destruct (vt_decoder_reset (dec_vtable d)) as [reset|];
    [|intros [= <- <-]; split; [done|right; done]].
  destruct (reset (dec_state d) _) as [st0 s'].
  destruct st0; intros [= <- <-]; (split; [done|]); try (right; done). left. done.
Qed.

Lemma reachable_vtable d :
  decoder_reachable d ->
  exists codec, zu_int_resolve reg codec ZU_CAN_DECODE = Ok (dec_vtable d).
Proof.
  induction 1 as [m d Hm Hnew|d b f st d' b' Hr [codec IH] Hb Hf Hp|d opts st d' Hr [codec IH] Ho Hp].
  - apply decoder_new_inv in Hnew as (_ & ? & _). eauto.
  - exists codec. rewrite IH. f_equal.
    pose proof (decoder_process_view _ _ _ _ _ _ Hb Hf Hp) as Hc. by destruct Hc.
  - apply decoder_reset_cases in Hp as [E _]. exists codec. by rewrite E.
Qed.

Lemma reachable_contract d :
  registry_contract -> decoder_reachable d -> codec_contract (dec_vtable d).
Proof.
  intros Hreg (codec & [Hl _]%resolve_ok)%reachable_vtable.
  apply lookup_some_in in Hl as [Hin _].
  unfold registry_contract in Hreg. rewrite List.Forall_forall in Hreg. auto.
Qed.

Lemma reachable_limits d :
  registry_contract -> decoder_reachable d -> limits_ok d.
Proof.
  intros Hreg Hr.
  assert (Hz : forall m, bytes_ok m -> limits_ok d -> True) by done.
  induction Hr as [m d Hm Hnew|d b f st d' b' Hr IH Hb Hf Hp|d opts st d' Hr IH Ho Hp].
  - apply decoder_new_inv in Hnew as (_ & _ & Ho & _ & _ & Ht).
    assert (Hfit : decoder_opts_fit (dec_opts d)).
    { rewrite Ho. by apply decoder_opts_of_fit, bytes_ok_copy_opts. }
    destruct Hfit as (? & ? & ? & ? & ? & ?). constructor; rewrite ?Ht; try lia. done.
  - pose proof (reachable_contract _ Hreg Hr) as Hc.
    eapply decoder_call_limits; eauto. by eapply decoder_process_view.
  - specialize (IH ltac:(done)).
    apply decoder_reset_cases in Hp as [_ [(_ & _ & _ & Ht & _ & Hopts & _)|(_ & Eo & _ & _ & Et)]].
    + assert (Hfit : decoder_opts_fit (dec_opts d')).
      { rewrite Hopts. apply decoder_opts_of_fit, bytes_ok_copy_opts.
        destruct opts; simpl; [auto|apply decoder_opts_bytes_ok]. }
      destruct Hfit as (? & ? & ? & ? & ? & ?). constructor; rewrite ?Ht; try lia. done.
    + destruct IH. constructor; rewrite ?Eo, ?Et; done.
Qed.

(** The driver never calls a NULL process function on a registry that registration
    built. *)
Lemma reachable_has_process d :
  registry_ok reg -> decoder_reachable d -> is_Some (vt_decoder_process (dec_vtable d)).
Proof.
  intros Hok (codec & [Hl Hf]%resolve_ok)%reachable_vtable.
  apply lookup_some_in in Hl as [Hin _].
  by apply registered_decoder_pointers; [eapply registered_vtable_ok|].
Qed.

End reachable.
