(* ===== verification/Deflate.v ===== *)
(** * The DEFLATE family: src/codec_deflate.c

    deflate-raw, zlib and gzip: one engine, three wrappers.  The vendored miniz is the
    class [Miniz]; the wrapper headers, trailers, checksums, member probing and the loop
    that drives them are the source's.  The theorems about them are in DeflateProps.v. *)
From S2P Require Import Prelude Types SizeArith Registry Stream Checksum GzipHeader ProcessLoop.

(** ** miniz *)

Definition MZ_NO_FLUSH : Z := 0.
Definition MZ_SYNC_FLUSH : Z := 2.
Definition MZ_FINISH : Z := 4.

Definition MZ_OK : Z := 0.
Definition MZ_STREAM_END : Z := 1.
Definition MZ_NEED_DICT : Z := 2.
Definition MZ_STREAM_ERROR : Z := -2.
Definition MZ_DATA_ERROR : Z := -3.
Definition MZ_MEM_ERROR : Z := -4.
Definition MZ_BUF_ERROR : Z := -5.
Definition MZ_PARAM_ERROR : Z := -10000.

Definition MZ_DEFAULT_LEVEL : Z := 6.

(** What [mz_deflate] or [mz_inflate] did: its return value, how far it moved [next_in],
    the bytes it stored at [next_out], and the stream. *)
Record mz_outcome (stream : Type) := mk_mz {
  mz_ret : Z;
  mz_used : Z;
  mz_out : bytes;
  mz_next : stream;
}.
Arguments mk_mz {stream} mz_ret mz_used mz_out mz_next.
Arguments mz_ret {stream} m.
Arguments mz_used {stream} m.
Arguments mz_out {stream} m.
Arguments mz_next {stream} m.

(** [mz_stream_zero] is the stream all of whose bytes are zero, as [calloc] and [memset]
    leave it.  The other parameters of the init functions are constants of the source.
    [mz_deflate s next_in avail_out flush], and [next_in] has [avail_in] bytes. *)
Class Miniz := {
  mz_stream : Type;
  mz_stream_zero : mz_stream;
  mz_deflateInit2 : mz_stream -> Z -> Z * mz_stream;
  mz_inflateInit2 : mz_stream -> Z * mz_stream;
  mz_deflateReset : mz_stream -> Z * mz_stream;
  mz_inflateReset : mz_stream -> Z * mz_stream;
  mz_deflate : mz_stream -> bytes -> Z -> Z -> mz_outcome mz_stream;
  mz_inflate : mz_stream -> bytes -> Z -> Z -> mz_outcome mz_stream;
}.

(** zlib's calling convention: a call stays inside the windows it was given. *)
Definition mz_call_ok {stream} (call : stream -> bytes -> Z -> Z -> mz_outcome stream) : Prop :=
  forall m next_in avail_out flush, 0 <= avail_out ->
    let r := call m next_in avail_out flush in
    0 <= mz_used r <= zlen next_in /\ zlen (mz_out r) <= avail_out /\ bytes_ok (mz_out r).

(** What the init and reset functions return. *)
Definition mz_init_ret (r : Z) : Prop :=
  r = MZ_OK \/ r = MZ_STREAM_ERROR \/ r = MZ_MEM_ERROR \/ r = MZ_PARAM_ERROR.

Class MinizOk `{Miniz} : Prop := {
  mz_deflate_ok : mz_call_ok mz_deflate;
  mz_inflate_ok : mz_call_ok mz_inflate;
  mz_deflateInit2_ret : forall m level, mz_init_ret (fst (mz_deflateInit2 m level));
  mz_inflateInit2_ret : forall m, mz_init_ret (fst (mz_inflateInit2 m));
  mz_deflateReset_ret : forall m, mz_init_ret (fst (mz_deflateReset m));
  mz_inflateReset_ret : forall m, mz_init_ret (fst (mz_inflateReset m));
}.

(** ** State *)

Inductive wrap_kind :=
  | WRAP_NONE
  | WRAP_ZLIB
  | WRAP_GZIP.

Inductive wrap_state :=
  | ST_HEADER
  | ST_BODY
  | ST_TRAILER
  | ST_MEMBER_END
  | ST_DONE.

#[export] Instance wrap_kind_eq_dec : EqDecision wrap_kind.
Proof. solve_decision. Defined.
#[export] Instance wrap_state_eq_dec : EqDecision wrap_state.
Proof. solve_decision. Defined.

Section deflate.
Context {mz : Miniz}.

Record deflate_state := mk_df {
  df_mz : mz_stream;
  df_mz_live : bool;
  df_mz_called : bool;
  df_encoder : bool;
  df_wrap : wrap_kind;
  df_state : wrap_state;
  df_level : Z;
  df_hdr : bytes;
  df_hdr_len : Z;
  df_hdr_pos : Z;
  df_tail : bytes;
  df_tail_len : Z;
  df_tail_pos : Z;
  df_checksum : Z;
  df_uncompressed : Z;
  df_gz : zu_int_gzip_header;
  df_dec_flags : Z;
  df_probe_magic : bool;
}.

(** Record updates. *)
Definition df_set_state (s : deflate_state) (st : wrap_state) : deflate_state :=
  mk_df (df_mz s) (df_mz_live s) (df_mz_called s) (df_encoder s) (df_wrap s) st (df_level s)
    (df_hdr s) (df_hdr_len s) (df_hdr_pos s) (df_tail s) (df_tail_len s) (df_tail_pos s)
    (df_checksum s) (df_uncompressed s) (df_gz s) (df_dec_flags s) (df_probe_magic s).
Definition df_set_mz (s : deflate_state) (m : mz_stream) (live called : bool) : deflate_state :=
  mk_df m live called (df_encoder s) (df_wrap s) (df_state s) (df_level s)
    (df_hdr s) (df_hdr_len s) (df_hdr_pos s) (df_tail s) (df_tail_len s) (df_tail_pos s)
    (df_checksum s) (df_uncompressed s) (df_gz s) (df_dec_flags s) (df_probe_magic s).
Definition df_set_level (s : deflate_state) (level : Z) : deflate_state :=
  mk_df (df_mz s) (df_mz_live s) (df_mz_called s) (df_encoder s) (df_wrap s) (df_state s) level
    (df_hdr s) (df_hdr_len s) (df_hdr_pos s) (df_tail s) (df_tail_len s) (df_tail_pos s)
    (df_checksum s) (df_uncompressed s) (df_gz s) (df_dec_flags s) (df_probe_magic s).
Definition df_set_hdr (s : deflate_state) (hdr : bytes) (pos : Z) : deflate_state :=
  mk_df (df_mz s) (df_mz_live s) (df_mz_called s) (df_encoder s) (df_wrap s) (df_state s)
    (df_level s) hdr (df_hdr_len s) pos (df_tail s) (df_tail_len s) (df_tail_pos s)
    (df_checksum s) (df_uncompressed s) (df_gz s) (df_dec_flags s) (df_probe_magic s).
Definition df_set_tail (s : deflate_state) (tail : bytes) (pos : Z) : deflate_state :=
  mk_df (df_mz s) (df_mz_live s) (df_mz_called s) (df_encoder s) (df_wrap s) (df_state s)
    (df_level s) (df_hdr s) (df_hdr_len s) (df_hdr_pos s) tail (df_tail_len s) pos
    (df_checksum s) (df_uncompressed s) (df_gz s) (df_dec_flags s) (df_probe_magic s).
Definition df_set_sum (s : deflate_state) (checksum uncompressed : Z) : deflate_state :=
  mk_df (df_mz s) (df_mz_live s) (df_mz_called s) (df_encoder s) (df_wrap s) (df_state s)
    (df_level s) (df_hdr s) (df_hdr_len s) (df_hdr_pos s) (df_tail s) (df_tail_len s)
    (df_tail_pos s) checksum uncompressed (df_gz s) (df_dec_flags s) (df_probe_magic s).
Definition df_set_gz (s : deflate_state) (gz : zu_int_gzip_header) : deflate_state :=
  mk_df (df_mz s) (df_mz_live s) (df_mz_called s) (df_encoder s) (df_wrap s) (df_state s)
    (df_level s) (df_hdr s) (df_hdr_len s) (df_hdr_pos s) (df_tail s) (df_tail_len s)
    (df_tail_pos s) (df_checksum s) (df_uncompressed s) gz (df_dec_flags s) (df_probe_magic s).
Definition df_set_dec_flags (s : deflate_state) (flags : Z) : deflate_state :=
  mk_df (df_mz s) (df_mz_live s) (df_mz_called s) (df_encoder s) (df_wrap s) (df_state s)
    (df_level s) (df_hdr s) (df_hdr_len s) (df_hdr_pos s) (df_tail s) (df_tail_len s)
    (df_tail_pos s) (df_checksum s) (df_uncompressed s) (df_gz s) flags (df_probe_magic s).
Definition df_set_probe (s : deflate_state) (probe : bool) : deflate_state :=
  mk_df (df_mz s) (df_mz_live s) (df_mz_called s) (df_encoder s) (df_wrap s) (df_state s)
    (df_level s) (df_hdr s) (df_hdr_len s) (df_hdr_pos s) (df_tail s) (df_tail_len s)
    (df_tail_pos s) (df_checksum s) (df_uncompressed s) (df_gz s) (df_dec_flags s) probe.

Definition is_wrapped (w : wrap_kind) : bool := negb (bool_decide (w = WRAP_NONE)).
Definition is_zlib (w : wrap_kind) : bool := bool_decide (w = WRAP_ZLIB).
Definition is_gzip (w : wrap_kind) : bool := bool_decide (w = WRAP_GZIP).

(** ** Status mapping *)

Definition zu_int_from_mz (r : Z) : zu_status :=
  if r =? MZ_OK then ZU_OK
  else if r =? MZ_STREAM_END then ZU_STREAM_END
  else if r =? MZ_BUF_ERROR then ZU_OK
  else if r =? MZ_DATA_ERROR then ZU_ERR_INVALID_DATA
  else if r =? MZ_MEM_ERROR then ZU_ERR_MEMORY
  else if r =? MZ_PARAM_ERROR then ZU_ERR_INVALID_ARGUMENT
  else if r =? MZ_STREAM_ERROR then ZU_ERR_INVALID_DATA
  else if r =? MZ_NEED_DICT then ZU_ERR_UNSUPPORTED
  else ZU_ERR_INTERNAL.

Definition zu_int_to_mz_flush (f : zu_flush) : Z :=
  match f with
  | ZU_FLUSH => MZ_SYNC_FLUSH
  | ZU_FINISH => MZ_FINISH
  | ZU_RUN | ZU_FLUSH_OTHER _ => MZ_NO_FLUSH
  end.

(** ** The zlib wrapper *)

Definition zu_int_zlib_header (level : Z) : bytes :=
  let cmf := 0x78 in
  let flevel :=
    if level <=? 1 then 0 else if level <=? 5 then 1 else if level =? 6 then 2 else 3 in
  let flg := u8 (Z.shiftl flevel 6) in
  let check := u16 (Z.lor (u16 (Z.shiftl cmf 8)) flg) in
  let rem := u8 (check mod 31) in
  let flg := if negb (rem =? 0) then u8 (flg + (31 - rem)) else flg in
  [cmf; flg].

Definition zu_int_zlib_check_header (hdr : bytes) : zu_status :=
  let cmf := byte_at hdr 0 in
  let flg := byte_at hdr 1 in
  if negb (Z.land cmf 0x0f =? 8) then ZU_ERR_INVALID_DATA
  else if Z.land (Z.shiftr cmf 4) 0x0f >? 7 then ZU_ERR_INVALID_DATA
  else if negb (Z.lor (Z.shiftl cmf 8) flg mod 31 =? 0) then ZU_ERR_INVALID_DATA
  else if has_flag flg 0x20 then ZU_ERR_UNSUPPORTED
  else ZU_OK.

Definition zu_int_checksum_init (w : wrap_kind) : Z :=
  match w with
  | WRAP_GZIP => mz_crc32 0 []
  | _ => mz_adler32 0 None
  end.

Definition zu_int_checksum_update (w : wrap_kind) (v : Z) (p : bytes) : Z :=
  if zlen p =? 0 then v
  else match w with
       | WRAP_GZIP => mz_crc32 v p
       | _ => mz_adler32 v (Some p)
       end.

(** ** Lifecycle *)

Section lifecycle.
Context {alloc : Allocator}.

(** [calloc]'s zero bytes: [hdr] has ten, [tail] eight. *)
Definition zu_int_deflate_new (wrap : wrap_kind) (encoder : bool) (level dec_flags : Z) :
    result deflate_state :=
  if negb (alloc_ok req_state) then Err ZU_ERR_MEMORY
  else
    let level := if level =? ZU_LEVEL_DEFAULT then MZ_DEFAULT_LEVEL else level in
    let '(r, m) :=
      if encoder then mz_deflateInit2 mz_stream_zero level else mz_inflateInit2 mz_stream_zero in
    if negb (r =? MZ_OK) then Err (zu_int_from_mz r)
    else
      let gz0 := mk_gz ZU_INT_GZ_FIXED (replicate 10 0) 0 0 0 0 0 0 (replicate 2 0) 0 0 in
      let s st hdr hdr_len tail_len gz :=
        mk_df m true false encoder wrap st level hdr hdr_len 0 (replicate 8 0) tail_len 0
          (zu_int_checksum_init wrap) 0 gz dec_flags false in
      Ok match wrap with
         | WRAP_ZLIB =>
             s ST_HEADER
               (if encoder then memcpy_at (replicate 10 0) 0 (zu_int_zlib_header level)
                else replicate 10 0) 2 4 gz0
         | WRAP_GZIP =>
             s ST_HEADER (if encoder then zu_int_gzip_write_header else replicate 10 0)
               ZU_INT_GZIP_HEADER_LEN 8 (if encoder then gz0 else zu_int_gzip_header_init)
         | WRAP_NONE => s ST_BODY (replicate 10 0) 0 0 gz0
         end.

Definition deflate_raw_encoder_new (o : zu_encoder_opts) : result deflate_state :=
  zu_int_deflate_new WRAP_NONE true (eo_level o) 0.
Definition deflate_raw_decoder_new (o : zu_decoder_opts) : result deflate_state :=
  zu_int_deflate_new WRAP_NONE false ZU_LEVEL_DEFAULT (do_flags o).
Definition zlib_encoder_new (o : zu_encoder_opts) : result deflate_state :=
  zu_int_deflate_new WRAP_ZLIB true (eo_level o) 0.
Definition zlib_decoder_new (o : zu_decoder_opts) : result deflate_state :=
  zu_int_deflate_new WRAP_ZLIB false ZU_LEVEL_DEFAULT (do_flags o).
Definition gzip_encoder_new (o : zu_encoder_opts) : result deflate_state :=
  zu_int_deflate_new WRAP_GZIP true (eo_level o) 0.
Definition gzip_decoder_new (o : zu_decoder_opts) : result deflate_state :=
  zu_int_deflate_new WRAP_GZIP false ZU_LEVEL_DEFAULT (do_flags o).

End lifecycle.

(** The level a reset asks for: saying nothing changes nothing. *)
Definition deflate_want (s : deflate_state) (level : Z) : Z :=
  if df_encoder s && negb (level =? ZU_LEVEL_DEFAULT) then level else df_level s.

(** The part of [zu_int_deflate_reset] that restarts miniz: the status it returns early
    with, if any, and the state. *)
Definition deflate_restart (s : deflate_state) (level : Z) : option zu_status * deflate_state :=
  let want := deflate_want s level in
  if df_encoder s && negb (want =? df_level s)
  then
    let '(r, m) := mz_deflateInit2 mz_stream_zero want in
    if negb (r =? MZ_OK) then (Some (zu_int_from_mz r), df_set_mz s m false (df_mz_called s))
    else (None, df_set_level (df_set_mz s m true (df_mz_called s)) want)
  else
    let '(r, m) := if df_encoder s then mz_deflateReset (df_mz s) else mz_inflateReset (df_mz s) in
    let s := df_set_mz s m (df_mz_live s) (df_mz_called s) in
    if negb (r =? MZ_OK) then (Some (zu_int_from_mz r), s) else (None, s).

(** ... and the part that re-arms the wrapper. *)
Definition deflate_rearm (s : deflate_state) : deflate_state :=
  let s := df_set_mz s (df_mz s) (df_mz_live s) false in
  let s := df_set_sum s (zu_int_checksum_init (df_wrap s)) 0 in
  let s := df_set_hdr s (df_hdr s) 0 in
  let s := df_set_tail s (df_tail s) 0 in
  let s := df_set_probe s false in
  match df_wrap s with
  | WRAP_ZLIB =>
      let s := df_set_state s ST_HEADER in
      if df_encoder s then df_set_hdr s (memcpy_at (df_hdr s) 0 (zu_int_zlib_header (df_level s))) 0
      else s
  | WRAP_GZIP =>
      let s := df_set_state s ST_HEADER in
      if df_encoder s then df_set_hdr s zu_int_gzip_write_header 0
      else df_set_gz s zu_int_gzip_header_init
  | WRAP_NONE => df_set_state s ST_BODY
  end.

Definition zu_int_deflate_reset (s : deflate_state) (level : Z) : zu_status * deflate_state :=
  match deflate_restart s level with
  | (None, s') => (ZU_OK, deflate_rearm s')
  | (Some st, s') => (st, s')
  end.

(** The driver never passes a null [opts] to a reset callback. *)
Definition deflate_encoder_reset (s : deflate_state) (o : zu_encoder_opts) :
    zu_status * deflate_state := zu_int_deflate_reset s (eo_level o).
Definition deflate_decoder_reset (s : deflate_state) (o : zu_decoder_opts) :
    zu_status * deflate_state := zu_int_deflate_reset (df_set_dec_flags s (do_flags o)) ZU_LEVEL_DEFAULT.

(** ** Process *)

(** [return st;] and [continue;]. *)
Definition round : Type := option zu_status * deflate_state * zu_buffer.

(** What an input-starved decoder reports. *)
Definition starved (flush : zu_flush) : zu_status :=
  if is_finish flush then ZU_ERR_TRUNCATED else ZU_NEED_INPUT.

(** [if (s->state == ST_HEADER)] *)
Definition deflate_header (s : deflate_state) (buf : zu_buffer) (flush : zu_flush) : round :=
  if df_encoder s
  then
    if df_hdr_pos s <? df_hdr_len s
    then
      if avail_out buf =? 0 then (Some ZU_NEED_OUTPUT, s, buf)
      else (None, df_set_hdr s (df_hdr s) (df_hdr_pos s + 1),
            buf_emit buf [byte_at (df_hdr s) (df_hdr_pos s)])
    else (None, df_set_state s ST_BODY, buf)
  else if is_gzip (df_wrap s)
  then
    if avail_in buf =? 0 then (Some (starved flush), s, buf)
    else
      let '(hs, gz, done) := zu_int_gzip_header_feed (df_gz s) (src_at buf 0) in
      let s := df_set_gz s gz in
      let buf := buf_consume buf 1 in
      match hs with
      | ZU_OK => (None, if done then df_set_state s ST_BODY else s, buf)
      | _ => (Some hs, s, buf)
      end
  else if df_hdr_pos s <? df_hdr_len s
  then
    if avail_in buf =? 0 then (Some (starved flush), s, buf)
    else (None, df_set_hdr s (memcpy_at (df_hdr s) (df_hdr_pos s) [src_at buf 0]) (df_hdr_pos s + 1),
          buf_consume buf 1)
  else
    match zu_int_zlib_check_header (df_hdr s) with
    | ZU_OK => (None, df_set_state s ST_BODY, buf)
    | hs => (Some hs, s, buf)
    end.

(** The trailer an encoder stores in [s->tail]. *)
Definition deflate_tail (w : wrap_kind) (checksum uncompressed : Z) : bytes :=
  let c := u32 checksum in
  match w with
  | WRAP_ZLIB => [u8 (Z.shiftr c 24); u8 (Z.shiftr c 16); u8 (Z.shiftr c 8); u8 c]
  | _ =>
      let isize := u32 (Z.land uncompressed 0xffffffff) in
      [u8 c; u8 (Z.shiftr c 8); u8 (Z.shiftr c 16); u8 (Z.shiftr c 24);
       u8 isize; u8 (Z.shiftr isize 8); u8 (Z.shiftr isize 16); u8 (Z.shiftr isize 24)]
  end.

(** [mz_deflate] and [mz_inflate] take at most this much of either window. *)
Definition mz_window (avail : Z) : Z := if avail >? 0x7fffffff then 0x7fffffff else avail.

(** The flush a body round asks miniz for. *)
Definition mz_flush_of (s : deflate_state) (flush : zu_flush) : Z :=
  let f := zu_int_to_mz_flush flush in
  if negb (df_encoder s) && negb (df_mz_called s) && (f =? MZ_FINISH) then MZ_SYNC_FLUSH else f.

(** The call itself. *)
Definition mz_crank (s : deflate_state) (buf : zu_buffer) (flush : zu_flush) : mz_outcome mz_stream :=
  (if df_encoder s then mz_deflate else mz_inflate) (df_mz s)
    (sub (src_bytes buf) (src_pos buf) (mz_window (avail_in buf)))
    (mz_window (avail_out buf)) (mz_flush_of s flush).

(** The checksum and the byte count after it, over the uncompressed bytes. *)
Definition deflate_account (s : deflate_state) (taken given : bytes) : deflate_state :=
  if is_wrapped (df_wrap s)
  then
    let p := if df_encoder s then taken else given in
    df_set_sum s (zu_int_checksum_update (df_wrap s) (df_checksum s) p)
      (u64 (df_uncompressed s + zlen p))
  else s.

(** [if (mz == MZ_STREAM_END)] *)
Definition deflate_body_end (s : deflate_state) (buf : zu_buffer) : round :=
  if is_wrapped (df_wrap s)
  then
    let tail :=
      if df_encoder s
      then memcpy_at (df_tail s) 0 (deflate_tail (df_wrap s) (df_checksum s) (df_uncompressed s))
      else df_tail s in
    (None, df_set_state (df_set_tail s tail 0) ST_TRAILER, buf)
  else (Some ZU_STREAM_END, df_set_state s ST_DONE, buf).

(** [if (used == 0 && produced == 0)]: [avail_out] is what the round began with. *)
Definition deflate_body_stuck (s : deflate_state) (buf : zu_buffer) (flush : zu_flush)
    (avail_out : Z) : zu_status :=
  if avail_out =? 0 then ZU_NEED_OUTPUT
  else if src_pos buf =? src_size buf
  then
    if negb (is_finish flush) then ZU_NEED_INPUT
    else if df_encoder s then ZU_ERR_INTERNAL else ZU_ERR_INVALID_DATA
  else ZU_NEED_OUTPUT.

(** [if (s->state == ST_BODY)] *)
Definition deflate_body (s : deflate_state) (buf : zu_buffer) (flush : zu_flush) : round :=
  if (avail_out buf =? 0) && df_encoder s then (Some ZU_NEED_OUTPUT, s, buf)
  else
    let r := mz_crank s buf flush in
    let taken := sub (src_bytes buf) (src_pos buf) (mz_used r) in
    let s := df_set_mz s (mz_next r) (df_mz_live s) true in
    let s := deflate_account s taken (mz_out r) in
    let buf' := buf_emit (buf_consume buf (mz_used r)) (mz_out r) in
    if mz_ret r =? MZ_STREAM_END then deflate_body_end s buf'
    else if negb (mz_ret r =? MZ_OK) && negb (mz_ret r =? MZ_BUF_ERROR)
    then (Some (zu_int_from_mz (mz_ret r)), s, buf')
    else if (mz_used r =? 0) && (zlen (mz_out r) =? 0)
    then (Some (deflate_body_stuck s buf' flush (avail_out buf)), s, buf')
    else (None, s, buf').

(** Restarting for a following member, whose first magic byte may already be eaten. *)
Definition deflate_next_member (s : deflate_state) (buf : zu_buffer) (held : bool) : round :=
  match zu_int_deflate_reset s ZU_LEVEL_DEFAULT with
  | (ZU_OK, s) =>
      if held
      then
        let '(rs, gz, _) := zu_int_gzip_header_feed (df_gz s) 0x1f in
        let s := df_set_gz (df_set_probe s false) gz in
        match rs with
        | ZU_OK => (None, s, buf)
        | _ => (Some rs, s, buf)
        end
      else (None, s, buf)
  | (rs, s) => (Some rs, s, buf)
  end.

(** [if (s->state == ST_MEMBER_END)] *)
Definition deflate_member_end (s : deflate_state) (buf : zu_buffer) (flush : zu_flush) : round :=
  let concat := is_gzip (df_wrap s) && has_flag (df_dec_flags s) ZU_DEC_CONCAT_MEMBERS &&
                negb (df_encoder s) in
  let done := df_set_state s ST_DONE in
  if negb concat || (avail_in buf =? 0)
  then
    if (avail_in buf =? 0) && negb (df_encoder s) && concat && negb (is_finish flush)
    then (Some ZU_NEED_INPUT, s, buf)
    else if df_probe_magic s
    then (Some (if has_flag (df_dec_flags s) ZU_DEC_REJECT_TRAILING then ZU_ERR_TRAILING
                else ZU_STREAM_END), df_set_probe done false, buf)
    else (Some ZU_STREAM_END, done, buf)
  else if negb (df_probe_magic s)
  then
    if negb (src_at buf 0 =? 0x1f) then (Some ZU_STREAM_END, done, buf)
    else if avail_in buf >=? 2
    then
      if negb (src_at buf 1 =? 0x8b) then (Some ZU_STREAM_END, done, buf)
      else deflate_next_member s buf false
    else if is_finish flush then (Some ZU_STREAM_END, done, buf)
    else (Some ZU_NEED_INPUT, df_set_probe s true, buf_consume buf 1)
  else if negb (src_at buf 0 =? 0x8b)
  then (Some ZU_STREAM_END, df_set_probe done false, buf)
  else deflate_next_member s buf true.

(** [((uint32_t) t[0] << 24) | ...] and [((uint32_t) t[0]) | ((uint32_t) t[1] << 8) | ...]. *)
Definition be32 (t : bytes) : Z :=
  Z.lor (Z.lor (Z.lor (u32 (Z.shiftl (byte_at t 0) 24)) (u32 (Z.shiftl (byte_at t 1) 16)))
    (u32 (Z.shiftl (byte_at t 2) 8))) (byte_at t 3).
Definition le32 (t : bytes) : Z :=
  Z.lor (Z.lor (Z.lor (byte_at t 0) (u32 (Z.shiftl (byte_at t 1) 8)))
    (u32 (Z.shiftl (byte_at t 2) 16))) (u32 (Z.shiftl (byte_at t 3) 24)).

(** Does a complete trailer match what was decoded? *)
Definition deflate_tail_matches (s : deflate_state) : bool :=
  if is_zlib (df_wrap s) then be32 (df_tail s) =? u32 (df_checksum s)
  else (le32 (df_tail s) =? u32 (df_checksum s)) &&
       (le32 (ptr_add (df_tail s) 4) =? u32 (Z.land (df_uncompressed s) 0xffffffff)).

(** The rest of the loop body: [ST_TRAILER]. *)
Definition deflate_trailer (s : deflate_state) (buf : zu_buffer) (flush : zu_flush) : round :=
  if df_encoder s
  then
    if df_tail_pos s <? df_tail_len s
    then
      if avail_out buf =? 0 then (Some ZU_NEED_OUTPUT, s, buf)
      else (None, df_set_tail s (df_tail s) (df_tail_pos s + 1),
            buf_emit buf [byte_at (df_tail s) (df_tail_pos s)])
    else (Some ZU_STREAM_END, df_set_state s ST_DONE, buf)
  else if df_tail_pos s <? df_tail_len s
  then
    if avail_in buf =? 0 then (Some (starved flush), s, buf)
    else (None, df_set_tail s (memcpy_at (df_tail s) (df_tail_pos s) [src_at buf 0])
                  (df_tail_pos s + 1),
          buf_consume buf 1)
  else if deflate_tail_matches s then (None, df_set_state s ST_MEMBER_END, buf)
  else (Some ZU_ERR_CHECKSUM, s, buf).

Definition deflate_round (s : deflate_state) (buf : zu_buffer) (flush : zu_flush) : round :=
  match df_state s with
  | ST_DONE => (Some ZU_STREAM_END, s, buf)
  | ST_HEADER => deflate_header s buf flush
  | ST_BODY => deflate_body s buf flush
  | ST_MEMBER_END => deflate_member_end s buf flush
  | ST_TRAILER => deflate_trailer s buf flush
  end.

(** Rounds are bounded by the bytes the cursors can still move: each byte moved pays
    for the few rounds that only change [s->state]. *)
Definition deflate_rank (s : deflate_state) : Z :=
  match df_state s with
  | ST_HEADER => if negb (df_encoder s) && is_gzip (df_wrap s) then 0 else 4
  | ST_BODY => 3
  | ST_TRAILER => 2
  | ST_MEMBER_END => 1
  | ST_DONE => 0
  end.

Definition deflate_measure (s : deflate_state) (buf : zu_buffer) : Z :=
  5 * (avail_in buf + avail_out buf) + deflate_rank s.

Definition deflate_fuel (s : deflate_state) (buf : zu_buffer) : nat :=
  S (Z.to_nat (deflate_measure s buf)).

Definition deflate_process (st : deflate_state) (buf : zu_buffer) (flush : zu_flush) :
    zu_status * deflate_state * zu_buffer :=
  run_process deflate_round deflate_fuel st buf flush.

(** ** Bounds *)

Definition zu_int_deflate_bound (n wrapper : Z) : result Z :=
  total ← zu_int_add n (n / 64) true;
  zu_int_add total (64 + wrapper) true.

Definition deflate_raw_bound (level n : Z) : result Z := zu_int_deflate_bound n 0.
Definition zlib_bound (level n : Z) : result Z := zu_int_deflate_bound n 6.
Definition gzip_bound (level n : Z) : result Z :=
  zu_int_deflate_bound n (ZU_INT_GZIP_HEADER_LEN + 8).

(** ** Vtables *)

Definition zlib_sniff (buf : option bytes) (n : Z) : bool :=
  if n <? 2 then false
  else
    match zu_int_zlib_check_header (default [] buf) with
    | ZU_OK | ZU_ERR_UNSUPPORTED => true
    | _ => false
    end.

Definition zu_int_gzip_magic : bytes := [0x1f; 0x8b].

Section vtables.
Context {alloc : Allocator}.

Definition zu_int_codec_deflate_raw : zu_codec_vtable := {|
  vt_state := deflate_state;
  vt_struct_size := sizeof_vtable;
  vt_codec := ZU_CODEC_DEFLATE_RAW;
  vt_name := Some "deflate-raw"%string;
  vt_content_encoding := None;
  vt_source := Some "zukomp"%string;
  vt_level_min := 0;
  vt_level_max := 9;
  vt_level_default := MZ_DEFAULT_LEVEL;
  vt_flags := Z.lor (Z.lor ZU_CAN_ENCODE ZU_CAN_DECODE) ZU_CAN_FLUSH;
  vt_magic := None;
  vt_magic_len := 0;
  vt_magic_offset := 0;
  vt_sniff := None;
  vt_encoder_new := Some deflate_raw_encoder_new;
  vt_encoder_process := Some deflate_process;
  vt_encoder_reset := Some deflate_encoder_reset;
  vt_encoder_free := true;
  vt_decoder_new := Some deflate_raw_decoder_new;
  vt_decoder_process := Some deflate_process;
  vt_decoder_reset := Some deflate_decoder_reset;
  vt_decoder_free := true;
  vt_bound := Some deflate_raw_bound;
  vt_level_fast := 1;
  vt_level_best := 9;
|}.

Definition zu_int_codec_zlib : zu_codec_vtable := {|
  vt_state := deflate_state;
  vt_struct_size := sizeof_vtable;
  vt_codec := ZU_CODEC_ZLIB;
  vt_name := Some "zlib"%string;
  vt_content_encoding := Some "deflate"%string;
  vt_source := Some "zukomp"%string;
  vt_level_min := 0;
  vt_level_max := 9;
  vt_level_default := MZ_DEFAULT_LEVEL;
  vt_flags := Z.lor (Z.lor ZU_CAN_ENCODE ZU_CAN_DECODE) ZU_CAN_FLUSH;
  vt_magic := None;
  vt_magic_len := 0;
  vt_magic_offset := 0;
  vt_sniff := Some zlib_sniff;
  vt_encoder_new := Some zlib_encoder_new;
  vt_encoder_process := Some deflate_process;
  vt_encoder_reset := Some deflate_encoder_reset;
  vt_encoder_free := true;
  vt_decoder_new := Some zlib_decoder_new;
  vt_decoder_process := Some deflate_process;
  vt_decoder_reset := Some deflate_decoder_reset;
  vt_decoder_free := true;
  vt_bound := Some zlib_bound;
  vt_level_fast := 1;
  vt_level_best := 9;
|}.

Definition zu_int_codec_gzip : zu_codec_vtable := {|
  vt_state := deflate_state;
  vt_struct_size := sizeof_vtable;
  vt_codec := ZU_CODEC_GZIP;
  vt_name := Some "gzip"%string;
  vt_content_encoding := Some "gzip"%string;
  vt_source := Some "zukomp"%string;
  vt_level_min := 0;
  vt_level_max := 9;
  vt_level_default := MZ_DEFAULT_LEVEL;
  vt_flags := Z.lor (Z.lor ZU_CAN_ENCODE ZU_CAN_DECODE) ZU_CAN_FLUSH;
  vt_magic := Some zu_int_gzip_magic;
  vt_magic_len := 2;
  vt_magic_offset := 0;
  vt_sniff := None;
  vt_encoder_new := Some gzip_encoder_new;
  vt_encoder_process := Some deflate_process;
  vt_encoder_reset := Some deflate_encoder_reset;
  vt_encoder_free := true;
  vt_decoder_new := Some gzip_decoder_new;
  vt_decoder_process := Some deflate_process;
  vt_decoder_reset := Some deflate_decoder_reset;
  vt_decoder_free := true;
  vt_bound := Some gzip_bound;
  vt_level_fast := 1;
  vt_level_best := 9;
|}.

End vtables.

End deflate.

(** ** A small library

    A [Miniz] that follows zlib's calling convention over a toy format -- [1; c] for the
    byte [c], [2] for a sync marker, [0] for the end -- one item per call.  The witnesses
    run the codecs on it. *)
Definition toy_deflate (ended : Z) (next_in : bytes) (avail_out flush : Z) : mz_outcome Z :=
  if ended =? 2 then mk_mz MZ_STREAM_END 0 [] 2
  else
    match next_in with
    | c :: _ =>
        if 2 <=? avail_out then mk_mz MZ_OK 1 [1; u8 c] ended else mk_mz MZ_BUF_ERROR 0 [] ended
    | [] =>
        if avail_out <? 1 then mk_mz MZ_BUF_ERROR 0 [] ended
        else if flush =? MZ_FINISH then mk_mz MZ_STREAM_END 0 [0] 2
        else if flush =? MZ_SYNC_FLUSH then mk_mz MZ_OK 0 [2] ended
        else mk_mz MZ_BUF_ERROR 0 [] ended
    end.

Definition toy_inflate (st : Z) (next_in : bytes) (avail_out flush : Z) : mz_outcome Z :=
  if st =? 2 then mk_mz MZ_STREAM_END 0 [] 2
  else
    match next_in with
    | [] => mk_mz MZ_BUF_ERROR 0 [] st
    | c :: _ =>
        if st =? 1
        then (if 1 <=? avail_out then mk_mz MZ_OK 1 [u8 c] 0 else mk_mz MZ_BUF_ERROR 0 [] st)
        else if c =? 0 then mk_mz MZ_STREAM_END 1 [] 2
        else if c =? 1 then mk_mz MZ_OK 1 [] 1
        else if c =? 2 then mk_mz MZ_OK 1 [] 0
        else mk_mz MZ_DATA_ERROR 0 [] st
    end.

Definition toy_miniz : Miniz := {|
  mz_stream := Z;
  mz_stream_zero := 0;
  mz_deflateInit2 := fun _ _ => (MZ_OK, 0);
  mz_inflateInit2 := fun _ => (MZ_OK, 0);
  mz_deflateReset := fun _ => (MZ_OK, 0);
  mz_inflateReset := fun _ => (MZ_OK, 0);
  mz_deflate := toy_deflate;
  mz_inflate := toy_inflate;
|}.

Lemma byte_ok_u8 c : byte_ok (u8 c).
Proof. apply (u8_range c). Qed.

Lemma toy_miniz_ok : @MinizOk toy_miniz.
Proof.
  constructor; try (intros; by left).
  - intros m i a f Ha. cbn. unfold toy_deflate.
    repeat split_if; try destruct i; repeat split_if; zbool; cbn; unfold zlen; cbn;
      (split; [lia|]); (split; [lia|]); repeat constructor; try apply byte_ok_u8; unfold byte_ok; lia.
  - intros m i a f Ha. cbn. unfold toy_inflate.
    repeat split_if; try destruct i; repeat split_if; zbool; cbn; unfold zlen; cbn;
      (split; [lia|]); (split; [lia|]); repeat constructor; try apply byte_ok_u8; unfold byte_ok; lia.
Qed.
