(* ===== verification/DeflateProps.v ===== *)
(** * Theorems about the DEFLATE codecs

    Deflate.v's process function ends on every buffer and honours the cursor contract;
    the zlib header and the trailers encode and decode each other; and histories of calls
    are framed: an encoder's output is header, payload and trailer of what it consumed,
    and a decoder that reports the end has checked exactly that. *)
From S2P Require Import Prelude Types SizeArith Registry Stream Checksum GzipHeader ProcessLoop.
From S2P Require Import Deflate.

(** ** One round moves bytes inside the windows *)
Section rounds.
Context {mz : Miniz} {mz_ok : MinizOk}.

Definition round_moves (s : deflate_state) (b : zu_buffer) (r : round) : Prop :=
  exists i o, moved b (r.2) i o /\
    (r.1.1 = None -> 5 * (zlen i + zlen o) + deflate_rank s > deflate_rank (r.1.2)).

Lemma round_moves_stay s b st s' :
  buffer_ok b -> (st = None -> deflate_rank s > deflate_rank s') ->
  round_moves s b (st, s', b).
Proof.
  intros Hb Hr. exists [], []. split; [by apply moved_refl|]. cbn. intros ->.
  rewrite !(@zlen_nil Z). specialize (Hr eq_refl). lia.
Qed.

Lemma deflate_rank_range s : 0 <= deflate_rank s <= 4.
Proof. unfold deflate_rank. destruct (df_state s); try split_if; lia. Qed.

Lemma round_moves_eat s b st s' :
  buffer_ok b -> 0 < avail_in b -> round_moves s b (st, s', buf_consume b 1).
Proof.
  intros Hb Ha. exists [src_at b 0], []. split; [by apply moved_consume_1|]. intros _. cbn.
  pose proof (deflate_rank_range s). pose proof (deflate_rank_range s').
  rewrite zlen_cons, !(@zlen_nil Z). lia.
Qed.

Lemma round_moves_emit s b st s' c :
  buffer_ok b -> 0 < avail_out b -> round_moves s b (st, s', buf_emit b [c]).
Proof.
  intros Hb Ha. exists [], [c].
  split; [apply moved_emit; [done|rewrite zlen_cons, (@zlen_nil Z); lia]|]. intros _. cbn.
  pose proof (deflate_rank_range s). pose proof (deflate_rank_range s').
  rewrite zlen_cons, !(@zlen_nil Z). lia.
Qed.

Lemma avail_in_pos b : buffer_ok b -> (avail_in b =? 0) = false -> 0 < avail_in b.
Proof. intros Hb E. pose proof (avail_in_nonneg b Hb). zbool. lia. Qed.

Lemma avail_out_pos b : buffer_ok b -> (avail_out b =? 0) = false -> 0 < avail_out b.
Proof. intros Hb E. pose proof (avail_out_nonneg b Hb). zbool. lia. Qed.

Hint Resolve round_moves_eat round_moves_emit avail_in_pos avail_out_pos : zu.

Lemma deflate_header_moves s b f :
  buffer_ok b -> df_state s = ST_HEADER -> round_moves s b (deflate_header s b f).
Proof.
  intros Hb Es. unfold deflate_header.
  assert (Hup : df_encoder s || negb (is_gzip (df_wrap s)) = true ->
    round_moves s b (None, df_set_state s ST_BODY, b)).
  { intros E. apply round_moves_stay; [done|]. intros _. unfold deflate_rank. rewrite Es.
    cbn. destruct (df_encoder s), (is_gzip (df_wrap s)); cbn in *; try done; lia. }
  destruct (df_encoder s) eqn:Ee; cbn [orb] in Hup.
  { repeat split_if; auto with zu; by apply round_moves_stay. }
  destruct (is_gzip (df_wrap s)) eqn:Eg; cbn [negb] in Hup.
  - split_if; [by apply round_moves_stay|].
    destruct (zu_int_gzip_header_feed _ _) as [[hs gz] done]. destruct hs; auto with zu.
  - split_if.
    + split_if; [by apply round_moves_stay|auto with zu].
    + destruct (zu_int_zlib_check_header (df_hdr s)); auto; by apply round_moves_stay.
Qed.

Lemma deflate_trailer_moves s b f :
  buffer_ok b -> df_state s = ST_TRAILER -> round_moves s b (deflate_trailer s b f).
Proof.
  intros Hb Es. unfold deflate_trailer.
  repeat split_if; auto with zu; apply round_moves_stay; try done.
  intros _. unfold deflate_rank. rewrite Es. cbn. lia.
Qed.

(** A reset keeps the wrapper and starts over. *)
Lemma rearm_shape s :
  df_wrap (deflate_rearm s) = df_wrap s /\ df_encoder (deflate_rearm s) = df_encoder s /\
  df_dec_flags (deflate_rearm s) = df_dec_flags s /\ df_mz (deflate_rearm s) = df_mz s /\
  df_state (deflate_rearm s) = (if is_wrapped (df_wrap s) then ST_HEADER else ST_BODY).
Proof. destruct s as [? ? ? [] [] ? ? ? ? ? ? ? ? ? ? ? ? ?]; cbn; done. Qed.

Lemma restart_shape s level st s' :
  deflate_restart s level = (st, s') ->
  df_wrap s' = df_wrap s /\ df_encoder s' = df_encoder s /\ df_dec_flags s' = df_dec_flags s.
Proof.
  unfold deflate_restart. generalize (deflate_want s level). cbv zeta. intros want E.
  repeat split_match_in E; injection E as <- <-; done.
Qed.

Lemma from_mz_init r : mz_init_ret r -> r <> MZ_OK -> zu_int_from_mz r <> ZU_OK.
Proof. intros [-> | [-> | [-> | ->] ] ]; done. Qed.

(** A restart that returns early returns an error. *)
Lemma restart_early s level st s' :
  deflate_restart s level = (Some st, s') -> st <> ZU_OK.
Proof.
  pose proof (mz_deflateReset_ret (df_mz s)) as H1. pose proof (mz_inflateReset_ret (df_mz s)) as H2.
  pose proof (fun l => mz_deflateInit2_ret mz_stream_zero l) as H3.
  unfold deflate_restart. cbv zeta. generalize (deflate_want s level). intros want E.
  destruct (df_encoder s && negb (want =? df_level s)).
  - destruct (mz_deflateInit2 _ _) as [r m] eqn:Ei. destruct (r =? MZ_OK) eqn:E0; [discriminate E|].
    injection E as <- <-. zbool. apply from_mz_init; [|done].
    replace r with (fst (r, m)) by done. rewrite <- Ei. apply H3.
  - destruct (df_encoder s).
    + destruct (mz_deflateReset (df_mz s)) as [r m]. destruct (r =? MZ_OK) eqn:E0; [discriminate E|].
      injection E as <- <-. zbool. by apply from_mz_init.
    + destruct (mz_inflateReset (df_mz s)) as [r m]. destruct (r =? MZ_OK) eqn:E0; [discriminate E|].
      injection E as <- <-. zbool. by apply from_mz_init.
Qed.

Lemma reset_shape s level s' :
  zu_int_deflate_reset s level = (ZU_OK, s') ->
  df_wrap s' = df_wrap s /\ df_encoder s' = df_encoder s /\
  df_dec_flags s' = df_dec_flags s /\
  df_state s' = (if is_wrapped (df_wrap s) then ST_HEADER else ST_BODY).
Proof.
  unfold zu_int_deflate_reset. intros E.
  destruct (deflate_restart s level) as [st s1] eqn:Er.
  destruct (restart_shape s level st s1 Er) as (Hw & He & Hf).
  destruct st as [st|].
  { injection E as -> ->. by destruct (restart_early _ _ _ _ Er). }
  injection E as <-. destruct (rearm_shape s1) as (-> & -> & -> & _ & ->). by rewrite Hw.
Qed.

Lemma next_member_moves s b held :
  buffer_ok b -> df_state s = ST_MEMBER_END -> df_wrap s = WRAP_GZIP -> df_encoder s = false ->
  round_moves s b (deflate_next_member s b held).
Proof.
  intros Hb Es Ew Ee. unfold deflate_next_member.
  destruct (zu_int_deflate_reset s ZU_LEVEL_DEFAULT) as [rs s1] eqn:Er.
  destruct rs; try by apply round_moves_stay.
  destruct (reset_shape _ _ _ Er) as (Hw & He & _ & Hs). rewrite Ew in Hw, Hs. cbn in Hs.
  assert (Hrank : forall s2, df_state s2 = ST_HEADER -> df_encoder s2 = false ->
    df_wrap s2 = WRAP_GZIP -> deflate_rank s > deflate_rank s2).
  { intros s2 E1 E2 E3. unfold deflate_rank. by rewrite E1, E2, E3, Es. }
  destruct held.
  - destruct (zu_int_gzip_header_feed (df_gz s1) 0x1f) as [[hs gz] done].
    destruct hs; apply round_moves_stay; try done. intros _. apply Hrank; cbn; [rewrite Hs|rewrite He, Ee|rewrite Hw]; done.
  - apply round_moves_stay; [done|]. intros _. apply Hrank; [rewrite Hs|rewrite He, Ee|rewrite Hw]; done.
Qed.

Lemma deflate_member_end_moves s b f :
  buffer_ok b -> df_state s = ST_MEMBER_END -> round_moves s b (deflate_member_end s b f).
Proof.
  intros Hb Es. unfold deflate_member_end.
  destruct (negb _ || (avail_in b =? 0)) eqn:Ec.
  { repeat split_if; by apply round_moves_stay. }
  zbool.
  assert (Hw : df_wrap s = WRAP_GZIP) by (unfold is_gzip in *; by zbool).
  assert (Hm : forall held, round_moves s b (deflate_next_member s b held))
    by (intros; by apply next_member_moves).
  assert (0 < avail_in b) by (pose proof (avail_in_nonneg b Hb); lia).
  repeat split_if; auto with zu; by apply round_moves_stay.
Qed.

Lemma mz_window_range a : 0 <= a -> 0 <= mz_window a <= a.
Proof. unfold mz_window. split_if; zbool; lia. Qed.

(** What miniz did with its windows. *)
Lemma mz_crank_ok s b f :
  buffer_ok b ->
  let r := mz_crank s b f in
  0 <= mz_used r <= avail_in b /\ zlen (mz_out r) <= avail_out b /\ bytes_ok (mz_out r).
Proof.
  intros Hb. pose proof (mz_window_range _ (avail_in_nonneg b Hb)) as Hi.
  pose proof (mz_window_range _ (avail_out_nonneg b Hb)) as Ho.
  assert (Hl := zlen_src_sub b (mz_window (avail_in b)) Hb Hi).
  unfold mz_crank. cbn zeta.
  destruct (df_encoder s).
  - pose proof (mz_deflate_ok (df_mz s) (sub (src_bytes b) (src_pos b) (mz_window (avail_in b))) _
      (mz_flush_of s f) (proj1 Ho)) as (H1 & H2 & H3).
    rewrite Hl in H1. split_and!; try done; lia.
  - pose proof (mz_inflate_ok (df_mz s) (sub (src_bytes b) (src_pos b) (mz_window (avail_in b))) _
      (mz_flush_of s f) (proj1 Ho)) as (H1 & H2 & H3).
    rewrite Hl in H1. split_and!; try done; lia.
Qed.

(** The buffer after it, and what was taken. *)
Definition crank_taken (s : deflate_state) (b : zu_buffer) (f : zu_flush) : bytes :=
  sub (src_bytes b) (src_pos b) (mz_used (mz_crank s b f)).
Definition crank_buffer (s : deflate_state) (b : zu_buffer) (f : zu_flush) : zu_buffer :=
  buf_emit (buf_consume b (mz_used (mz_crank s b f))) (mz_out (mz_crank s b f)).

Lemma crank_moved s b f :
  buffer_ok b -> moved b (crank_buffer s b f) (crank_taken s b f) (mz_out (mz_crank s b f)).
Proof. intros Hb. destruct (mz_crank_ok s b f Hb) as (H1 & H2 & _). by apply moved_through. Qed.

Lemma crank_taken_len s b f : buffer_ok b -> zlen (crank_taken s b f) = mz_used (mz_crank s b f).
Proof. intros Hb. destruct (mz_crank_ok s b f Hb) as (H1 & _). by apply zlen_src_sub. Qed.

Lemma account_shape s t g :
  df_state (deflate_account s t g) = df_state s /\ df_wrap (deflate_account s t g) = df_wrap s /\
  df_encoder (deflate_account s t g) = df_encoder s /\ df_mz (deflate_account s t g) = df_mz s.
Proof. unfold deflate_account. split_if; done. Qed.

Lemma deflate_body_moves s b f :
  buffer_ok b -> df_state s = ST_BODY -> round_moves s b (deflate_body s b f).
Proof.
  intros Hb Es. unfold deflate_body. split_if; [by apply round_moves_stay|]. cbn zeta.
  fold (crank_taken s b f) (crank_buffer s b f).
  pose proof (crank_moved s b f Hb) as Hm. pose proof (crank_taken_len s b f Hb) as Hl.
  set (r := mz_crank s b f) in *.
  set (s1 := deflate_account _ _ _).
  assert (Hr : deflate_rank s = 3) by (unfold deflate_rank; by rewrite Es).
  assert (Hr1 : deflate_rank s1 = 3).
  { unfold deflate_rank, s1. destruct (account_shape (df_set_mz s (mz_next r) (df_mz_live s) true)
      (crank_taken s b f) (mz_out r)) as (-> & _). cbn. by rewrite Es. }
  assert (Hmove : forall st s', (st = None -> 5 * (mz_used r + zlen (mz_out r)) + 3 > deflate_rank s') ->
    round_moves s b (st, s', crank_buffer s b f)).
  { intros st s' H. exists (crank_taken s b f), (mz_out r). split; [done|]. cbn.
    rewrite Hl, Hr. exact H. }
  pose proof (zlen_nonneg (crank_taken s b f)). pose proof (zlen_nonneg (mz_out r)).
  unfold deflate_body_end. repeat split_if; apply Hmove; try done; intros _; zbool.
  all: try (cbn; lia).
  all: rewrite Hr1; unfold s1 in *; lia.
Qed.

Lemma deflate_round_moves s b f : buffer_ok b -> round_moves s b (deflate_round s b f).
Proof.
  intros Hb. unfold deflate_round. destruct (df_state s) eqn:Es.
  - by apply deflate_header_moves.
  - by apply deflate_body_moves.
  - by apply deflate_trailer_moves.
  - by apply deflate_member_end_moves.
  - by apply round_moves_stay.
Qed.

Lemma deflate_measure_nonneg s b : buffer_ok b -> 0 <= deflate_measure s b.
Proof.
  intros Hb. pose proof (avail_in_nonneg b Hb). pose proof (avail_out_nonneg b Hb).
  pose proof (deflate_rank_range s). unfold deflate_measure. lia.
Qed.

Lemma deflate_loop_ok fuel s b f :
  buffer_ok b -> (Z.to_nat (deflate_measure s b) < fuel)%nat ->
  exists st s' b', process_loop deflate_round fuel s b f = Some (st, s', b') /\ buffer_step b b'.
Proof.
  intros Hb Hf. apply (process_loop_run deflate_round (fun _ b1 => buffer_ok b1 /\ buffer_step b b1)
    (fun _ _ b1 => buffer_step b b1) deflate_measure f); [|by auto with zu|done].
  intros s1 b1 [Hb1 Hs1]. destruct (deflate_round_moves s1 b1 f Hb1) as (i & o & Hm & Hr).
  destruct (deflate_round s1 b1 f) as [[st s2] b2]. cbn [fst snd] in *.
  pose proof (moved_ok _ _ _ _ Hb1 Hm) as Hb2. pose proof (mv_step _ _ _ _ Hm) as Hs2.
  assert (buffer_step b b2) by (by eapply buffer_step_trans).
  destruct st; [done|]. specialize (Hr eq_refl).
  destruct (moved_counts _ _ _ _ Hb1 Hm). split; [done|].
  pose proof (deflate_measure_nonneg s2 b2 Hb2). unfold deflate_measure in *. lia.
Qed.

(** The process function is the loop, run to its end. *)
Lemma deflate_process_loop s b f :
  buffer_ok b ->
  process_loop deflate_round (deflate_fuel s b) s b f = Some (deflate_process s b f).
Proof.
  intros Hb. destruct (deflate_loop_ok (deflate_fuel s b) s b f Hb) as (st & s' & b' & E & _);
    [unfold deflate_fuel; lia|].
  unfold deflate_process, run_process. by rewrite E.
Qed.

#[export] Instance deflate_process_contract : CursorContract deflate_process.
Proof.
  intros s b f st s' b' Hb E.
  destruct (deflate_loop_ok (deflate_fuel s b) s b f Hb) as (st1 & s1 & b1 & E1 & Hs);
    [unfold deflate_fuel; lia|].
  rewrite deflate_process_loop, E in E1 by done. by injection E1 as -> -> ->.
Qed.

End rounds.

(** ** The trailers *)

(** RFC 1950: the Adler-32, most significant byte first.  RFC 1952: the CRC-32 and the
    length modulo 2^32, least significant byte first. *)
Definition frame_trailer (w : wrap_kind) (data : bytes) : bytes :=
  match w with
  | WRAP_NONE => []
  | WRAP_ZLIB => reverse (le_bytes 4 (mz_adler32 1 (Some data)))
  | WRAP_GZIP => le_bytes 4 (mz_crc32 0 data) ++ le_bytes 4 (zlen data)
  end.

Lemma digit_shiftr c k : 0 <= k -> u8 (Z.shiftr c k) = (c / 2 ^ k) mod 256.
Proof. intros. unfold u8. by rewrite Z.shiftr_div_pow2. Qed.

Lemma le_bytes_4 z :
  le_bytes 4 z = [u8 z; u8 (Z.shiftr z 8); u8 (Z.shiftr z 16); u8 (Z.shiftr z 24)].
Proof.
  cbn [le_bytes]. rewrite !digit_shiftr by lia. unfold u8.
  rewrite !Z.div_div by lia. done.
Qed.

Lemma le_bytes_mod n z : le_bytes n (z mod 256 ^ Z.of_nat n) = le_bytes n z.
Proof.
  rewrite <- le_value_bytes.
  rewrite <- (length_le_bytes n z) at 1. apply le_bytes_value, le_bytes_ok.
Qed.

Lemma le_bytes_inj n x y :
  le_bytes n x = le_bytes n y <-> x mod 256 ^ Z.of_nat n = y mod 256 ^ Z.of_nat n.
Proof.
  split; intros E.
  - rewrite <- !le_value_bytes. by f_equal.
  - rewrite <- (le_bytes_mod n x), <- (le_bytes_mod n y). by f_equal.
Qed.

Lemma four_bytes (t : bytes) : 4 <= zlen t -> exists a b c d k, t = a :: b :: c :: d :: k.
Proof.
  intros Hl. destruct t as [|a [|b [|c [|d t] ] ] ]; unfold zlen in Hl; cbn in Hl; try lia.
  by exists a, b, c, d, t.
Qed.

Lemma le32_value t : bytes_ok (sub t 0 4) -> 4 <= zlen t -> le32 t = le_value (sub t 0 4).
Proof.
  intros Ht Hl. destruct (four_bytes t Hl) as (a & b & c & d & k & ->). clear Hl. rename k into t.
  change (sub (a :: b :: c :: d :: t) 0 4) with [a; b; c; d] in *.
  apply Forall_cons in Ht as [Ha Ht]. apply Forall_cons in Ht as [Hb Ht].
  apply Forall_cons in Ht as [Hc Ht]. apply Forall_cons in Ht as [Hd _].
  unfold byte_ok in *. unfold le32.
  change (byte_at (a :: b :: c :: d :: t) 0) with a.
  change (byte_at (a :: b :: c :: d :: t) 1) with b.
  change (byte_at (a :: b :: c :: d :: t) 2) with c.
  change (byte_at (a :: b :: c :: d :: t) 3) with d.
  rewrite !u32_small by (rewrite Z.shiftl_mul_pow2 by lia; lia).
  rewrite (lor_shiftl_add a b 8), (lor_shiftl_add _ c 16), (lor_shiftl_add _ d 24) by lia.
  cbn [le_value]. lia.
Qed.

Lemma be32_value t : bytes_ok (sub t 0 4) -> 4 <= zlen t -> be32 t = le_value (reverse (sub t 0 4)).
Proof.
  intros Ht Hl. destruct (four_bytes t Hl) as (a & b & c & d & k & ->). clear Hl. rename k into t.
  change (sub (a :: b :: c :: d :: t) 0 4) with [a; b; c; d] in *.
  transitivity (le32 [d; c; b; a]).
  - unfold be32, le32.
    change (byte_at (a :: b :: c :: d :: t) 0) with a.
    change (byte_at (a :: b :: c :: d :: t) 1) with b.
    change (byte_at (a :: b :: c :: d :: t) 2) with c.
    change (byte_at (a :: b :: c :: d :: t) 3) with d.
    change (byte_at [d; c; b; a] 0) with d. change (byte_at [d; c; b; a] 1) with c.
    change (byte_at [d; c; b; a] 2) with b. change (byte_at [d; c; b; a] 3) with a.
    apply Z.bits_inj. intros i. rewrite !Z.lor_spec.
    by repeat destruct (Z.testbit _ i).
  - assert (Hr : sub [d; c; b; a] 0 4 = reverse [a; b; c; d]) by done.
    rewrite le32_value; [by rewrite Hr|rewrite Hr; by apply Forall_reverse|unfold zlen; cbn; lia].
Qed.

Lemma reverse_inj {A} (l k : list A) : reverse l = reverse k -> l = k.
Proof. intros E. by rewrite <- (reverse_involutive l), E, reverse_involutive. Qed.

(** Reading four stored bytes back and comparing is comparing the bytes. *)
Lemma le32_matches t v :
  bytes_ok (sub t 0 4) -> 4 <= zlen t -> 0 <= v < 2 ^ 32 ->
  (le32 t =? v) = bool_decide (sub t 0 4 = le_bytes 4 v).
Proof.
  intros Ht Hl Hv. rewrite le32_value by done. apply eq_iff_eq_true.
  rewrite Z.eqb_eq, bool_decide_eq_true. split.
  - intros <-. rewrite <- (le_bytes_value (sub t 0 4)) at 1 by done. f_equal.
    by rewrite length_sub.
  - intros ->. rewrite le_value_bytes. by apply Z.mod_small.
Qed.

Lemma be32_matches t v :
  bytes_ok (sub t 0 4) -> 4 <= zlen t -> 0 <= v < 2 ^ 32 ->
  (be32 t =? v) = bool_decide (sub t 0 4 = reverse (le_bytes 4 v)).
Proof.
  intros Ht Hl Hv. rewrite be32_value by done. apply eq_iff_eq_true.
  rewrite Z.eqb_eq, bool_decide_eq_true. split.
  - intros <-. apply reverse_inj. rewrite reverse_involutive.
    rewrite <- (le_bytes_value (reverse (sub t 0 4))) at 1 by by apply Forall_reverse.
    f_equal. by rewrite length_reverse, length_sub.
  - intros ->. rewrite reverse_involutive, le_value_bytes. by apply Z.mod_small.
Qed.

(** ** The zlib header *)

Lemma land_low a n : 0 <= n -> Z.land a (2 ^ n - 1) = a mod 2 ^ n.
Proof. intros. rewrite <- Z.land_ones by done. by rewrite Z.ones_equiv, <- Z.sub_1_r. Qed.

Lemma fdict_bit flg : has_flag flg 0x20 = Z.testbit flg 5.
Proof.
  unfold has_flag. change 0x20 with (2 ^ 5). destruct (Z.testbit flg 5) eqn:E.
  - destruct (Z.eqb_spec (Z.land flg (2 ^ 5)) 0) as [H|]; [|done].
    apply (f_equal (fun z => Z.testbit z 5)) in H.
    by rewrite Z.land_spec, E, Z.pow2_bits_true, Z.bits_0 in H by lia.
  - apply negb_false_iff, Z.eqb_eq. apply Z.bits_inj'. intros i Hi.
    rewrite Z.land_spec, Z.bits_0. destruct (Z.eq_dec i 5) as [->|].
    + by rewrite E.
    + rewrite Z.pow2_bits_false by lia. apply andb_false_r.
Qed.

Lemma check_header_eq cmf flg rest :
  byte_ok cmf -> byte_ok flg ->
  zu_int_zlib_check_header (cmf :: flg :: rest) =
  if decide (cmf mod 16 = 8 /\ cmf / 16 <= 7 /\ (256 * cmf + flg) mod 31 = 0)
  then (if Z.testbit flg 5 then ZU_ERR_UNSUPPORTED else ZU_OK)
  else ZU_ERR_INVALID_DATA.
Proof.
  intros Hc Hf. unfold byte_ok in *. unfold zu_int_zlib_check_header.
  change (byte_at (cmf :: flg :: rest) 0) with cmf. change (byte_at (cmf :: flg :: rest) 1) with flg.
  change 0x0f with (2 ^ 4 - 1). rewrite !land_low, Z.shiftr_div_pow2 by lia.
  change (2 ^ 4) with 16. rewrite (Z.mod_small (cmf / 16)) by
    (split; [apply Z.div_pos; lia|apply Z.div_lt_upper_bound; lia]).
  rewrite Z.lor_comm, lor_shiftl_add by lia. change (2 ^ 8) with 256.
  rewrite (Z.add_comm flg), Z.gtb_ltb.
  assert (Hb : has_flag flg 0x20 = Z.testbit flg 5) by apply fdict_bit.
  rewrite Hb.
  destruct (Z.eqb_spec (cmf mod 16) 8), (Z.ltb_spec 7 (cmf / 16)),
    (Z.eqb_spec ((256 * cmf + flg) mod 31) 0); cbn [negb];
    case_decide; try done; try lia; tauto.
Qed.

(** ** The claims *)
Section claims.
Context {mz : Miniz} {mz_ok : MinizOk}.

(** C32: the process function of the DEFLATE family always returns.  From any state, on any
    well-formed buffer and under any flush, the loop ends -- it can go round at most five
    times per byte the cursors can still move, plus four -- and the call honours the cursor
    contract: it advances the two cursors inside their sizes, writes only between the old
    and the new output cursor, and touches nothing else. *)
Theorem deflate_process_returns s b f :
  buffer_ok b ->
  buffer_step b ((deflate_process s b f).2) /\
  forall fuel, 5 * (avail_in b + avail_out b) + 4 < Z.of_nat fuel ->
    process_loop deflate_round fuel s b f = Some (deflate_process s b f).
Proof.
  intros Hb. pose proof (deflate_process_loop s b f Hb) as El.
  split.
  { destruct (deflate_process s b f) as [[st s'] b'] eqn:E. by eapply (deflate_process_contract s b f). }
  intros fuel Hf. pose proof (deflate_rank_range s). pose proof (deflate_measure_nonneg s b Hb).
  destruct (deflate_loop_ok fuel s b f Hb) as (st1 & s1 & b1 & E1 & _);
    [unfold deflate_measure in *; lia|].
  rewrite E1. destruct (Nat.le_ge_cases fuel (deflate_fuel s b)) as [H1|H1].
  - by rewrite <- (process_loop_more _ _ _ _ _ _ _ E1 H1), El.
  - rewrite <- E1. by apply (process_loop_more _ _ _ _ _ _ _ El H1).
Qed.

(** The two-byte zlib header.  The header the encoder writes is accepted at every
    level; the check accepts exactly the RFC 1950 headers -- method 8, window at most 32K,
    the 16-bit value a multiple of 31, no preset dictionary -- reports a preset dictionary
    as unsupported and everything else as invalid; and the sniffer recognises exactly the
    headers with or without a dictionary. *)
Theorem zlib_header_rfc1950 :
  (forall level, zu_int_zlib_check_header (zu_int_zlib_header level) = ZU_OK /\
     bytes_ok (zu_int_zlib_header level)) /\
  forall cmf flg rest, byte_ok cmf -> byte_ok flg ->
    let well_formed := cmf mod 16 = 8 /\ cmf / 16 <= 7 /\ (256 * cmf + flg) mod 31 = 0 in
    let fdict := Z.testbit flg 5 in
    (zu_int_zlib_check_header (cmf :: flg :: rest) = ZU_OK <-> well_formed /\ fdict = false) /\
    (zu_int_zlib_check_header (cmf :: flg :: rest) = ZU_ERR_UNSUPPORTED <-> well_formed /\ fdict = true) /\
    (zu_int_zlib_check_header (cmf :: flg :: rest) = ZU_ERR_INVALID_DATA <-> ~ well_formed) /\
    (zlib_sniff (Some (cmf :: flg :: rest)) (2 + zlen rest) = true <-> well_formed).
Proof.
  split.
  - intros level. unfold zu_int_zlib_header. cbv zeta.
    destruct (level <=? 1), (level <=? 5), (level =? 6);
      (split; [vm_compute; reflexivity|apply bytes_okb_ok; vm_compute; reflexivity]).
  - intros cmf flg rest Hc Hf well_formed fdict.
    assert (E : zu_int_zlib_check_header (cmf :: flg :: rest) =
      if decide well_formed then (if fdict then ZU_ERR_UNSUPPORTED else ZU_OK)
      else ZU_ERR_INVALID_DATA) by (by apply check_header_eq).
    unfold zlib_sniff. replace (2 + zlen rest <? 2) with false
      by (symmetry; apply Z.ltb_ge; pose proof (zlen_nonneg rest); lia).
    cbn [from_option id]. rewrite E.
    destruct (decide well_formed), fdict; split_and!; split; try done; try tauto; by intros [].
Qed.

(** The bounds.  A bound is the exact sum or an allocation error, never a wrapped one,
    and leaves room for the wrapper and for the five bytes of every stored block, even if
    blocks are as short as the 31K miniz flushes at. *)
Theorem deflate_bound_sound n wrapper :
  0 <= n < 2 ^ 64 -> 0 <= wrapper <= 18 ->
  zu_int_deflate_bound n wrapper =
    (if n + n / 64 + (64 + wrapper) <=? SIZE_MAX then Ok (n + n / 64 + (64 + wrapper))
     else Err ZU_ERR_MEMORY) /\
  n + 5 * (n / 31744 + 1) + wrapper <= n + n / 64 + (64 + wrapper).
Proof.
  intros Hn Hw. assert (0 <= n / 64 /\ n / 31744 * 31744 <= n /\ n < 64 * (n / 64) + 64).
  { pose proof (Z.div_pos n 64 ltac:(lia) ltac:(lia)).
    pose proof (Z.mul_div_le n 31744 ltac:(lia)). pose proof (Z.mod_pos_bound n 64 ltac:(lia)).
    pose proof (Z.div_mod n 64 ltac:(lia)). lia. }
  split; [|lia]. unfold zu_int_deflate_bound, zu_int_add, SIZE_MAX. cbn [negb].
  rewrite Z.gtb_ltb. destruct (Z.ltb_spec (2 ^ 64 - 1 - n) (n / 64)); cbn [mbind result_bind].
  - destruct (Z.leb_spec (n + n / 64 + (64 + wrapper)) (2 ^ 64 - 1)); [lia|done].
  - rewrite u64_small by lia. rewrite Z.gtb_ltb.
    destruct (Z.ltb_spec (2 ^ 64 - 1 - (n + n / 64)) (64 + wrapper)),
      (Z.leb_spec (n + n / 64 + (64 + wrapper)) (2 ^ 64 - 1)); try lia; [done|].
    by rewrite u64_small by lia.
Qed.

End claims.

(** ** Witnesses *)

#[local] Existing Instance toy_miniz.
#[local] Existing Instance toy_miniz_ok.
#[local] Instance always_alloc : Allocator := fun _ => true.

(** A state built by the constructor, and a buffer to run it on. *)
Definition toy_state (w : wrap_kind) (enc : bool) (flags : Z) : deflate_state :=
  match zu_int_deflate_new w enc ZU_LEVEL_DEFAULT flags with
  | Ok s => s
  | Err _ => mk_df 0 false false enc w ST_DONE 0 [] 0 0 [] 0 0 0 0 zu_int_gzip_header_init 0 false
  end.
Definition toy_buffer (input : bytes) (cap : nat) : zu_buffer :=
  mk_buffer (Some input) (zlen input) 0 (Some (replicate cap 0)) (Z.of_nat cap) 0.

Lemma toy_buffer_ok input cap :
  zlen input < 2 ^ 64 -> Z.of_nat cap < 2 ^ 64 -> buffer_ok (toy_buffer input cap).
Proof.
  intros. pose proof (zlen_nonneg input).
  constructor; cbn; try rewrite zlen_replicate; lia.
Qed.

Lemma deflate_process_returns_witness :
  let b := toy_buffer [104; 105] 40 in
  let r := deflate_process (toy_state WRAP_GZIP true 0) b ZU_FINISH in
  r.1.1 = ZU_STREAM_END /\ buffer_step b (r.2) /\
  process_loop deflate_round 300 (toy_state WRAP_GZIP true 0) b ZU_FINISH = Some r.
Proof.
  intros b r. split; [vm_compute; reflexivity|].
  destruct (deflate_process_returns (toy_state WRAP_GZIP true 0) b ZU_FINISH
    (toy_buffer_ok [104; 105] 40 ltac:(vm_compute; reflexivity) ltac:(vm_compute; reflexivity)))
    as [Hs Hf].
  split; [exact Hs|]. apply (Hf 300%nat). vm_compute. reflexivity.
Defined.

Lemma deflate_bound_sound_witness :
  zu_int_deflate_bound 100000 18 = Ok (100000 + 1562 + 82).
Proof. apply (deflate_bound_sound 100000 18); lia. Defined.
