(* ===== verification/DeflateFraming.v ===== *)
(** * What the DEFLATE codecs emit and accept

    Histories of calls on one codec state.  A finished encoder's output is the wrapper
    header, a complete miniz stream over exactly the bytes consumed, and the trailer of
    those bytes; a decoder that ends successfully has consumed exactly such members, with
    every checksum and length verified against what it wrote. *)
From S2P Require Import Prelude Types SizeArith Registry Stream Checksum GzipHeader ProcessLoop.
From S2P Require Import Deflate DeflateProps.

(** ** Sessions with miniz

    [mz_session call m0 m i o fin]: successive calls from [m0] took [i], wrote [o] and
    left [m]; [fin] says the last one returned [MZ_STREAM_END]. *)
Inductive mz_session {stream} (call : stream -> bytes -> Z -> Z -> mz_outcome stream) (m0 : stream) :
    stream -> bytes -> bytes -> bool -> Prop :=
  | session_start : mz_session call m0 m0 [] [] false
  | session_call m i o next_in avail_out flush r :
      mz_session call m0 m i o false ->
      r = call m next_in avail_out flush ->
      mz_ret r = MZ_OK \/ mz_ret r = MZ_BUF_ERROR \/ mz_ret r = MZ_STREAM_END ->
      mz_session call m0 (mz_next r) (i ++ take (Z.to_nat (mz_used r)) next_in) (o ++ mz_out r)
        (mz_ret r =? MZ_STREAM_END).

Create HintDb shape.

Section framing.
Context {mz : Miniz} {mz_ok : MinizOk}.

(** ** The shape every operation keeps *)

Definition hdr_len_of (w : wrap_kind) : Z :=
  match w with
  | WRAP_NONE => 0
  | WRAP_ZLIB => 2
  | WRAP_GZIP => 10
  end.
Definition tail_len_of (w : wrap_kind) : Z :=
  match w with
  | WRAP_NONE => 0
  | WRAP_ZLIB => 4
  | WRAP_GZIP => 8
  end.

Record df_shape (w : wrap_kind) (enc : bool) (s : deflate_state) : Prop := {
  sh_wrap : df_wrap s = w;
  sh_encoder : df_encoder s = enc;
  sh_hdr_len : df_hdr_len s = hdr_len_of w;
  sh_tail_len : df_tail_len s = tail_len_of w;
  sh_hdr : zlen (df_hdr s) = 10;
  sh_tail : zlen (df_tail s) = 8;
  sh_hdr_pos : 0 <= df_hdr_pos s <= hdr_len_of w;
  sh_tail_pos : 0 <= df_tail_pos s <= tail_len_of w;
}.

Lemma shape_state w enc s st : df_shape w enc s -> df_shape w enc (df_set_state s st).
Proof. by intros []. Qed.
Lemma shape_gz w enc s gz : df_shape w enc s -> df_shape w enc (df_set_gz s gz).
Proof. by intros []. Qed.
Lemma shape_probe w enc s p : df_shape w enc s -> df_shape w enc (df_set_probe s p).
Proof. by intros []. Qed.
Lemma shape_mz w enc s m l c : df_shape w enc s -> df_shape w enc (df_set_mz s m l c).
Proof. by intros []. Qed.
Lemma shape_level w enc s l : df_shape w enc s -> df_shape w enc (df_set_level s l).
Proof. by intros []. Qed.
Lemma shape_flags w enc s l : df_shape w enc s -> df_shape w enc (df_set_dec_flags s l).
Proof. by intros []. Qed.
Lemma shape_account w enc s t g : df_shape w enc s -> df_shape w enc (deflate_account s t g).
Proof. intros []. unfold deflate_account. by split_if. Qed.
Lemma shape_hdr w enc s h p :
  df_shape w enc s -> zlen h = 10 -> 0 <= p <= hdr_len_of w -> df_shape w enc (df_set_hdr s h p).
Proof. by intros []. Qed.
Lemma shape_tail w enc s t p :
  df_shape w enc s -> zlen t = 8 -> 0 <= p <= tail_len_of w -> df_shape w enc (df_set_tail s t p).
Proof. by intros []. Qed.
Hint Resolve shape_state shape_gz shape_probe shape_mz shape_level shape_flags shape_account : shape.

Lemma hdr_len_of_range w : 0 <= hdr_len_of w <= 10.
Proof. destruct w; cbn; lia. Qed.
Lemma tail_len_of_range w : 0 <= tail_len_of w <= 8.
Proof. destruct w; cbn; lia. Qed.

Lemma zlib_header_length level : length (zu_int_zlib_header level) = 2%nat.
Proof. done. Qed.

Lemma shape_rearm w enc s : df_shape w enc s -> df_shape w enc (deflate_rearm s).
Proof.
  intros [Hw He Hhl Htl Hh Ht Hhp Htp].
  pose proof (hdr_len_of_range w). pose proof (tail_len_of_range w).
  assert (Hm : zlen (memcpy_at (df_hdr s) 0 (zu_int_zlib_header (df_level s))) = 10).
  { rewrite zlen_memcpy_at; [done|lia|]. unfold zlen at 1. rewrite zlib_header_length. lia. }
  unfold deflate_rearm. cbn. rewrite Hw, He.
  destruct w, enc; constructor; cbn in *; first [done|lia].
Qed.

Lemma shape_restart w enc s level st s' :
  df_shape w enc s -> deflate_restart s level = (st, s') -> df_shape w enc s'.
Proof.
  unfold deflate_restart. generalize (deflate_want s level). cbv zeta. intros want Hs E.
  repeat split_match_in E; injection E as <- <-; auto with shape.
Qed.

Lemma shape_reset w enc s level st s' :
  df_shape w enc s -> zu_int_deflate_reset s level = (st, s') -> df_shape w enc s'.
Proof.
  unfold zu_int_deflate_reset. intros Hs E.
  destruct (deflate_restart s level) as [st1 s1] eqn:Er.
  pose proof (shape_restart _ _ _ _ _ _ Hs Er) as Hs1.
  destruct st1; injection E as <- <-; [done|]. by apply shape_rearm.
Qed.

Lemma shape_new {alloc : Allocator} w enc level flags s :
  zu_int_deflate_new w enc level flags = Ok s -> df_shape w enc s.
Proof.
  unfold zu_int_deflate_new. intros E. destruct (negb (alloc_ok req_state)); [done|].
  cbv zeta in E. destruct (if enc then _ else _) as [r m].
  destruct (negb (r =? MZ_OK)); [done|]. injection E as <-.
  destruct w, enc; constructor; cbn; first [done|lia].
Qed.

(** Every array index of a round is inside its array, so every round keeps the shape. *)
Lemma shape_store_hdr w enc s c :
  df_shape w enc s -> df_hdr_pos s < df_hdr_len s ->
  df_shape w enc (df_set_hdr s (memcpy_at (df_hdr s) (df_hdr_pos s) [c]) (df_hdr_pos s + 1)).
Proof.
  intros Hs Hlt. pose proof Hs as [? ? Hl ? Hh ? Hp ?]. pose proof (hdr_len_of_range w).
  rewrite Hl in Hlt. apply shape_hdr; [done| |lia].
  rewrite zlen_memcpy_at; [done|lia|]. rewrite zlen_cons, (@zlen_nil Z). lia.
Qed.

Lemma shape_store_tail w enc s c :
  df_shape w enc s -> df_tail_pos s < df_tail_len s ->
  df_shape w enc (df_set_tail s (memcpy_at (df_tail s) (df_tail_pos s) [c]) (df_tail_pos s + 1)).
Proof.
  intros Hs Hlt. pose proof Hs as [? ? ? Hl ? Hh ? Hp]. pose proof (tail_len_of_range w).
  rewrite Hl in Hlt. apply shape_tail; [done| |lia].
  rewrite zlen_memcpy_at; [done|lia|]. rewrite zlen_cons, (@zlen_nil Z). lia.
Qed.

Lemma shape_skip_hdr w enc s :
  df_shape w enc s -> df_hdr_pos s < df_hdr_len s ->
  df_shape w enc (df_set_hdr s (df_hdr s) (df_hdr_pos s + 1)).
Proof. intros Hs Hlt. pose proof Hs as []. apply shape_hdr; [done|done|lia]. Qed.

Lemma shape_skip_tail w enc s :
  df_shape w enc s -> df_tail_pos s < df_tail_len s ->
  df_shape w enc (df_set_tail s (df_tail s) (df_tail_pos s + 1)).
Proof. intros Hs Hlt. pose proof Hs as []. apply shape_tail; [done|done|lia]. Qed.

Lemma deflate_tail_len w c u : 0 < zlen (deflate_tail w c u) <= 8.
Proof. destruct w; unfold zlen; cbn; lia. Qed.

Lemma shape_body_end w enc s b :
  df_shape w enc s -> df_shape w enc ((deflate_body_end s b).1.2).
Proof.
  intros Hs. unfold deflate_body_end. split_if; cbn; [|by apply shape_state].
  apply shape_state. pose proof Hs as [? ? ? ? ? Ht ? ?].
  apply shape_tail; [done| |pose proof (tail_len_of_range w); lia]. split_if; [|done].
  rewrite zlen_memcpy_at; [done|lia|]. pose proof (deflate_tail_len (df_wrap s) (df_checksum s)
    (df_uncompressed s)). lia.
Qed.

Lemma shape_next_member w enc s b held :
  df_shape w enc s -> df_shape w enc ((deflate_next_member s b held).1.2).
Proof.
  intros Hs. unfold deflate_next_member.
  destruct (zu_int_deflate_reset s ZU_LEVEL_DEFAULT) as [st s1] eqn:Er.
  pose proof (shape_reset _ _ _ _ _ _ Hs Er) as Hs1.
  destruct st; try exact Hs1. destruct held; [|exact Hs1].
  destruct (zu_int_gzip_header_feed _ _) as [[hs gz] done].
  destruct hs; cbn; auto with shape.
Qed.

Lemma shape_round w enc s b f :
  df_shape w enc s -> df_shape w enc ((deflate_round s b f).1.2).
Proof.
  intros Hs. unfold deflate_round. destruct (df_state s); [| | | |exact Hs].
  - unfold deflate_header. destruct (df_encoder s).
    { repeat split_if; cbn; zbool; auto using shape_skip_hdr with shape. }
    destruct (is_gzip (df_wrap s)).
    + split_if; [done|]. destruct (zu_int_gzip_header_feed _ _) as [[hs gz] done].
      destruct hs; cbn; try split_if; auto with shape.
    + split_if; zbool.
      * split_if; [done|]. cbn. by apply shape_store_hdr.
      * destruct (zu_int_zlib_check_header (df_hdr s)); cbn; auto with shape.
  - unfold deflate_body. split_if; [done|]. cbv zeta.
    split_if; [apply shape_body_end; auto with shape|].
    repeat split_if; cbn [fst snd]; auto with shape.
  - unfold deflate_trailer. destruct (df_encoder s);
      repeat split_if; cbn; zbool; auto using shape_skip_tail, shape_store_tail with shape.
  - unfold deflate_member_end.
    repeat split_if; cbn; auto using shape_next_member with shape.
Qed.

Lemma shape_process w enc s b f st s' b' :
  df_shape w enc s -> buffer_ok b -> deflate_process s b f = (st, s', b') -> df_shape w enc s'.
Proof.
  intros Hs Hb E. pose proof (deflate_process_loop s b f Hb) as El. rewrite E in El.
  refine (process_loop_inv deflate_round (fun s _ => df_shape w enc s)
    (fun _ s _ => df_shape w enc s) f _ _ s b _ Hs El).
  intros s1 b1 Hs1. pose proof (shape_round w enc s1 b1 f Hs1) as H.
  by destruct (deflate_round s1 b1 f) as [[[] ?] ?].
Qed.

(** ** Checksums of what went past *)

Definition frame_sum (w : wrap_kind) (data : bytes) : Z :=
  match w with
  | WRAP_GZIP => mz_crc32 0 data
  | _ => mz_adler32 1 (Some data)
  end.

Lemma frame_sum_init w : zu_int_checksum_init w = frame_sum w [].
Proof. by destruct w. Qed.

Lemma adler_valid_1 : adler_valid 1.
Proof. split; vm_compute; split; (discriminate || reflexivity). Qed.

Lemma frame_sum_range w data : bytes_ok data -> 0 <= frame_sum w data < 2 ^ 32.
Proof.
  intros Hd. destruct w; cbn [frame_sum].
  1,2: auto using adler_valid_range, mz_adler32_valid, adler_valid_1.
  by apply mz_crc32_range.
Qed.

Lemma frame_sum_update w data p :
  bytes_ok data -> bytes_ok p ->
  zu_int_checksum_update w (frame_sum w data) p = frame_sum w (data ++ p).
Proof.
  intros Hd Hp. unfold zu_int_checksum_update. destruct (Z.eqb_spec (zlen p) 0) as [E|_].
  - destruct p; [by rewrite app_nil_r|]. rewrite zlen_cons in E. pose proof (zlen_nonneg p). lia.
  - destruct w; cbn [frame_sum];
      auto using mz_adler32_app, mz_crc32_app, adler_valid_1. by apply mz_crc32_app.
Qed.

(** The running checksum and count, in a wrapped stream. *)
Definition sums_ok (s : deflate_state) (data : bytes) : Prop :=
  df_checksum s = frame_sum (df_wrap s) data /\ df_uncompressed s = u64 (zlen data).

Lemma account_sums s t g data :
  let p := if df_encoder s then t else g in
  bytes_ok data -> bytes_ok p -> is_wrapped (df_wrap s) = true -> sums_ok s data ->
  sums_ok (deflate_account s t g) (data ++ p).
Proof.
  intros p Hd Hp Hw [Hc Hu]. unfold sums_ok, deflate_account. rewrite Hw. cbn. fold p.
  rewrite Hc, frame_sum_update, Hu by done. split; [done|].
  rewrite zlen_app. unfold u64. by rewrite Zplus_mod_idemp_l.
Qed.

Lemma trailer_length w data : zlen (frame_trailer w data) = tail_len_of w.
Proof. by destruct w. Qed.

(** ISIZE: the 64-bit count of the source, cut to 32 bits. *)
Lemma isize_mod n : u32 (Z.land (u64 n) 0xffffffff) = n mod 256 ^ Z.of_nat 4.
Proof.
  change 0xffffffff with (Z.ones 32). rewrite Z.land_ones by lia. unfold u32, u64.
  rewrite Z.mod_mod by lia. change (256 ^ Z.of_nat 4) with (2 ^ 32).
  apply (Z.mod_mod_divide n (2 ^ 64) (2 ^ 32)). by exists (2 ^ 32).
Qed.

(** The tail an encoder stores is the trailer of everything it took. *)
Lemma deflate_tail_trailer w data :
  is_wrapped w = true -> bytes_ok data ->
  deflate_tail w (frame_sum w data) (u64 (zlen data)) = frame_trailer w data.
Proof.
  intros Hw Hd. pose proof (frame_sum_range w data Hd) as Hr.
  destruct w; [done| |]; unfold deflate_tail, frame_trailer; rewrite u32_small by done;
    cbn [frame_sum] in *.
  - by rewrite le_bytes_4.
  - rewrite isize_mod, <- (le_bytes_mod 4 (zlen data)), !le_bytes_4. done.
Qed.

(** ** The encoder's side *)

Definition enc_header (w : wrap_kind) (level : Z) : bytes :=
  match w with
  | WRAP_NONE => []
  | WRAP_ZLIB => zu_int_zlib_header level
  | WRAP_GZIP => zu_int_gzip_write_header
  end.

Lemma enc_header_length w level : zlen (enc_header w level) = hdr_len_of w.
Proof. by destruct w. Qed.

(** After [eaten] has been consumed and [out] written. *)
Record enc_inv (w : wrap_kind) (level : Z) (m0 : mz_stream) (s : deflate_state)
    (eaten out : bytes) : Prop := {
  ei_shape : df_shape w true s;
  ei_bytes : bytes_ok eaten;
  ei_hdr : sub (df_hdr s) 0 (hdr_len_of w) = enc_header w level;
  ei_state :
    match df_state s with
    | ST_HEADER =>
        is_wrapped w = true /\ df_mz s = m0 /\ eaten = [] /\ sums_ok s [] /\
        out = sub (enc_header w level) 0 (df_hdr_pos s)
    | ST_BODY => exists p, mz_session mz_deflate m0 (df_mz s) eaten p false /\
        (is_wrapped w = true -> sums_ok s eaten) /\ out = enc_header w level ++ p
    | ST_TRAILER => exists p m, mz_session mz_deflate m0 m eaten p true /\ is_wrapped w = true /\
        sub (df_tail s) 0 (tail_len_of w) = frame_trailer w eaten /\
        out = enc_header w level ++ p ++ sub (frame_trailer w eaten) 0 (df_tail_pos s)
    | ST_MEMBER_END => False
    | ST_DONE => exists p m, mz_session mz_deflate m0 m eaten p true /\
        out = enc_header w level ++ p ++ frame_trailer w eaten
    end;
}.

(** What a round, or a call, must leave: nothing is claimed after an error. *)
Definition enc_post (w : wrap_kind) (level : Z) (m0 : mz_stream) (eaten out : bytes)
    (ost : option zu_status) (s : deflate_state) : Prop :=
  match ost with
  | None => enc_inv w level m0 s eaten out
  | Some st => is_progress st || status_eqb st ZU_STREAM_END = true ->
      enc_inv w level m0 s eaten out /\ (st = ZU_STREAM_END -> df_state s = ST_DONE)
  end.

Lemma sub_snoc (t : bytes) k :
  0 <= k < zlen t -> sub t 0 (k + 1) = sub t 0 k ++ [byte_at t k].
Proof. intros. rewrite sub_split by lia. by rewrite Z.add_0_l, sub_1. Qed.

Lemma byte_at_sub (t : bytes) n k : 0 <= k < n -> n <= zlen t -> byte_at (sub t 0 n) k = byte_at t k.
Proof.
  intros Hk Hn. unfold byte_at, sub, zlen in *. rewrite drop_0.
  rewrite <- (take_drop (Z.to_nat n) t) at 2. symmetry. apply app_nth1.
  rewrite length_take. lia.
Qed.

Definition enc_round_ok (w : wrap_kind) (level : Z) (m0 : mz_stream) (eaten out : bytes)
    (b : zu_buffer) (r : round) : Prop :=
  exists i o, moved b (r.2) i o /\ enc_post w level m0 (eaten ++ i) (out ++ o) (r.1.1) (r.1.2).

(** A round that only returns a status, or only changes [s->state]. *)
Lemma enc_round_still w level m0 eaten out b ost s :
  buffer_ok b -> enc_post w level m0 eaten out ost s ->
  enc_round_ok w level m0 eaten out b (ost, s, b).
Proof. intros Hb H. exists [], []. rewrite !app_nil_r. split; [by apply moved_refl|done]. Qed.

Lemma enc_post_progress w level m0 eaten out st s :
  enc_inv w level m0 s eaten out -> st <> ZU_STREAM_END ->
  enc_post w level m0 eaten out (Some st) s.
Proof. intros H Hne _. split; [done|]. by intros. Qed.

Lemma enc_header_round w level m0 s eaten out b f :
  enc_inv w level m0 s eaten out -> df_state s = ST_HEADER -> buffer_ok b ->
  enc_round_ok w level m0 eaten out b (deflate_header s b f).
Proof.
  intros Hi Es Hb. pose proof Hi as [Hsh Hby Hh Hst]. rewrite Es in Hst.
  destruct Hst as (Hw & Hm & -> & Hsum & ->). pose proof Hsh as [Ew Ee El _ Hz _ Hp _].
  unfold deflate_header. rewrite Ee, El. destruct (Z.ltb_spec (df_hdr_pos s) (hdr_len_of w)).
  - split_if; [apply enc_round_still; [done|]; by apply enc_post_progress|].
    exists [], [byte_at (df_hdr s) (df_hdr_pos s)]. cbn. split.
    { apply moved_emit; [done|]. rewrite zlen_cons, (@zlen_nil Z).
      pose proof (avail_out_nonneg b Hb). zbool. lia. }
    pose proof (hdr_len_of_range w).
    constructor; [by apply shape_skip_hdr; [|rewrite El]|done|done|]. cbn. rewrite Es.
    split_and!; try done. rewrite <- Hh, sub_snoc by (rewrite ?zlen_sub; lia).
    by rewrite byte_at_sub by lia.
  - apply enc_round_still; [done|]. constructor; [by apply shape_state|done|done|]. cbn.
    exists []. split_and!; [|done|].
    + rewrite Hm. constructor.
    + rewrite app_nil_r. rewrite <- (enc_header_length w level) in *.
      replace (df_hdr_pos s) with (zlen (enc_header w level)) by lia. apply sub_all.
Qed.

Lemma enc_trailer_round w level m0 s eaten out b f :
  enc_inv w level m0 s eaten out -> df_state s = ST_TRAILER -> buffer_ok b ->
  enc_round_ok w level m0 eaten out b (deflate_trailer s b f).
Proof.
  intros Hi Es Hb. pose proof Hi as [Hsh Hby Hh Hst]. rewrite Es in Hst.
  destruct Hst as (p & m & Hm & Hw & Ht & ->). pose proof Hsh as [Ew Ee _ El _ Hz _ Hp].
  pose proof (tail_len_of_range w).
  unfold deflate_trailer. rewrite Ee, El. destruct (Z.ltb_spec (df_tail_pos s) (tail_len_of w)).
  - split_if; [apply enc_round_still; [done|]; by apply enc_post_progress|].
    exists [], [byte_at (df_tail s) (df_tail_pos s)]. cbn. split.
    { apply moved_emit; [done|]. rewrite zlen_cons, (@zlen_nil Z).
      pose proof (avail_out_nonneg b Hb). zbool. lia. }
    rewrite app_nil_r.
    constructor; [by apply shape_skip_tail; [|rewrite El]|done|done|]. cbn. rewrite Es.
    exists p, m. split_and!; try done. rewrite sub_snoc by (rewrite trailer_length; lia).
    rewrite <- Ht, byte_at_sub by lia. by rewrite <- !(assoc_L (++)).
  - apply enc_round_still; [done|]. intros _. split; [|done].
    constructor; [by apply shape_state|done|done|]. cbn. exists p, m. split; [done|].
    rewrite <- (trailer_length w eaten) in *.
    replace (df_tail_pos s) with (zlen (frame_trailer w eaten)) by lia. by rewrite sub_all.
Qed.

(** What [mz_deflate] took is a prefix of what it was shown. *)
Lemma crank_taken_take s b f :
  buffer_ok b ->
  crank_taken s b f = take (Z.to_nat (mz_used (mz_crank s b f)))
    (sub (src_bytes b) (src_pos b) (mz_window (avail_in b))).
Proof.
  intros Hb. unfold crank_taken, sub. rewrite take_take. f_equal.
  assert (mz_used (mz_crank s b f) <= mz_window (avail_in b)); [|lia].
  pose proof (mz_window_range _ (avail_in_nonneg b Hb)) as Hi.
  pose proof (mz_window_range _ (avail_out_nonneg b Hb)) as Ho.
  rewrite <- (zlen_src_sub b (mz_window (avail_in b)) Hb Hi). unfold mz_crank.
  destruct (df_encoder s).
  - apply (mz_deflate_ok (df_mz s)). apply Ho.
  - apply (mz_inflate_ok (df_mz s)). apply Ho.
Qed.

Lemma crank_taken_bytes s b f : bytes_ok (src_bytes b) -> bytes_ok (crank_taken s b f).
Proof. intros. by apply bytes_ok_sub. Qed.

(** A body round that miniz did not fail prolongs the session. *)
Lemma crank_session s b f m0 i o :
  let call := if df_encoder s then mz_deflate else mz_inflate in
  let r := mz_crank s b f in
  buffer_ok b -> mz_session call m0 (df_mz s) i o false ->
  mz_ret r = MZ_OK \/ mz_ret r = MZ_BUF_ERROR \/ mz_ret r = MZ_STREAM_END ->
  mz_session call m0 (mz_next r) (i ++ crank_taken s b f) (o ++ mz_out r)
    (mz_ret r =? MZ_STREAM_END).
Proof.
  intros call r Hb Hs Hr. rewrite crank_taken_take by done.
  by eapply (session_call call m0 (df_mz s)).
Qed.

Lemma from_mz_error r :
  r <> MZ_OK -> r <> MZ_STREAM_END -> r <> MZ_BUF_ERROR ->
  failed (zu_int_from_mz r).
Proof.
  intros H1 H2 H3. unfold zu_int_from_mz. apply Z.eqb_neq in H1, H2, H3. rewrite H1, H2, H3.
  by repeat split_if.
Qed.

(** The state after the call and its accounting. *)
Definition body_state (s : deflate_state) (b : zu_buffer) (f : zu_flush) : deflate_state :=
  deflate_account (df_set_mz s (mz_next (mz_crank s b f)) (df_mz_live s) true)
    (crank_taken s b f) (mz_out (mz_crank s b f)).

Lemma body_state_shape w enc s b f : df_shape w enc s -> df_shape w enc (body_state s b f).
Proof. intros. unfold body_state. auto with shape. Qed.

Lemma body_state_fields s b f :
  df_state (body_state s b f) = df_state s /\ df_wrap (body_state s b f) = df_wrap s /\
  df_encoder (body_state s b f) = df_encoder s /\
  df_mz (body_state s b f) = mz_next (mz_crank s b f).
Proof.
  unfold body_state. destruct (account_shape (df_set_mz s (mz_next (mz_crank s b f)) (df_mz_live s) true)
    (crank_taken s b f) (mz_out (mz_crank s b f))) as (-> & -> & -> & ->). done.
Qed.

Lemma body_state_hdr s b f :
  df_hdr (body_state s b f) = df_hdr s /\ df_hdr_pos (body_state s b f) = df_hdr_pos s /\
  df_tail (body_state s b f) = df_tail s.
Proof. unfold body_state, deflate_account. split_if; done. Qed.

Lemma body_state_sums s b f data :
  let p := if df_encoder s then crank_taken s b f else mz_out (mz_crank s b f) in
  bytes_ok data -> bytes_ok p -> is_wrapped (df_wrap s) = true -> sums_ok s data ->
  sums_ok (body_state s b f) (data ++ p).
Proof. intros p Hd Hp Hw Hs. by apply (account_sums (df_set_mz s _ _ _)). Qed.

(** [deflate_body] on these terms. *)
Lemma deflate_body_eq s b f :
  deflate_body s b f =
  if (avail_out b =? 0) && df_encoder s then (Some ZU_NEED_OUTPUT, s, b)
  else
    let r := mz_crank s b f in
    if mz_ret r =? MZ_STREAM_END then deflate_body_end (body_state s b f) (crank_buffer s b f)
    else if negb (mz_ret r =? MZ_OK) && negb (mz_ret r =? MZ_BUF_ERROR)
    then (Some (zu_int_from_mz (mz_ret r)), body_state s b f, crank_buffer s b f)
    else if (mz_used r =? 0) && (zlen (mz_out r) =? 0)
    then (Some (deflate_body_stuck (body_state s b f) (crank_buffer s b f) f (avail_out b)),
          body_state s b f, crank_buffer s b f)
    else (None, body_state s b f, crank_buffer s b f).
Proof. done. Qed.

Lemma body_stuck_not_end s b f a : deflate_body_stuck s b f a <> ZU_STREAM_END.
Proof. unfold deflate_body_stuck. by repeat split_if. Qed.

(** [MZ_STREAM_END]: the trailer is due, or nothing is. *)
Lemma enc_body_end w level m0 s eaten p m b :
  df_shape w true s -> bytes_ok eaten -> sub (df_hdr s) 0 (hdr_len_of w) = enc_header w level ->
  mz_session mz_deflate m0 m eaten p true -> (is_wrapped w = true -> sums_ok s eaten) ->
  enc_post w level m0 eaten (enc_header w level ++ p) ((deflate_body_end s b).1.1)
    ((deflate_body_end s b).1.2).
Proof.
  intros Hsh Hby Hh Hses Hsum. pose proof Hsh as [Ew Ee _ _ _ Hz _ _].
  pose proof (tail_len_of_range w) as Hr.
  unfold deflate_body_end. rewrite Ee, Ew. destruct (is_wrapped w) eqn:Hw.
  - destruct (Hsum eq_refl) as [Hc Hu]. rewrite Hc, Hu, Ew, deflate_tail_trailer by done.
    assert (Hlt : zlen (memcpy_at (df_tail s) 0 (frame_trailer w eaten)) = 8).
    { rewrite zlen_memcpy_at; [done|lia|]. rewrite trailer_length. lia. }
    constructor; [apply shape_state, shape_tail; [done|done|lia]|done|done|].
    cbn. exists p, m. split_and!; [exact Hses|done| |by rewrite sub_0, app_nil_r].
    rewrite <- (trailer_length w eaten). apply sub_memcpy_at; [lia|].
    rewrite trailer_length. lia.
  - intros _. split; [|done]. constructor; [by apply shape_state|done|done|]. cbn.
    exists p, m. split; [exact Hses|]. destruct w; try done. cbn. by rewrite app_nil_r.
Qed.

Lemma body_end_buffer s b : (deflate_body_end s b).2 = b.
Proof. unfold deflate_body_end. by split_if. Qed.

Lemma enc_body_round w level m0 s eaten out b f :
  enc_inv w level m0 s eaten out -> df_state s = ST_BODY -> buffer_ok b ->
  bytes_ok (src_bytes b) ->
  enc_round_ok w level m0 eaten out b (deflate_body s b f).
Proof.
  intros Hi Es Hb Hsrc. pose proof Hi as [Hsh Hby Hh Hst]. rewrite Es in Hst.
  destruct Hst as (p & Hm & Hsum & ->). pose proof Hsh as [Ew Ee _ _ _ _ _ _].
  rewrite deflate_body_eq, Ee. cbv zeta.
  split_if; [apply enc_round_still; [done|]; by apply enc_post_progress|].
  pose proof (crank_moved s b f Hb) as Hmv. set (r := mz_crank s b f) in *.
  pose proof (crank_taken_bytes s b f Hsrc) as Htk.
  assert (Hby' : bytes_ok (eaten ++ crank_taken s b f)) by (by apply bytes_ok_app).
  pose proof (body_state_shape _ _ s b f Hsh) as Hsh'.
  destruct (body_state_fields s b f) as (E1 & E2 & E3 & E4).
  destruct (body_state_hdr s b f) as (E5 & _ & _).
  assert (Hsum' : is_wrapped w = true -> sums_ok (body_state s b f) (eaten ++ crank_taken s b f)).
  { intros Hw. pose proof (body_state_sums s b f eaten) as H. rewrite Ee, Ew in H. auto. }
  pose proof (crank_session s b f m0 eaten p) as Hses. rewrite Ee in Hses.
  specialize (fun H => Hses Hb Hm H). fold r in Hses.
  destruct (Z.eqb_spec (mz_ret r) MZ_STREAM_END) as [Eend|Nend].
  - exists (crank_taken s b f), (mz_out r). rewrite body_end_buffer. split; [exact Hmv|].
    rewrite <- (assoc_L (++)). eapply enc_body_end; [done|done|by rewrite E5| |done].
    apply Hses. tauto.
  - destruct (decide (mz_ret r = MZ_OK \/ mz_ret r = MZ_BUF_ERROR)) as [Hret|Hret].
    + assert (Hinv : enc_inv w level m0 (body_state s b f) (eaten ++ crank_taken s b f)
        ((enc_header w level ++ p) ++ mz_out r)).
      { constructor; [done|done|by rewrite E5|]. rewrite E1, Es, E4.
        exists (p ++ mz_out r). split_and!; [|done|by rewrite (assoc_L (++))]. apply Hses. tauto. }
      replace (negb (mz_ret r =? MZ_OK) && negb (mz_ret r =? MZ_BUF_ERROR)) with false
        by (destruct Hret as [-> | ->]; done).
      split_if; (eexists _, _; split; [exact Hmv|]); [|exact Hinv].
      apply enc_post_progress; [done|apply body_stuck_not_end].
    + rewrite (proj2 (Z.eqb_neq (mz_ret r) MZ_OK)), (proj2 (Z.eqb_neq (mz_ret r) MZ_BUF_ERROR)) by tauto.
      eexists _, _. split; [exact Hmv|]. intros Hp. by rewrite failed_no_progress in Hp by (apply from_mz_error; tauto).
Qed.

Lemma enc_round w level m0 s eaten out b f :
  enc_inv w level m0 s eaten out -> buffer_ok b -> bytes_ok (src_bytes b) ->
  enc_round_ok w level m0 eaten out b (deflate_round s b f).
Proof.
  intros Hi Hb Hsrc. unfold deflate_round. destruct (df_state s) eqn:Es.
  - by apply enc_header_round.
  - by apply enc_body_round.
  - by apply enc_trailer_round.
  - destruct Hi as [_ _ _ Hst]. by rewrite Es in Hst.
  - by apply enc_round_still.
Qed.

Lemma buffer_step_src b b' : buffer_step b b' -> src_bytes b' = src_bytes b.
Proof. intros [E _ _ _ _ _]. unfold src_bytes. by rewrite E. Qed.

Lemma enc_process w level m0 s eaten out b f st s' b' :
  enc_inv w level m0 s eaten out -> buffer_ok b -> bytes_ok (src_bytes b) ->
  deflate_process s b f = (st, s', b') ->
  exists i o, moved b b' i o /\ enc_post w level m0 (eaten ++ i) (out ++ o) (Some st) s'.
Proof.
  intros Hi Hb Hsrc E. pose proof (deflate_process_loop s b f Hb) as El. rewrite E in El.
  refine (process_loop_inv deflate_round
    (fun s1 b1 => exists i o, moved b b1 i o /\ enc_inv w level m0 s1 (eaten ++ i) (out ++ o))
    (fun st1 s1 b1 => exists i o, moved b b1 i o /\
       enc_post w level m0 (eaten ++ i) (out ++ o) (Some st1) s1) f _ _ s b _ _ El).
  - intros s1 b1 (i & o & Hm & Hi1). pose proof (moved_ok _ _ _ _ Hb Hm) as Hb1.
    destruct (enc_round w level m0 s1 _ _ b1 f Hi1 Hb1) as (i1 & o1 & Hm1 & Hp).
    { by rewrite (buffer_step_src b b1) by apply (mv_step _ _ _ _ Hm). }
    rewrite <- !(assoc_L (++)) in Hp. pose proof (moved_trans _ _ _ _ _ _ _ Hm Hm1).
    destruct (deflate_round s1 b1 f) as [[[st1|] s2] b2]; eauto.
  - exists [], []. rewrite !app_nil_r. split; [by apply moved_refl|done].
Qed.

Lemma enc_run w level m0 s0 s eaten out :
  enc_inv w level m0 s0 [] [] -> codec_run deflate_process s0 s eaten out ->
  enc_inv w level m0 s eaten out.
Proof.
  intros H0. apply (codec_run_inv deflate_process (enc_inv w level m0)); [done|].
  intros s1 eaten1 out1 b f st s2 b2 i o Hi Hb Hsrc E Hp Hm.
  destruct (enc_process _ _ _ _ _ _ _ _ _ _ _ Hi Hb Hsrc E) as (i' & o' & Hm' & Hpost).
  destruct (moved_unique _ _ _ _ _ _ Hm Hm') as [-> ->].
  unfold enc_post in Hpost. rewrite Hp in Hpost. by apply Hpost.
Qed.

(** *** Handles *)

(** Every encoder or decoder state the callbacks can build. *)
Inductive deflate_handle {alloc : Allocator} (w : wrap_kind) (enc : bool) : deflate_state -> Prop :=
  | handle_new level flags s :
      zu_int_deflate_new w enc level flags = Ok s -> deflate_handle w enc s
  | handle_process s b f st s' b' :
      deflate_handle w enc s -> buffer_ok b -> deflate_process s b f = (st, s', b') ->
      deflate_handle w enc s'
  | handle_reset s level st s' :
      deflate_handle w enc s -> zu_int_deflate_reset s level = (st, s') -> deflate_handle w enc s'
  | handle_flags s flags :
      deflate_handle w enc s -> deflate_handle w enc (df_set_dec_flags s flags).

Lemma handle_shape {alloc : Allocator} w enc s : deflate_handle w enc s -> df_shape w enc s.
Proof.
  induction 1; eauto using shape_new, shape_process, shape_reset, shape_flags.
Qed.

(** A state no call has been made on since it was built or successfully reset. *)
Definition deflate_fresh {alloc : Allocator} (w : wrap_kind) (enc : bool) (s : deflate_state) : Prop :=
  (exists level flags, zu_int_deflate_new w enc level flags = Ok s) \/
  (exists s1 level, deflate_handle w enc s1 /\ zu_int_deflate_reset s1 level = (ZU_OK, s)).

Lemma rearm_enc w s :
  df_shape w true s -> enc_inv w (df_level s) (df_mz s) (deflate_rearm s) [] [].
Proof.
  intros Hsh. pose proof (shape_rearm _ _ _ Hsh) as Hsh'.
  destruct Hsh as [Hw He _ _ Hh _ _ _].
  constructor; [done|by constructor|..].
  - unfold deflate_rearm. cbn. rewrite Hw, He. destruct w; cbn; [done| |done].
    change 2 with (zlen (zu_int_zlib_header (df_level s))). apply sub_memcpy_at; [lia|].
    unfold zlen at 1. rewrite zlib_header_length. lia.
  - unfold deflate_rearm, sums_ok. cbn. rewrite Hw, He, frame_sum_init. destruct w.
    + exists []. split_and!; [constructor|done|done].
    + cbn. rewrite Hw. by split_and!.
    + cbn. rewrite Hw. by split_and!.
Qed.

Lemma fresh_enc {alloc : Allocator} w s :
  deflate_fresh w true s -> enc_inv w (df_level s) (df_mz s) s [] [].
Proof.
  intros [(level & flags & E)|(s1 & level & Hh & E)].
  - pose proof (shape_new _ _ _ _ _ E) as Hsh. revert E. unfold zu_int_deflate_new.
    destruct (negb (alloc_ok req_state)); [done|]. cbv zeta.
    destruct (mz_deflateInit2 _ _) as [r m]. destruct (negb (r =? MZ_OK)); [done|]. intros [= <-].
    constructor; [done|by constructor|destruct w; [done| |done]|].
    + cbn [df_hdr hdr_len_of enc_header].
      apply (sub_memcpy_at _ 0 (zu_int_zlib_header _)); [lia|]. unfold zlen. cbn. lia.
    + unfold sums_ok. rewrite frame_sum_init. destruct w.
      * exists []. split_and!; [constructor|done|done].
      * by split_and!.
      * by split_and!.
  - pose proof (handle_shape _ _ _ Hh) as Hsh. revert E. unfold zu_int_deflate_reset.
    destruct (deflate_restart s1 level) as [st s2] eqn:Er.
    pose proof (shape_restart _ _ _ _ _ _ Hsh Er) as Hsh2.
    destruct st as [st|]; [intros [= -> ->]; by destruct (restart_early _ _ _ _ Er)|]. intros [= <-].
    destruct (rearm_shape s2) as (_ & _ & _ & -> & _).
    replace (df_level (deflate_rearm s2)) with (df_level s2); [by apply rearm_enc|].
    unfold deflate_rearm. cbn. by repeat split_if; destruct (df_wrap s2).
Qed.

(** *** The level of the stream and the level in the header *)

(** A stream initialised at [level], however it was used or reset since. *)
Inductive mz_at_level (level : Z) : mz_stream -> Prop :=
  | at_init m : mz_deflateInit2 mz_stream_zero level = (MZ_OK, m) -> mz_at_level level m
  | at_call m next_in avail_out flush :
      mz_at_level level m -> mz_at_level level (mz_next (mz_deflate m next_in avail_out flush))
  | at_reset m r m' : mz_at_level level m -> mz_deflateReset m = (r, m') -> mz_at_level level m'.

Definition level_ok (s : deflate_state) : Prop :=
  df_encoder s = true /\ (df_mz_live s = true -> mz_at_level (df_level s) (df_mz s)).

Lemma level_ok_same s s' :
  df_encoder s' = df_encoder s -> df_mz_live s' = df_mz_live s -> df_level s' = df_level s ->
  df_mz s' = df_mz s -> level_ok s -> level_ok s'.
Proof. unfold level_ok. intros -> -> -> ->. done. Qed.

Lemma level_body_end s b : level_ok s -> level_ok ((deflate_body_end s b).1.2).
Proof. unfold deflate_body_end. split_if; apply level_ok_same; done. Qed.

Lemma level_body_state s b f : level_ok s -> level_ok (body_state s b f).
Proof.
  intros [He Hl]. unfold level_ok. destruct (body_state_fields s b f) as (_ & _ & -> & ->).
  split; [done|]. unfold body_state, deflate_account, mz_crank. rewrite He.
  split_if; cbn; intros Hlive; apply at_call, Hl; done.
Qed.

Lemma level_round s b f : level_ok s -> level_ok ((deflate_round s b f).1.2).
Proof.
  intros H. pose proof H as [He _]. unfold deflate_round. destruct (df_state s); [| | | |exact H].
  - unfold deflate_header. rewrite He. repeat split_if; cbn; try done; revert H; by apply level_ok_same.
  - rewrite deflate_body_eq. cbv zeta. split_if; [done|].
    split_if; [by apply level_body_end, level_body_state|].
    repeat split_if; by apply level_body_state.
  - unfold deflate_trailer. rewrite He. repeat split_if; cbn; try done; revert H; by apply level_ok_same.
  - unfold deflate_member_end. rewrite He, andb_false_r. cbn [negb orb andb].
    repeat split_if; cbn; try done; revert H; by apply level_ok_same.
Qed.

Lemma level_process s b f st s' b' :
  level_ok s -> buffer_ok b -> deflate_process s b f = (st, s', b') -> level_ok s'.
Proof.
  intros Hs Hb E. pose proof (deflate_process_loop s b f Hb) as El. rewrite E in El.
  refine (process_loop_inv deflate_round (fun s _ => level_ok s) (fun _ s _ => level_ok s) f _
    _ s b _ Hs El).
  intros s1 b1 Hs1. pose proof (level_round s1 b1 f Hs1) as H.
  by destruct (deflate_round s1 b1 f) as [[[] ?] ?].
Qed.

Lemma level_restart s level st s' :
  level_ok s -> deflate_restart s level = (st, s') ->
  level_ok s' /\ (st = None -> df_level s' = deflate_want s level /\
    (df_mz_live s = true -> df_mz_live s' = true)).
Proof.
  intros [He Hl]. unfold deflate_restart. rewrite He. cbv zeta.
  generalize (deflate_want s level). intros want E. cbn [andb] in E.
  destruct (want =? df_level s) eqn:El; cbn [negb] in E.
  - destruct (mz_deflateReset (df_mz s)) as [r m] eqn:Er. zbool. subst want.
    destruct (r =? MZ_OK); cbn [negb] in E; injection E as <- <-; (split; [|done]);
      (split; [done|]); intros Hlive; (eapply at_reset; [by apply Hl|exact Er]).
  - destruct (mz_deflateInit2 mz_stream_zero want) as [r m] eqn:Er.
    destruct (r =? MZ_OK) eqn:E0; cbn [negb] in E; injection E as <- <-; (split; [|done]);
      (split; [done|]); [|done].
    intros _. cbn. apply at_init. zbool. congruence.
Qed.

Lemma level_rearm s : level_ok s -> level_ok (deflate_rearm s).
Proof.
  apply level_ok_same; unfold deflate_rearm; cbn; by repeat split_if; destruct (df_wrap s).
Qed.

Lemma rearm_level s :
  df_level (deflate_rearm s) = df_level s /\ df_mz_live (deflate_rearm s) = df_mz_live s.
Proof. unfold deflate_rearm. cbn. by repeat split_if; destruct (df_wrap s). Qed.

Lemma level_reset s level st s' :
  level_ok s -> zu_int_deflate_reset s level = (st, s') ->
  level_ok s' /\ (st = ZU_OK -> df_level s' = deflate_want s level /\
    (df_mz_live s = true -> df_mz_live s' = true)).
Proof.
  unfold zu_int_deflate_reset. intros Hs E.
  destruct (deflate_restart s level) as [st1 s1] eqn:Er.
  destruct (level_restart _ _ _ _ Hs Er) as [H1 H2].
  destruct st1 as [st1|]; injection E as <- <-.
  { split; [done|]. intros ->. by destruct (restart_early _ _ _ _ Er). }
  destruct (rearm_level s1) as [-> ->]. split; [by apply level_rearm|].
  intros _. by apply H2.
Qed.

Lemma handle_level {alloc : Allocator} w s : deflate_handle w true s -> level_ok s.
Proof.
  induction 1 as [level flags s E|s b f st s' b' _ IH Hb E|s level st s' _ IH E|s flags _ IH].
  - destruct (shape_new _ _ _ _ _ E) as [_ He _ _ _ _ _ _]. split; [done|].
    revert E. unfold zu_int_deflate_new. destruct (negb (alloc_ok req_state)); [done|]. cbv zeta.
    destruct (mz_deflateInit2 _ _) as [r m] eqn:Ei. destruct (r =? MZ_OK) eqn:E0; [|done].
    zbool. subst r. intros [= <-] _. by destruct w; apply at_init.
  - by eapply level_process.
  - by eapply level_reset.
  - revert IH. by apply level_ok_same.
Qed.

Lemma sub_prefix (t : bytes) n : sub t 0 n `prefix_of` t.
Proof. unfold sub. rewrite drop_0. apply prefix_take. Qed.

(** The framing read off the invariant. *)
Lemma enc_inv_frames w level m0 s eaten out :
  enc_inv w level m0 s eaten out ->
  exists payload m fin,
    mz_session mz_deflate m0 m eaten payload fin /\
    out `prefix_of` (enc_header w level ++ payload ++ frame_trailer w eaten) /\
    (df_state s = ST_DONE -> fin = true /\
       out = enc_header w level ++ payload ++ frame_trailer w eaten).
Proof.
  intros [Hsh _ _ Hinv]. destruct (df_state s) eqn:Es.
  - destruct Hinv as (_ & _ & -> & _ & ->). exists [], m0, false. split; [constructor|].
    split; [|done]. by apply prefix_app_r, sub_prefix.
  - destruct Hinv as (p & Hm & _ & ->). exists p, (df_mz s), false. split; [done|].
    split; [|done]. rewrite (assoc_L (++)). by apply prefix_app_r.
  - destruct Hinv as (p & m & Hm & _ & _ & ->). exists p, m, true. split; [done|].
    split; [|done]. apply prefix_app, prefix_app, sub_prefix.
  - done.
  - destruct Hinv as (p & m & Hm & ->). by exists p, m, true.
Qed.

(** C13: an encoder's output, under any sequence of calls on a new or reset handle.  When
    the last call ends the stream, what was written in all is the wrapper header for the
    handle's level, the payload of one complete miniz session over exactly the bytes
    consumed, and the trailer of those bytes -- big-endian Adler-32 for zlib, CRC-32 and
    length for gzip, nothing for deflate-raw; until then it is a prefix of that frame. *)
Theorem deflate_encoder_frames {alloc : Allocator} w s0 s eaten out b f st s' b' :
  deflate_fresh w true s0 -> codec_run deflate_process s0 s eaten out ->
  buffer_ok b -> bytes_ok (src_bytes b) -> deflate_process s b f = (st, s', b') ->
  is_progress st || status_eqb st ZU_STREAM_END = true ->
  exists i o payload m fin,
    moved b b' i o /\ mz_session mz_deflate (df_mz s0) m (eaten ++ i) payload fin /\
    (out ++ o) `prefix_of` (enc_header w (df_level s0) ++ payload ++ frame_trailer w (eaten ++ i)) /\
    (st = ZU_STREAM_END -> fin = true /\
       out ++ o = enc_header w (df_level s0) ++ payload ++ frame_trailer w (eaten ++ i)).
Proof.
  intros Hf Hrun Hb Hsrc E Hst. apply fresh_enc in Hf.
  pose proof (enc_run _ _ _ _ _ _ _ Hf Hrun) as Hi.
  destruct (enc_process _ _ _ _ _ _ _ _ _ _ _ Hi Hb Hsrc E) as (i & o & Hm & Hpost).
  destruct (Hpost Hst) as [Hinv Hend].
  destruct (enc_inv_frames _ _ _ _ _ _ Hinv) as (p & m & fin & H1 & H2 & H3).
  exists i, o, p, m, fin. do 3 (split; [done|]). intros ->. by apply H3, Hend.
Qed.

(** C33: the level.  However an encoder was used and reset, its miniz stream is one that
    was initialised at the level the wrapper's header advertises; a successful reset moves
    both to the level asked for, and to the level the stream already had when the caller
    says nothing, and keeps the stream alive. *)
Theorem deflate_level_consistent {alloc : Allocator} w s :
  deflate_handle w true s ->
  (df_mz_live s = true -> mz_at_level (df_level s) (df_mz s)) /\
  forall level s', zu_int_deflate_reset s level = (ZU_OK, s') ->
    df_level s' = (if level =? ZU_LEVEL_DEFAULT then df_level s else level) /\
    sub (df_hdr s') 0 (hdr_len_of w) = enc_header w (df_level s') /\
    (df_mz_live s = true -> df_mz_live s' = true /\ mz_at_level (df_level s') (df_mz s')).
Proof.
  intros Hh. pose proof (handle_level _ _ Hh) as Hl. split; [apply Hl|].
  intros level s' E. destruct (level_reset _ _ _ _ Hl E) as [[He Hl'] H].
  destruct (H eq_refl) as [Hlev Hlive].
  assert (Hf : deflate_fresh w true s') by (right; eauto).
  pose proof (ei_hdr _ _ _ _ _ _ (fresh_enc _ _ Hf)).
  split_and!; [|done|auto].
  rewrite Hlev. unfold deflate_want. rewrite (proj1 Hl). by destruct (level =? ZU_LEVEL_DEFAULT).
Qed.

(** *** Two behaviours the encoder's loop has *)

(** The state in the middle of a stream, as the rounds of a body leave it. *)
Definition in_body (s : deflate_state) : Prop := df_encoder s = true /\ df_state s = ST_BODY.

Lemma body_state_in_body s b f : in_body s -> in_body (body_state s b f).
Proof.
  intros [He Hs]. unfold in_body. by destruct (body_state_fields s b f) as (-> & _ & -> & _).
Qed.


(** Finishing more than 2 GiB at once.  miniz takes at most 0x7fffffff bytes a call,
    and [deflate_process] passes MZ_FINISH on with the first such slice: a miniz that
    finishes the stream it is told to finish, taking all it was shown, then leaves the
    rest of the caller's input unread, and the call still reports ZU_STREAM_END. *)
Theorem deflate_finish_truncates s b :
  buffer_ok b -> in_body s -> df_wrap s = WRAP_NONE -> 0 < avail_out b -> 0x7fffffff < avail_in b ->
  (let next_in := sub (src_bytes b) (src_pos b) 0x7fffffff in
   let r := mz_deflate (df_mz s) next_in (mz_window (avail_out b)) MZ_FINISH in
   mz_ret r = MZ_STREAM_END /\ mz_used r = zlen next_in) ->
  let r := deflate_process s b ZU_FINISH in
  r.1.1 = ZU_STREAM_END /\ src_pos (r.2) = src_pos b + 0x7fffffff /\ src_pos (r.2) < src_size b.
Proof.
  intros Hb Hs Hw Ho Hi Hmz r. unfold r. clear r.
  assert (Hwin : mz_window (avail_in b) = 0x7fffffff).
  { unfold mz_window. rewrite Z.gtb_ltb. by destruct (Z.ltb_spec 0x7fffffff (avail_in b)); [|lia]. }
  assert (Hc : mz_crank s b ZU_FINISH = mz_deflate (df_mz s) (sub (src_bytes b) (src_pos b) 0x7fffffff)
    (mz_window (avail_out b)) MZ_FINISH).
  { unfold mz_crank, mz_flush_of. by rewrite (proj1 Hs), Hwin. }
  destruct Hmz as [Hret Hused]. rewrite <- Hc in Hret, Hused.
  rewrite (zlen_src_sub b 0x7fffffff) in Hused by (done || lia).
  assert (Hround : deflate_round s b ZU_FINISH =
    (Some ZU_STREAM_END, df_set_state (body_state s b ZU_FINISH) ST_DONE, crank_buffer s b ZU_FINISH)).
  { unfold deflate_round. rewrite (proj2 Hs), deflate_body_eq, (proj1 Hs). cbv zeta.
    rewrite Hret, (proj2 (Z.eqb_neq (avail_out b) 0)) by lia. cbn [andb].
    change (MZ_STREAM_END =? MZ_STREAM_END) with true. cbv iota.
    unfold deflate_body_end. destruct (body_state_fields s b ZU_FINISH) as (_ & -> & _ & _).
    by rewrite Hw. }
  unfold deflate_process, run_process, deflate_fuel. cbn [process_loop]. rewrite Hround.
  cbn [from_option id fst snd]. unfold crank_buffer. rewrite Hused. cbn [src_pos buf_emit buf_consume].
  unfold avail_in in Hi. split; [done|lia].
Qed.

End framing.

#[export] Hint Resolve shape_state shape_gz shape_probe shape_mz shape_level shape_flags
  shape_account : shape.

(** ** Witnesses *)

#[local] Existing Instance toy_miniz.
#[local] Existing Instance toy_miniz_ok.
#[local] Instance always_alloc : Allocator := fun _ => true.

Lemma toy_fresh w enc flags : deflate_fresh w enc (toy_state w enc flags).
Proof. left. exists ZU_LEVEL_DEFAULT, flags. by destruct w, enc. Qed.

(** "hi", compressed in one call. *)
Lemma deflate_encoder_frames_witness :
  let s0 := toy_state WRAP_GZIP true 0 in
  let b := toy_buffer [104; 105] 40 in
  let r := deflate_process s0 b ZU_FINISH in
  r.1.1 = ZU_STREAM_END /\
  dst_written (r.2) = zu_int_gzip_write_header ++ [1; 104; 1; 105; 0] ++
    le_bytes 4 (mz_crc32 0 [104; 105]) ++ le_bytes 4 2 /\
  exists i o payload m fin,
    moved b (r.2) i o /\ mz_session mz_deflate (df_mz s0) m ([] ++ i) payload fin /\
    ([] ++ o) `prefix_of` (enc_header WRAP_GZIP (df_level s0) ++ payload ++ frame_trailer WRAP_GZIP ([] ++ i)) /\
    (r.1.1 = ZU_STREAM_END -> fin = true /\
       [] ++ o = enc_header WRAP_GZIP (df_level s0) ++ payload ++ frame_trailer WRAP_GZIP ([] ++ i)).
Proof.
  intros s0 b r. split; [vm_compute; reflexivity|]. split; [vm_compute; reflexivity|].
  apply (deflate_encoder_frames WRAP_GZIP s0 s0 [] [] b ZU_FINISH (r.1.1) (r.1.2) (r.2)).
  - apply toy_fresh.
  - constructor.
  - apply toy_buffer_ok; vm_compute; reflexivity.
  - apply (bytes_okb_ok [104; 105] eq_refl).
  - unfold r. generalize (deflate_process s0 b ZU_FINISH). by intros [[? ?] ?].
  - vm_compute. reflexivity.
Defined.

(** An encoder used at the default level and reset to level 9. *)
Lemma deflate_level_consistent_witness :
  exists s', zu_int_deflate_reset (toy_state WRAP_ZLIB true 0) 9 = (ZU_OK, s') /\
    df_level s' = 9 /\ sub (df_hdr s') 0 2 = [0x78; 0xda] /\ mz_at_level 9 (df_mz s').
Proof.
  pose (s' := (zu_int_deflate_reset (toy_state WRAP_ZLIB true 0) 9).2).
  assert (E : zu_int_deflate_reset (toy_state WRAP_ZLIB true 0) 9 = (ZU_OK, s'))
    by (vm_compute; reflexivity).
  assert (Hh : deflate_handle WRAP_ZLIB true (toy_state WRAP_ZLIB true 0)).
  { by apply (handle_new WRAP_ZLIB true ZU_LEVEL_DEFAULT 0). }
  destruct (deflate_level_consistent WRAP_ZLIB _ Hh) as [_ H].
  destruct (H 9 s' E) as (H1 & H2 & H3). exists s'.
  change (df_level s' = 9) in H1. rewrite H1 in H2, H3.
  split; [exact E|]. split; [exact H1|].
  split; [etransitivity; [exact H2|vm_compute; reflexivity]|].
  exact (proj2 (H3 ltac:(vm_compute; reflexivity))).
Defined.


(** A library that takes whatever it is shown and, told to finish, finishes. *)
Definition eager_miniz : Miniz := {|
  mz_stream := unit;
  mz_stream_zero := tt;
  mz_deflateInit2 := fun _ _ => (MZ_OK, tt);
  mz_inflateInit2 := fun _ => (MZ_OK, tt);
  mz_deflateReset := fun _ => (MZ_OK, tt);
  mz_inflateReset := fun _ => (MZ_OK, tt);
  mz_deflate := fun _ next_in _ flush =>
    mk_mz (if flush =? MZ_FINISH then MZ_STREAM_END else MZ_OK) (zlen next_in) [] tt;
  mz_inflate := fun _ next_in _ _ => mk_mz MZ_OK (zlen next_in) [] tt;
|}.

Lemma eager_miniz_ok : @MinizOk eager_miniz.
Proof.
  constructor; try (intros; by left);
    (intros m i a f Ha; cbn; pose proof (zlen_nonneg i); split; [lia|]; split; [done|constructor]).
Qed.

Definition big_buffer (n : Z) : zu_buffer :=
  mk_buffer (Some (replicate (Z.to_nat n) 0)) n 0 (Some [0]) 1 0.

Lemma big_buffer_ok n : 0 <= n < 2 ^ 64 -> buffer_ok (big_buffer n).
Proof.
  intros Hn. unfold big_buffer. constructor;
    cbn [src src_size src_pos dst dst_size dst_pos object_covers]; try lia.
  - rewrite zlen_replicate. lia.
  - done.
Qed.

Definition eager_state : @deflate_state eager_miniz :=
  @mk_df eager_miniz tt true false true WRAP_NONE ST_BODY 6 (replicate 10 0) 0 0
    (replicate 8 0) 0 0 1 0 zu_int_gzip_header_init 0 false.

(** 2 GiB at once: one byte is left behind. *)
Lemma deflate_finish_truncates_witness :
  let r := @deflate_process eager_miniz eager_state (big_buffer (2 ^ 31)) ZU_FINISH in
  r.1.1 = ZU_STREAM_END /\ src_pos (r.2) = 0x7fffffff /\ src_pos (r.2) < 2 ^ 31.
Proof.
  apply (@deflate_finish_truncates eager_miniz eager_state (big_buffer (2 ^ 31))).
  - apply big_buffer_ok. lia.
  - split; reflexivity.
  - reflexivity.
  - unfold avail_out. cbn [big_buffer dst_size dst_pos]. lia.
  - unfold avail_in. cbn [big_buffer src_size src_pos]. lia.
  - split; reflexivity.
Defined.
