(* ===== verification/DeflateDecode.v ===== *)
(** * What a DEFLATE decoder accepts

    A decoder that reports the end has consumed one member -- or, for gzip with
    concatenation, several -- each a valid header, a complete miniz session and the trailer
    of the bytes that session produced, and has written exactly those bytes. *)
From S2P Require Import Prelude Types SizeArith Registry Stream Checksum GzipHeader ProcessLoop.
From S2P Require Import Deflate DeflateProps DeflateFraming.

Section decode.
Context {mz : Miniz} {mz_ok : MinizOk}.

(** ** Specification *)

(** A header the decoder lets through. *)
Definition header_accepted (w : wrap_kind) (h : bytes) : Prop :=
  match w with
  | WRAP_NONE => h = []
  | WRAP_ZLIB => zlen h = 2 /\ zu_int_zlib_check_header h = ZU_OK
  | WRAP_GZIP => exists g, gz_fields_ok g /\ h = gz_encode g
  end.

Definition inflate_fresh (m : mz_stream) : Prop :=
  mz_inflateInit2 mz_stream_zero = (MZ_OK, m) \/ exists m', mz_inflateReset m' = (MZ_OK, m).

(** [input] is one member and decodes to [output]. *)
Definition member (w : wrap_kind) (input output : bytes) : Prop :=
  exists h p m0 m, header_accepted w h /\ inflate_fresh m0 /\
    mz_session mz_inflate m0 m p output true /\ input = h ++ p ++ frame_trailer w output.

(** One member, or several when [concat]. *)
Inductive members (w : wrap_kind) (concat : bool) : bytes -> bytes -> Prop :=
  | members_one i o : member w i o -> members w concat i o
  | members_more i o i1 o1 :
      concat = true -> members w concat i o -> member w i1 o1 ->
      members w concat (i ++ i1) (o ++ o1).

Definition concatenates (w : wrap_kind) (flags : Z) : bool :=
  is_gzip w && has_flag flags ZU_DEC_CONCAT_MEMBERS.

(** Nothing before the member at hand, or whole members. *)
Definition before_ok (w : wrap_kind) (flags : Z) (i o : bytes) : Prop :=
  (i = [] /\ o = []) \/ (concatenates w flags = true /\ members w (concatenates w flags) i o).

Lemma members_extend w flags i o i1 o1 :
  before_ok w flags i o -> member w i1 o1 -> members w (concatenates w flags) (i ++ i1) (o ++ o1).
Proof.
  intros [ [-> ->]|[Hc Hm] ] H1; [by apply members_one|by apply members_more].
Qed.

(** ** The invariant *)

(** The member at hand: [i] taken and [o] written since it began. *)
Definition dec_current (w : wrap_kind) (s : deflate_state) (i o : bytes) : Prop :=
  match df_state s with
  | ST_HEADER =>
      is_wrapped w = true /\ o = [] /\ inflate_fresh (df_mz s) /\ sums_ok s [] /\
      match w with
      | WRAP_GZIP => forall l, gz_run zu_int_gzip_header_init (i ++ l) = gz_run (df_gz s) l
      | _ => i = sub (df_hdr s) 0 (df_hdr_pos s)
      end
  | ST_BODY => exists h p m0, i = h ++ p /\ header_accepted w h /\ inflate_fresh m0 /\
      mz_session mz_inflate m0 (df_mz s) p o false /\ (is_wrapped w = true -> sums_ok s o)
  | ST_TRAILER => exists h p m0 m, i = h ++ p ++ sub (df_tail s) 0 (df_tail_pos s) /\
      header_accepted w h /\ inflate_fresh m0 /\ mz_session mz_inflate m0 m p o true /\
      is_wrapped w = true /\ sums_ok s o
  | ST_MEMBER_END | ST_DONE => False
  end.

(** The 0x1f a probe has eaten. *)
Definition held_byte (held : bool) : bytes := if held then [0x1f] else [].

(** Between members, or after the last: [i] is what was eaten beyond whole members. *)
Definition dec_ended (w : wrap_kind) (flags : Z) (s : deflate_state) (i : bytes) : Prop :=
  match df_state s with
  | ST_MEMBER_END => i = held_byte (df_probe_magic s)
  | ST_DONE => i = [] \/ (i = [0x1f] /\ concatenates w flags = true)
  | _ => False
  end.

Record dec_inv (w : wrap_kind) (flags : Z) (s : deflate_state) (eaten out : bytes) : Prop := {
  di_shape : df_shape w false s;
  di_flags : df_dec_flags s = flags;
  di_in : bytes_ok eaten;
  di_out : bytes_ok out;
  di_probe : df_probe_magic s = true -> df_state s = ST_MEMBER_END /\ concatenates w flags = true;
  di_state :
    (exists i0 o0 i o, eaten = i0 ++ i /\ out = o0 ++ o /\ before_ok w flags i0 o0 /\
       dec_current w s i o) \/
    (exists i0 i, eaten = i0 ++ i /\ members w (concatenates w flags) i0 out /\
       dec_ended w flags s i);
}.

Definition dec_post (w : wrap_kind) (flags : Z) (eaten out : bytes) (ost : option zu_status)
    (s : deflate_state) : Prop :=
  match ost with
  | None => dec_inv w flags s eaten out
  | Some st => is_progress st || status_eqb st ZU_STREAM_END = true ->
      dec_inv w flags s eaten out /\ (st = ZU_STREAM_END -> df_state s = ST_DONE)
  end.

Definition dec_round_ok (w : wrap_kind) (flags : Z) (eaten out : bytes) (b : zu_buffer) (r : round) :
    Prop :=
  exists i o, moved b (r.2) i o /\ dec_post w flags (eaten ++ i) (out ++ o) (r.1.1) (r.1.2).

Lemma dec_round_still w flags eaten out b ost s :
  buffer_ok b -> dec_post w flags eaten out ost s ->
  dec_round_ok w flags eaten out b (ost, s, b).
Proof. intros Hb H. exists [], []. rewrite !app_nil_r. split; [by apply moved_refl|done]. Qed.

Lemma dec_post_progress w flags eaten out st s :
  dec_inv w flags s eaten out -> st <> ZU_STREAM_END -> dec_post w flags eaten out (Some st) s.
Proof. intros H Hne _. split; [done|]. by intros. Qed.

Lemma dec_post_error w flags eaten out st s :
  failed st -> dec_post w flags eaten out (Some st) s.
Proof. intros H Hp. by rewrite failed_no_progress in Hp. Qed.

Lemma src_at_ok b i : bytes_ok (src_bytes b) -> byte_ok (src_at b i).
Proof.
  intros H. unfold src_at, byte_at. destruct (nth_in_or_default (Z.to_nat (src_pos b + i)) (src_bytes b) 0) as [Hin| ->].
  - unfold bytes_ok in H. rewrite List.Forall_forall in H. by apply H.
  - unfold byte_ok. lia.
Qed.

(** A round that eats one byte. *)
Lemma dec_round_eat w flags eaten out b ost s :
  buffer_ok b -> 0 < avail_in b -> dec_post w flags (eaten ++ [src_at b 0]) out ost s ->
  dec_round_ok w flags eaten out b (ost, s, buf_consume b 1).
Proof.
  intros Hb Ha H. exists [src_at b 0], []. rewrite app_nil_r.
  split; [by apply moved_consume_1|done].
Qed.

Lemma starved_post w flags eaten out s f :
  dec_inv w flags s eaten out -> dec_post w flags eaten out (Some (starved f)) s.
Proof. intros H. apply dec_post_progress; [done|]. unfold starved. by split_if. Qed.

(** ** The header *)

Lemma gz_switch_status h c :
  match gz_switch h c with
  | gz_return st _ => st = ZU_OK \/ failed st
  | gz_break _ => True
  end.
Proof.
  unfold gz_switch, gz_feed_fixed, gz_feed_field, gz_feed_hcrc. cbv zeta.
  destruct (gz_state h); repeat split_if; first [done|by left|by right].
Qed.

Lemma gz_feed_status h c st h' fin :
  zu_int_gzip_header_feed h c = (st, h', fin) ->
  st = ZU_OK \/ failed st.
Proof.
  unfold zu_int_gzip_header_feed. intros E.
  pose proof (gz_switch_status (if bool_decide (gz_state h = ZU_INT_GZ_HCRC) then h
    else gz_set_crc h (mz_crc32 (gz_crc h) [c])) c) as H.
  destruct (gz_switch _ c); injection E as <- <- <-; auto.
Qed.

Lemma not_probing w flags s eaten out :
  dec_inv w flags s eaten out -> df_state s <> ST_MEMBER_END -> df_probe_magic s = false.
Proof.
  intros [_ _ _ _ Hp _] Hs. destruct (df_probe_magic s); [|done]. by destruct (Hp eq_refl).
Qed.

Lemma dec_header_round_gzip flags s eaten out b f :
  dec_inv WRAP_GZIP flags s eaten out -> df_state s = ST_HEADER -> buffer_ok b ->
  bytes_ok (src_bytes b) ->
  dec_round_ok WRAP_GZIP flags eaten out b (deflate_header s b f).
Proof.
  intros Hi Es Hb Hsrc. pose proof (not_probing _ _ _ _ _ Hi ltac:(congruence)) as Hpr.
  pose proof Hi as [Hsh Hfl Hin Hout _ Hst].
  destruct Hst as [(i0 & o0 & i & o & -> & -> & Hbef & Hcur)|(i0 & i & _ & _ & He)];
    [|unfold dec_ended in He; by rewrite Es in He].
  unfold dec_current in Hcur. rewrite Es in Hcur. destruct Hcur as (Hw & -> & Hfr & Hsum & Hgz).
  pose proof Hsh as [Ew Ee _ _ _ _ _ _]. unfold deflate_header. rewrite Ee, Ew. cbn [is_gzip].
  change (is_gzip WRAP_GZIP) with true. cbv iota.
  split_if; [apply dec_round_still; [done|]; by apply starved_post|].
  apply avail_in_pos in Heqb0; [|done]. pose proof (src_at_ok b 0 Hsrc) as Hc.
  assert (Hin' : bytes_ok ((i0 ++ i) ++ [src_at b 0])).
  { apply bytes_ok_app; [done|]. by apply Forall_singleton. }
  destruct (zu_int_gzip_header_feed (df_gz s) (src_at b 0)) as [[hs gz] fin] eqn:Ef.
  assert (Hrun : forall l, gz_run zu_int_gzip_header_init ((i ++ [src_at b 0]) ++ l) =
    match hs, fin with
    | ZU_OK, true => gz_complete gz l
    | ZU_OK, false => gz_run gz l
    | _, _ => gz_failed hs l
    end).
  { intros l. rewrite <- (assoc_L (++)), Hgz. cbn [app gz_run]. rewrite Ef. by destruct hs, fin. }
  destruct (decide (hs = ZU_OK)) as [->|Hne].
  - apply dec_round_eat; [done|done|]. rewrite app_nil_r in *.
    destruct fin; (constructor; [by auto with shape|done|done|done|cbn; by rewrite Hpr|]);
      left; exists i0, o0, (i ++ [src_at b 0]), [];
      (split; [by rewrite (assoc_L (++))|]); (split; [by rewrite app_nil_r|]); (split; [done|]);
      unfold dec_current; cbn; rewrite ?Es; [|by split_and!].
    specialize (Hrun []). rewrite app_nil_r in Hrun. exists (i ++ [src_at b 0]), [], (df_mz s).
    rewrite app_nil_r. split_and!; [done| |done|constructor|done].
    destruct (proj1 (gz_accepts_init (i ++ [src_at b 0]) []
      ltac:(rewrite <- (assoc_L (++)) in Hin'; by apply Forall_app in Hin' as [_ ?])))
      as (g & Hg & E).
    { exists gz. by rewrite gz_run_init. }
    exists g. by rewrite app_nil_r in E.
  - assert (Hbad : failed hs)
      by (by destruct (gz_feed_status _ _ _ _ _ Ef)).
    destruct hs; try done; (apply dec_round_eat; [done|done|by apply dec_post_error]).
Qed.

Lemma sub_memcpy_snoc (t : bytes) k c :
  0 <= k -> k + 1 <= zlen t -> sub (memcpy_at t k [c]) 0 (k + 1) = sub t 0 k ++ [c].
Proof.
  intros Hk Hl. rewrite sub_split by lia. rewrite sub_memcpy_at_before by lia.
  f_equal. apply (sub_memcpy_at t k [c]); [done|]. rewrite zlen_cons, (@zlen_nil Z). lia.
Qed.

Lemma check_header_sub t : 2 <= zlen t ->
  zu_int_zlib_check_header (sub t 0 2) = zu_int_zlib_check_header t.
Proof. intros H. unfold zu_int_zlib_check_header. by rewrite !byte_at_sub by lia. Qed.

Lemma check_header_status h :
  zu_int_zlib_check_header h = ZU_OK \/
  failed (zu_int_zlib_check_header h).
Proof. unfold zu_int_zlib_check_header. repeat split_if; first [by right|by left]. Qed.

Lemma dec_header_round_zlib flags s eaten out b f :
  dec_inv WRAP_ZLIB flags s eaten out -> df_state s = ST_HEADER -> buffer_ok b ->
  bytes_ok (src_bytes b) ->
  dec_round_ok WRAP_ZLIB flags eaten out b (deflate_header s b f).
Proof.
  intros Hi Es Hb Hsrc. pose proof (not_probing _ _ _ _ _ Hi ltac:(congruence)) as Hpr.
  pose proof Hi as [Hsh Hfl Hin Hout _ Hst].
  destruct Hst as [(i0 & o0 & i & o & -> & -> & Hbef & Hcur)|(i0 & i & _ & _ & He)];
    [|unfold dec_ended in He; by rewrite Es in He].
  unfold dec_current in Hcur. rewrite Es in Hcur. destruct Hcur as (Hw & -> & Hfr & Hsum & ->).
  pose proof Hsh as [Ew Ee El _ Hz _ Hp _]. unfold deflate_header. rewrite Ee, Ew, El.
  change (is_gzip WRAP_ZLIB) with false. cbv iota. cbn [hdr_len_of] in *.
  destruct (Z.ltb_spec (df_hdr_pos s) 2).
  - split_if; [apply dec_round_still; [done|]; by apply starved_post|].
    apply avail_in_pos in Heqb0; [|done]. pose proof (src_at_ok b 0 Hsrc) as Hc.
    apply dec_round_eat; [done|done|]. rewrite app_nil_r in *.
    constructor; [by apply shape_store_hdr; [|rewrite El]|done| |done|cbn; by rewrite Hpr|].
    { apply bytes_ok_app; [done|]. by apply Forall_singleton. }
    left. exists i0, o0, (sub (df_hdr s) 0 (df_hdr_pos s) ++ [src_at b 0]), [].
    split; [by rewrite (assoc_L (++))|]. split; [by rewrite app_nil_r|]. split; [done|].
    unfold dec_current. cbn. rewrite Es. split_and!; try done. symmetry. apply sub_memcpy_snoc; lia.
  - destruct (check_header_status (df_hdr s)) as [Ec|Ec].
    + rewrite Ec. apply dec_round_still; [done|].
      constructor; [by apply shape_state|done|done|done|cbn; by rewrite Hpr|].
      left. exists i0, o0, (sub (df_hdr s) 0 (df_hdr_pos s)), []. split_and!; [done..|].
      unfold dec_current. cbn. replace (df_hdr_pos s) with 2 by lia.
      exists (sub (df_hdr s) 0 2), [], (df_mz s). rewrite app_nil_r.
      split; [done|]. split.
      { split; [by rewrite zlen_sub by lia|]. rewrite <- Ec. apply check_header_sub. lia. }
      split; [done|]. split; [constructor|done].
    + destruct (zu_int_zlib_check_header (df_hdr s)); try done;
        (apply dec_round_still; [done|by apply dec_post_error]).
Qed.

(** ** The body *)

(** [MZ_STREAM_END]. *)
Lemma dec_body_end w flags s i0 o0 h p o m0 m b :
  df_shape w false s -> df_dec_flags s = flags -> df_probe_magic s = false ->
  bytes_ok (i0 ++ h ++ p) -> bytes_ok (o0 ++ o) -> before_ok w flags i0 o0 ->
  header_accepted w h -> inflate_fresh m0 -> mz_session mz_inflate m0 m p o true ->
  (is_wrapped w = true -> sums_ok s o) ->
  dec_post w flags (i0 ++ h ++ p) (o0 ++ o) ((deflate_body_end s b).1.1) ((deflate_body_end s b).1.2).
Proof.
  intros Hsh Hfl Hpr Hin Hout Hbef Hh Hm0 Hm Hsum.
  pose proof Hsh as [Ew Ee _ _ _ Ht _ _]. pose proof (tail_len_of_range w).
  unfold deflate_body_end. rewrite Ee, Ew. destruct (is_wrapped w) eqn:Hw.
  - constructor; [apply shape_state, shape_tail; [done|done|lia]|done..|cbn; by rewrite Hpr|].
    left. exists i0, o0, (h ++ p), o. split_and!; [done..|]. unfold dec_current. cbn.
    exists h, p, m0, m. rewrite sub_0, app_nil_r. split_and!; [done..|by apply Hsum].
  - intros _. split; [|done].
    constructor; [by apply shape_state|done..|cbn; by rewrite Hpr|].
    right. exists (i0 ++ h ++ p), []. rewrite app_nil_r. split_and!; [done| |by left].
    apply members_extend; [done|]. exists h, p, m0, m. split_and!; [done..|].
    destruct w; try done. cbn. by rewrite app_nil_r.
Qed.

Lemma dec_body_round w flags s eaten out b f :
  dec_inv w flags s eaten out -> df_state s = ST_BODY -> buffer_ok b -> bytes_ok (src_bytes b) ->
  dec_round_ok w flags eaten out b (deflate_body s b f).
Proof.
  intros Hi Es Hb Hsrc. pose proof (not_probing _ _ _ _ _ Hi ltac:(congruence)) as Hpr.
  pose proof Hi as [Hsh Hfl Hin Hout _ Hst].
  destruct Hst as [(i0 & o0 & i & o & -> & -> & Hbef & Hcur)|(i0 & i & _ & _ & He)];
    [|unfold dec_ended in He; by rewrite Es in He].
  unfold dec_current in Hcur. rewrite Es in Hcur.
  destruct Hcur as (h & p & m0 & -> & Hh & Hm0 & Hm & Hsum).
  pose proof Hsh as [Ew Ee _ _ _ _ _ _]. rewrite deflate_body_eq, Ee, andb_false_r. cbv zeta.
  pose proof (crank_moved s b f Hb) as Hmv. destruct (mz_crank_ok s b f Hb) as (_ & _ & Hg).
  pose proof (crank_taken_bytes s b f Hsrc) as Htk.
  pose proof (crank_session s b f m0 p o) as Hses. rewrite Ee in Hses.
  specialize (fun H => Hses Hb Hm H).
  set (r := mz_crank s b f) in *. set (t := crank_taken s b f) in *.
  assert (Hin' : bytes_ok ((i0 ++ h ++ p) ++ t)) by (by apply bytes_ok_app).
  assert (Hout' : bytes_ok ((o0 ++ o) ++ mz_out r)) by (by apply bytes_ok_app).
  destruct (body_state_fields s b f) as (E1 & E2 & _ & E4).
  pose proof (body_state_shape _ _ s b f Hsh) as Hsh'.
  assert (Hsum' : is_wrapped w = true -> sums_ok (body_state s b f) (o ++ mz_out r)).
  { intros Hw. pose proof (body_state_sums s b f o) as H. rewrite Ee, Ew in H.
    apply H; [by apply Forall_app in Hout as [_ ?]|done..|by apply Hsum]. }
  assert (E7 : df_dec_flags (body_state s b f) = flags /\ df_probe_magic (body_state s b f) = false).
  { unfold body_state, deflate_account. split_if; cbn; auto. }
  destruct E7 as [E7 E8].
  destruct (Z.eqb_spec (mz_ret r) MZ_STREAM_END) as [Eend|Nend].
  - exists t, (mz_out r). rewrite body_end_buffer. split; [exact Hmv|].
    rewrite <- !app_assoc. rewrite <- !app_assoc in Hin'. rewrite <- app_assoc in Hout'.
    apply (dec_body_end w flags _ i0 o0 h (p ++ t) (o ++ mz_out r) m0 (mz_next r)); try done.
    apply Hses. tauto.
  - destruct (decide (mz_ret r = MZ_OK \/ mz_ret r = MZ_BUF_ERROR)) as [Hret|Hret].
    + assert (Hinv : dec_inv w flags (body_state s b f) ((i0 ++ h ++ p) ++ t) ((o0 ++ o) ++ mz_out r)).
      { constructor; [done..|by rewrite E8|]. left.
        exists i0, o0, (h ++ p ++ t), (o ++ mz_out r). rewrite <- !app_assoc.
        do 3 (split; [done|]). unfold dec_current. rewrite E1, Es, E4.
        exists h, (p ++ t), m0. do 3 (split; [done|]). split; [|done]. apply Hses. tauto. }
      replace (negb (mz_ret r =? MZ_OK) && negb (mz_ret r =? MZ_BUF_ERROR)) with false
        by (destruct Hret as [-> | ->]; done).
      split_if; (eexists _, _; split; [exact Hmv|]); [|exact Hinv].
      apply dec_post_progress; [done|apply body_stuck_not_end].
    + rewrite (proj2 (Z.eqb_neq (mz_ret r) MZ_OK)), (proj2 (Z.eqb_neq (mz_ret r) MZ_BUF_ERROR)) by tauto.
      eexists _, _. split; [exact Hmv|]. apply dec_post_error, from_mz_error; tauto.
Qed.

(** ** The trailer *)

Lemma sub_ptr_add (t : bytes) k n : 0 <= k -> sub (ptr_add t k) 0 n = sub t k n.
Proof. intros. unfold sub, ptr_add. by rewrite drop_0. Qed.

(** The comparison the decoder makes is equality with the trailer of its output. *)
Lemma tail_matches_trailer s o :
  is_wrapped (df_wrap s) = true -> zlen (df_tail s) = 8 -> bytes_ok o -> sums_ok s o ->
  bytes_ok (sub (df_tail s) 0 (tail_len_of (df_wrap s))) ->
  deflate_tail_matches s = true ->
  sub (df_tail s) 0 (tail_len_of (df_wrap s)) = frame_trailer (df_wrap s) o.
Proof.
  intros Hw Hl Ho [Hc Hu] Hb. unfold deflate_tail_matches. rewrite Hc, Hu.
  pose proof (frame_sum_range (df_wrap s) o Ho) as Hr. rewrite u32_small, isize_mod by done.
  destruct (df_wrap s); [done| |]; cbn [tail_len_of frame_sum] in *.
  - change (is_zlib WRAP_ZLIB) with true. cbv iota. rewrite be32_matches by (done || lia).
    intros H. by apply bool_decide_eq_true in H.
  - change (is_zlib WRAP_GZIP) with false. cbv iota.
    change 8 with (4 + 4) in Hb |- *. rewrite sub_split in Hb |- * by lia.
    change (0 + 4) with 4 in *.
    apply Forall_app in Hb as [Hb1 Hb2].
    assert (Hlp : zlen (ptr_add (df_tail s) 4) = 4).
    { unfold zlen, ptr_add in *. rewrite length_drop. lia. }
    rewrite <- (sub_ptr_add _ 4 4) in Hb2 |- * by lia.
    intros H. apply andb_true_iff in H as [H1 H2].
    rewrite le32_matches in H1 by (done || lia).
    rewrite le32_matches in H2 by (done || lia || (apply Z.mod_pos_bound; lia)).
    apply bool_decide_eq_true in H1, H2. rewrite H1, H2. unfold frame_trailer.
    by rewrite (le_bytes_mod 4 (zlen o)).
Qed.

Lemma dec_trailer_round w flags s eaten out b f :
  dec_inv w flags s eaten out -> df_state s = ST_TRAILER -> buffer_ok b ->
  bytes_ok (src_bytes b) ->
  dec_round_ok w flags eaten out b (deflate_trailer s b f).
Proof.
  intros Hi Es Hb Hsrc. pose proof (not_probing _ _ _ _ _ Hi ltac:(congruence)) as Hpr.
  pose proof Hi as [Hsh Hfl Hin Hout _ Hst].
  destruct Hst as [(i0 & o0 & i & o & -> & -> & Hbef & Hcur)|(i0 & i & _ & _ & He)];
    [|unfold dec_ended in He; by rewrite Es in He].
  unfold dec_current in Hcur. rewrite Es in Hcur.
  destruct Hcur as (h & p & m0 & m & -> & Hh & Hm0 & Hm & Hw & Hsum).
  pose proof Hsh as [Ew Ee _ El _ Hz _ Hp]. unfold deflate_trailer. rewrite Ee, El.
  pose proof (tail_len_of_range w).
  destruct (Z.ltb_spec (df_tail_pos s) (tail_len_of w)).
  - split_if; [apply dec_round_still; [done|]; by apply starved_post|].
    apply avail_in_pos in Heqb0; [|done]. pose proof (src_at_ok b 0 Hsrc) as Hc.
    apply dec_round_eat; [done|done|].
    constructor; [by apply shape_store_tail; [|rewrite El]|done| |done|cbn; by rewrite Hpr|].
    { apply bytes_ok_app; [done|]. by apply Forall_singleton. }
    left. exists i0, o0, (h ++ p ++ sub (df_tail s) 0 (df_tail_pos s) ++ [src_at b 0]), o.
    split; [by rewrite <- !app_assoc|]. do 2 (split; [done|]).
    unfold dec_current. cbn. rewrite Es. exists h, p, m0, m.
    rewrite sub_memcpy_snoc by lia. by split_and!.
  - replace (df_tail_pos s) with (tail_len_of w) in * by lia.
    destruct (deflate_tail_matches s) eqn:Et; (apply dec_round_still; [done|]);
      [|by apply dec_post_error].
    assert (Htr : sub (df_tail s) 0 (tail_len_of w) = frame_trailer w o).
    { rewrite <- Ew in *. apply tail_matches_trailer; try done.
      - by apply Forall_app in Hout as [_ ?].
      - do 2 apply Forall_app in Hin as [_ Hin]. by apply Forall_app in Hin as [_ ?]. }
    rewrite Htr in *.
    constructor; [by apply shape_state|done..|cbn; by rewrite Hpr|].
    right. exists (i0 ++ h ++ p ++ frame_trailer w o), []. rewrite app_nil_r.
    split; [done|]. split; [|unfold dec_ended; cbn; by rewrite Hpr].
    apply members_extend; [done|]. by exists h, p, m0, m.
Qed.

(** ** Between members *)

Lemma restart_error s level st s' :
  deflate_restart s level = (Some st, s') -> failed st.
Proof.
  intros E. pose proof (restart_early _ _ _ _ E) as Hne. revert E. unfold deflate_restart.
  generalize (deflate_want s level). intros want. cbv zeta.
  assert (Hz : forall r, zu_int_from_mz r = st -> st <> ZU_OK -> r <> MZ_STREAM_END -> failed st).
  { intros r <- Hn Hend. apply from_mz_error; [|done|]; intros ->; by apply Hn. }
  pose proof (mz_deflateReset_ret (df_mz s)) as H1. pose proof (mz_inflateReset_ret (df_mz s)) as H2.
  pose proof (mz_deflateInit2_ret mz_stream_zero want) as H3.
  assert (Hi : forall r, mz_init_ret r -> r <> MZ_STREAM_END)
    by (intros r [-> | [-> | [-> | ->] ] ]; done).
  intros E. repeat split_match_in E; try done; injection E as E _; cbn [fst] in *;
    eapply Hz; eauto.
Qed.

Lemma reset_gzip_decoder s s' :
  df_wrap s = WRAP_GZIP -> df_encoder s = false ->
  zu_int_deflate_reset s ZU_LEVEL_DEFAULT = (ZU_OK, s') ->
  df_state s' = ST_HEADER /\ df_gz s' = zu_int_gzip_header_init /\ sums_ok s' [] /\
  df_dec_flags s' = df_dec_flags s /\ df_probe_magic s' = false /\ inflate_fresh (df_mz s').
Proof.
  intros Hw He E. unfold zu_int_deflate_reset in E.
  destruct (deflate_restart s ZU_LEVEL_DEFAULT) as [ [st|] s1] eqn:Er.
  { injection E as -> ->. by destruct (restart_early _ _ _ _ Er). }
  injection E as <-. unfold deflate_restart in Er. rewrite He in Er. cbn [andb] in Er. cbv zeta in Er.
  destruct (mz_inflateReset (df_mz s)) as [r m] eqn:Ei.
  destruct (Z.eqb_spec r MZ_OK) as [->|]; [|done]. injection Er as <-.
  unfold deflate_rearm, sums_ok. cbn. rewrite Hw, He. cbn. rewrite Hw.
  do 5 (split; [done|]). right. by exists (df_mz s).
Qed.

Lemma gz_feed_first :
  exists gz, zu_int_gzip_header_feed zu_int_gzip_header_init 0x1f = (ZU_OK, gz, false).
Proof. eexists. vm_compute. reflexivity. Qed.

Lemma next_member_round flags s i0 out b held :
  df_shape WRAP_GZIP false s -> df_dec_flags s = flags ->
  bytes_ok (i0 ++ held_byte held) -> bytes_ok out ->
  concatenates WRAP_GZIP flags = true -> members WRAP_GZIP true i0 out -> buffer_ok b ->
  dec_round_ok WRAP_GZIP flags (i0 ++ held_byte held) out b
    (deflate_next_member s b held).
Proof.
  intros Hsh Hfl Hin Hout Hc Hm Hb. pose proof Hsh as [Ew Ee _ _ _ _ _ _].
  unfold deflate_next_member.
  destruct (zu_int_deflate_reset s ZU_LEVEL_DEFAULT) as [rs s1] eqn:Er.
  pose proof (shape_reset _ _ _ _ _ _ Hsh Er) as Hsh1.
  destruct (decide (rs = ZU_OK)) as [->|Hne].
  - destruct (reset_gzip_decoder s s1 Ew Ee Er) as (E1 & E2 & E3 & E4 & E5 & E6).
    assert (Hcur : forall s2 i, df_shape WRAP_GZIP false s2 -> df_state s2 = ST_HEADER ->
      sums_ok s2 [] -> df_dec_flags s2 = flags -> df_probe_magic s2 = false -> inflate_fresh (df_mz s2) ->
      (forall l, gz_run zu_int_gzip_header_init (i ++ l) = gz_run (df_gz s2) l) ->
      bytes_ok (i0 ++ i) -> dec_inv WRAP_GZIP flags s2 (i0 ++ i) out).
    { intros s2 i Hsh2 F1 F2 F3 F4 F5 F6 F7. constructor; [done..|by rewrite F4|].
      left. exists i0, out, i, []. rewrite app_nil_r. do 2 (split; [done|]).
      split; [right; by rewrite Hc|]. unfold dec_current. rewrite F1. by split_and!. }
    destruct held.
    + rewrite E2. destruct gz_feed_first as [gz Eg]. rewrite Eg.
      apply dec_round_still; [done|]. apply Hcur; try done; [auto with shape|cbn; congruence|].
      intros l. cbn [held_byte app gz_run]. by rewrite Eg.
    + apply dec_round_still; [done|]. apply Hcur; try done; [congruence|].
      intros l. by rewrite E2.
  - assert (Hbad : failed rs).
    { revert Er. unfold zu_int_deflate_reset.
      destruct (deflate_restart s ZU_LEVEL_DEFAULT) as [ [st|] s2] eqn:Er; intros [= <- <-]; [|done].
      by eapply restart_error. }
    destruct rs; try done; (apply dec_round_still; [done|by apply dec_post_error]).
Qed.

Lemma dec_member_end_round w flags s eaten out b f :
  dec_inv w flags s eaten out -> df_state s = ST_MEMBER_END -> buffer_ok b ->
  bytes_ok (src_bytes b) ->
  dec_round_ok w flags eaten out b (deflate_member_end s b f).
Proof.
  intros Hi Es Hb Hsrc. pose proof Hi as [Hsh Hfl Hin Hout Hpr Hst].
  destruct Hst as [(i0 & o0 & i & o & _ & _ & _ & Hcur)|(i0 & i & -> & Hm & He)];
    [unfold dec_current in Hcur; by rewrite Es in Hcur|].
  unfold dec_ended in He. rewrite Es in He. pose proof Hsh as [Ew Ee _ _ _ _ _ _].
  unfold deflate_member_end. rewrite Ee, Ew, Hfl. cbn [negb]. rewrite !andb_true_r.
  fold (concatenates w flags).
  (* ending here, with the probe cleared or not set *)
  assert (Hend : forall s2, s2 = df_set_state s ST_DONE /\ df_probe_magic s = false \/
      s2 = df_set_probe (df_set_state s ST_DONE) false ->
    dec_post w flags (i0 ++ i) out (Some ZU_STREAM_END) s2).
  { intros s2 H2 _. assert (df_probe_magic s2 = false /\ df_state s2 = ST_DONE /\
      df_shape w false s2 /\ df_dec_flags s2 = flags) as (P1 & P2 & P3 & P4).
    { destruct H2 as [ [-> ?]| ->]; cbn; split_and!; auto with shape. }
    split; [|done]. constructor; [done..|by rewrite P1|]. right. exists i0, i.
    do 2 (split; [done|]). unfold dec_ended. rewrite P2. rewrite He.
    destruct (df_probe_magic s); [right|by left]. split; [done|]. by apply Hpr. }
  split_if.
  { split_if; [apply dec_round_still; [done|]; by apply dec_post_progress|].
    split_if; (apply dec_round_still; [done|]); [split_if; [by apply dec_post_error|]|];
      apply Hend; auto. }
  assert (Hc : concatenates w flags = true) by (by destruct (concatenates w flags)).
  assert (Ha : 0 < avail_in b) by (rewrite Hc in *; by apply avail_in_pos).
  assert (Hw : w = WRAP_GZIP).
  { unfold concatenates, is_gzip in Hc. apply andb_true_iff in Hc as [Hc _]. by apply bool_decide_eq_true in Hc. }
  clear Heqb0 Ew. subst w. rewrite Hc in Hm. destruct (df_probe_magic s) eqn:Ep; cbn [negb]; subst i.
  - split_if; [apply dec_round_still; [done|apply Hend; auto]|].
    by apply (next_member_round flags s i0 out b true).
  - split_if; [apply dec_round_still; [done|apply Hend; auto]|].
    split_if.
    { split_if; [apply dec_round_still; [done|apply Hend; auto]|].
      by apply (next_member_round flags s i0 out b false). }
    split_if; [apply dec_round_still; [done|apply Hend; auto]|].
    apply dec_round_eat; [done|done|]. rewrite app_nil_r in *.
    assert (E : src_at b 0 = 0x1f) by (by zbool). rewrite E.
    apply dec_post_progress; [|done]. constructor; [auto with shape|done| |done|done|].
    + apply bytes_ok_app; [done|]. apply Forall_singleton. unfold byte_ok. lia.
    + right. exists i0, [0x1f]. rewrite Hc. do 2 (split; [done|]). unfold dec_ended. cbn. by rewrite Es.
Qed.

(** ** Calls *)

Lemma dec_round w flags s eaten out b f :
  dec_inv w flags s eaten out -> buffer_ok b -> bytes_ok (src_bytes b) ->
  dec_round_ok w flags eaten out b (deflate_round s b f).
Proof.
  intros Hi Hb Hsrc. unfold deflate_round. destruct (df_state s) eqn:Es.
  - destruct w; [|by apply dec_header_round_zlib|by apply dec_header_round_gzip].
    destruct Hi as [_ _ _ _ _ Hst].
    destruct Hst as [(i0 & o0 & i & o & _ & _ & _ & Hcur)|(i0 & i & _ & _ & He)].
    + unfold dec_current in Hcur. rewrite Es in Hcur. by destruct Hcur as [? _].
    + unfold dec_ended in He. by rewrite Es in He.
  - by apply dec_body_round.
  - by apply dec_trailer_round.
  - by apply dec_member_end_round.
  - apply dec_round_still; [done|]. intros _. by split.
Qed.

Lemma dec_process w flags s eaten out b f st s' b' :
  dec_inv w flags s eaten out -> buffer_ok b -> bytes_ok (src_bytes b) ->
  deflate_process s b f = (st, s', b') ->
  exists i o, moved b b' i o /\ dec_post w flags (eaten ++ i) (out ++ o) (Some st) s'.
Proof.
  intros Hi Hb Hsrc E. pose proof (deflate_process_loop s b f Hb) as El. rewrite E in El.
  refine (process_loop_inv deflate_round
    (fun s1 b1 => exists i o, moved b b1 i o /\ dec_inv w flags s1 (eaten ++ i) (out ++ o))
    (fun st1 s1 b1 => exists i o, moved b b1 i o /\
       dec_post w flags (eaten ++ i) (out ++ o) (Some st1) s1) f _ _ s b _ _ El).
  - intros s1 b1 (i & o & Hm & Hi1). pose proof (moved_ok _ _ _ _ Hb Hm) as Hb1.
    destruct (dec_round w flags s1 _ _ b1 f Hi1 Hb1) as (i1 & o1 & Hm1 & Hp).
    { by rewrite (buffer_step_src b b1) by apply (mv_step _ _ _ _ Hm). }
    rewrite <- !app_assoc in Hp. pose proof (moved_trans _ _ _ _ _ _ _ Hm Hm1).
    destruct (deflate_round s1 b1 f) as [[[st1|] s2] b2]; eauto.
  - exists [], []. rewrite !app_nil_r. split; [by apply moved_refl|done].
Qed.

Lemma dec_run w flags s0 s eaten out :
  dec_inv w flags s0 [] [] -> codec_run deflate_process s0 s eaten out ->
  dec_inv w flags s eaten out.
Proof.
  intros H0. apply (codec_run_inv deflate_process (dec_inv w flags)); [done|].
  intros s1 eaten1 out1 b f st s2 b2 i o Hi Hb Hsrc E Hp Hm.
  destruct (dec_process _ _ _ _ _ _ _ _ _ _ Hi Hb Hsrc E) as (i' & o' & Hm' & Hpost).
  destruct (moved_unique _ _ _ _ _ _ Hm Hm') as [-> ->].
  unfold dec_post in Hpost. rewrite Hp in Hpost. by apply Hpost.
Qed.

(** A decoder at its start. *)
Lemma dec_start w flags s :
  df_shape w false s -> df_dec_flags s = flags -> df_probe_magic s = false ->
  inflate_fresh (df_mz s) -> sums_ok s [] -> df_hdr_pos s = 0 ->
  df_state s = (if is_wrapped w then ST_HEADER else ST_BODY) ->
  (w = WRAP_GZIP -> df_gz s = zu_int_gzip_header_init) ->
  dec_inv w flags s [] [].
Proof.
  intros Hsh Hfl Hpr Hfr Hsum Hp Hs Hgz. constructor; [done|done|constructor|constructor|by rewrite Hpr|].
  left. exists [], [], [], []. split; [done|]. split; [done|]. split; [by left|].
  unfold dec_current. rewrite Hs. destruct w; cbn [is_wrapped bool_decide].
  - exists [], [], (df_mz s). split_and!; [done..|constructor|done].
  - rewrite Hp. by split_and!.
  - split_and!; try done. intros l. by rewrite Hgz.
Qed.

Lemma fresh_dec {alloc : Allocator} w s :
  deflate_fresh w false s -> dec_inv w (df_dec_flags s) s [] [].
Proof.
  intros [(level & flags & E)|(s1 & level & Hh & E)].
  - pose proof (shape_new _ _ _ _ _ E) as Hsh. revert E. unfold zu_int_deflate_new.
    destruct (negb (alloc_ok req_state)); [done|]. cbv zeta.
    destruct (mz_inflateInit2 _) as [r m] eqn:Ei. destruct (r =? MZ_OK) eqn:E0; [|done].
    zbool. subst r. intros [= <-]. unfold sums_ok in *.
    apply dec_start; try done; unfold sums_ok; try rewrite frame_sum_init; destruct w; try done;
      by left.
  - pose proof (handle_shape _ _ _ Hh) as Hsh. pose proof (shape_reset _ _ _ _ _ _ Hsh E) as Hsh'.
    revert E. unfold zu_int_deflate_reset.
    destruct (deflate_restart s1 level) as [st s2] eqn:Er.
    destruct st as [st|]; [intros [= -> ->]; by destruct (restart_early _ _ _ _ Er)|]. intros [= <-].
    pose proof (shape_restart _ _ _ _ _ _ Hsh Er) as [Hw He _ _ _ _ _ _].
    destruct (rearm_shape s2) as (R1 & R2 & R3 & R4 & R5). rewrite Hw in R5.
    apply dec_start; try done.
    + unfold deflate_rearm. cbn. by destruct (df_wrap s2), (df_encoder s2).
    + rewrite R4. right. exists (df_mz s1). revert Er. unfold deflate_restart.
      rewrite (sh_encoder _ _ _ Hsh). cbn [andb]. cbv zeta.
      destruct (mz_inflateReset (df_mz s1)) as [r m]. destruct (r =? MZ_OK) eqn:E0; [|done].
      intros [= <-]. zbool. by subst r.
    + unfold sums_ok. rewrite R1, <- frame_sum_init. unfold deflate_rearm. cbn.
      by destruct (df_wrap s2), (df_encoder s2).
    + unfold deflate_rearm. cbn. by destruct (df_wrap s2), (df_encoder s2).
    + intros ->. unfold deflate_rearm. cbn. by rewrite Hw, He.
Qed.

(** C5: decoder integrity.  Under any sequence of calls, a decoder that reports the end of
    the stream has consumed one whole member -- several in a row only for gzip with
    concatenation asked for -- and written exactly what those members hold: each is an
    accepted header, a complete miniz session over the bytes that follow, and the trailer
    of the bytes that very session produced, so a wrong checksum, a wrong length or a
    missing trailer byte can never pass.  Beyond the members it has eaten nothing, or the
    single 0x1f of a following member that did not come. *)
Theorem deflate_decoder_integrity {alloc : Allocator} w s0 s eaten out b f s' b' :
  deflate_fresh w false s0 -> codec_run deflate_process s0 s eaten out ->
  buffer_ok b -> bytes_ok (src_bytes b) -> deflate_process s b f = (ZU_STREAM_END, s', b') ->
  let concat := concatenates w (df_dec_flags s0) in
  exists i o input held, moved b b' i o /\ eaten ++ i = input ++ held /\
    members w concat input (out ++ o) /\ (held = [] \/ (held = [0x1f] /\ concat = true)).
Proof.
  intros Hf Hrun Hb Hsrc E concat. apply fresh_dec in Hf.
  pose proof (dec_run _ _ _ _ _ _ Hf Hrun) as Hi.
  destruct (dec_process _ _ _ _ _ _ _ _ _ _ Hi Hb Hsrc E) as (i & o & Hm & Hpost).
  destruct (Hpost eq_refl) as [[_ _ _ _ _ Hst] Hend]. specialize (Hend eq_refl).
  destruct Hst as [(i0 & o0 & i1 & o1 & _ & _ & _ & Hcur)|(i0 & i1 & Ei & Hmem & He)].
  - unfold dec_current in Hcur. by rewrite Hend in Hcur.
  - unfold dec_ended in He. rewrite Hend in He. by exists i, o, i0, i1.
Qed.

End decode.

(** ** Witness: two gzip members, read as one stream *)

#[local] Existing Instance toy_miniz.
#[local] Existing Instance toy_miniz_ok.
#[local] Instance always_alloc : Allocator := fun _ => true.

Definition toy_member (c : Z) : bytes :=
  zu_int_gzip_write_header ++ [1; c; 0] ++ le_bytes 4 (mz_crc32 0 [c]) ++ le_bytes 4 1.

Lemma deflate_decoder_integrity_witness :
  let s0 := toy_state WRAP_GZIP false ZU_DEC_CONCAT_MEMBERS in
  let b := toy_buffer (toy_member 104 ++ toy_member 105) 8 in
  let r := deflate_process s0 b ZU_FINISH in
  r.1.1 = ZU_STREAM_END /\ dst_written (r.2) = [104; 105] /\
  exists i o input held, moved b (r.2) i o /\ [] ++ i = input ++ held /\
    members WRAP_GZIP true input ([] ++ o) /\ (held = [] \/ (held = [0x1f] /\ true = true)).
Proof.
  intros s0 b r. split; [vm_compute; reflexivity|]. split; [vm_compute; reflexivity|].
  apply (deflate_decoder_integrity WRAP_GZIP s0 s0 [] [] b ZU_FINISH (r.1.2) (r.2)).
  - left. exists ZU_LEVEL_DEFAULT, ZU_DEC_CONCAT_MEMBERS. vm_compute. reflexivity.
  - constructor.
  - apply toy_buffer_ok; vm_compute; reflexivity.
  - change (bytes_ok (toy_member 104 ++ toy_member 105)). apply bytes_okb_ok. vm_compute. reflexivity.
  - assert (E : r.1.1 = ZU_STREAM_END) by (vm_compute; reflexivity).
    rewrite <- E. unfold r. generalize (deflate_process s0 b ZU_FINISH). by intros [[? ?] ?].
Defined.
