(* ===== verification/Frames.v ===== *)
(** * Frame continuation: src/zu_frames.c

    What the framed codecs, zstd and lz4-frame, share: whether another frame follows the
    one that ended, why a library that moved nothing stopped, and the byte taken from it
    while finding out.  The library context [C] and the callbacks are parameters. *)
From S2P Require Import Prelude Types Stream.

Inductive zu_int_frame_state :=
  | ZU_INT_FRAME_BODY
  | ZU_INT_FRAME_BETWEEN
  | ZU_INT_FRAME_DONE.

Inductive zu_int_frames_kind :=
  | ZU_INT_FRAMES_ZSTD
  | ZU_INT_FRAMES_LZ4.

Record zu_int_frames := mk_frames {
  fr_state : zu_int_frame_state;
  fr_kind : zu_int_frames_kind;
  fr_flags : Z;
  fr_held : bytes;
  fr_n_held : Z;
  fr_owed : Z;
  fr_has_owed : bool;
}.

Definition zu_int_frames_init (kind : zu_int_frames_kind) (flags : Z) : zu_int_frames :=
  mk_frames ZU_INT_FRAME_BODY kind flags [0; 0; 0; 0] 0 0 false.

Definition fr_set (f : zu_int_frames) (st : zu_int_frame_state) (held : bytes) (n_held : Z) :
    zu_int_frames :=
  mk_frames st (fr_kind f) (fr_flags f) held n_held (fr_owed f) (fr_has_owed f).

Definition fr_set_state (f : zu_int_frames) (st : zu_int_frame_state) : zu_int_frames :=
  fr_set f st (fr_held f) (fr_n_held f).

Definition zu_int_frames_ended (f : zu_int_frames) : zu_int_frames :=
  fr_set f ZU_INT_FRAME_BETWEEN (fr_held f) 0.

Definition zstd_magic : bytes := [0x28; 0xb5; 0x2f; 0xfd].
Definition lz4_magic : bytes := [0x04; 0x22; 0x4d; 0x18].
Definition skip_tail : bytes := [0x2a; 0x4d; 0x18].

Definition own_magic (kind : zu_int_frames_kind) : bytes :=
  match kind with
  | ZU_INT_FRAMES_ZSTD => zstd_magic
  | ZU_INT_FRAMES_LZ4 => lz4_magic
  end.

(** Is [p[0..n)] a prefix of a magic that starts a frame here? *)
Definition zu_int_frames_is_prefix (kind : zu_int_frames_kind) (p : bytes) (n : Z) : bool :=
  if n =? 0 then true
  else if memeq p (own_magic kind) n then true
  else if negb (Z.land (byte_at p 0) 0xf0 =? 0x50) then false
  else (n =? 1) || memeq (ptr_add p 1) skip_tail (n - 1).

Section callbacks.
Context {C : Type}.

(** [zu_int_frames_feed] and [zu_int_frames_probe]. *)
Context (feed : C -> bytes -> zu_status * C).
Context (probe : C -> result (Z * Z * bool) * C).

(** [while (f->n_held < 4 && avail_in > 0)]: [inl] when the loop returns from the
    function, [inr] when it ends; [fuel] is the number of bytes that can still be held. *)
Fixpoint frames_extend (fuel : nat) (f : zu_int_frames) (buf : zu_buffer) (avail_in : Z) :
    (zu_status * zu_int_frames * zu_buffer) + (zu_int_frames * zu_buffer * Z) :=
  match fuel with
  | O => inr (f, buf, avail_in)
  | S fuel' =>
      if (fr_n_held f <? 4) && (avail_in >? 0)
      then
        let held := <[Z.to_nat (fr_n_held f) := src_at buf 0]> (fr_held f) in
        if negb (zu_int_frames_is_prefix (fr_kind f) held (fr_n_held f + 1))
        then inl (ZU_STREAM_END, fr_set f ZU_INT_FRAME_DONE held 0, buf)
        else frames_extend fuel' (fr_set f (fr_state f) held (fr_n_held f + 1))
               (buf_consume buf 1) (avail_in - 1)
      else inr (f, buf, avail_in)
  end.

(** [if (f->n_held == 0)]: the decision made without consuming, when it can be. *)
Definition frames_look (f : zu_int_frames) (buf : zu_buffer) (flush : zu_flush) :
    zu_status * zu_int_frames * zu_buffer :=
  let avail := avail_in buf in
  if avail =? 0
  then
    if negb (is_finish flush) then (ZU_NEED_INPUT, f, buf)
    else (ZU_STREAM_END, fr_set_state f ZU_INT_FRAME_DONE, buf)
  else
    let k := if avail <? 4 then avail else 4 in
    let p := ptr_add (src_bytes buf) (src_pos buf) in
    if negb (zu_int_frames_is_prefix (fr_kind f) p k)
    then (ZU_STREAM_END, fr_set_state f ZU_INT_FRAME_DONE, buf)
    else if k =? 4 then (ZU_OK, fr_set_state f ZU_INT_FRAME_BODY, buf)
    else if is_finish flush then (ZU_STREAM_END, fr_set_state f ZU_INT_FRAME_DONE, buf)
    else (ZU_NEED_INPUT, fr_set f (fr_state f) (memcpy_at (fr_held f) 0 (sub p 0 k)) k,
          buf_consume buf k).

Definition zu_int_frames_between (f : zu_int_frames) (buf : zu_buffer) (flush : zu_flush)
    (ctx : C) : zu_status * zu_int_frames * zu_buffer * C :=
  match fr_state f with
  | ZU_INT_FRAME_DONE => (ZU_STREAM_END, f, buf, ctx)
  | ZU_INT_FRAME_BODY => (ZU_OK, f, buf, ctx)
  | ZU_INT_FRAME_BETWEEN =>
      if negb (has_flag (fr_flags f) ZU_DEC_CONCAT_MEMBERS)
      then (ZU_STREAM_END, fr_set_state f ZU_INT_FRAME_DONE, buf, ctx)
      else if fr_n_held f =? 0 then (frames_look f buf flush, ctx)
      else
        match frames_extend 4 f buf (avail_in buf) with
        | inl r => (r, ctx)
        | inr (f, buf, _) =>
            if fr_n_held f =? 4
            then
              let '(st, ctx') := feed ctx (sub (fr_held f) 0 4) in
              match st with
              | ZU_OK => (ZU_OK, fr_set f ZU_INT_FRAME_BODY (fr_held f) 0, buf, ctx')
              | _ => (st, fr_set f (fr_state f) (fr_held f) 0, buf, ctx')
              end
            else if negb (is_finish flush) then (ZU_NEED_INPUT, f, buf, ctx)
            else
              let f' := fr_set f ZU_INT_FRAME_DONE (fr_held f) 0 in
              (if has_flag (fr_flags f) ZU_DEC_REJECT_TRAILING then ZU_ERR_TRAILING
               else ZU_STREAM_END, f', buf, ctx)
        end
  end.

(** [probe] gives the byte, how many were written and whether the frame ended. *)
Definition zu_int_frames_stalled (f : zu_int_frames) (avail_in avail_out : Z)
    (flush : zu_flush) (ctx : C) : zu_status * zu_int_frames * C :=
  if avail_out =? 0
  then
    if avail_in >? 0 then (ZU_NEED_OUTPUT, f, ctx)
    else if negb (is_finish flush) then (ZU_NEED_INPUT, f, ctx)
    else
      match probe ctx with
      | (Err st, ctx') => (st, f, ctx')
      | (Ok (one, written, frame_end), ctx') =>
          let f := mk_frames (fr_state f) (fr_kind f) (fr_flags f) (fr_held f) (fr_n_held f)
                     (if written >? 0 then one else fr_owed f) (fr_has_owed f) in
          let f := if frame_end then zu_int_frames_ended f else f in
          if written >? 0
          then (ZU_NEED_OUTPUT,
                mk_frames (fr_state f) (fr_kind f) (fr_flags f) (fr_held f) (fr_n_held f)
                  (fr_owed f) true, ctx')
          else (if frame_end then ZU_OK else ZU_ERR_TRUNCATED, f, ctx')
      end
  else if avail_in =? 0
  then (if is_finish flush then ZU_ERR_TRUNCATED else ZU_NEED_INPUT, f, ctx)
  else (ZU_ERR_INTERNAL, f, ctx).

End callbacks.

Definition zu_int_frames_pay (f : zu_int_frames) (buf : zu_buffer) :
    bool * zu_int_frames * zu_buffer :=
  if negb (fr_has_owed f) then (true, f, buf)
  else if dst_pos buf =? dst_size buf then (false, f, buf)
  else (true, mk_frames (fr_state f) (fr_kind f) (fr_flags f) (fr_held f) (fr_n_held f)
                (fr_owed f) false, buf_emit buf [fr_owed f]).

(** ** Specification: what follows a frame *)

Inductive frames_verdict :=
  | frames_end          (** nothing follows *)
  | frames_next         (** another frame *)
  | frames_junk.        (** bytes that start no frame *)

(** The whole rest of the input decides. *)
Definition frames_spec (kind : zu_int_frames_kind) (t : bytes) : frames_verdict :=
  if bool_decide (t = []) then frames_end
  else if (4 <=? zlen t) && zu_int_frames_is_prefix kind t 4 then frames_next
  else frames_junk.

(** ** Lemmas: magic prefixes *)

Definition prefix_ok (kind : zu_int_frames_kind) (l : bytes) : bool :=
  zu_int_frames_is_prefix kind l (zlen l).

Lemma memeq_take p q n :
  memeq (take (Z.to_nat n) p) q n = memeq p q n.
Proof. unfold memeq, sub. rewrite !drop_0, take_take. by rewrite Nat.min_id. Qed.

Lemma is_prefix_take kind p n :
  0 <= n <= zlen p -> zu_int_frames_is_prefix kind p n = prefix_ok kind (take (Z.to_nat n) p).
Proof.
  intros Hn. unfold prefix_ok.
  assert (zlen (take (Z.to_nat n) p) = n) as Hl
    by (unfold zlen in *; rewrite length_take; lia).
  rewrite Hl. unfold zu_int_frames_is_prefix. rewrite memeq_take.
  destruct (Z.eqb_spec n 0); [done|].
  assert (byte_at (take (Z.to_nat n) p) 0 = byte_at p 0) as ->.
  { destruct p; [by rewrite take_nil|]. destruct (Z.to_nat n) eqn:E; [lia|done]. }
  destruct (memeq p (own_magic kind) n); [done|]. destruct (negb _); [done|].
  destruct (Z.eqb_spec n 1); [done|]. cbn [orb].
  unfold memeq, sub, ptr_add. rewrite !drop_0.
  rewrite skipn_firstn_comm, take_take, Nat.min_l by lia. done.
Qed.

Lemma memeq_prefix p q n m :
  0 <= m <= n -> memeq p q n = true -> memeq p q m = true.
Proof.
  unfold memeq, sub. rewrite !bool_decide_eq_true, !drop_0. intros Hm E.
  apply (f_equal (take (Z.to_nat m))) in E. rewrite !take_take in E.
  by rewrite !Nat.min_l in E by lia.
Qed.

Lemma is_prefix_mono kind p n m :
  0 <= m <= n -> zu_int_frames_is_prefix kind p n = true ->
  zu_int_frames_is_prefix kind p m = true.
Proof.
  unfold zu_int_frames_is_prefix. intros Hm.
  destruct (Z.eqb_spec m 0); [done|]. destruct (Z.eqb_spec n 0); [lia|].
  destruct (memeq p (own_magic kind) n) eqn:E.
  - intros _. by rewrite (memeq_prefix _ _ n m).
  - destruct (memeq p (own_magic kind) m); [done|]. destruct (negb _); [done|].
    destruct (Z.eqb_spec m 1); [done|]. destruct (Z.eqb_spec n 1); [lia|]. cbn [orb].
    apply memeq_prefix. lia.
Qed.

(** A byte string that already disagrees is not continued by anything. *)
Lemma prefix_ok_app kind l k : prefix_ok kind (l ++ k) = true -> prefix_ok kind l = true.
Proof.
  intros H. pose proof (zlen_nonneg l). pose proof (zlen_nonneg k).
  apply (is_prefix_mono _ _ _ (zlen l)) in H; [|rewrite zlen_app; lia].
  rewrite is_prefix_take in H by (rewrite zlen_app; lia).
  unfold zlen in H. by rewrite Nat2Z.id, take_app_length in H.
Qed.

Lemma frames_spec_junk kind l k :
  prefix_ok kind l = false -> zlen l <= 4 -> frames_spec kind (l ++ k) = frames_junk.
Proof.
  intros Hp Hl. unfold frames_spec.
  rewrite bool_decide_eq_false_2 by (intros E; apply app_nil in E as [-> _]; done).
  destruct (Z.leb_spec 4 (zlen (l ++ k))); [|done]. cbn [andb].
  destruct (zu_int_frames_is_prefix kind (l ++ k) 4) eqn:E; [|done].
  pose proof (zlen_nonneg l).
  apply (is_prefix_mono _ _ _ (zlen l)) in E; [|lia].
  rewrite is_prefix_take in E by (rewrite zlen_app in *; pose proof (zlen_nonneg k); lia).
  unfold zlen in E. rewrite Nat2Z.id, take_app_length in E. congruence.
Qed.

Lemma frames_spec_next kind l k :
  prefix_ok kind l = true -> zlen l = 4 -> frames_spec kind (l ++ k) = frames_next.
Proof.
  intros Hp Hl. unfold frames_spec. pose proof (zlen_nonneg k).
  rewrite bool_decide_eq_false_2 by (intros E; apply app_nil in E as [-> _]; done).
  rewrite zlen_app. destruct (Z.leb_spec 4 (zlen l + zlen k)); [|lia]. cbn [andb].
  rewrite is_prefix_take by (rewrite zlen_app; lia).
  replace (Z.to_nat 4) with (length l) by (unfold zlen in Hl; lia).
  by rewrite take_app_length, Hp.
Qed.

Lemma frames_spec_short kind l :
  l <> [] -> zlen l < 4 -> frames_spec kind l = frames_junk.
Proof.
  intros Hne Hl. unfold frames_spec. rewrite bool_decide_eq_false_2 by done.
  by destruct (Z.leb_spec 4 (zlen l)); [lia|].
Qed.

(** ** Lemmas: holding a prefix *)

(** [f] is between frames and holds the bytes [h]. *)
Record frames_holding (f : zu_int_frames) (h : bytes) : Prop := {
  fh_state : fr_state f = ZU_INT_FRAME_BETWEEN;
  fh_len : length (fr_held f) = 4%nat;
  fh_n : fr_n_held f = zlen h;
  fh_bytes : take (length h) (fr_held f) = h;
  fh_prefix : prefix_ok (fr_kind f) h = true;
  fh_short : zlen h <= 4;
}.

(** The fields the continuation never changes. *)
Definition same_policy (f f' : zu_int_frames) : Prop :=
  fr_kind f' = fr_kind f /\ fr_flags f' = fr_flags f.

Lemma take_insert_snoc {A} (l : list A) n x :
  (n < length l)%nat -> take (S n) (<[n := x]> l) = take n l ++ [x].
Proof.
  intros Hn. apply list_eq. intros i.
  destruct (decide (i < n)%nat).
  - rewrite lookup_take_lt, list_lookup_insert_ne, lookup_app_l, lookup_take_lt by
      (rewrite ?length_take; lia). done.
  - destruct (decide (i = n)) as [->|].
    + rewrite lookup_take_lt, list_lookup_insert_eq, lookup_app_r by
        (rewrite ?length_take; lia).
      rewrite length_take. by replace (n - n `min` length l)%nat with 0%nat by lia.
    + rewrite lookup_take_ge by lia. symmetry. apply lookup_ge_None_2.
      rewrite length_app, length_take. cbn. lia.
Qed.

Lemma frames_holding_snoc f h x :
  frames_holding f h -> zlen h < 4 -> prefix_ok (fr_kind f) (h ++ [x]) = true ->
  frames_holding (fr_set f (fr_state f) (<[Z.to_nat (fr_n_held f) := x]> (fr_held f))
    (fr_n_held f + 1)) (h ++ [x]).
Proof.
  intros [H1 H2 H3 H4 H5 H6] Hlt Hp. constructor; cbn [fr_set fr_state fr_held fr_n_held fr_kind].
  - done.
  - by rewrite length_insert.
  - rewrite zlen_app, H3. done.
  - rewrite H3, length_app. cbn [length]. rewrite Nat.add_1_r. unfold zlen in *.
    rewrite Nat2Z.id, take_insert_snoc by lia. by rewrite H4.
  - done.
  - rewrite zlen_app. change (zlen [x]) with 1. lia.
Qed.

(** The next byte, as the source tests it. *)
Lemma held_prefix_test f h x :
  frames_holding f h -> zlen h < 4 ->
  zu_int_frames_is_prefix (fr_kind f) (<[Z.to_nat (fr_n_held f) := x]> (fr_held f))
    (fr_n_held f + 1) = prefix_ok (fr_kind f) (h ++ [x]).
Proof.
  intros [H1 H2 H3 H4 H5 H6] Hlt. pose proof (zlen_nonneg h).
  rewrite is_prefix_take by (rewrite H3; unfold zlen in *; rewrite length_insert; lia).
  f_equal. rewrite H3. unfold zlen in *.
  replace (Z.to_nat (Z.of_nat (length h) + 1)) with (S (length h)) by lia.
  rewrite Nat2Z.id, take_insert_snoc by lia. by rewrite H4.
Qed.

Lemma frames_extend_spec fuel : forall f buf h,
  frames_holding f h -> buffer_ok buf -> 4 - zlen h <= Z.of_nat fuel ->
  match frames_extend fuel f buf (avail_in buf) with
  | inl (st, f', buf') =>
      st = ZU_STREAM_END /\ same_policy f f' /\ buffer_step buf buf' /\
      dst buf' = dst buf /\ dst_pos buf' = dst_pos buf /\
      exists a x w, src_window buf = a ++ x :: w /\ src_window buf' = x :: w /\
        prefix_ok (fr_kind f) (h ++ a ++ [x]) = false /\ zlen (h ++ a) < 4
  | inr (f', buf', _) =>
      same_policy f f' /\ buffer_step buf buf' /\
      dst buf' = dst buf /\ dst_pos buf' = dst_pos buf /\
      exists a w, src_window buf = a ++ w /\ src_window buf' = w /\
        frames_holding f' (h ++ a) /\ (zlen (h ++ a) = 4 \/ w = [])
  end.
Proof.
  induction fuel as [|fuel IH]; intros f buf h Hf Hb Hfuel; cbn [frames_extend].
  { split_and!; auto with zu; [done|]. exists [], (src_window buf). rewrite app_nil_r.
    split_and!; try done. left. pose proof (fh_short _ _ Hf). lia. }
  pose proof (fh_n _ _ Hf) as Hn. pose proof (fh_short _ _ Hf) as Hshort.
  rewrite Hn, Z.gtb_ltb.
  destruct (Z.ltb_spec (zlen h) 4) as [Hlt|Hge], (Z.ltb_spec 0 (avail_in buf)) as [Ha|Ha]; cbn [andb].
  2-4: split_and!; auto with zu; [done|]; exists [], (src_window buf); rewrite app_nil_r;
    split_and!; try done; first [left; lia|right; apply src_window_nil; [done|];
      pose proof (avail_in_nonneg buf Hb); lia].
  rewrite <- Hn, (held_prefix_test f h) by done.
  pose proof (src_window_byte buf Hb Ha) as Hw. set (x := src_at buf 0) in *.
  assert (Hstep : buffer_step buf (buf_consume buf 1)) by (apply buf_consume_step; [done|lia]).
  destruct (prefix_ok (fr_kind f) (h ++ [x])) eqn:Hp; cbn [negb].
  2:{ split_and!; auto with zu; [done|]. exists [], x, (src_window (buf_consume buf 1)).
      rewrite app_nil_r. split_and!; try done. }
  pose proof (frames_holding_snoc f h x Hf Hlt Hp) as Hf'.
  assert (Hb' : buffer_ok (buf_consume buf 1)) by eauto with zu.
  specialize (IH _ _ _ Hf' Hb'). replace (avail_in buf - 1) with (avail_in (buf_consume buf 1))
    by (unfold avail_in; cbn; lia).
  rewrite zlen_app in IH. change (zlen [x]) with 1 in IH. specialize (IH ltac:(lia)).
  destruct (frames_extend fuel _ _ _) as [[[st f'] buf']|[[f' buf'] n]].
  - destruct IH as (-> & Hpol & Hs & Hd & Hdp & a & y & w & E & E' & Hbad & Hl).
    split_and!; try done; [by eapply buffer_step_trans|]. exists (x :: a), y, w.
    rewrite <- (assoc_L (++)) in Hbad, Hl. cbn [app] in Hbad, Hl. by rewrite Hw, E.
  - destruct IH as (Hpol & Hs & Hd & Hdp & a & w & E & E' & Hh & Hor).
    split_and!; try done; [by eapply buffer_step_trans|]. exists (x :: a), w.
    rewrite <- (assoc_L (++)) in Hh, Hor. cbn [app] in Hh, Hor. by rewrite Hw, E.
Qed.

(** ** Lemmas: one look, and one call *)

Lemma window_prefix kind b k :
  buffer_ok b -> 0 <= k <= avail_in b ->
  zu_int_frames_is_prefix kind (ptr_add (src_bytes b) (src_pos b)) k =
    prefix_ok kind (take (Z.to_nat k) (src_window b)) /\
  sub (ptr_add (src_bytes b) (src_pos b)) 0 k = take (Z.to_nat k) (src_window b) /\
  k <= zlen (ptr_add (src_bytes b) (src_pos b)).
Proof.
  intros Hb Hk. unfold src_window, ptr_add.
  assert (Htake : take (Z.to_nat k) (sub (src_bytes b) (src_pos b) (avail_in b)) =
    take (Z.to_nat k) (drop (Z.to_nat (src_pos b)) (src_bytes b))).
  { unfold sub. rewrite take_take, Nat.min_l by lia. done. }
  assert (Hlen : k <= zlen (drop (Z.to_nat (src_pos b)) (src_bytes b))).
  { destruct Hb as [? ? ? ? Hs ?]. unfold src_bytes, avail_in, zlen in *.
    rewrite length_drop. destruct (src b); cbn in *; unfold zlen in *; lia. }
  rewrite Htake. split_and!; [|done|done]. apply is_prefix_take. lia.
Qed.

(** What a client learns from one call between frames; [t] is what was held and what is
    visible, in order. *)
Inductive between_outcome (f : zu_int_frames) (h w : bytes) (finish : bool) :
    zu_status -> zu_int_frames -> bytes -> bytes -> Prop :=
  | bo_next f' fed w' :
      fr_state f' = ZU_INT_FRAME_BODY -> same_policy f f' ->
      fed ++ w' = h ++ w -> 4 <= zlen (h ++ w) ->
      prefix_ok (fr_kind f) (take 4 (h ++ w)) = true ->
      between_outcome f h w finish ZU_OK f' fed w'
  | bo_wait f' :
      finish = false -> frames_holding f' (h ++ w) -> same_policy f f' -> zlen (h ++ w) < 4 ->
      between_outcome f h w finish ZU_NEED_INPUT f' [] []
  | bo_over f' :
      finish = true -> h ++ w = [] -> fr_state f' = ZU_INT_FRAME_DONE -> same_policy f f' ->
      between_outcome f h w finish ZU_STREAM_END f' [] []
  | bo_junk f' p q x w' :
      h ++ w = p ++ q -> prefix_ok (fr_kind f) p = false -> zlen p <= 4 ->
      fr_state f' = ZU_INT_FRAME_DONE -> same_policy f f' ->
      between_outcome f h w finish ZU_STREAM_END f' [] (x :: w')
  | bo_short f' x w' :
      finish = true -> h ++ w <> [] -> zlen (h ++ w) < 4 ->
      fr_state f' = ZU_INT_FRAME_DONE -> same_policy f f' ->
      between_outcome f h w finish ZU_STREAM_END f' [] (x :: w')
  | bo_held f' :
      finish = true -> h ++ w <> [] -> zlen (h ++ w) < 4 ->
      fr_state f' = ZU_INT_FRAME_DONE -> same_policy f f' ->
      between_outcome f h w finish
        (if has_flag (fr_flags f) ZU_DEC_REJECT_TRAILING then ZU_ERR_TRAILING else ZU_STREAM_END)
        f' [] [].

Lemma frames_look_outcome f buf flush :
  frames_holding f [] -> buffer_ok buf ->
  let '(st, f', buf') := frames_look f buf flush in
  between_outcome f [] (src_window buf) (is_finish flush) st f' [] (src_window buf') /\
  buffer_step buf buf' /\ dst buf' = dst buf /\ dst_pos buf' = dst_pos buf.
Proof.
  intros Hf Hb. unfold frames_look. pose proof (avail_in_nonneg buf Hb) as Hnn.
  pose proof (zlen_src_window buf Hb) as Hlen.
  destruct (Z.eqb_spec (avail_in buf) 0) as [E0|E0].
  { assert (src_window buf = []) as Ew by (by apply src_window_nil).
    destruct (is_finish flush) eqn:Ef; cbn [negb].
    - split; [|auto with zu]. rewrite Ew. by apply bo_over.
    - split; [|auto with zu]. rewrite Ew. by apply bo_wait. }
  assert (Hcons : exists x w, src_window buf = x :: w).
  { destruct (src_window buf) eqn:E; [|eauto]. apply src_window_nil in E; [lia|done]. }
  destruct Hcons as (x & w & Ew).
  set (k := if avail_in buf <? 4 then avail_in buf else 4).
  assert (Hk : 0 < k <= 4 /\ k <= avail_in buf /\ (k = 4 \/ k = avail_in buf /\ avail_in buf < 4)).
  { subst k. destruct (Z.ltb_spec (avail_in buf) 4); lia. }
  clearbody k. destruct (window_prefix (fr_kind f) buf k Hb ltac:(lia)) as (-> & Hsub & _).
  destruct (prefix_ok (fr_kind f) (take (Z.to_nat k) (src_window buf))) eqn:Hp; cbn [negb].
  2:{ split; [|auto with zu]. rewrite Ew at 2.
      apply (bo_junk _ _ _ _ _ (take (Z.to_nat k) (src_window buf)) (drop (Z.to_nat k) (src_window buf)));
        try done; [by rewrite take_drop|].
      unfold zlen. rewrite length_take. lia. }
  destruct (Z.eqb_spec k 4) as [->|Hk4].
  { split; [|auto with zu]. apply bo_next; try done. rewrite app_nil_l. lia. }
  assert (Hall : take (Z.to_nat k) (src_window buf) = src_window buf).
  { apply take_ge. unfold zlen in Hlen. lia. }
  destruct (is_finish flush) eqn:Ef.
  { split; [|auto with zu]. rewrite Ew at 2. apply bo_short; try done; [by rewrite Ew|].
    rewrite app_nil_l. lia. }
  assert (Hstep : buffer_step buf (buf_consume buf k)) by (apply buf_consume_step; [done|lia]).
  assert (Hend : src_window (buf_consume buf k) = []).
  { apply src_window_nil; [eauto with zu|]. unfold avail_in in *. cbn. lia. }
  split; [|split_and!; done]. rewrite Hend. apply bo_wait; try done; [|rewrite app_nil_l; lia].
  rewrite Hsub, Hall, app_nil_l. rewrite Hall in Hp.
  destruct Hf as [H1 H2 H3 H4 H5 H6].
  constructor; cbn [fr_set fr_state fr_held fr_n_held fr_kind]; try done; try lia.
  - rewrite length_memcpy_at; [done|lia|]. unfold zlen in *. lia.
  - rewrite memcpy_at_0. by rewrite take_app_length.
Qed.

Lemma frames_extend_done fuel : forall f buf n st f' buf',
  frames_extend fuel f buf n = inl (st, f', buf') -> fr_state f' = ZU_INT_FRAME_DONE.
Proof.
  induction fuel as [|fuel IH]; intros f buf n st f' buf'; cbn [frames_extend]; [done|].
  destruct (_ && _); [|done]. destruct (negb _); [by intros [= _ <- _]|]. apply IH.
Qed.

(** The library that records what it is fed. *)
Definition record_feed (ctx : bytes) (p : bytes) : zu_status * bytes := (ZU_OK, ctx ++ p).

Lemma between_spec f buf flush h :
  frames_holding f h -> zlen h < 4 -> has_flag (fr_flags f) ZU_DEC_CONCAT_MEMBERS = true ->
  buffer_ok buf ->
  let '(st, f', buf', fed) := zu_int_frames_between record_feed f buf flush [] in
  between_outcome f h (src_window buf) (is_finish flush) st f' fed (src_window buf') /\
  buffer_step buf buf' /\ dst buf' = dst buf /\ dst_pos buf' = dst_pos buf.
Proof.
  intros Hf Hh Hc Hb. unfold zu_int_frames_between.
  rewrite (fh_state _ _ Hf), Hc, (fh_n _ _ Hf). cbn [negb].
  destruct (Z.eqb_spec (zlen h) 0) as [E0|E0].
  { assert (h = []) as -> by (destruct h; [done|]; rewrite zlen_cons in E0;
      pose proof (zlen_nonneg h); lia).
    pose proof (frames_look_outcome f buf flush Hf Hb) as H.
    destruct (frames_look f buf flush) as [[st f'] buf']. done. }
  pose proof (frames_extend_spec 4 f buf h Hf Hb) as Hext.
  pose proof (zlen_nonneg h). specialize (Hext ltac:(lia)).
  destruct (frames_extend 4 f buf (avail_in buf)) as [[[st f'] buf']|[[f' buf'] n]] eqn:Eext.
  - destruct Hext as (-> & Hpol & Hs & Hd & Hdp & a & x & w & E & E' & Hbad & Hlt).
    split; [|done]. rewrite E, E'.
    apply (bo_junk _ _ _ _ _ (h ++ a ++ [x]) w); try done.
    + rewrite <- !(assoc_L (++)). done.
    + rewrite !zlen_app in *. change (zlen [x]) with 1. lia.
    + by eapply frames_extend_done.
  - destruct Hext as (Hpol & Hs & Hd & Hdp & a & w & E & E' & Hh' & Hor).
    assert (Ht : h ++ src_window buf = (h ++ a) ++ w) by (rewrite E; by rewrite (assoc_L (++))).
    rewrite (fh_n _ _ Hh').
    destruct (Z.eqb_spec (zlen (h ++ a)) 4) as [E4|E4].
    + unfold record_feed. cbn [app].
      assert (sub (fr_held f') 0 4 = h ++ a) as Hheld.
      { unfold sub. rewrite drop_0. pose proof (fh_bytes _ _ Hh') as Hb'.
        replace (Z.to_nat 4) with (length (h ++ a)) by (unfold zlen in E4; lia). done. }
      split; [|done]. rewrite Hheld, E'.
      apply bo_next; [done|done|by rewrite Ht|
        rewrite Ht, (zlen_app (h ++ a)); pose proof (zlen_nonneg w); lia|].
      * rewrite Ht. replace 4%nat with (length (h ++ a)) by (unfold zlen in E4; lia).
        rewrite take_app_length. destruct Hpol as [<- _]. by apply fh_prefix.
    + destruct Hor as [? | -> ]; [done|]. rewrite app_nil_r in Ht.
      pose proof (fh_short _ _ Hh') as Hs4.
      destruct (is_finish flush) eqn:Ef; cbn [negb]; rewrite E'.
      * split; [|done]. destruct Hpol as [Hk Hfl]. rewrite Hfl.
        apply bo_held; try done; [|rewrite Ht; lia].
        intros Hnil. apply app_nil in Hnil as [-> _]. done.
      * split; [|done]. apply bo_wait; try done; [by rewrite Ht|rewrite Ht; lia].
Qed.

(** ** The classification over a chunked input *)

(** Where a client ends up: with a further frame, whose first bytes the library was [fed]
    and whose [rest] is still to be read, or with a final status. *)
Inductive frames_outcome :=
  | fo_next (fed rest : bytes)
  | fo_stop (st : zu_status)
  | fo_stuck.

Definition chunk_buffer (c : bytes) : zu_buffer := mk_buffer (Some c) (zlen c) 0 None 0 0.

(** One call per chunk, the last with [ZU_FINISH]; a stream end with input left is the
    driver's to judge (zu_decoder_process). *)
Fixpoint frames_drive (f : zu_int_frames) (chunks : list bytes) : frames_outcome :=
  match chunks with
  | [] => fo_stuck
  | c :: later =>
      let flush := match later with [] => ZU_FINISH | _ => ZU_RUN end in
      match zu_int_frames_between record_feed f (chunk_buffer c) flush [] with
      | (ZU_OK, _, b, fed) => fo_next fed (src_window b ++ concat later)
      | (ZU_NEED_INPUT, f', _, _) => frames_drive f' later
      | (ZU_STREAM_END, _, b, _) =>
          fo_stop (if (src_pos b <? src_size b) && has_flag (fr_flags f) ZU_DEC_REJECT_TRAILING
                   then ZU_ERR_TRAILING else ZU_STREAM_END)
      | (st, _, _, _) => fo_stop st
      end
  end.

Lemma chunk_buffer_ok c : zlen c < 2 ^ 64 -> buffer_ok (chunk_buffer c).
Proof. intros. pose proof (zlen_nonneg c). constructor; simpl; lia. Qed.

Lemma chunk_buffer_window c : src_window (chunk_buffer c) = c.
Proof.
  unfold src_window, chunk_buffer, src_bytes, avail_in. cbn. rewrite Z.sub_0_r. apply sub_all.
Qed.

(** The verdict on the rest of the input, and how it shows. *)
Definition drive_matches (f : zu_int_frames) (t : bytes) (o : frames_outcome) : Prop :=
  match frames_spec (fr_kind f) t with
  | frames_end => o = fo_stop ZU_STREAM_END
  | frames_next => exists fed rest, o = fo_next fed rest /\ fed ++ rest = t
  | frames_junk =>
      o = fo_stop (if has_flag (fr_flags f) ZU_DEC_REJECT_TRAILING
                   then ZU_ERR_TRAILING else ZU_STREAM_END)
  end.

Lemma window_left b : buffer_ok b -> (src_pos b <? src_size b) = negb (bool_decide (src_window b = [])).
Proof.
  intros Hb. pose proof (src_window_nil b Hb) as H. unfold avail_in in H.
  destruct (Z.ltb_spec (src_pos b) (src_size b)); case_bool_decide as E; try done.
  - apply H in E. lia.
  - exfalso. apply E, H. destruct Hb. lia.
Qed.

Lemma frames_drive_spec chunks : forall f h,
  frames_holding f h -> zlen h < 4 -> has_flag (fr_flags f) ZU_DEC_CONCAT_MEMBERS = true ->
  chunks <> [] -> Forall (fun c => zlen c < 2 ^ 64) chunks ->
  match frames_spec (fr_kind f) (h ++ concat chunks) with
  | frames_end => frames_drive f chunks = fo_stop ZU_STREAM_END
  | frames_next => exists fed rest, frames_drive f chunks = fo_next fed rest /\
      fed ++ rest = h ++ concat chunks
  | frames_junk => frames_drive f chunks =
      fo_stop (if has_flag (fr_flags f) ZU_DEC_REJECT_TRAILING
               then ZU_ERR_TRAILING else ZU_STREAM_END)
  end.
Proof.
  induction chunks as [|c later IH]; intros f h Hf Hh Hc Hne Hall; [done|].
  apply Forall_cons in Hall as [Hcl Hall].
  set (flush := match later with [] => ZU_FINISH | _ => ZU_RUN end).
  pose proof (between_spec f (chunk_buffer c) flush h Hf Hh Hc (chunk_buffer_ok c Hcl)) as H.
  cbn [frames_drive]. fold flush.
  destruct (zu_int_frames_between record_feed f (chunk_buffer c) flush []) as [[[st f'] b'] fed].
  destruct H as (Hout & Hs & _ & _). rewrite chunk_buffer_window in Hout.
  assert (Hb' : buffer_ok b') by (eapply buffer_step_ok; [|exact Hs]; by apply chunk_buffer_ok).
  assert (Hflush : is_finish flush = true -> later = []) by (subst flush; by destruct later).
  cbn [concat]. rewrite (assoc_L (++)).
  remember (src_window b') as wb eqn:Ewb. pose proof (window_left b' Hb') as Hleft.
  rewrite <- Ewb in Hleft.
  destruct Hout as [f' fed w' Hst Hpol Hw H4 Hp|f' Hfin Hh' Hpol H4|f' Hfin Hnil Hst Hpol
    |f' p q x w' Hw Hp Hlp Hst Hpol|f' x w' Hfin Hne' H4 Hst Hpol|f' Hfin Hne' H4 Hst Hpol];
    cbn [bool_decide negb] in Hleft; rewrite ?Hleft.
  - assert (Hsplit : (h ++ c) ++ concat later = take 4 (h ++ c) ++ (drop 4 (h ++ c) ++ concat later))
      by (rewrite (assoc_L (++)), take_drop; done).
    rewrite Hsplit, frames_spec_next; [|done|unfold zlen in *; rewrite length_take; lia].
    rewrite <- Hsplit. exists fed, (w' ++ concat later). split; [by rewrite Ewb|].
    by rewrite (assoc_L (++)), Hw.
  - destruct Hpol as [Hk Hfl]. rewrite <- Hk, <- Hfl.
    apply IH; [done|done|by rewrite Hfl| |done].
    intros ->. subst flush. done.
  - rewrite (Hflush Hfin). cbn [concat]. rewrite app_nil_r, Hnil. done.
  - rewrite Hw, <- (assoc_L (++)), frames_spec_junk by done. done.
  - rewrite (Hflush Hfin). cbn [concat]. rewrite app_nil_r, frames_spec_short by done. done.
  - rewrite (Hflush Hfin). cbn [concat]. rewrite app_nil_r, frames_spec_short by done.
    by destruct (has_flag (fr_flags f) ZU_DEC_REJECT_TRAILING).
Qed.

Lemma frames_ended_holding f :
  length (fr_held f) = 4%nat -> frames_holding (zu_int_frames_ended f) [].
Proof. intros H. constructor; try done. Qed.

(** C15: what follows a frame is classified the same however the input is cut.  With frame
    continuation on, after a frame has ended, for every way of splitting the rest of the
    input into buffers (empty ones included), the drive reports the end exactly when
    nothing follows, a further frame exactly when the four bytes of a magic follow, with
    the library then seeing every byte of it, and otherwise trailing bytes under the
    trailing policy. *)
Theorem frames_chunk_invariant (f : zu_int_frames) (chunks : list bytes) :
  length (fr_held f) = 4%nat -> has_flag (fr_flags f) ZU_DEC_CONCAT_MEMBERS = true ->
  chunks <> [] -> Forall (fun c => zlen c < 2 ^ 64) chunks ->
  drive_matches f (concat chunks) (frames_drive (zu_int_frames_ended f) chunks).
Proof.
  intros Hl Hc Hne Hall.
  exact (frames_drive_spec chunks (zu_int_frames_ended f) [] (frames_ended_holding f Hl)
    ltac:(done) Hc Hne Hall).
Qed.

Lemma frames_chunk_invariant_witness :
  let f := zu_int_frames_init ZU_INT_FRAMES_LZ4 3 in
  drive_matches f [4; 34; 77; 24; 100] (frames_drive (zu_int_frames_ended f) [[4]; []; [34; 77]; [24; 100]]) /\
  drive_matches f [4; 34; 77; 25] (frames_drive (zu_int_frames_ended f) [[4; 34]; [77]; [25]]) /\
  frames_drive (zu_int_frames_ended f) [[4; 34]; [77]; [25]] = fo_stop ZU_ERR_TRAILING.
Proof.
  split; [|split; [|reflexivity]].
  - apply (frames_chunk_invariant (zu_int_frames_init ZU_INT_FRAMES_LZ4 3) [[4]; []; [34; 77]; [24; 100]]);
      [reflexivity|reflexivity|discriminate|].
    repeat apply Forall_cons_2; try apply Forall_nil_2; reflexivity.
  - apply (frames_chunk_invariant (zu_int_frames_init ZU_INT_FRAMES_LZ4 3) [[4; 34]; [77]; [25]]);
      [reflexivity|reflexivity|discriminate|].
    repeat apply Forall_cons_2; try apply Forall_nil_2; reflexivity.
Defined.
