(* ===== verification/FramedDecoder.v ===== *)
(** * The framed decoders' loop

    zstd_decoder_process (src/codec_zstd.c) and lz4f_decoder_process (src/codec_lz4.c) are
    the same loop over two libraries.  Here the library is the class [FrameLib]; the
    codecs' files instantiate it.  The loop pays an owed byte, decides between frames
    through Frames.v, and otherwise turns the library's crank. *)
From S2P Require Import Prelude Types Stream ProcessLoop Frames.

(** What a decompression call did: its return value, the input bytes it took, the bytes it
    wrote, and the context. *)
Record lib_outcome (ctx : Type) := mk_lib {
  lo_ret : Z;
  lo_used : Z;
  lo_out : bytes;
  lo_next : ctx;
}.
Arguments mk_lib {ctx} lo_ret lo_used lo_out lo_next.
Arguments lo_ret {ctx} l.
Arguments lo_used {ctx} l.
Arguments lo_out {ctx} l.
Arguments lo_next {ctx} l.

(** [fl_decompress c next_in room]: ZSTD_decompressStream or LZ4F_decompress. *)
Class FrameLib := {
  fl_ctx : Type;
  fl_decompress : fl_ctx -> bytes -> Z -> lib_outcome fl_ctx;
  fl_isError : Z -> bool;
}.

(** Both libraries document it: a call that succeeds stays inside its windows, and 0 --
    "a frame is completely decoded and fully flushed" -- is the answer to a call that took
    or wrote the last of it. *)
Class FrameLibOk `{FrameLib} : Prop := {
  fl_bounds : forall c next_in room, 0 <= room ->
    let r := fl_decompress c next_in room in fl_isError (lo_ret r) = false ->
    0 <= lo_used r <= zlen next_in /\ zlen (lo_out r) <= room;
  fl_end_moves : forall c next_in room,
    let r := fl_decompress c next_in room in fl_isError (lo_ret r) = false ->
    lo_ret r = 0 -> 0 < lo_used r + zlen (lo_out r);
}.

Section framed.
Context {lib : FrameLib}.

(** The status a library error maps to, and the callback that hands over held bytes. *)
Context (lib_error : Z -> zu_status).
Context (feed : fl_ctx -> bytes -> zu_status * fl_ctx).

(** zstd_probe and lz4f_probe: one byte of room, no input. *)
Definition framed_probe (c : fl_ctx) : result (Z * Z * bool) * fl_ctx :=
  let r := fl_decompress c [] 1 in
  if fl_isError (lo_ret r) then (Err (lib_error (lo_ret r)), lo_next r)
  else (Ok (byte_at (lo_out r) 0, zlen (lo_out r), lo_ret r =? 0), lo_next r).

Definition framed_state : Type := zu_int_frames * fl_ctx.

(** The part of a round inside a frame. *)
Definition framed_body (f : zu_int_frames) (c : fl_ctx) (buf : zu_buffer) (flush : zu_flush) :
    option zu_status * framed_state * zu_buffer :=
  let r := fl_decompress c (sub (src_bytes buf) (src_pos buf) (avail_in buf)) (avail_out buf) in
  if fl_isError (lo_ret r) then (Some (lib_error (lo_ret r)), (f, lo_next r), buf)
  else
    let buf' := buf_emit (buf_consume buf (lo_used r)) (lo_out r) in
    if lo_ret r =? 0 then (None, (zu_int_frames_ended f, lo_next r), buf')
    else if (lo_used r =? 0) && (zlen (lo_out r) =? 0)
    then
      match zu_int_frames_stalled framed_probe f (avail_in buf) (avail_out buf) flush (lo_next r) with
      | (ZU_OK, f', c') => (None, (f', c'), buf')
      | (ss, f', c') => (Some ss, (f', c'), buf')
      end
    else (None, (f, lo_next r), buf').

Definition framed_round (s : framed_state) (buf : zu_buffer) (flush : zu_flush) :
    option zu_status * framed_state * zu_buffer :=
  let '(f, c) := s in
  let '(paid, f, buf) := zu_int_frames_pay f buf in
  if negb paid then (Some ZU_NEED_OUTPUT, (f, c), buf)
  else
    match fr_state f with
    | ZU_INT_FRAME_BODY => framed_body f c buf flush
    | _ =>
        match zu_int_frames_between feed f buf flush c with
        | (ZU_OK, f', buf', c') => (None, (f', c'), buf')
        | (fs, f', buf', c') => (Some fs, (f', c'), buf')
        end
    end.

(** Every round moves a byte, or leaves "between" for a frame whose magic is in sight, or
    follows a probe that found the frame over -- which ends the call. *)
Definition framed_rank (s : framed_state) (buf : zu_buffer) : Z :=
  match fr_state (fst s) with
  | ZU_INT_FRAME_BODY => if (avail_in buf =? 0) && (avail_out buf =? 0) then 2 else 0
  | _ => 1
  end.

Definition framed_measure (s : framed_state) (buf : zu_buffer) : Z :=
  3 * (avail_in buf + avail_out buf) + framed_rank s buf.

Definition framed_fuel (s : framed_state) (buf : zu_buffer) : nat :=
  S (Z.to_nat (framed_measure s buf)).

Definition framed_process (s : framed_state) (buf : zu_buffer) (flush : zu_flush) :
    zu_status * framed_state * zu_buffer :=
  run_process framed_round framed_fuel s buf flush.

(** ** What the library was given and gave

    [lib_run c0 c i o fin]: from [c0], successful calls took [i], wrote [o] and left [c];
    [fin] says the last one completed a frame. *)
Inductive lib_run (c0 : fl_ctx) : fl_ctx -> bytes -> bytes -> bool -> Prop :=
  | lib_start : lib_run c0 c0 [] [] false
  | lib_call c i o fin next_in room r :
      lib_run c0 c i o fin -> 0 <= room -> r = fl_decompress c next_in room ->
      fl_isError (lo_ret r) = false ->
      lib_run c0 (lo_next r) (i ++ take (Z.to_nat (lo_used r)) next_in) (o ++ lo_out r)
        (lo_ret r =? 0).

(** The callback that feeds held bytes is one such call, taking all of them. *)
Definition feed_is_call : Prop :=
  forall c p c', feed c p = (ZU_OK, c') ->
    let r := fl_decompress c p 0 in
    fl_isError (lo_ret r) = false /\ lo_used r = zlen p /\ c' = lo_next r.

(** After [eaten] was consumed and [out] written: the library has been given all of it but
    what the prober holds, and its output is all written but the owed byte. *)
Definition owed_bytes (f : zu_int_frames) : bytes :=
  if fr_has_owed f then [fr_owed f] else [].

Record fd_inv (c0 : fl_ctx) (s : framed_state) (eaten out : bytes) : Prop := {
  fi_run : exists i fin,
    lib_run c0 (snd s) i (out ++ owed_bytes (fst s)) fin /\
    match fr_state (fst s) with
    | ZU_INT_FRAME_BODY => eaten = i
    | ZU_INT_FRAME_BETWEEN => fin = true /\
        exists h, frames_holding (fst s) h /\ zlen h < 4 /\ eaten = i ++ h
    | ZU_INT_FRAME_DONE => fin = true /\ exists h, zlen h < 4 /\ eaten = i ++ h
    end;
  fi_held : length (fr_held (fst s)) = 4%nat;
}.

(** ** Lemmas *)

Lemma moved_same_dst b b' a :
  buffer_step b b' -> dst b' = dst b -> dst_pos b' = dst_pos b ->
  src_window b = a ++ src_window b' -> moved b b' a [].
Proof.
  intros Hs Hd Hp Hw. constructor; [done|done|]. unfold dst_written. by rewrite Hd, Hp, app_nil_r.
Qed.

Lemma holding_ext f f' h :
  fr_state f' = fr_state f -> fr_kind f' = fr_kind f -> fr_held f' = fr_held f ->
  fr_n_held f' = fr_n_held f -> frames_holding f h -> frames_holding f' h.
Proof. intros E1 E2 E3 E4 []. constructor; congruence. Qed.

(** Delivering the owed byte. *)
Lemma pay_spec f b :
  buffer_ok b ->
  match zu_int_frames_pay f b with
  | (false, f', b') => f' = f /\ b' = b /\ avail_out b = 0
  | (true, f', b') =>
      moved b b' [] (owed_bytes f) /\ fr_has_owed f' = false /\ fr_state f' = fr_state f /\
      fr_kind f' = fr_kind f /\ fr_flags f' = fr_flags f /\ fr_held f' = fr_held f /\
      fr_n_held f' = fr_n_held f
  end.
Proof.
  intros Hb. unfold zu_int_frames_pay, owed_bytes. destruct (fr_has_owed f) eqn:E; cbn [negb].
  - destruct (Z.eqb_spec (dst_pos b) (dst_size b)); [split_and!; [done|done|unfold avail_out; lia]|]. cbn. split; [|done].
    apply moved_emit; [done|]. rewrite zlen_cons, (@zlen_nil Z). destruct Hb.
    unfold avail_out. lia.
  - split; [by apply moved_refl|done].
Qed.

(** The owed byte and the array survive the prober. *)
Definition same_rest (f f' : zu_int_frames) : Prop :=
  fr_has_owed f' = fr_has_owed f /\ fr_owed f' = fr_owed f /\
  length (fr_held f') = length (fr_held f).

Lemma extend_rest fuel : forall f b n,
  match frames_extend fuel f b n with
  | inl (_, f', _) => same_rest f f'
  | inr (f', _, _) => same_rest f f'
  end.
Proof.
  unfold same_rest.
  induction fuel as [|fuel IH]; intros f b n; cbn [frames_extend]; [done|].
  destruct (_ && _); [|done].
  destruct (negb _); [cbn [fr_set fr_has_owed fr_owed fr_held]; by rewrite length_insert|].
  specialize (IH (fr_set f (fr_state f) (<[Z.to_nat (fr_n_held f):=src_at b 0]> (fr_held f))
    (fr_n_held f + 1)) (buf_consume b 1) (n - 1)).
  destruct (frames_extend _ _ _ _) as [ [ [st f'] b']|[ [f' b'] n'] ];
    cbn [fr_set fr_has_owed fr_owed fr_held] in IH; by rewrite length_insert in IH.
Qed.

Lemma look_rest f b flush :
  length (fr_held f) = 4%nat ->
  let '(_, f', _) := frames_look f b flush in same_rest f f'.
Proof.
  intros Hl. unfold frames_look, same_rest. repeat split_if; try done.
  all: cbn; do 2 (split; [done|]); apply length_memcpy_at; [lia|]; unfold zlen, sub;
    rewrite length_take, Hl; destruct (Z.ltb_spec (avail_in b) 4); lia.
Qed.

(** One decision between frames, with the bytes [a] eaten and the bytes [h] held before. *)
Inductive between_step (f : zu_int_frames) (h : bytes) (b : zu_buffer) (c : fl_ctx) :
    zu_status -> zu_int_frames -> bytes -> fl_ctx -> Prop :=
  | bs_seen f' : fr_state f' = ZU_INT_FRAME_BODY -> h = [] -> 4 <= avail_in b ->
      between_step f h b c ZU_OK f' [] c
  | bs_fed f' a c' : fr_state f' = ZU_INT_FRAME_BODY -> 0 < zlen a ->
      feed c (h ++ a) = (ZU_OK, c') -> between_step f h b c ZU_OK f' a c'
  | bs_refused st f' a c' : feed c (h ++ a) = (st, c') -> st <> ZU_OK ->
      between_step f h b c st f' a c'
  | bs_waits f' a : frames_holding f' (h ++ a) -> zlen (h ++ a) < 4 ->
      between_step f h b c ZU_NEED_INPUT f' a c
  | bs_ends f' a : fr_state f' = ZU_INT_FRAME_DONE -> zlen (h ++ a) < 4 ->
      between_step f h b c ZU_STREAM_END f' a c
  | bs_trails f' a : between_step f h b c ZU_ERR_TRAILING f' a c.

Lemma look_step f b flush c :
  frames_holding f [] -> buffer_ok b ->
  let '(st, f', b') := frames_look f b flush in
  (st = ZU_OK \/ honest st b') /\
  exists a, moved b b' a [] /\ between_step f [] b c st f' a c /\ same_rest f f'.
Proof.
  intros Hf Hb. pose proof (look_rest f b flush (fh_len _ _ Hf)) as Hr.
  pose proof (frames_look_outcome f b flush Hf Hb) as Ho.
  assert (Hz : zlen ([] ++ [] : bytes) < 4) by (rewrite app_nil_r, zlen_nil; lia).
  revert Hr Ho. unfold frames_look. pose proof (avail_in_nonneg b Hb).
  destruct (Z.eqb_spec (avail_in b) 0).
  { split_if; intros Hr _; (split; [by right|]); exists []; (split; [by apply moved_refl|]); (split; [|done]).
    - by apply bs_waits.
    - by apply bs_ends. }
  set (k := if avail_in b <? 4 then avail_in b else 4).
  assert (Hk : k = 4 /\ 4 <= avail_in b \/ k = avail_in b) by (unfold k; zcase; lia).
  clearbody k.
  destruct (negb (zu_int_frames_is_prefix _ _ _)).
  { intros Hr _; split; [by right|]; exists []; split; [by apply moved_refl|]; split; [by apply bs_ends|done]. }
  destruct (Z.eqb_spec k 4) as [E4|E4].
  { intros Hr _. split; [by left|]. exists []. split; [by apply moved_refl|]. split; [|done].
    apply bs_seen; [done|done|lia]. }
  destruct (is_finish flush).
  { intros Hr _; split; [by right|]; exists []; split; [by apply moved_refl|]; split; [by apply bs_ends|done]. }
  intros Hr [Ho _]. inversion Ho; subst; try done.
  assert (k = avail_in b) as -> by lia. split; [right; unfold honest, avail_in; cbn; lia|].
  exists (src_window b). split; [|split; [by apply bs_waits|done] ].
  apply moved_consume; [done|lia].
Qed.

Lemma holding_nil h f : frames_holding f h -> fr_n_held f = 0 -> h = [].
Proof.
  intros Hf Hn. rewrite (fh_n _ _ Hf) in Hn. destruct h; [done|].
  rewrite zlen_cons in Hn. pose proof (zlen_nonneg h). lia.
Qed.

Lemma between_steps f h b flush c :
  frames_holding f h -> zlen h < 4 -> buffer_ok b ->
  let '(st, f', b', c') := zu_int_frames_between feed f b flush c in
  (st = ZU_OK \/ honest st b' \/ exists p d, feed c p = (st, d)) /\
  exists a, moved b b' a [] /\ between_step f h b c st f' a c' /\ same_rest f f'.
Proof.
  intros Hf Hh Hb. unfold zu_int_frames_between. rewrite (fh_state _ _ Hf).
  assert (Hz : zlen (h ++ []) < 4) by (by rewrite app_nil_r).
  destruct (negb (has_flag _ _)).
  { split; [by right; left|]. exists []. split; [by apply moved_refl|]. split; [by apply bs_ends|done]. }
  destruct (Z.eqb_spec (fr_n_held f) 0) as [E0|E0].
  { pose proof (holding_nil h f Hf E0) as ->.
    pose proof (look_step f b flush c Hf Hb) as H. destruct (frames_look f b flush) as [ [st f'] b'].
    destruct H as [ [H|H] ?]; split; auto. }
  pose proof (zlen_nonneg h). pose proof (frames_extend_spec 4 f b h Hf Hb ltac:(lia)) as Hext.
  pose proof (extend_rest 4 f b (avail_in b)) as Hrest.
  destruct (frames_extend 4 f b (avail_in b)) as [ [ [st f'] b']|[ [f' b'] n] ] eqn:E.
  - destruct Hext as (-> & _ & Hs & Hd & Hp & a & x & w & Ew & Ew' & _ & Hl). split; [by right; left|]. exists a.
    split; [apply moved_same_dst; [done..|by rewrite Ew, Ew']|]. split; [|done].
    apply bs_ends; [by eapply frames_extend_done|done].
  - destruct Hext as (_ & Hs & Hd & Hp & a & w & Ew & Ew' & Hf' & Hor).
    assert (Hmv : moved b b' a []) by (apply moved_same_dst; [done..|by rewrite Ew, Ew']).
    rewrite (fh_n _ _ Hf'). destruct (Z.eqb_spec (zlen (h ++ a)) 4) as [E4|E4].
    + assert (Hsub : sub (fr_held f') 0 4 = h ++ a).
      { unfold sub. rewrite drop_0. etransitivity; [|apply (fh_bytes _ _ Hf')].
        f_equal. unfold zlen in E4. lia. }
      rewrite Hsub. destruct (feed c (h ++ a)) as [st c'] eqn:Ef.
      destruct (decide (st = ZU_OK)) as [->|Hne].
      * split; [by left|]. exists a. split; [done|]. split; [|done]. apply bs_fed; [done| |done].
        rewrite zlen_app in E4. lia.
      * destruct st; try done; (split; [by eauto|]); exists a; (split; [done|]); (split; [|done]);
          (eapply bs_refused; [exact Ef|done]).
    + assert (Hlt : zlen (h ++ a) < 4) by (pose proof (fh_short _ _ Hf'); lia).
      assert (Ha : avail_in b' = 0).
      { destruct Hor as [?|Hw]; [lia|]. rewrite Hw in Ew'. apply src_window_nil; [by eapply moved_ok|done]. }
      split_if; [|split_if]; (split; [by right; left|]); exists a; (split; [done|]); (split; [|done]);
        [by apply bs_waits|apply bs_trails|by apply bs_ends].
Qed.

(** ** The invariant of a round *)

Context {lib_ok : FrameLibOk}.
Context (Hfeed : feed_is_call) (Herr : forall r, fl_isError r = true -> failed (lib_error r)).
Context (Hfeed_st : forall c p st c', feed c p = (st, c') -> st = ZU_OK \/ failed st).

Definition fd_post (c0 : fl_ctx) (eaten out : bytes) (ost : option zu_status) (s : framed_state) : Prop :=
  match ost with
  | None => fd_inv c0 s eaten out
  | Some st => ~ failed st -> fd_inv c0 s eaten out /\
      (st = ZU_STREAM_END -> fr_state (fst s) = ZU_INT_FRAME_DONE /\ fr_has_owed (fst s) = false)
  end.

Definition fd_round_ok (c0 : fl_ctx) (eaten out : bytes) (s : framed_state) (b : zu_buffer)
    (r : option zu_status * framed_state * zu_buffer) : Prop :=
  exists i o, moved b (r.2) i o /\ fd_post c0 (eaten ++ i) (out ++ o) (r.1.1) (r.1.2) /\
    match r.1.1 with
    | None => framed_rank (r.1.2) (r.2) < framed_rank s b + 3 * (zlen i + zlen o)
    | Some st => honest st r.2
    end.

Lemma framed_rank_range s b : 0 <= framed_rank s b <= 2.
Proof. unfold framed_rank. destruct (fr_state (fst s)); try split_if; lia. Qed.

(** The library's own window, as a session sees it. *)
Lemma lib_call_window c0 c b i o fin :
  let r := fl_decompress c (sub (src_bytes b) (src_pos b) (avail_in b)) (avail_out b) in
  lib_run c0 c i o fin -> buffer_ok b -> fl_isError (lo_ret r) = false ->
  let t := sub (src_bytes b) (src_pos b) (lo_used r) in
  moved b (buf_emit (buf_consume b (lo_used r)) (lo_out r)) t (lo_out r) /\
  zlen t = lo_used r /\ lib_run c0 (lo_next r) (i ++ t) (o ++ lo_out r) (lo_ret r =? 0).
Proof.
  intros r Hrun Hb Hok t. pose proof (avail_in_nonneg b Hb). pose proof (avail_out_nonneg b Hb) as Ho.
  destruct (fl_bounds c (sub (src_bytes b) (src_pos b) (avail_in b)) _ Ho Hok) as [Hu Hn].
  fold r in Hu, Hn. rewrite (zlen_src_sub b (avail_in b)) in Hu by (done || lia).
  split; [by apply moved_through|]. split; [by apply zlen_src_sub|].
  assert (Et : t = take (Z.to_nat (lo_used r)) (sub (src_bytes b) (src_pos b) (avail_in b))).
  { unfold t, sub. rewrite take_take. f_equal. lia. }
  rewrite Et. by eapply (lib_call c0 c).
Qed.

Lemma fd_body_ended c0 f c eaten out :
  length (fr_held f) = 4%nat -> fr_has_owed f = false -> lib_run c0 c eaten out true ->
  fd_inv c0 (zu_int_frames_ended f, c) eaten out.
Proof.
  intros Hl Ho Hrun. constructor; [|done]. exists eaten, true. cbn.
  unfold owed_bytes. cbn. rewrite Ho, app_nil_r. split; [done|]. split; [done|].
  exists []. rewrite app_nil_r. split; [by apply frames_ended_holding|done].
Qed.

(** A library that moved nothing: what the answer leaves. *)
Lemma fd_stalled c0 f c eaten out b flush fin :
  lib_run c0 c eaten out fin -> length (fr_held f) = 4%nat -> fr_has_owed f = false ->
  fr_state f = ZU_INT_FRAME_BODY -> buffer_ok b ->
  let '(ss, f', c') :=
    zu_int_frames_stalled framed_probe f (avail_in b) (avail_out b) flush c in
  honest ss b /\ fd_post c0 eaten out (Some ss) (f', c').
Proof.
  intros Hrun Hl Ho Es Hb. pose proof (avail_in_nonneg b Hb).
  assert (Hsame : fd_inv c0 (f, c) eaten out).
  { constructor; [|done]. exists eaten, fin. cbn. unfold owed_bytes. by rewrite Ho, app_nil_r, Es. }
  assert (Hf : forall st, failed st -> honest st b /\ fd_post c0 eaten out (Some st) (f, c)).
  { intros st Hst. split; [by apply failed_honest|]. by intros []. }
  assert (Hk : forall st, st <> ZU_STREAM_END -> honest st b ->
    honest st b /\ fd_post c0 eaten out (Some st) (f, c)).
  { intros st H1 H2. split; [done|]. intros _. split; [done|]. by intros. }
  unfold zu_int_frames_stalled. destruct (Z.eqb_spec (avail_out b) 0) as [Ea|Ea].
  - rewrite Z.gtb_ltb. split_if; [by apply Hk|]. zbool.
    split_if; [apply Hk; [done|cbn; lia]|].
    unfold framed_probe. pose proof (fl_bounds c [] 1 ltac:(lia)) as Hb1. cbv zeta in Hb1.
    pose proof (fl_end_moves c [] 1) as Hm1. cbv zeta in Hm1.
    pose proof (lib_call c0 c eaten out fin [] 1 _ Hrun ltac:(lia) eq_refl) as Hr1.
    set (r := fl_decompress c [] 1) in *.
    destruct (fl_isError (lo_ret r)) eqn:Ee.
    { split; [by apply failed_honest, Herr|]. intros Hn. destruct Hn. by apply Herr. }
    specialize (Hb1 eq_refl). specialize (Hr1 eq_refl). destruct Hb1 as [Hu Hn].
    rewrite take_nil, app_nil_r in Hr1. rewrite (@zlen_nil Z) in Hu. rewrite Z.gtb_ltb.
    destruct (Z.ltb_spec 0 (zlen (lo_out r))).
    + split; [done|]. intros _. split; [|done].
      assert (Eo : lo_out r = [byte_at (lo_out r) 0]).
      { destruct (lo_out r) as [|x [|y l] ]; [done|done|].
        rewrite !zlen_cons in Hn. pose proof (zlen_nonneg l). lia. }
      constructor; [|cbn; by split_if]. exists eaten, (lo_ret r =? 0). cbn.
      unfold owed_bytes. split; [|split_if; cbn; rewrite ?Es; try done].
      * destruct (lo_ret r =? 0); cbn; by rewrite <- Eo.
      * split; [done|]. exists []. rewrite app_nil_r. split; [|done]. constructor; try done.
    + destruct (Z.eqb_spec (lo_ret r) 0) as [E0|E0].
      { specialize (Hm1 eq_refl E0). lia. }
      split; [done|]. by intros [].
  - destruct (Z.eqb_spec (avail_in b) 0); [split_if; [by apply (Hf ZU_ERR_TRUNCATED)|by apply Hk]|].
    by apply (Hf ZU_ERR_INTERNAL).
Qed.

(** In a frame, with nothing owed. *)
Lemma fd_body_round c0 f c eaten out b flush fin :
  lib_run c0 c eaten out fin -> length (fr_held f) = 4%nat -> fr_has_owed f = false ->
  fr_state f = ZU_INT_FRAME_BODY -> buffer_ok b ->
  fd_round_ok c0 eaten out (f, c) b (framed_body f c b flush).
Proof.
  intros Hrun Hl Ho Es Hb. unfold framed_body.
  pose proof (lib_call_window c0 c b eaten out fin Hrun Hb) as Hcall.
  set (r := fl_decompress _ _ _) in *. destruct (fl_isError (lo_ret r)) eqn:Ee.
  { exists [], []. split; [by apply moved_refl|]. split; [|by apply failed_honest, Herr].
    intros Hn. destruct Hn. by apply Herr. }
  destruct (Hcall eq_refl) as (Hmv & Ht & Hrun'). clear Hcall.
  pose proof (zlen_nonneg (sub (src_bytes b) (src_pos b) (lo_used r))).
  pose proof (zlen_nonneg (lo_out r)).
  destruct (lo_ret r =? 0) eqn:Er.
  { eexists _, _. split; [exact Hmv|]. split; [by apply fd_body_ended|]. cbn [fst snd].
    pose proof (framed_rank_range (f, c) b).
    pose proof (fl_end_moves c (sub (src_bytes b) (src_pos b) (avail_in b)) (avail_out b) Ee
      ltac:(by apply Z.eqb_eq)) as Hm. fold r in Hm. unfold framed_rank at 1. cbn. lia. }
  destruct ((lo_used r =? 0) && (zlen (lo_out r) =? 0)) eqn:Est.
  2:{ eexists _, _. split; [exact Hmv|]. cbn [fst snd]. split.
      - constructor; [|done]. exists (eaten ++ sub (src_bytes b) (src_pos b) (lo_used r)), false.
        cbn. unfold owed_bytes. by rewrite Ho, app_nil_r, Es.
      - pose proof (framed_rank_range (f, c) b).
        pose proof (framed_rank_range (f, lo_next r) (buf_emit (buf_consume b (lo_used r)) (lo_out r))).
        apply andb_false_iff in Est. rewrite !Z.eqb_neq in Est. lia. }
  zbool. assert (Hti : sub (src_bytes b) (src_pos b) (lo_used r) = []).
  { apply nil_length_inv. unfold zlen in *. lia. }
  assert (Hto : lo_out r = []) by (apply nil_length_inv; unfold zlen in *; lia).
  rewrite Hti, Hto in *. rewrite !app_nil_r in Hrun'.
  pose proof (fd_stalled c0 f (lo_next r) eaten out b flush false Hrun' Hl Ho Es Hb) as Hst.
  destruct (zu_int_frames_stalled _ _ _ _ _ _) as [ [ss f'] c'].
  destruct Hst as [Hh Hpost].
  assert (Hh' : honest ss (buf_emit (buf_consume b (lo_used r)) [])).
  { replace (lo_used r) with 0 by lia. unfold honest, avail_in, avail_out in *. cbn.
    by rewrite !Z.add_0_r. }
  destruct ss; [by destruct Hh|..]; (exists [], []; rewrite !app_nil_r; split; [exact Hmv|]; split; [exact Hpost|exact Hh']).
Qed.

(** Between frames, with nothing owed. *)
Lemma fd_between_post c0 f c eaten out h st f' a c' b b' :
  lib_run c0 c eaten out true -> frames_holding f h -> fr_has_owed f = false ->
  same_rest f f' -> between_step f h b c st f' a c' -> moved b b' a [] -> buffer_ok b ->
  st = ZU_OK \/ honest st b' ->
  fd_round_ok c0 (eaten ++ h) out (f, c) b
    (if status_eqb st ZU_OK then None else Some st, (f', c'), b').
Proof.
  intros Hrun Hf Ho (So & _ & Sl) Hstep Hmv Hb Hh. exists a, []. split; [exact Hmv|].
  rewrite (fh_len _ _ Hf) in Sl. rewrite Ho in So. rewrite app_nil_r, <- app_assoc. cbn [fst snd].
  assert (Hinv : forall fin c1 i, lib_run c0 c1 i out fin ->
    match fr_state f' with
    | ZU_INT_FRAME_BODY => eaten ++ h ++ a = i
    | ZU_INT_FRAME_BETWEEN => fin = true /\
        exists g, frames_holding f' g /\ zlen g < 4 /\ eaten ++ h ++ a = i ++ g
    | ZU_INT_FRAME_DONE => fin = true /\ exists g, zlen g < 4 /\ eaten ++ h ++ a = i ++ g
    end -> fd_inv c0 (f', c1) (eaten ++ h ++ a) out).
  { intros fin c1 i Hr Hm. constructor; [|done]. exists i, fin. cbn. unfold owed_bytes.
    rewrite So, app_nil_r. by split. }
  assert (Hcont : status_eqb ZU_OK ZU_OK = true) by done.
  destruct Hstep as [f' Es -> Ha|f' a c' Es Ha Hfd|st f' a c' Hfd Hne|f' a Hg Hl|f' a Es Hl|f' a].
  - split.
    + eapply Hinv; [exact Hrun|]. by rewrite Es, !app_nil_r.
    + rewrite Hcont. unfold framed_rank. cbn [fst]. rewrite Es, (fh_state _ _ Hf).
      destruct (moved_counts b b' [] [] Hb Hmv) as [Hi _]. rewrite (@zlen_nil Z) in Hi.
      destruct (Z.eqb_spec (avail_in b') 0); [lia|]. cbn [andb]. change (zlen (@nil Z)) with 0 in *. lia.
  - destruct (Hfeed _ _ _ Hfd) as (Hok & Hu & ->). split.
    + eapply (Hinv _ _ (eaten ++ h ++ a)); [|by rewrite Es].
      pose proof (lib_call c0 c eaten out true (h ++ a) 0 _ Hrun ltac:(lia) eq_refl Hok) as H1.
      pose proof (fl_bounds c (h ++ a) 0 ltac:(lia) Hok) as [_ Hn].
      rewrite Hu in H1. unfold zlen in H1. rewrite Nat2Z.id, take_ge in H1 by done.
      assert (Hnil : lo_out (fl_decompress c (h ++ a) 0) = [])
        by (apply nil_length_inv; unfold zlen in Hn; lia).
      rewrite Hnil, app_nil_r in H1. exact H1.
    + rewrite Hcont. pose proof (framed_rank_range (f', lo_next (fl_decompress c (h ++ a) 0)) b').
      pose proof (framed_rank_range (f, c) b). change (zlen (@nil Z)) with 0. lia.
  - destruct (Hfeed_st _ _ _ _ Hfd) as [->|Hfl]; [done|]. unfold status_eqb.
    rewrite bool_decide_eq_false_2 by done. split; [by intros []|by destruct Hh].
  - split; [intros _; split; [|done]|by destruct Hh]. eapply Hinv; [exact Hrun|].
    rewrite (fh_state _ _ Hg). split; [done|]. exists (h ++ a). by rewrite app_assoc.
  - split; [intros _; split; [|done]|done]. eapply Hinv; [exact Hrun|].
    rewrite Es. split; [done|]. exists (h ++ a). by rewrite app_assoc.
  - split; [intros []; done|done].
Qed.

(** Paying first changes nothing but what is owed. *)
Lemma fd_round_after_pay c0 eaten out s s' b b' o r :
  buffer_ok b -> moved b b' [] o -> fr_state (fst s') = fr_state (fst s) ->
  fd_round_ok c0 eaten (out ++ o) s' b' r -> fd_round_ok c0 eaten out s b r.
Proof.
  intros Hb Hmv Es (i1 & o1 & Hm1 & Hp & Hr). exists i1, (o ++ o1). split.
  { rewrite <- (app_nil_l i1). by eapply moved_trans. }
  rewrite (app_assoc out). split; [done|]. destruct r.1.1; [done|]. rewrite zlen_app.
  destruct (moved_counts b b' [] o Hb Hmv) as [Hi Ho]. rewrite (@zlen_nil Z) in Hi.
  pose proof (zlen_nonneg o). assert (zlen o = 0 \/ 1 <= zlen o) as [E0|E1] by lia.
  - assert (framed_rank s' b' = framed_rank s b).
    { unfold framed_rank. rewrite Es. replace (avail_in b') with (avail_in b) by lia.
      by replace (avail_out b') with (avail_out b) by lia. }
    lia.
  - pose proof (framed_rank_range s' b'). pose proof (framed_rank_range s b). lia.
Qed.

Lemma fd_inv_pay c0 f c eaten out f' :
  fd_inv c0 (f, c) eaten out -> fr_has_owed f' = false -> fr_state f' = fr_state f ->
  fr_kind f' = fr_kind f -> fr_held f' = fr_held f -> fr_n_held f' = fr_n_held f ->
  fd_inv c0 (f', c) eaten (out ++ owed_bytes f).
Proof.
  intros [(i & fin & Hrun & Hs) Hl] Ho Es Ek Eh En. constructor; cbn [fst snd] in *; [|by rewrite Eh].
  exists i, fin. unfold owed_bytes at 2. rewrite Ho, app_nil_r, Es. split; [done|].
  destruct (fr_state f); [done| |done]. destruct Hs as (-> & h & Hh & H4). split; [done|].
  exists h. split; [|done]. eapply (holding_ext f); [|done..]. by rewrite Es, (fh_state _ _ Hh).
Qed.

Lemma fd_round c0 eaten out s b flush :
  fd_inv c0 s eaten out -> buffer_ok b -> fd_round_ok c0 eaten out s b (framed_round s b flush).
Proof.
  destruct s as [f c]. intros Hinv Hb. unfold framed_round.
  pose proof (pay_spec f b Hb) as Hpay.
  destruct (zu_int_frames_pay f b) as [ [ [] f'] b']; cbn [negb].
  2:{ destruct Hpay as (-> & -> & Hfull). exists [], []. split; [by apply moved_refl|].
      rewrite !app_nil_r. split; [|done]. intros _. split; [done|]. by intros. }
  destruct Hpay as (Hmv & Ho & Es & Ek & _ & Eh & En).
  apply (fd_round_after_pay c0 eaten out (f, c) (f', c) b b' (owed_bytes f)); [done..|].
  pose proof (moved_ok _ _ _ _ Hb Hmv) as Hb'.
  pose proof (fd_inv_pay c0 f c eaten out f' Hinv Ho Es Ek Eh En) as [(i & fin & Hrun & Hs) Hl].
  cbn [fst snd] in *. unfold owed_bytes at 2 in Hrun. rewrite Ho, app_nil_r in Hrun.
  destruct (fr_state f') eqn:Est.
  - subst eaten. by eapply fd_body_round.
  - destruct Hs as (-> & h & Hh & H4 & ->).
    pose proof (between_steps f' h b' flush c Hh H4 Hb') as Hbs.
    destruct (zu_int_frames_between feed f' b' flush c) as [ [ [st f''] b''] c''].
    destruct Hbs as (Hans & a & Hm & Hstep & Hrest).
    assert (Hh' : st = ZU_OK \/ honest st b'').
    { destruct Hans as [?|[?|(p & d & [?|?]%Hfeed_st)] ]; auto. right. by apply failed_honest. }
    pose proof (fd_between_post c0 f' c i _ h st f'' a c'' b' b'' Hrun Hh Ho Hrest Hstep Hm Hb' Hh') as H.
    by destruct st.
  - unfold zu_int_frames_between. rewrite Est. exists [], []. split; [by apply moved_refl|].
    rewrite !app_nil_r. split; [|done]. intros _. cbn [fst snd]. split; [|done].
    constructor; [|done]. exists i, fin. cbn. unfold owed_bytes at 2. by rewrite Ho, app_nil_r, Est.
Qed.

(** ** The loop *)

Lemma framed_measure_nonneg s b : buffer_ok b -> 0 <= framed_measure s b.
Proof.
  intros Hb. unfold framed_measure. pose proof (framed_rank_range s b).
  pose proof (avail_in_nonneg b Hb). pose proof (avail_out_nonneg b Hb). lia.
Qed.

(** One call returns, and is one step of the history. *)
Lemma framed_call c0 s eaten out b flush :
  fd_inv c0 s eaten out -> buffer_ok b ->
  exists st s' b' i o,
    process_loop framed_round (framed_fuel s b) s b flush = Some (st, s', b') /\
    moved b b' i o /\ fd_post c0 (eaten ++ i) (out ++ o) (Some st) s' /\ honest st b'.
Proof.
  intros Hinv Hb.
  set (I := fun s1 b1 => exists i o, moved b b1 i o /\ fd_inv c0 s1 (eaten ++ i) (out ++ o)).
  set (Q := fun st s1 b1 => exists i o, moved b b1 i o /\
    fd_post c0 (eaten ++ i) (out ++ o) (Some st) s1 /\ honest st b1).
  assert (Hr : round_ok framed_round I Q framed_measure flush).
  { intros s1 b1 (i & o & Hm & Hi). pose proof (moved_ok _ _ _ _ Hb Hm) as Hb1.
    destruct (fd_round c0 _ _ s1 b1 flush Hi Hb1) as (i1 & o1 & Hm1 & Hp & Hmu).
    destruct (framed_round s1 b1 flush) as [ [ost s2] b2]. cbn [fst snd] in *.
    pose proof (moved_trans _ _ _ _ _ _ _ Hm Hm1) as Hm2. rewrite <- !app_assoc in Hp.
    destruct ost as [st|]; [by exists (i ++ i1), (o ++ o1)|].
    split; [by exists (i ++ i1), (o ++ o1)|].
    split; [apply framed_measure_nonneg; by eapply moved_ok|].
    destruct (moved_counts _ _ _ _ Hb1 Hm1). unfold framed_measure. lia. }
  destruct (process_loop_run framed_round I Q framed_measure flush Hr (framed_fuel s b) s b)
    as (st & s' & b' & E & i & o & Hm & Hp & Hh).
  - exists [], []. rewrite !app_nil_r. split; [by apply moved_refl|done].
  - unfold framed_fuel. lia.
  - exists st, s', b', i, o. by split_and!.
Qed.

(** The same for [framed_process]. *)
Lemma framed_process_call c0 s eaten out b flush :
  fd_inv c0 s eaten out -> buffer_ok b ->
  exists i o, moved b (framed_process s b flush).2 i o /\
    fd_post c0 (eaten ++ i) (out ++ o) (Some (framed_process s b flush).1.1)
      (framed_process s b flush).1.2 /\
    honest (framed_process s b flush).1.1 (framed_process s b flush).2.
Proof.
  intros Hinv Hb.
  destruct (framed_call c0 s eaten out b flush Hinv Hb) as (st & s' & b' & i & o & E & H).
  exists i, o. unfold framed_process, run_process. by rewrite E.
Qed.

(** The state of a stream that has not failed. *)
Lemma fd_inv_start c0 kind flags : fd_inv c0 (zu_int_frames_init kind flags, c0) [] [].
Proof.
  constructor; [|done]. exists [], false. cbn. split; [|done]. apply lib_start.
Qed.

Lemma framed_run_inv kind flags c0 s eaten out :
  codec_run framed_process (zu_int_frames_init kind flags, c0) s eaten out ->
  fd_inv c0 s eaten out.
Proof.
  apply (codec_run_inv framed_process (fd_inv c0)); [apply fd_inv_start|].
  intros s1 i1 o1 b f st s' b' i o Hinv Hb _ E Hst Hm.
  destruct (framed_process_call c0 s1 i1 o1 b f Hinv Hb) as (i' & o' & Hm' & Hp & _).
  rewrite E in Hm', Hp. cbn [fst snd] in *.
  destruct (moved_unique _ _ _ _ _ _ Hm Hm') as [-> ->]. apply Hp. by apply progress_not_failed.
Qed.

(** What a stream end says. *)
Lemma fd_post_end c0 eaten out s :
  fd_post c0 eaten out (Some ZU_STREAM_END) s ->
  exists given held, eaten = given ++ held /\ zlen held < 4 /\ lib_run c0 (snd s) given out true.
Proof.
  intros Hp. destruct (Hp id) as [ [(i & fin & Hrun & Hs) _] Hd].
  destruct (Hd eq_refl) as [Ed Eo]. rewrite Ed in Hs. destruct Hs as (-> & h & H4 & ->).
  unfold owed_bytes in Hrun. rewrite Eo, app_nil_r in Hrun. by exists i, h.
Qed.

(** *** Any state *)

Lemma extend_step fuel : forall f b n,
  buffer_ok b -> n = avail_in b ->
  match frames_extend fuel f b n with
  | inl (_, _, b') | inr (_, b', _) => buffer_step b b'
  end.
Proof.
  induction fuel as [|fuel IH]; intros f b n Hb ->; cbn [frames_extend]; [by apply buffer_step_refl|].
  rewrite Z.gtb_ltb. destruct (fr_n_held f <? 4); cbn [andb]; [|by apply buffer_step_refl].
  destruct (Z.ltb_spec 0 (avail_in b)); [|by apply buffer_step_refl].
  destruct (negb _); [by apply buffer_step_refl|].
  assert (Hs : buffer_step b (buf_consume b 1)) by (apply buf_consume_step; [done|lia]).
  assert (Ha : avail_in b - 1 = avail_in (buf_consume b 1)) by (unfold avail_in; cbn; lia).
  pose proof (IH (fr_set f (fr_state f) (<[Z.to_nat (fr_n_held f):=src_at b 0]> (fr_held f))
    (fr_n_held f + 1)) (buf_consume b 1) (avail_in b - 1)
    ltac:(by eapply buffer_step_ok) Ha) as H1.
  destruct (frames_extend _ _ _ _) as [ [ [? ?] b']|[ [? b'] ?] ]; by eapply buffer_step_trans.
Qed.

Lemma between_any f b flush c :
  buffer_ok b -> buffer_step b (zu_int_frames_between feed f b flush c).1.2.
Proof.
  intros Hb. pose proof (avail_in_nonneg b Hb).
  assert (Hr : buffer_step b b) by (by apply buffer_step_refl).
  unfold zu_int_frames_between. destruct (fr_state f); [done| |done].
  destruct (negb _); [done|]. destruct (fr_n_held f =? 0).
  - unfold frames_look. destruct (avail_in b =? 0); [by destruct (negb _)|].
    destruct (negb _); [done|].
    destruct (Z.ltb_spec (avail_in b) 4); cbn [Z.eqb Pos.eqb].
    + destruct (avail_in b =? 4); [done|]. destruct (is_finish flush); [done|]. cbn.
      apply buf_consume_step; [done|lia].
    + done.
  - pose proof (extend_step 4 f b (avail_in b) Hb eq_refl) as He.
    destruct (frames_extend _ _ _ _) as [ [ [? ?] b']|[ [f' b'] ?] ]; [done|].
    destruct (fr_n_held f' =? 4); [|by destruct (negb _)].
    destruct (feed _ _) as [ [] ?]; done.
Qed.

Lemma framed_round_any s b flush : buffer_ok b -> buffer_step b (framed_round s b flush).2.
Proof.
  destruct s as [f c]. intros Hb. unfold framed_round. pose proof (pay_spec f b Hb) as Hp.
  destruct (zu_int_frames_pay f b) as [ [ [] f'] b']; cbn [negb].
  2:{ destruct Hp as (_ & -> & _). by apply buffer_step_refl. }
  destruct Hp as [ [Hs _ _] _]. pose proof (buffer_step_ok _ _ Hb Hs) as Hb'.
  eapply buffer_step_trans; [exact Hs|].
  assert (Hbt : buffer_step b'
    match zu_int_frames_between feed f' b' flush c with
    | (ZU_OK, f', buf', c') => (None, (f', c'), buf')
    | (fs, f', buf', c') => (Some fs, (f', c'), buf')
    end.2).
  { pose proof (between_any f' b' flush c Hb') as H.
    by destruct (zu_int_frames_between _ _ _ _ _) as [ [ [ [] ?] ?] ?]. }
  destruct (fr_state f'); [|exact Hbt..]. clear Hbt. unfold framed_body.
  pose proof (fl_bounds c (sub (src_bytes b') (src_pos b') (avail_in b')) (avail_out b')
    ltac:(by apply avail_out_nonneg)) as Hbd. cbv zeta in Hbd.
  set (r := fl_decompress _ _ _) in *. destruct (fl_isError (lo_ret r)); [by apply buffer_step_refl|].
  destruct (Hbd eq_refl) as [Hu Hn].
  rewrite (zlen_src_sub b' (avail_in b')) in Hu by (try done; pose proof (avail_in_nonneg b' Hb'); lia).
  assert (Hm : buffer_step b' (buf_emit (buf_consume b' (lo_used r)) (lo_out r)))
    by (eapply mv_step, moved_through; done).
  destruct (lo_ret r =? 0); [done|]. destruct (_ && _); [|done].
  by destruct (zu_int_frames_stalled _ _ _ _ _ _) as [ [ [] ?] ?].
Qed.

#[export] Instance framed_process_contract : CursorContract framed_process.
Proof. apply run_process_contract. intros. by apply framed_round_any. Qed.

End framed.

(** ** A small library

    Decoding for the witnesses: bytes stand for themselves, the bytes of the two magics
    and of a skippable frame's for nothing, 0 ends a frame and 255 is corrupt. *)
Definition toy_silent (c : Z) : bool := bool_decide (c ∈ zstd_magic ++ lz4_magic ++ skip_tail).

Fixpoint toy_frame (l : bytes) (room : nat) : Z * bytes * Z :=
  match l with
  | [] => (0, [], 1)
  | c :: l' =>
      if c =? 0 then (1, [], 0)
      else if c =? 255 then (0, [], 200)
      else if toy_silent c
      then let '(u, o, r) := toy_frame l' room in (u + 1, o, r)
      else
        match room with
        | O => (0, [], 1)
        | S room' => let '(u, o, r) := toy_frame l' room' in (u + 1, c :: o, r)
        end
  end.

Definition toy_decompress (c : unit) (next_in : bytes) (room : Z) : lib_outcome unit :=
  let '(u, o, r) := toy_frame next_in (Z.to_nat room) in mk_lib r u o tt.

Definition toy_isError (r : Z) : bool := 200 <=? r.

Lemma toy_frame_bounds l : forall room,
  let '(u, o, r) := toy_frame l room in
  0 <= u <= zlen l /\ (length o <= room)%nat /\ (r = 0 -> 0 < u).
Proof.
  induction l as [|c l IH]; intros room; cbn [toy_frame]; [unfold zlen; cbn; lia|].
  rewrite zlen_cons. pose proof (zlen_nonneg l).
  destruct (c =? 0); [cbn; lia|]. destruct (c =? 255); [cbn; lia|].
  destruct (toy_silent c).
  - specialize (IH room). destruct (toy_frame l room) as [ [u o] r]. cbn; lia.
  - destruct room as [|room]; [cbn; lia|]. specialize (IH room).
    destruct (toy_frame l room) as [ [u o] r]. cbn [length]. lia.
Qed.
