(* ===== verification/Zstd.v ===== *)
(** * The zstd codec: src/codec_zstd.c

    libzstd is the class [Zstd]; its two directions are [lib_outcome]s, as in
    FramedDecoder.v, which has the decoder's loop.  The encoder's loop is here. *)
From S2P Require Import Prelude Types Registry Stream ProcessLoop Frames FramedDecoder.

(** zstd_errors.h and zstd.h *)
Definition ZSTD_error_version_unsupported : Z := 12.
Definition ZSTD_error_frameParameter_unsupported : Z := 14.
Definition ZSTD_error_frameParameter_windowTooLarge : Z := 16.
Definition ZSTD_error_checksum_wrong : Z := 22.
Definition ZSTD_error_dictionary_wrong : Z := 32.
Definition ZSTD_error_parameter_unsupported : Z := 40.
Definition ZSTD_error_parameter_outOfBound : Z := 42.
Definition ZSTD_error_memory_allocation : Z := 64.

Definition ZSTD_c_compressionLevel : Z := 100.
Definition ZSTD_c_checksumFlag : Z := 201.
Definition ZSTD_d_windowLogMax : Z := 100.
Definition ZSTD_reset_session_only : Z := 1.
Definition ZSTD_CLEVEL_DEFAULT : Z := 3.
Definition ZSTD_e_continue : Z := 0.
Definition ZSTD_e_flush : Z := 1.
Definition ZSTD_e_end : Z := 2.

(** [ZSTD_createCCtx] and [ZSTD_createDCtx] give a fresh context when they give one. *)
Class Zstd := {
  ZSTD_CCtx : Type;
  ZSTD_DCtx : Type;
  ZSTD_createCCtx : ZSTD_CCtx;
  ZSTD_createDCtx : ZSTD_DCtx;
  ZSTD_CCtx_setParameter : ZSTD_CCtx -> Z -> Z -> Z * ZSTD_CCtx;
  ZSTD_DCtx_setParameter : ZSTD_DCtx -> Z -> Z -> Z * ZSTD_DCtx;
  ZSTD_CCtx_reset : ZSTD_CCtx -> Z -> Z * ZSTD_CCtx;
  ZSTD_DCtx_reset : ZSTD_DCtx -> Z -> Z * ZSTD_DCtx;
  ZSTD_compressStream2 : ZSTD_CCtx -> bytes -> Z -> Z -> lib_outcome ZSTD_CCtx;
  ZSTD_decompressStream : ZSTD_DCtx -> bytes -> Z -> lib_outcome ZSTD_DCtx;
  ZSTD_isError : Z -> bool;
  ZSTD_getErrorCode : Z -> Z;
  ZSTD_compressBound : Z -> Z;
}.

#[export] Instance zstd_lib `{Zstd} : FrameLib := {|
  fl_ctx := ZSTD_DCtx;
  fl_decompress := ZSTD_decompressStream;
  fl_isError := ZSTD_isError;
|}.

(** What zstd.h documents of a compression call that succeeds: [pos] stays within [size]. *)
Class ZstdOk `{Zstd} : Prop := {
  zstd_frame_ok :: FrameLibOk;
  zstd_compress_bounds : forall c next_in room op, 0 <= room ->
    let r := ZSTD_compressStream2 c next_in room op in ZSTD_isError (lo_ret r) = false ->
    0 <= lo_used r <= zlen next_in /\ zlen (lo_out r) <= room;
}.

Section zstd.
Context {zstd : Zstd}.

(** [cctx] and [dctx] are NULL in the direction that does not use them. *)
Record zstd_state := mk_zstd {
  zs_encoder : bool;
  zs_cctx : option ZSTD_CCtx;
  zs_dctx : option ZSTD_DCtx;
  zs_level : Z;
  zs_max_output : Z;
  zs_frames : zu_int_frames;
  zs_done : bool;
}.

Definition zs_set_cctx (s : zstd_state) (c : ZSTD_CCtx) (level : Z) : zstd_state :=
  mk_zstd (zs_encoder s) (Some c) (zs_dctx s) level (zs_max_output s) (zs_frames s) (zs_done s).
Definition zs_set_dctx (s : zstd_state) (d : ZSTD_DCtx) (f : zu_int_frames) : zstd_state :=
  mk_zstd (zs_encoder s) (zs_cctx s) (Some d) (zs_level s) (zs_max_output s) f (zs_done s).
Definition zs_set_done (s : zstd_state) (done : bool) : zstd_state :=
  mk_zstd (zs_encoder s) (zs_cctx s) (zs_dctx s) (zs_level s) (zs_max_output s) (zs_frames s) done.
Definition zs_set_max (s : zstd_state) (max : Z) : zstd_state :=
  mk_zstd (zs_encoder s) (zs_cctx s) (zs_dctx s) (zs_level s) max (zs_frames s) (zs_done s).

(** ** Status mapping *)

Definition zu_int_zstd_error (s : zstd_state) (r : Z) : zu_status :=
  let e := ZSTD_getErrorCode r in
  if e =? ZSTD_error_checksum_wrong then ZU_ERR_CHECKSUM
  else if e =? ZSTD_error_memory_allocation then ZU_ERR_MEMORY
  else if e =? ZSTD_error_frameParameter_windowTooLarge
  then (if negb (zs_max_output s =? 0) then ZU_ERR_OUTPUT_LIMIT else ZU_ERR_UNSUPPORTED)
  else if (e =? ZSTD_error_dictionary_wrong) || (e =? ZSTD_error_frameParameter_unsupported) ||
          (e =? ZSTD_error_version_unsupported)
  then ZU_ERR_UNSUPPORTED
  else if (e =? ZSTD_error_parameter_unsupported) || (e =? ZSTD_error_parameter_outOfBound)
  then ZU_ERR_INVALID_ARGUMENT
  else if zs_encoder s then ZU_ERR_INTERNAL else ZU_ERR_INVALID_DATA.

(** ** Parameters *)

Definition ZU_INT_ZSTD_WINDOWLOG_DEFAULT : Z := 27.
Definition ZU_INT_ZSTD_WINDOWLOG_FLOOR : Z := 23.

(** [while (b < 63 && ((uint64_t) 1 << b) < n) { b++; }], from [b]: 63 - b rounds at most. *)
Fixpoint ceil_log2_loop (fuel : nat) (b n : Z) : Z :=
  match fuel with
  | O => b
  | S fuel' => if (b <? 63) && (u64 (Z.shiftl 1 b) <? n) then ceil_log2_loop fuel' (b + 1) n else b
  end.

Definition zu_int_ceil_log2 (n : Z) : Z := ceil_log2_loop 63 0 n.

(** The window log [zu_int_zstd_window] asks for. *)
Definition zstd_window_log (max_output : Z) : Z :=
  let wlog := ZU_INT_ZSTD_WINDOWLOG_DEFAULT in
  if negb (max_output =? 0)
  then
    let want := zu_int_ceil_log2 max_output in
    let want := if want <? ZU_INT_ZSTD_WINDOWLOG_FLOOR then ZU_INT_ZSTD_WINDOWLOG_FLOOR else want in
    if want <? wlog then want else wlog
  else wlog.

Definition zu_int_zstd_window (s : zstd_state) (d : ZSTD_DCtx) : zu_status * zstd_state :=
  let '(r, d) := ZSTD_DCtx_setParameter d ZSTD_d_windowLogMax (zstd_window_log (zs_max_output s)) in
  (if ZSTD_isError r then ZU_ERR_INTERNAL else ZU_OK, zs_set_dctx s d (zs_frames s)).

Definition zu_int_zstd_level (s : zstd_state) (c : ZSTD_CCtx) (level : Z) : zu_status * zstd_state :=
  let lv := if level =? ZU_LEVEL_DEFAULT then ZSTD_CLEVEL_DEFAULT else level in
  let '(r, c) := ZSTD_CCtx_setParameter c ZSTD_c_compressionLevel lv in
  if ZSTD_isError r then (ZU_ERR_INVALID_ARGUMENT, zs_set_cctx s c (zs_level s))
  else (ZU_OK, zs_set_cctx s c lv).

(** ** Lifecycle *)

Definition frames_zero : zu_int_frames :=
  mk_frames ZU_INT_FRAME_BODY ZU_INT_FRAMES_ZSTD 0 [0; 0; 0; 0] 0 0 false.

Section lifecycle.
Context {alloc : Allocator}.

Definition zstd_encoder_new (o : zu_encoder_opts) : result zstd_state :=
  if negb (alloc_ok req_state) then Err ZU_ERR_MEMORY
  else if negb (alloc_ok req_library) then Err ZU_ERR_MEMORY
  else
    let s := mk_zstd true (Some ZSTD_createCCtx) None 0 0 frames_zero false in
    match zu_int_zstd_level s ZSTD_createCCtx (eo_level o) with
    | (ZU_OK, s) =>
        let '(r, c) :=
          ZSTD_CCtx_setParameter (default ZSTD_createCCtx (zs_cctx s)) ZSTD_c_checksumFlag 1 in
        if ZSTD_isError r then Err ZU_ERR_INTERNAL else Ok (zs_set_cctx s c (zs_level s))
    | (st, _) => Err st
    end.

Definition zstd_decoder_new (o : zu_decoder_opts) : result zstd_state :=
  if negb (alloc_ok req_state) then Err ZU_ERR_MEMORY
  else if negb (alloc_ok req_library) then Err ZU_ERR_MEMORY
  else
    let s := mk_zstd false None (Some ZSTD_createDCtx) 0 (do_max_output o)
               (zu_int_frames_init ZU_INT_FRAMES_ZSTD (do_flags o)) false in
    match zu_int_zstd_window s ZSTD_createDCtx with
    | (ZU_OK, s) => Ok s
    | (st, _) => Err st
    end.

End lifecycle.

Definition zstd_encoder_reset (s : zstd_state) (o : zu_encoder_opts) : zu_status * zstd_state :=
  match zs_cctx s with
  | None => (ZU_ERR_INVALID_ARGUMENT, s)
  | Some c =>
      let '(r, c) := ZSTD_CCtx_reset c ZSTD_reset_session_only in
      let s := zs_set_cctx s c (zs_level s) in
      if ZSTD_isError r then (ZU_ERR_INTERNAL, s)
      else if negb (eo_level o =? ZU_LEVEL_DEFAULT) && negb (eo_level o =? zs_level s)
      then
        match zu_int_zstd_level s c (eo_level o) with
        | (ZU_OK, s) => (ZU_OK, zs_set_done s false)
        | (rs, s) => (rs, s)
        end
      else (ZU_OK, zs_set_done s false)
  end.

Definition zstd_decoder_reset (s : zstd_state) (o : zu_decoder_opts) : zu_status * zstd_state :=
  match zs_dctx s with
  | None => (ZU_ERR_INVALID_ARGUMENT, s)
  | Some d =>
      let '(r, d) := ZSTD_DCtx_reset d ZSTD_reset_session_only in
      if ZSTD_isError r then (ZU_ERR_INTERNAL, zs_set_dctx s d (zs_frames s))
      else
        let s := zs_set_max s (do_max_output o) in
        let s := zs_set_dctx s d (zu_int_frames_init ZU_INT_FRAMES_ZSTD (do_flags o)) in
        zu_int_zstd_window s d
  end.

(** ** The encoder *)

Definition zstd_op (flush : zu_flush) : Z :=
  match flush with
  | ZU_FINISH => ZSTD_e_end
  | ZU_FLUSH => ZSTD_e_flush
  | ZU_RUN | ZU_FLUSH_OTHER _ => ZSTD_e_continue
  end.

(** One turn of the crank; the loop's state is the context and [s->done]. *)
Definition zstd_encoder_round (s : zstd_state) (buf : zu_buffer) (flush : zu_flush) :
    option zu_status * zstd_state * zu_buffer :=
  match zs_cctx s with
  | None => (Some ZU_ERR_INTERNAL, s, buf)
  | Some c =>
      let op := zstd_op flush in
      let r := ZSTD_compressStream2 c (sub (src_bytes buf) (src_pos buf) (avail_in buf))
                 (avail_out buf) op in
      let s' := zs_set_cctx s (lo_next r) (zs_level s) in
      if ZSTD_isError (lo_ret r) then (Some (zu_int_zstd_error s (lo_ret r)), s', buf)
      else
        let buf' := buf_emit (buf_consume buf (lo_used r)) (lo_out r) in
        let spent := src_pos buf' =? src_size buf' in
        if (op =? ZSTD_e_end) && (lo_ret r =? 0) then (Some ZU_STREAM_END, zs_set_done s' true, buf')
        else if spent && ((op =? ZSTD_e_continue) || (lo_ret r =? 0))
        then (Some ZU_NEED_INPUT, s', buf')
        else if (lo_used r =? 0) && (zlen (lo_out r) =? 0)
        then (Some (if avail_out buf =? 0 then ZU_NEED_OUTPUT else ZU_ERR_INTERNAL), s', buf')
        else (None, s', buf')
  end.

Definition zstd_encoder_fuel (s : zstd_state) (buf : zu_buffer) : nat :=
  S (Z.to_nat (avail_in buf + avail_out buf)).

Definition zstd_encoder_process (s : zstd_state) (buf : zu_buffer) (flush : zu_flush) :
    zu_status * zstd_state * zu_buffer :=
  if zs_done s then (ZU_STREAM_END, s, buf)
  else run_process zstd_encoder_round zstd_encoder_fuel s buf flush.

(** ** The decoder *)

Definition zstd_feed_held (s : zstd_state) (d : ZSTD_DCtx) (p : bytes) : zu_status * ZSTD_DCtx :=
  let r := ZSTD_decompressStream d p 0 in
  if ZSTD_isError (lo_ret r) then (zu_int_zstd_error s (lo_ret r), lo_next r)
  else (if lo_used r =? zlen p then ZU_OK else ZU_ERR_INTERNAL, lo_next r).

(** The probe as the source writes it; it is [framed_probe]'s. *)
Definition zstd_probe (s : zstd_state) (d : ZSTD_DCtx) : result (Z * Z * bool) * ZSTD_DCtx :=
  let r := ZSTD_decompressStream d [] 1 in
  if ZSTD_isError (lo_ret r) then (Err (zu_int_zstd_error s (lo_ret r)), lo_next r)
  else (Ok (byte_at (lo_out r) 0, zlen (lo_out r), lo_ret r =? 0), lo_next r).

Lemma zstd_probe_framed s d : zstd_probe s d = framed_probe (zu_int_zstd_error s) d.
Proof. done. Qed.

Definition zstd_decoder_process (s : zstd_state) (buf : zu_buffer) (flush : zu_flush) :
    zu_status * zstd_state * zu_buffer :=
  match zs_dctx s with
  | None => (ZU_ERR_INTERNAL, s, buf)
  | Some d =>
      let '(st, (f, d), buf) :=
        framed_process (zu_int_zstd_error s) (zstd_feed_held s) (zs_frames s, d) buf flush in
      (st, zs_set_dctx s d f, buf)
  end.

(** ** Bound and vtable *)

Definition zstd_bound (level n : Z) : result Z :=
  let b := ZSTD_compressBound n in
  if ZSTD_isError b || (b =? 0) then Err ZU_ERR_INVALID_ARGUMENT else Ok b.

Definition zu_int_codec_zstd {alloc : Allocator} : zu_codec_vtable := {|
  vt_state := zstd_state;
  vt_struct_size := sizeof_vtable;
  vt_codec := ZU_CODEC_ZSTD;
  vt_name := Some "zstd"%string;
  vt_content_encoding := Some "zstd"%string;
  vt_source := Some "zukomp"%string;
  vt_level_min := -131072;
  vt_level_max := 22;
  vt_level_default := ZSTD_CLEVEL_DEFAULT;
  vt_flags := Z.lor (Z.lor ZU_CAN_ENCODE ZU_CAN_DECODE) ZU_CAN_FLUSH;
  vt_magic := Some zstd_magic;
  vt_magic_len := 4;
  vt_magic_offset := 0;
  vt_sniff := None;
  vt_encoder_new := Some zstd_encoder_new;
  vt_encoder_process := Some zstd_encoder_process;
  vt_encoder_reset := Some zstd_encoder_reset;
  vt_encoder_free := true;
  vt_decoder_new := Some zstd_decoder_new;
  vt_decoder_process := Some zstd_decoder_process;
  vt_decoder_reset := Some zstd_decoder_reset;
  vt_decoder_free := true;
  vt_bound := Some zstd_bound;
  vt_level_fast := 1;
  vt_level_best := 19;
|}.

(** ** The window *)

Lemma ceil_log2_loop_spec fuel : forall b n,
  0 <= b <= 63 -> 63 - b <= Z.of_nat fuel -> (b = 0 \/ 2 ^ (b - 1) < n) ->
  let r := ceil_log2_loop fuel b n in
  b <= r <= 63 /\ (r = 0 \/ 2 ^ (r - 1) < n) /\ (n <= 2 ^ r \/ r = 63).
Proof.
  induction fuel as [|fuel IH]; intros b n Hb Hf Hlow; cbn [ceil_log2_loop].
  { split; [lia|]. split; [done|]. right. lia. }
  destruct (Z.ltb_spec b 63); cbn [andb]; [|split; [lia|]; split; [done|]; right; lia].
  assert (u64 (Z.shiftl 1 b) = 2 ^ b) as ->.
  { rewrite Z.shiftl_1_l. apply u64_small. split; [by apply Z.pow_nonneg|].
    apply Z.pow_lt_mono_r; lia. }
  destruct (Z.ltb_spec (2 ^ b) n); [|split; [lia|]; split; [done|]; left; lia].
  destruct (IH (b + 1) n ltac:(lia) ltac:(lia)) as (H1 & H2 & H3).
  { right. by replace (b + 1 - 1) with b by lia. }
  split; [lia|]. by split.
Qed.

(** The smallest window log at least the floor that holds [max] bytes, if it is below the
    default; the default otherwise. *)
Record window_fits (w max : Z) : Prop := {
  wf_range : 23 <= w <= 27;
  wf_unlimited : max = 0 -> w = 27;
  wf_holds : w < 27 -> max <= 2 ^ w;
  wf_least : forall v, 23 <= v < w -> max = 0 \/ 2 ^ v < max;
}.

Lemma zstd_window_log_fits max : 0 <= max < 2 ^ 64 -> window_fits (zstd_window_log max) max.
Proof.
  intros Hm. unfold zstd_window_log, ZU_INT_ZSTD_WINDOWLOG_DEFAULT, ZU_INT_ZSTD_WINDOWLOG_FLOOR.
  destruct (Z.eqb_spec max 0); cbn [negb]; [constructor; [lia|done|lia|by left]|].
  pose proof (ceil_log2_loop_spec 63 0 max ltac:(lia) ltac:(lia) ltac:(by left)) as (H1 & H2 & H3).
  fold (zu_int_ceil_log2 max) in *. set (r := zu_int_ceil_log2 max) in *. clearbody r.
  assert (Hlt : forall v, 0 <= v < r -> 2 ^ v < max).
  { intros v Hv. destruct H2 as [->|H2]; [lia|]. eapply Z.le_lt_trans; [|exact H2].
    apply Z.pow_le_mono_r; lia. }
  assert (Hge : r <= 62 -> forall v, r <= v -> max <= 2 ^ v).
  { intros Hr v Hv. destruct H3 as [H3|H3]; [|lia]. eapply Z.le_trans; [exact H3|].
    apply Z.pow_le_mono_r; lia. }
  destruct (Z.ltb_spec r 23); zcase; constructor; intros; try lia; try (apply Hge; lia); right; apply Hlt; lia.
Qed.

(** ** The encoder's session with libzstd *)

(** From [c0], successful calls took [i], wrote [o] and left [c]; each call's directive and
    answer, the last one first. *)
Inductive zstd_session (c0 : ZSTD_CCtx) : ZSTD_CCtx -> bytes -> bytes -> list (Z * Z) -> Prop :=
  | zc_start : zstd_session c0 c0 [] [] []
  | zc_call c i o calls next_in room op r :
      zstd_session c0 c i o calls -> 0 <= room -> r = ZSTD_compressStream2 c next_in room op ->
      ZSTD_isError (lo_ret r) = false ->
      zstd_session c0 (lo_next r) (i ++ take (Z.to_nat (lo_used r)) next_in) (o ++ lo_out r)
        ((op, lo_ret r) :: calls).

(** The last call completed a frame. *)
Definition frame_complete (calls : list (Z * Z)) : Prop := head calls = Some (ZSTD_e_end, 0).

(** zstd.h's rule for one frame: once ZSTD_e_end was said it is said again until the frame is
    complete, and nothing is asked after that. *)
Fixpoint one_frame (calls : list (Z * Z)) : Prop :=
  match calls with
  | (op, _) :: (((op0, r0) :: _) as earlier) =>
      (op0 = ZSTD_e_end -> op = ZSTD_e_end /\ r0 <> 0) /\ one_frame earlier
  | _ => True
  end.

(** What is known of the calls besides; [call_closed] says that a further one with the
    directive [op], on a frame that is not complete, keeps it so. *)
Definition call_closed (K : list (Z * Z) -> Prop) (op : Z) : Prop :=
  forall r calls, K calls -> ~ frame_complete calls -> K ((op, r) :: calls).

(** The library took exactly what was consumed, and everything it wrote was delivered. *)
Definition zenc_inv (K : list (Z * Z) -> Prop) (c0 : ZSTD_CCtx) (s : zstd_state)
    (taken given : bytes) : Prop :=
  exists c calls, zs_cctx s = Some c /\ zstd_session c0 c taken given calls /\ K calls /\
    (zs_done s = true <-> frame_complete calls).

(** What an answer promises: [b'] is the buffer after the call. *)
Definition zenc_answer (K : list (Z * Z) -> Prop) (c0 : ZSTD_CCtx) (flush : zu_flush) (s' : zstd_state) (b' : zu_buffer)
    (taken given : bytes) (st : zu_status) : Prop :=
  match st with
  | ZU_STREAM_END => zenc_inv K c0 s' taken given /\ zs_done s' = true
  | ZU_NEED_INPUT =>
      zenc_inv K c0 s' taken given /\ avail_in b' = 0 /\ flush <> ZU_FINISH /\
      (flush = ZU_FLUSH -> exists c calls, zstd_session c0 c taken given ((ZSTD_e_flush, 0) :: calls))
  | ZU_NEED_OUTPUT => zenc_inv K c0 s' taken given /\ avail_out b' = 0
  | ZU_OK | ZU_STATUS_OTHER _ => False
  | _ => True
  end.

Lemma zstd_error_failed s r : failed (zu_int_zstd_error s r).
Proof. unfold failed, zu_int_zstd_error. repeat split_if; done. Qed.

Lemma zenc_answer_failed K c0 flush s' b' taken given st :
  failed st -> zenc_answer K c0 flush s' b' taken given st.
Proof. by destruct st. Qed.

Context {zstd_ok : ZstdOk}.

Lemma zenc_round K c0 s b taken given flush :
  call_closed K (zstd_op flush) -> zenc_inv K c0 s taken given -> zs_done s = false -> buffer_ok b ->
  let r := zstd_encoder_round s b flush in
  exists i o, moved b r.2 i o /\
    match r.1.1 with
    | Some st => zenc_answer K c0 flush r.1.2 r.2 (taken ++ i) (given ++ o) st
    | None => zenc_inv K c0 r.1.2 (taken ++ i) (given ++ o) /\ zs_done r.1.2 = false /\
        0 < zlen i + zlen o
    end.
Proof.
  intros HK (c & calls & Ec & Hses & Hcalls & Hdone) Hd Hb. unfold zstd_encoder_round. rewrite Ec.
  pose proof (avail_in_nonneg b Hb). pose proof (avail_out_nonneg b Hb) as Ho.
  pose proof (zstd_compress_bounds c (sub (src_bytes b) (src_pos b) (avail_in b)) (avail_out b)
    (zstd_op flush) Ho) as Hbd. cbv zeta in Hbd.
  pose proof (zc_call c0 c taken given calls (sub (src_bytes b) (src_pos b) (avail_in b))
    (avail_out b) (zstd_op flush) _ Hses Ho eq_refl) as Hcall.
  set (r := ZSTD_compressStream2 _ _ _ _) in *. destruct (ZSTD_isError (lo_ret r)) eqn:Ee.
  { exists [], []. split; [by apply moved_refl|]. apply zenc_answer_failed, zstd_error_failed. }
  specialize (Hbd eq_refl). specialize (Hcall eq_refl). destruct Hbd as [Hu Hn].
  rewrite (zlen_src_sub b (avail_in b)) in Hu by (done || lia).
  pose proof (moved_through b (lo_used r) (lo_out r) Hb Hu Hn) as Hmv.
  set (t := sub (src_bytes b) (src_pos b) (lo_used r)) in *.
  assert (Et : take (Z.to_nat (lo_used r)) (sub (src_bytes b) (src_pos b) (avail_in b)) = t).
  { unfold t, sub. rewrite take_take. f_equal. lia. }
  assert (Hlt : zlen t = lo_used r) by (by apply zlen_src_sub).
  rewrite Et in Hcall. clear Et. clearbody t. pose proof (moved_ok _ _ _ _ Hb Hmv) as Hb'.
  set (b' := buf_emit _ _) in *.
  assert (Hspent : (src_pos b' =? src_size b') = true -> avail_in b' = 0)
    by (unfold avail_in; intros; zbool; lia).
  exists t, (lo_out r). split; [by repeat split_if|].
  assert (HK' : K ((zstd_op flush, lo_ret r) :: calls))
    by (apply HK; [done|]; intros ?%Hdone; congruence).
  assert (Hinv : forall d, (d = true <-> frame_complete [(zstd_op flush, lo_ret r)]) ->
    zenc_inv K c0 (zs_set_done (zs_set_cctx s (lo_next r) (zs_level s)) d) (taken ++ t) (given ++ lo_out r)).
  { intros d Hl. exists (lo_next r), ((zstd_op flush, lo_ret r) :: calls). by split_and!. }
  assert (Hsame : zs_set_cctx s (lo_next r) (zs_level s) =
    zs_set_done (zs_set_cctx s (lo_next r) (zs_level s)) false)
    by (unfold zs_set_done, zs_set_cctx; cbn; by rewrite Hd).
  destruct ((zstd_op flush =? ZSTD_e_end) && (lo_ret r =? 0)) eqn:E1.
  { zbool. cbn. split; [|done]. apply Hinv. unfold frame_complete. cbn. split; [|done]. congruence. }
  assert (Hf : zenc_inv K c0 (zs_set_cctx s (lo_next r) (zs_level s)) (taken ++ t) (given ++ lo_out r))
    by (rewrite Hsame; apply Hinv; split; [done|]; unfold frame_complete; cbn; intros [= Eop Er];
        rewrite Eop, Er in E1; done).
  destruct ((src_pos b' =? src_size b') && ((zstd_op flush =? ZSTD_e_continue) || (lo_ret r =? 0))) eqn:E2.
  { apply andb_true_iff in E2 as [Es Eo]. cbn. split; [done|]. split; [by apply Hspent|].
    destruct flush; cbn in E1, Eo |- *; (split; [|try done]); try done.
    - intros _. exists (lo_next r), calls. zbool. by rewrite Eo in Hcall.
    - by rewrite E1 in Eo. }
  destruct ((lo_used r =? 0) && (zlen (lo_out r) =? 0)) eqn:E3.
  - cbn. destruct (Z.eqb_spec (avail_out b) 0) as [E0|]; [|done]. cbn. split; [done|].
    destruct (moved_counts _ _ _ _ Hb Hmv) as [_ Hc]. pose proof (zlen_nonneg (lo_out r)).
    pose proof (avail_out_nonneg b' Hb'). unfold b' in *. lia.
  - cbn. split; [done|]. split; [done|]. apply andb_false_iff in E3. rewrite !Z.eqb_neq in E3.
    pose proof (zlen_nonneg (lo_out r)). lia.
Qed.

End zstd.
