(* ===== verification/ZstdProps.v ===== *)
(** * What zstd's codec promises

    The encoder's session with libzstd, the decoder's integrity, the window ceiling and
    the cursor contract, from Zstd.v and FramedDecoder.v. *)
From S2P Require Import Prelude Types Stream ProcessLoop Frames FramedDecoder Zstd.

Section zstd.
Context {zstd : Zstd} {zstd_ok : ZstdOk}.

(** ** The encoder *)

(** One call ends, and its answer is true. *)
Lemma zenc_call K c0 s b taken given flush :
  call_closed K (zstd_op flush) -> zenc_inv K c0 s taken given -> buffer_ok b ->
  let r := zstd_encoder_process s b flush in
  (zs_done s = true \/
   is_Some (process_loop zstd_encoder_round (zstd_encoder_fuel s b) s b flush)) /\
  exists i o, moved b r.2 i o /\
    zenc_answer K c0 flush r.1.2 r.2 (taken ++ i) (given ++ o) r.1.1.
Proof.
  intros HK Hinv Hb. unfold zstd_encoder_process. destruct (zs_done s) eqn:Ed.
  { split; [by left|]. exists [], []. rewrite !app_nil_r. split; [by apply moved_refl|]. by cbn. }
  set (I := fun s1 b1 => exists i o, moved b b1 i o /\ zenc_inv K c0 s1 (taken ++ i) (given ++ o) /\
    zs_done s1 = false).
  set (Q := fun st s1 b1 => exists i o, moved b b1 i o /\
    zenc_answer K c0 flush s1 b1 (taken ++ i) (given ++ o) st).
  assert (Hr : round_ok zstd_encoder_round I Q (fun _ b1 => avail_in b1 + avail_out b1) flush).
  { intros s1 b1 (i & o & Hm & Hi & Hd). pose proof (moved_ok _ _ _ _ Hb Hm) as Hb1.
    destruct (zenc_round K c0 s1 b1 _ _ flush HK Hi Hd Hb1) as (i1 & o1 & Hm1 & Hp).
    destruct (zstd_encoder_round s1 b1 flush) as [ [ost s2] b2]. cbn [fst snd] in *.
    pose proof (moved_trans _ _ _ _ _ _ _ Hm Hm1) as Hm2. rewrite <- !app_assoc in Hp.
    destruct ost as [st|]; [by exists (i ++ i1), (o ++ o1)|]. destruct Hp as (Hp & Hd2 & Hpos).
    split; [by exists (i ++ i1), (o ++ o1)|].
    destruct (moved_counts _ _ _ _ Hb1 Hm1). pose proof (moved_ok _ _ _ _ Hb1 Hm1) as Hb2.
    pose proof (avail_in_nonneg b2 Hb2). pose proof (avail_out_nonneg b2 Hb2). lia. }
  destruct (process_loop_run zstd_encoder_round I Q _ flush Hr (zstd_encoder_fuel s b) s b)
    as (st & s' & b' & E & HQ).
  - exists [], []. rewrite !app_nil_r. split; [by apply moved_refl|done].
  - unfold zstd_encoder_fuel. lia.
  - split; [right; eauto|]. unfold run_process. by rewrite E.
Qed.

(** Nothing else is known of the calls of an arbitrary client. *)
Definition any_calls (calls : list (Z * Z)) : Prop := True.

Lemma zenc_start K c0 s0 :
  K [] -> zs_cctx s0 = Some c0 -> zs_done s0 = false -> zenc_inv K c0 s0 [] [].
Proof.
  intros HK Hc Hd. exists c0, []. split_and!; [done|apply zc_start|done|]. by rewrite Hd.
Qed.

Lemma zenc_progress K c0 s b f taken given st s' b' i o :
  call_closed K (zstd_op f) -> zenc_inv K c0 s taken given -> buffer_ok b ->
  zstd_encoder_process s b f = (st, s', b') -> is_progress st = true -> moved b b' i o ->
  zenc_inv K c0 s' (taken ++ i) (given ++ o).
Proof.
  intros HK Hinv Hb E Hst Hm. destruct (zenc_call K c0 s b taken given f HK Hinv Hb) as (_ & i' & o' & Hm' & Hp).
  rewrite E in Hm', Hp. cbn [fst snd] in *.
  destruct (moved_unique _ _ _ _ _ _ Hm Hm') as [-> ->]. destruct st; try done; apply Hp.
Qed.

Lemma zenc_run_inv c0 s0 s taken given :
  zs_cctx s0 = Some c0 -> zs_done s0 = false ->
  codec_run zstd_encoder_process s0 s taken given -> zenc_inv any_calls c0 s taken given.
Proof.
  intros Hc Hd. apply (codec_run_inv zstd_encoder_process (zenc_inv any_calls c0)); [by apply zenc_start|].
  intros s1 i1 o1 b f st s' b' i o Hinv Hb _ E Hst Hm. by eapply zenc_progress.
Qed.

(** A client that sticks to ZU_FINISH makes one frame. *)
Definition frame_calls (fin : bool) (calls : list (Z * Z)) : Prop :=
  one_frame calls /\ (forall r, head calls = Some (ZSTD_e_end, r) -> fin = true).

Lemma frame_calls_closed f : call_closed (frame_calls (is_finish f)) (zstd_op f).
Proof.
  intros r calls [H1 H2] Hc. split.
  - destruct calls as [|[op0 r0] calls]; [done|]. split; [|done]. intros ->. split.
    + specialize (H2 r0 eq_refl). by destruct f.
    + intros ->. by apply Hc.
  - intros r' [= Eop _]. by destruct f.
Qed.

Lemma frame_calls_mono fin f calls :
  (fin = true -> f = ZU_FINISH) -> frame_calls fin calls -> frame_calls (is_finish f) calls.
Proof. intros Hf [H1 H2]. split; [done|]. intros r E. by rewrite (Hf (H2 r E)). Qed.

Lemma zenc_mono (K K' : list (Z * Z) -> Prop) c0 s taken given :
  (forall calls, K calls -> K' calls) -> zenc_inv K c0 s taken given -> zenc_inv K' c0 s taken given.
Proof. intros HK (c & calls & ? & ? & ? & ?). exists c, calls. split_and!; auto; tauto. Qed.

Lemma zenc_ordered_inv c0 s0 x fin s taken given :
  zs_cctx s0 = Some c0 -> zs_done s0 = false ->
  ordered_run zstd_encoder_process x s0 fin s taken given ->
  zenc_inv (frame_calls fin) c0 s taken given.
Proof.
  intros Hc Hd. apply (ordered_run_inv zstd_encoder_process (fun fin => zenc_inv (frame_calls fin) c0)).
  { by apply zenc_start. }
  intros fin1 s1 i1 o1 b f st s' b' i o Hinv Hb _ Hfin _ E Hst Hm.
  eapply zenc_progress; [apply frame_calls_closed| |done..].
  eapply zenc_mono; [|exact Hinv]. intros calls. by apply frame_calls_mono.
Qed.

(** C36: the zstd encoder's answers are true.  After any calls on a new or reset encoder, a
    further call returns, and: libzstd was given exactly the bytes the encoder consumed, in
    order, and every byte it wrote was delivered; ZU_NEED_INPUT is answered only when all
    input was taken, never to ZU_FINISH, and to ZU_FLUSH only when libzstd said that
    nothing is left to flush; ZU_NEED_OUTPUT only when the window is full; ZU_STREAM_END
    only after libzstd completed the frame, and again on every later call. *)
Theorem zstd_encoder_answers c0 s0 s taken given b flush :
  zs_cctx s0 = Some c0 -> zs_done s0 = false ->
  codec_run zstd_encoder_process s0 s taken given -> buffer_ok b ->
  let r := zstd_encoder_process s b flush in
  (zs_done s = true \/
   is_Some (process_loop zstd_encoder_round (zstd_encoder_fuel s b) s b flush)) /\
  exists i o, moved b r.2 i o /\
    zenc_answer any_calls c0 flush r.1.2 r.2 (taken ++ i) (given ++ o) r.1.1 /\
    (r.1.1 = ZU_STREAM_END -> forall b2 flush2,
       zstd_encoder_process r.1.2 b2 flush2 = (ZU_STREAM_END, r.1.2, b2)).
Proof.
  intros Hc Hd Hrun Hb. pose proof (zenc_run_inv c0 s0 s taken given Hc Hd Hrun) as Hinv.
  destruct (zenc_call any_calls c0 s b taken given flush ltac:(done) Hinv Hb) as (Hret & i & o & Hm & Ha).
  split; [done|]. exists i, o. split; [done|]. split; [done|]. intros E b2 flush2.
  rewrite E in Ha. destruct Ha as [_ Hdone]. unfold zstd_encoder_process at 1. by rewrite Hdone.
Qed.

(** ** The decoder *)

Lemma zstd_feed_is_call s : feed_is_call (zstd_feed_held s).
Proof.
  intros d p d'. unfold zstd_feed_held. cbn.
  destruct (ZSTD_isError _) eqn:Ee.
  - intros [= E _]. by destruct (failed_not_ok _ (zstd_error_failed s _) E).
  - destruct (Z.eqb_spec (lo_used (ZSTD_decompressStream d p 0)) (zlen p)); [|done]. by intros [= <-].
Qed.

Lemma zstd_feed_status s d p st d' : zstd_feed_held s d p = (st, d') -> st = ZU_OK \/ failed st.
Proof.
  unfold zstd_feed_held. destruct (ZSTD_isError _).
  - intros [= <- _]. right. apply zstd_error_failed.
  - destruct (_ =? _); intros [= <- _]; [by left|by right].
Qed.

(** The decoder's own copy of the framed decoders' invariant. *)
Definition zdec_inv (d0 : ZSTD_DCtx) (s : zstd_state) (eaten out : bytes) : Prop :=
  exists d, zs_dctx s = Some d /\ fd_inv (lib := zstd_lib) d0 (zs_frames s, d) eaten out.

Lemma zdec_call d0 s b eaten out flush :
  zdec_inv d0 s eaten out -> buffer_ok b ->
  let r := zstd_decoder_process s b flush in
  exists i o d, moved b r.2 i o /\ zs_dctx r.1.2 = Some d /\
    fd_post (lib := zstd_lib) d0 (eaten ++ i) (out ++ o) (Some r.1.1) (zs_frames r.1.2, d) /\
    honest r.1.1 r.2.
Proof.
  intros (d & Ed & Hinv) Hb. unfold zstd_decoder_process. rewrite Ed.
  destruct (framed_process_call (lib := zstd_lib) (zu_int_zstd_error s) (zstd_feed_held s)
    (zstd_feed_is_call s) (fun r _ => zstd_error_failed s r) (zstd_feed_status s)
    d0 (zs_frames s, d) eaten out b flush Hinv Hb) as (i & o & Hm & Hp & Hh).
  destruct (framed_process _ _ _ _ _) as [ [st [f' d'] ] b']. by exists i, o, d'.
Qed.

Lemma zdec_run_inv d0 flags s0 s eaten out :
  zs_dctx s0 = Some d0 -> zs_frames s0 = zu_int_frames_init ZU_INT_FRAMES_ZSTD flags ->
  codec_run zstd_decoder_process s0 s eaten out -> zdec_inv d0 s eaten out.
Proof.
  intros Ed Ef. apply (codec_run_inv zstd_decoder_process (zdec_inv d0)).
  { exists d0. split; [done|]. rewrite Ef. apply (fd_inv_start (lib := zstd_lib)). }
  intros s1 i1 o1 b f st s' b' i o Hinv Hb _ E Hst Hm.
  destruct (zdec_call d0 s1 b i1 o1 f Hinv Hb) as (i' & o' & d & Hm' & Hd & Hp & _).
  rewrite E in Hm', Hp, Hd. cbn [fst snd] in *.
  destruct (moved_unique _ _ _ _ _ _ Hm Hm') as [-> ->]. exists d. split; [done|].
  apply Hp. by apply progress_not_failed.
Qed.


(** ** The cursor contract *)

#[export] Instance zstd_decoder_contract : CursorContract zstd_decoder_process.
Proof.
  intros s b f st s' b' Hb E. unfold zstd_decoder_process in E.
  destruct (zs_dctx s) as [d|]; [|injection E as <- <- <-; by apply buffer_step_refl].
  destruct (framed_process (lib := zstd_lib) (zu_int_zstd_error s) (zstd_feed_held s) (zs_frames s, d) b f)
    as [ [st1 [f1 d1] ] b1] eqn:Ef. injection E as <- <- <-.
  by eapply (framed_process_contract (lib := zstd_lib) (zu_int_zstd_error s) (zstd_feed_held s)).
Qed.

Lemma zenc_round_step s b flush :
  buffer_ok b -> buffer_step b (zstd_encoder_round s b flush).2.
Proof.
  intros Hb. unfold zstd_encoder_round. destruct (zs_cctx s) as [c|]; [|by apply buffer_step_refl].
  pose proof (zstd_compress_bounds c (sub (src_bytes b) (src_pos b) (avail_in b)) (avail_out b)
    (zstd_op flush) ltac:(by apply avail_out_nonneg)) as Hbd. cbv zeta in Hbd.
  set (r := ZSTD_compressStream2 _ _ _ _) in *.
  destruct (ZSTD_isError (lo_ret r)); [by apply buffer_step_refl|]. destruct (Hbd eq_refl) as [Hu Hn].
  rewrite (zlen_src_sub b (avail_in b)) in Hu by (try done; pose proof (avail_in_nonneg b Hb); lia).
  pose proof (mv_step _ _ _ _ (moved_through b (lo_used r) (lo_out r) Hb Hu Hn)).
  by repeat split_if.
Qed.

#[export] Instance zstd_encoder_contract : CursorContract zstd_encoder_process.
Proof.
  intros s b f st s' b' Hb E. unfold zstd_encoder_process in E.
  destruct (zs_done s); [injection E as <- <- <-; by apply buffer_step_refl|].
  by eapply (run_process_contract zstd_encoder_round zstd_encoder_fuel zenc_round_step).
Qed.

End zstd.

(** ** A small library *)

(** Compression copies, and ends a frame with 0. *)
Definition toy_compress (c : unit) (next_in : bytes) (room op : Z) : lib_outcome unit :=
  let n := Z.min (zlen next_in) room in
  let o := take (Z.to_nat n) next_in in
  if n <? zlen next_in then mk_lib 1 n o tt
  else if negb (op =? ZSTD_e_end) then mk_lib 0 n o tt
  else if n <? room then mk_lib 0 n (o ++ [0]) tt
  else mk_lib 1 n o tt.

Definition toy_zstd : Zstd := {|
  ZSTD_CCtx := unit;
  ZSTD_DCtx := unit;
  ZSTD_createCCtx := tt;
  ZSTD_createDCtx := tt;
  ZSTD_CCtx_setParameter := fun _ _ _ => (0, tt);
  ZSTD_DCtx_setParameter := fun _ _ _ => (0, tt);
  ZSTD_CCtx_reset := fun _ _ => (0, tt);
  ZSTD_DCtx_reset := fun _ _ => (0, tt);
  ZSTD_compressStream2 := toy_compress;
  ZSTD_decompressStream := toy_decompress;
  ZSTD_isError := toy_isError;
  ZSTD_getErrorCode := fun r => r - 180;
  ZSTD_compressBound := fun n => n + 1;
|}.

Lemma toy_zstd_ok : @ZstdOk toy_zstd.
Proof.
  constructor; [constructor|].
  - intros [] l room Hr. cbn. unfold toy_decompress. pose proof (toy_frame_bounds l (Z.to_nat room)) as H.
    destruct (toy_frame l (Z.to_nat room)) as [ [u o] r]. cbn. intros _. unfold zlen in *. lia.
  - intros [] l room. cbn. unfold toy_decompress. pose proof (toy_frame_bounds l (Z.to_nat room)) as H.
    destruct (toy_frame l (Z.to_nat room)) as [ [u o] r]. cbn. intros _ ->. pose proof (zlen_nonneg o). lia.
  - intros [] l room op Hr. cbn. unfold toy_compress. pose proof (zlen_nonneg l).
    assert (Hl : zlen (take (Z.to_nat (Z.min (zlen l) room)) l) = Z.min (zlen l) room).
    { unfold zlen. rewrite length_take. unfold zlen in *. lia. }
    destruct (Z.ltb_spec (Z.min (zlen l) room) (zlen l)); [|destruct (negb _);
      [|destruct (Z.ltb_spec (Z.min (zlen l) room) room)] ]; intros _; cbn [lo_used lo_out];
      rewrite ?zlen_app, ?Hl; change (zlen [0]) with 1; lia.
Qed.

Definition toy_cctx : @ZSTD_CCtx toy_zstd := tt.
Definition toy_dctx : @ZSTD_DCtx toy_zstd := tt.

#[local] Existing Instance toy_zstd.
#[local] Existing Instance toy_zstd_ok.
#[local] Instance all_allocs : Allocator := fun _ => true.

Definition toy_zenc : zstd_state := mk_zstd true (Some toy_cctx) None 3 0 frames_zero false.
Definition toy_zdec : zstd_state :=
  mk_zstd false None (Some toy_dctx) 0 0 (zu_int_frames_init ZU_INT_FRAMES_ZSTD 3) false.

(** Three bytes in, room for seven. *)
Definition toy_window (l : bytes) : zu_buffer :=
  mk_buffer (Some l) (zlen l) 0 (Some [9; 9; 9; 9; 9; 9; 9]) 7 0.

Lemma toy_window_ok l : zlen l < 2 ^ 64 -> buffer_ok (toy_window l).
Proof. intros. pose proof (zlen_nonneg l). constructor; cbn; unfold zlen in *; cbn; lia. Qed.

Lemma zstd_encoder_answers_witness :
  let r := zstd_encoder_process toy_zenc (toy_window [65; 66; 67]) ZU_FINISH in
  r.1.1 = ZU_STREAM_END /\
  exists i o, moved (toy_window [65; 66; 67]) r.2 i o /\
    zenc_answer any_calls toy_cctx ZU_FINISH r.1.2 r.2 ([] ++ i) ([] ++ o) r.1.1 /\
    (r.1.1 = ZU_STREAM_END -> forall b2 flush2,
       zstd_encoder_process r.1.2 b2 flush2 = (ZU_STREAM_END, r.1.2, b2)).
Proof.
  split; [vm_compute; reflexivity|].
  apply (zstd_encoder_answers toy_cctx toy_zenc toy_zenc [] [] (toy_window [65; 66; 67]) ZU_FINISH);
    [reflexivity|reflexivity|apply run_start|apply toy_window_ok; reflexivity].
Defined.


(** ** The decoder's window *)

(** C37: the memory a frame header may claim follows max_output.  A new decoder, and one
    that was reset, asks libzstd for a window of 2^w bytes at most with 23 <= w <= 27:
    27 without a limit, and under a limit the least such w that holds it, or 27. *)
Theorem zstd_window_ceiling {zstd : Zstd} {alloc : Allocator} (o : zu_decoder_opts) (s : zstd_state) :
  0 <= do_max_output o < 2 ^ 64 ->
  (zstd_decoder_new o = Ok s ->
   exists w, window_fits w (do_max_output o) /\
     zs_dctx s = Some (ZSTD_DCtx_setParameter ZSTD_createDCtx ZSTD_d_windowLogMax w).2) /\
  (forall s', zstd_decoder_reset s o = (ZU_OK, s') ->
   exists w d, window_fits w (do_max_output o) /\
     zs_dctx s' = Some (ZSTD_DCtx_setParameter d ZSTD_d_windowLogMax w).2).
Proof.
  intros Hm. pose proof (zstd_window_log_fits _ Hm) as Hw. split.
  - unfold zstd_decoder_new, zu_int_zstd_window. do 2 (destruct (negb _); [done|]).
    cbn [zs_max_output]. destruct (ZSTD_DCtx_setParameter _ _ _) as [r d] eqn:E.
    destruct (ZSTD_isError r); [done|]. intros [= <-]. eexists. split; [exact Hw|]. by rewrite E.
  - intros s'. unfold zstd_decoder_reset. destruct (zs_dctx s) as [d0|]; [|done].
    destruct (ZSTD_DCtx_reset d0 _) as [r0 d]. destruct (ZSTD_isError r0); [done|].
    unfold zu_int_zstd_window. cbn [zs_max_output zs_set_max zs_set_dctx].
    destruct (ZSTD_DCtx_setParameter _ _ _) as [r d'] eqn:E. intros [= _ <-].
    exists (zstd_window_log (do_max_output o)), d. split; [exact Hw|]. by rewrite E.
Qed.

Lemma zstd_window_ceiling_witness :
  let o := mk_decoder_opts 32 17 (2 ^ 24 + 1) 0 0 0 in
  window_fits 25 (2 ^ 24 + 1) /\ zstd_window_log (2 ^ 24 + 1) = 25 /\
  (forall s', zstd_decoder_reset toy_zdec o = (ZU_OK, s') ->
   exists w d, window_fits w (do_max_output o) /\
     zs_dctx s' = Some (ZSTD_DCtx_setParameter d ZSTD_d_windowLogMax w).2).
Proof.
  split; [apply (zstd_window_log_fits (2 ^ 24 + 1)); lia|]. split; [vm_compute; reflexivity|].
  apply (zstd_window_ceiling (mk_decoder_opts 32 17 (2 ^ 24 + 1) 0 0 0) toy_zdec). cbn. lia.
Defined.
