(* ===== verification/Lz4.v ===== *)
(** * The LZ4 codecs: src/codec_lz4.c

    lz4-frame streams through LZ4F_*, its encoder by way of a staging buffer and its
    decoder by the loop of FramedDecoder.v; lz4-block gathers its input and works in one
    pass.  liblz4 is the class [Lz4]. *)
From S2P Require Import Prelude Types SizeArith Registry Stream ProcessLoop Frames FramedDecoder.

(** The order of LZ4F_LIST_ERRORS (lz4frame.h). *)
Definition LZ4F_ERROR_parameter_invalid : Z := 4.
Definition LZ4F_ERROR_compressionLevel_invalid : Z := 5.
Definition LZ4F_ERROR_blockChecksum_invalid : Z := 7.
Definition LZ4F_ERROR_allocation_failed : Z := 9.
Definition LZ4F_ERROR_srcSize_tooLarge : Z := 10.
Definition LZ4F_ERROR_frameHeader_incomplete : Z := 12.
Definition LZ4F_ERROR_headerChecksum_invalid : Z := 17.
Definition LZ4F_ERROR_contentChecksum_invalid : Z := 18.

Definition LZ4F_HEADER_SIZE_MAX : Z := 19.
Definition LZ4HC_CLEVEL_MIN : Z := 2.
Definition LZ4HC_CLEVEL_MAX : Z := 12.
Definition LZ4_MAX_INPUT_SIZE : Z := 0x7E000000.

(** The macro LZ4_COMPRESSBOUND (lz4.h). *)
Definition LZ4_compressBound (isize : Z) : Z :=
  if u32 isize >? LZ4_MAX_INPUT_SIZE then 0 else s32 (isize + isize / 255 + 16).

(** The fields of [LZ4F_preferences_t] that are set. *)
Record LZ4F_preferences := mk_prefs {
  compressionLevel : Z;
  contentChecksumFlag : bool;
  contentSize : Z;
}.

(** An LZ4F compression call returns the number of bytes it wrote, which are [lo_out].  The
    block functions return an [int] -- at least 0, the number of bytes written, when they
    succeed -- and the bytes. *)
Class Lz4 := {
  LZ4F_cctx : Type;
  LZ4F_dctx : Type;
  LZ4F_createCompressionContext : Z * LZ4F_cctx;
  LZ4F_createDecompressionContext : Z * LZ4F_dctx;
  LZ4F_resetDecompressionContext : LZ4F_dctx -> LZ4F_dctx;
  LZ4F_compressBegin : LZ4F_cctx -> Z -> LZ4F_preferences -> lib_outcome LZ4F_cctx;
  LZ4F_compressUpdate : LZ4F_cctx -> Z -> bytes -> lib_outcome LZ4F_cctx;
  LZ4F_flush : LZ4F_cctx -> Z -> lib_outcome LZ4F_cctx;
  LZ4F_compressEnd : LZ4F_cctx -> Z -> lib_outcome LZ4F_cctx;
  LZ4F_decompress : LZ4F_dctx -> bytes -> Z -> lib_outcome LZ4F_dctx;
  LZ4F_compressBound : Z -> LZ4F_preferences -> Z;
  LZ4F_compressFrameBound : Z -> LZ4F_preferences -> Z;
  LZ4F_isError : Z -> bool;
  LZ4F_getErrorCode : Z -> Z;
  LZ4_compress_HC : bytes -> Z -> Z -> Z * bytes;
  LZ4_compress_fast : bytes -> Z -> Z -> Z * bytes;
  LZ4_decompress_safe : bytes -> Z -> Z * bytes;
  LZ4_decompress_safe_partial : bytes -> Z -> Z -> Z * bytes;
}.

#[export] Instance lz4_lib `{Lz4} : FrameLib := {|
  fl_ctx := LZ4F_dctx;
  fl_decompress := LZ4F_decompress;
  fl_isError := LZ4F_isError;
|}.

Definition ZU_INT_LZ4F_CHUNK : Z := 64 * 1024.
Definition ZU_INT_LZ4_LEVEL_MIN : Z := -65536.
Definition ZU_INT_LZ4_LEVEL_MAX : Z := LZ4HC_CLEVEL_MAX.
Definition ZU_INT_LZ4_LEVEL_DEFAULT : Z := 1.

(** [realloc]: the old bytes are kept; the new ones are never read before they are
    written. *)
Definition realloc_bytes (p : bytes) (n : Z) : bytes :=
  take (Z.to_nat n) p ++ replicate (Z.to_nat n - length p) 0.

Section lz4.
Context {lz4 : Lz4}.

(** [lz_stage] and [lz_in] are the objects behind the pointers, [stage_cap] and [in_cap]
    bytes long. *)
Record lz4_state := mk_lz4 {
  lz_encoder : bool;
  lz_level : Z;
  lz_cctx : option LZ4F_cctx;
  lz_dctx : option LZ4F_dctx;
  lz_prefs : LZ4F_preferences;
  lz_started : bool;
  lz_ended : bool;
  lz_frames : zu_int_frames;
  lz_stage : bytes;
  lz_stage_cap : Z;
  lz_stage_len : Z;
  lz_stage_pos : Z;
  lz_in : bytes;
  lz_in_cap : Z;
  lz_in_len : Z;
  lz_done : bool;
  lz_max_output : Z;
  lz_has_expected : bool;
  lz_expected : Z;
}.

(** Record updates. *)
Definition lz_set_frame (s : lz4_state) (c : option LZ4F_cctx) (prefs : LZ4F_preferences)
    (started ended : bool) : lz4_state :=
  mk_lz4 (lz_encoder s) (lz_level s) c (lz_dctx s) prefs started ended (lz_frames s)
    (lz_stage s) (lz_stage_cap s) (lz_stage_len s) (lz_stage_pos s)
    (lz_in s) (lz_in_cap s) (lz_in_len s) (lz_done s)
    (lz_max_output s) (lz_has_expected s) (lz_expected s).
Definition lz_set_dctx (s : lz4_state) (d : LZ4F_dctx) (f : zu_int_frames) : lz4_state :=
  mk_lz4 (lz_encoder s) (lz_level s) (lz_cctx s) (Some d) (lz_prefs s) (lz_started s) (lz_ended s) f
    (lz_stage s) (lz_stage_cap s) (lz_stage_len s) (lz_stage_pos s)
    (lz_in s) (lz_in_cap s) (lz_in_len s) (lz_done s)
    (lz_max_output s) (lz_has_expected s) (lz_expected s).
Definition lz_set_stage (s : lz4_state) (stage : bytes) (cap len pos : Z) : lz4_state :=
  mk_lz4 (lz_encoder s) (lz_level s) (lz_cctx s) (lz_dctx s) (lz_prefs s) (lz_started s) (lz_ended s)
    (lz_frames s) stage cap len pos
    (lz_in s) (lz_in_cap s) (lz_in_len s) (lz_done s)
    (lz_max_output s) (lz_has_expected s) (lz_expected s).
Definition lz_set_in (s : lz4_state) (p : bytes) (cap len : Z) : lz4_state :=
  mk_lz4 (lz_encoder s) (lz_level s) (lz_cctx s) (lz_dctx s) (lz_prefs s) (lz_started s) (lz_ended s)
    (lz_frames s) (lz_stage s) (lz_stage_cap s) (lz_stage_len s) (lz_stage_pos s)
    p cap len (lz_done s)
    (lz_max_output s) (lz_has_expected s) (lz_expected s).
Definition lz_set_done (s : lz4_state) (done : bool) : lz4_state :=
  mk_lz4 (lz_encoder s) (lz_level s) (lz_cctx s) (lz_dctx s) (lz_prefs s) (lz_started s) (lz_ended s)
    (lz_frames s) (lz_stage s) (lz_stage_cap s) (lz_stage_len s) (lz_stage_pos s)
    (lz_in s) (lz_in_cap s) (lz_in_len s) done
    (lz_max_output s) (lz_has_expected s) (lz_expected s).
Definition lz_set_level (s : lz4_state) (level : Z) : lz4_state :=
  mk_lz4 (lz_encoder s) level (lz_cctx s) (lz_dctx s) (lz_prefs s) (lz_started s) (lz_ended s)
    (lz_frames s) (lz_stage s) (lz_stage_cap s) (lz_stage_len s) (lz_stage_pos s)
    (lz_in s) (lz_in_cap s) (lz_in_len s) (lz_done s)
    (lz_max_output s) (lz_has_expected s) (lz_expected s).
Definition lz_set_limits (s : lz4_state) (o : zu_decoder_opts) : lz4_state :=
  mk_lz4 (lz_encoder s) (lz_level s) (lz_cctx s) (lz_dctx s) (lz_prefs s) (lz_started s) (lz_ended s)
    (lz_frames s) (lz_stage s) (lz_stage_cap s) (lz_stage_len s) (lz_stage_pos s)
    (lz_in s) (lz_in_cap s) (lz_in_len s) (lz_done s)
    (do_max_output o) (has_flag (do_flags o) ZU_DEC_EXPECTED_SIZE) (do_expected_size o).

(** [calloc(1, sizeof( *s))]. *)
Definition lz4_state_zero (encoder : bool) (level : Z) : lz4_state :=
  mk_lz4 encoder level None None (mk_prefs 0 false 0) false false
    (mk_frames ZU_INT_FRAME_BODY ZU_INT_FRAMES_ZSTD 0 [0; 0; 0; 0] 0 0 false)
    [] 0 0 0 [] 0 0 false 0 false 0.

Definition zu_int_lz4_level (level : Z) : Z :=
  if level =? ZU_LEVEL_DEFAULT then ZU_INT_LZ4_LEVEL_DEFAULT else level.

(** Moves staged bytes into the caller's window; is the stage empty? *)
Definition zu_int_lz4_drain (s : lz4_state) (buf : zu_buffer) : bool * lz4_state * zu_buffer :=
  let pending := lz_stage_len s - lz_stage_pos s in
  let room := avail_out buf in
  let n := if pending <? room then pending else room in
  let '(s, buf) :=
    if n >? 0
    then (lz_set_stage s (lz_stage s) (lz_stage_cap s) (lz_stage_len s) (lz_stage_pos s + n),
          buf_emit buf (sub (lz_stage s) (lz_stage_pos s) n))
    else (s, buf) in
  if lz_stage_pos s =? lz_stage_len s
  then (true, lz_set_stage s (lz_stage s) (lz_stage_cap s) 0 0, buf)
  else (false, s, buf).

(** ** lz4-frame: status mapping *)

Definition zu_int_lz4f_error (s : lz4_state) (r : Z) : zu_status :=
  let e := LZ4F_getErrorCode r in
  if e =? LZ4F_ERROR_allocation_failed then ZU_ERR_MEMORY
  else if (e =? LZ4F_ERROR_blockChecksum_invalid) || (e =? LZ4F_ERROR_headerChecksum_invalid) ||
          (e =? LZ4F_ERROR_contentChecksum_invalid)
  then ZU_ERR_CHECKSUM
  else if e =? LZ4F_ERROR_frameHeader_incomplete then ZU_ERR_TRUNCATED
  else if (e =? LZ4F_ERROR_srcSize_tooLarge) || (e =? LZ4F_ERROR_parameter_invalid) ||
          (e =? LZ4F_ERROR_compressionLevel_invalid)
  then (if lz_encoder s then ZU_ERR_INVALID_ARGUMENT else ZU_ERR_INVALID_DATA)
  else if lz_encoder s then ZU_ERR_INTERNAL else ZU_ERR_INVALID_DATA.

(** ** lz4-frame: encoder *)

Definition zu_int_lz4f_prefs (s : lz4_state) : LZ4F_preferences :=
  mk_prefs (zu_int_lz4_level (lz_level s)) true 0.

Section lifecycle.
Context {alloc : Allocator}.

Definition lz4f_encoder_new (o : zu_encoder_opts) : result lz4_state :=
  if negb (alloc_ok req_state) then Err ZU_ERR_MEMORY
  else
    let s := lz4_state_zero true (eo_level o) in
    let prefs := zu_int_lz4f_prefs s in
    let '(r, c) := LZ4F_createCompressionContext in
    if LZ4F_isError r then Err ZU_ERR_MEMORY
    else
      let cap := LZ4F_compressBound ZU_INT_LZ4F_CHUNK prefs in
      let cap := if cap <? LZ4F_HEADER_SIZE_MAX then LZ4F_HEADER_SIZE_MAX else cap in
      if negb (alloc_ok (req_bytes cap)) then Err ZU_ERR_MEMORY
      else Ok (lz_set_stage (lz_set_frame s (Some c) prefs false false)
                 (replicate (Z.to_nat cap) 0) cap 0 0).

Definition lz4f_decoder_new (o : zu_decoder_opts) : result lz4_state :=
  if negb (alloc_ok req_state) then Err ZU_ERR_MEMORY
  else
    let '(r, d) := LZ4F_createDecompressionContext in
    if LZ4F_isError r then Err ZU_ERR_MEMORY
    else Ok (lz_set_dctx (lz4_state_zero false 0) d (zu_int_frames_init ZU_INT_FRAMES_LZ4 (do_flags o))).

End lifecycle.

Definition lz4f_encoder_reset (s : lz4_state) (o : zu_encoder_opts) : zu_status * lz4_state :=
  match lz_cctx s with
  | None => (ZU_ERR_INVALID_ARGUMENT, s)
  | Some c =>
      let s := if negb (eo_level o =? ZU_LEVEL_DEFAULT) then lz_set_level s (eo_level o) else s in
      let s := lz_set_frame s (lz_cctx s) (zu_int_lz4f_prefs s) false false in
      (ZU_OK, lz_set_stage (lz_set_done s false) (lz_stage s) (lz_stage_cap s) 0 0)
  end.

(** What a round asks liblz4 for, with the flags [started], [ended] and [flushed] after it
    and the input bytes it consumes when the call succeeds; [None] is
    [return ZU_NEED_INPUT]. *)
Definition lz4f_encoder_call (s : lz4_state) (c : LZ4F_cctx) (buf : zu_buffer) (flush : zu_flush)
    (flushed : bool) : option (lib_outcome LZ4F_cctx * LZ4F_preferences * bool * bool * bool * Z) :=
  let n := avail_in buf in
  let cap := lz_stage_cap s in
  let prefs := lz_prefs s in
  if negb (lz_started s)
  then
    let prefs :=
      if is_finish flush then mk_prefs (compressionLevel prefs) (contentChecksumFlag prefs) n
      else prefs in
    Some (LZ4F_compressBegin c cap prefs, prefs, true, lz_ended s, flushed, 0)
  else if n >? 0
  then
    let t := if n <? ZU_INT_LZ4F_CHUNK then n else ZU_INT_LZ4F_CHUNK in
    Some (LZ4F_compressUpdate c cap (sub (src_bytes buf) (src_pos buf) t), prefs, true,
          lz_ended s, flushed, t)
  else if is_finish flush
  then Some (LZ4F_compressEnd c cap, prefs, true, true, flushed, 0)
  else if is_flush flush && negb flushed
  then Some (LZ4F_flush c cap, prefs, true, lz_ended s, true, 0)
  else None.

(** The loop's state is the codec's and [flushed]. *)
Definition lz4f_encoder_round (sf : lz4_state * bool) (buf : zu_buffer) (flush : zu_flush) :
    option zu_status * (lz4_state * bool) * zu_buffer :=
  let '(s, flushed) := sf in
  let '(empty, s, buf) := zu_int_lz4_drain s buf in
  if negb empty then (Some ZU_NEED_OUTPUT, (s, flushed), buf)
  else if lz_done s then (Some ZU_STREAM_END, (s, flushed), buf)
  else if lz_ended s then (Some ZU_STREAM_END, (lz_set_done s true, flushed), buf)
  else
    match lz_cctx s with
    | None => (Some ZU_ERR_INTERNAL, (s, flushed), buf)
    | Some c =>
        match lz4f_encoder_call s c buf flush flushed with
        | None => (Some ZU_NEED_INPUT, (s, flushed), buf)
        | Some (r, prefs, started, ended, flushed, taken) =>
            if LZ4F_isError (lo_ret r)
            then (Some (zu_int_lz4f_error s (lo_ret r)),
                  (lz_set_frame s (Some (lo_next r)) prefs started (lz_ended s), flushed), buf)
            else
              let s := lz_set_frame s (Some (lo_next r)) prefs started ended in
              (None,
               (lz_set_stage s (memcpy_at (lz_stage s) 0 (lo_out r)) (lz_stage_cap s) (lo_ret r) 0,
                flushed),
               buf_consume buf taken)
        end
    end.

(** Each round but the last starts the frame, ends it, flushes once or takes input. *)
Definition lz4f_encoder_measure (sf : lz4_state * bool) (buf : zu_buffer) : Z :=
  avail_in buf + (if lz_started sf.1 then 0 else 1) + (if lz_ended sf.1 then 0 else 1) +
  (if sf.2 then 0 else 1).

Definition lz4f_encoder_fuel (sf : lz4_state * bool) (buf : zu_buffer) : nat :=
  S (Z.to_nat (lz4f_encoder_measure sf buf)).

Definition lz4f_encoder_process (s : lz4_state) (buf : zu_buffer) (flush : zu_flush) :
    zu_status * lz4_state * zu_buffer :=
  let '(st, (s, _), buf) := run_process lz4f_encoder_round lz4f_encoder_fuel (s, false) buf flush in
  (st, s, buf).

(** ** lz4-frame: decoder *)

Definition lz4f_decoder_reset (s : lz4_state) (o : zu_decoder_opts) : zu_status * lz4_state :=
  match lz_dctx s with
  | None => (ZU_ERR_INVALID_ARGUMENT, s)
  | Some d => (ZU_OK, lz_set_dctx s (LZ4F_resetDecompressionContext d)
                        (zu_int_frames_init ZU_INT_FRAMES_LZ4 (do_flags o)))
  end.

Definition lz4f_feed_held (s : lz4_state) (d : LZ4F_dctx) (p : bytes) : zu_status * LZ4F_dctx :=
  let r := LZ4F_decompress d p 0 in
  if LZ4F_isError (lo_ret r) then (zu_int_lz4f_error s (lo_ret r), lo_next r)
  else (if (lo_used r =? zlen p) && (zlen (lo_out r) =? 0) then ZU_OK else ZU_ERR_INTERNAL, lo_next r).

(** The probe as the source writes it; it is [framed_probe]'s. *)
Definition lz4f_probe (s : lz4_state) (d : LZ4F_dctx) : result (Z * Z * bool) * LZ4F_dctx :=
  let r := LZ4F_decompress d [] 1 in
  if LZ4F_isError (lo_ret r) then (Err (zu_int_lz4f_error s (lo_ret r)), lo_next r)
  else (Ok (byte_at (lo_out r) 0, zlen (lo_out r), lo_ret r =? 0), lo_next r).

Lemma lz4f_probe_framed s d : lz4f_probe s d = framed_probe (zu_int_lz4f_error s) d.
Proof. done. Qed.

Definition lz4f_decoder_process (s : lz4_state) (buf : zu_buffer) (flush : zu_flush) :
    zu_status * lz4_state * zu_buffer :=
  match lz_dctx s with
  | None => (ZU_ERR_INTERNAL, s, buf)
  | Some d =>
      let '(st, (f, d), buf) :=
        framed_process (zu_int_lz4f_error s) (lz4f_feed_held s) (lz_frames s, d) buf flush in
      (st, lz_set_dctx s d f, buf)
  end.

Definition lz4f_bound (level n : Z) : result Z :=
  let b := LZ4F_compressFrameBound n (mk_prefs (zu_int_lz4_level level) true n) in
  if LZ4F_isError b then Err ZU_ERR_INVALID_ARGUMENT else Ok b.

End lz4.
