(* ===== verification/Lz4Props.v ===== *)
(** * What lz4-frame promises

    The laws of liblz4, the staging buffer, the encoder's frame and the decoder's
    integrity, for the definitions of Lz4.v. *)
From S2P Require Import Prelude Types SizeArith Stream ProcessLoop Frames FramedDecoder Lz4.

(** An LZ4F compression call that succeeds returns how many bytes it wrote, within the
    capacity it was given (lz4frame.h). *)
Definition lz4f_wrote `{Lz4} {C} (cap : Z) (r : lib_outcome C) : Prop :=
  LZ4F_isError (lo_ret r) = false -> lo_ret r = zlen (lo_out r) /\ zlen (lo_out r) <= cap.

Class Lz4FrameOk `{Lz4} : Prop := {
  lz4_frame_ok :: FrameLibOk;
  lz4f_begin_wrote : forall c cap p, lz4f_wrote cap (LZ4F_compressBegin c cap p);
  lz4f_update_wrote : forall c cap l, lz4f_wrote cap (LZ4F_compressUpdate c cap l);
  lz4f_flush_wrote : forall c cap, lz4f_wrote cap (LZ4F_flush c cap);
  lz4f_end_wrote : forall c cap, lz4f_wrote cap (LZ4F_compressEnd c cap);
}.

Section lz4.
Context {lz4 : Lz4}.

(** ** The stage *)

Definition pending (s : lz4_state) : bytes :=
  sub (lz_stage s) (lz_stage_pos s) (lz_stage_len s - lz_stage_pos s).

Record stage_ok (s : lz4_state) : Prop := {
  so_pos : 0 <= lz_stage_pos s <= lz_stage_len s;
  so_len : lz_stage_len s <= lz_stage_cap s;
  so_cap : lz_stage_cap s = zlen (lz_stage s);
}.

Definition stage_at (s : lz4_state) (len pos : Z) : lz4_state :=
  lz_set_stage s (lz_stage s) (lz_stage_cap s) len pos.

Lemma stage_at_same s : stage_at s (lz_stage_len s) (lz_stage_pos s) = s.
Proof. by destruct s. Qed.

Lemma zlen_pending s : stage_ok s -> zlen (pending s) = lz_stage_len s - lz_stage_pos s.
Proof. intros []. unfold pending. apply zlen_sub; lia. Qed.

(** Draining delivers a prefix of what is pending: all of it, or as much as fits. *)
Lemma drain_spec s b :
  stage_ok s -> buffer_ok b ->
  match zu_int_lz4_drain s b with
  | (true, s', b') => moved b b' [] (pending s) /\ s' = stage_at s 0 0
  | (false, s', b') => exists pos o, moved b b' [] o /\ s' = stage_at s (lz_stage_len s) pos /\
      pending s = o ++ pending s' /\ stage_ok s' /\ avail_out b' = 0
  end.
Proof.
  intros [Hp Hl Hc] Hb. unfold zu_int_lz4_drain. pose proof (avail_out_nonneg b Hb) as Ho.
  set (p := lz_stage_len s - lz_stage_pos s). set (n := if p <? avail_out b then p else avail_out b).
  assert (Hn : 0 <= n /\ n <= p /\ n <= avail_out b /\ (n = p \/ n = avail_out b))
    by (unfold n, p; zcase; lia).
  clearbody n. rewrite Z.gtb_ltb. unfold p in *. clear p.
  assert (Hz : zlen (sub (lz_stage s) (lz_stage_pos s) n) = n) by (apply zlen_sub; lia).
  destruct (Z.ltb_spec 0 n) as [H0|H0].
  - assert (Hm : moved b (buf_emit b (sub (lz_stage s) (lz_stage_pos s) n)) []
      (sub (lz_stage s) (lz_stage_pos s) n)) by (apply moved_emit; [done|lia]).
    cbn [lz_stage_pos lz_stage_len lz_set_stage].
    destruct (Z.eqb_spec (lz_stage_pos s + n) (lz_stage_len s)).
    + split; [|done]. unfold pending. replace (lz_stage_len s - lz_stage_pos s) with n by lia. done.
    + eexists (lz_stage_pos s + n), _. split; [exact Hm|]. split; [done|].
      split_and!; [|constructor; cbn; lia|unfold avail_out in *; cbn; rewrite Hz; lia].
      unfold pending. cbn. rewrite <- sub_split by lia. f_equal. lia.
  - assert (n = 0) as -> by lia. destruct (Z.eqb_spec (lz_stage_pos s) (lz_stage_len s)) as [E|E].
    + split; [|done]. unfold pending. rewrite E, Z.sub_diag, sub_0. by apply moved_refl.
    + exists (lz_stage_pos s), []. split; [by apply moved_refl|]. rewrite stage_at_same.
      split_and!; try done. lia.
Qed.

(** Staging what a call wrote. *)
Definition staged (s : lz4_state) (out : bytes) (len : Z) : lz4_state :=
  lz_set_stage s (memcpy_at (lz_stage s) 0 out) (lz_stage_cap s) len 0.

Lemma staged_ok s out :
  lz_stage_cap s = zlen (lz_stage s) -> zlen out <= lz_stage_cap s ->
  stage_ok (staged s out (zlen out)) /\ pending (staged s out (zlen out)) = out.
Proof.
  intros Hc Ho. pose proof (zlen_nonneg out). split.
  - constructor; cbn; [lia|done|]. rewrite zlen_memcpy_at by lia. done.
  - unfold pending. cbn. rewrite Z.sub_0_r. apply sub_memcpy_at; lia.
Qed.

(** ** The encoder's frame *)

Inductive lz4f_phase := frame_idle | frame_open | frame_flushed | frame_ended.

(** From [c0]: header, then updates and flushes, then the end mark; [i] was compressed and
    [o] written. *)
Inductive lz4f_session (c0 : LZ4F_cctx) : LZ4F_cctx -> bytes -> bytes -> lz4f_phase -> Prop :=
  | fs_start : lz4f_session c0 c0 [] [] frame_idle
  | fs_begin c cap prefs r :
      lz4f_session c0 c [] [] frame_idle -> r = LZ4F_compressBegin c cap prefs ->
      LZ4F_isError (lo_ret r) = false -> lz4f_session c0 (lo_next r) [] (lo_out r) frame_open
  | fs_update c cap i o ph l r :
      lz4f_session c0 c i o ph -> ph = frame_open \/ ph = frame_flushed ->
      r = LZ4F_compressUpdate c cap l -> LZ4F_isError (lo_ret r) = false ->
      lz4f_session c0 (lo_next r) (i ++ l) (o ++ lo_out r) frame_open
  | fs_flush c cap i o ph r :
      lz4f_session c0 c i o ph -> ph = frame_open \/ ph = frame_flushed ->
      r = LZ4F_flush c cap -> LZ4F_isError (lo_ret r) = false ->
      lz4f_session c0 (lo_next r) i (o ++ lo_out r) frame_flushed
  | fs_end c cap i o ph r :
      lz4f_session c0 c i o ph -> ph = frame_open \/ ph = frame_flushed ->
      r = LZ4F_compressEnd c cap -> LZ4F_isError (lo_ret r) = false ->
      lz4f_session c0 (lo_next r) i (o ++ lo_out r) frame_ended.

(** The flags say the phase. *)
Definition phase_flags (s : lz4_state) (ph : lz4f_phase) : Prop :=
  match ph with
  | frame_idle => lz_started s = false /\ lz_ended s = false
  | frame_open | frame_flushed => lz_started s = true /\ lz_ended s = false
  | frame_ended => lz_started s = true /\ lz_ended s = true
  end /\ (lz_done s = true -> lz_ended s = true).

(** The frame so far holds what was taken; it is what was given and what is pending. *)
Definition fenc_at (c0 : LZ4F_cctx) (s : lz4_state) (taken given : bytes) (ph : lz4f_phase) : Prop :=
  (exists c, lz_cctx s = Some c /\ lz4f_session c0 c taken (given ++ pending s) ph) /\
  phase_flags s ph /\ stage_ok s.

Definition fenc_inv (c0 : LZ4F_cctx) (s : lz4_state) (taken given : bytes) : Prop :=
  exists ph, fenc_at c0 s taken given ph.

(** In a call that flushed, the frame was flushed and nothing taken since. *)
Definition flushed_ok (flush : zu_flush) (flushed : bool) (b : zu_buffer) (ph : lz4f_phase) : Prop :=
  flushed = true -> flush = ZU_FLUSH /\ avail_in b = 0 /\ ph = frame_flushed.

Definition fenc_answer (c0 : LZ4F_cctx) (flush : zu_flush) (s' : lz4_state) (b' : zu_buffer)
    (taken given : bytes) (st : zu_status) : Prop :=
  match st with
  | ZU_STREAM_END => fenc_at c0 s' taken given frame_ended /\ pending s' = [] /\ lz_done s' = true
  | ZU_NEED_INPUT =>
      pending s' = [] /\ avail_in b' = 0 /\ flush <> ZU_FINISH /\
      exists ph, fenc_at c0 s' taken given ph /\ (flush = ZU_FLUSH -> ph = frame_flushed)
  | ZU_NEED_OUTPUT => fenc_inv c0 s' taken given /\ avail_out b' = 0
  | ZU_OK | ZU_STATUS_OTHER _ => False
  | _ => True
  end.

Lemma lz4f_error_failed s r : failed (zu_int_lz4f_error s r).
Proof. unfold failed, zu_int_lz4f_error. repeat split_if; done. Qed.

Lemma fenc_answer_failed c0 flush s' b' taken given st :
  failed st -> fenc_answer c0 flush s' b' taken given st.
Proof. by destruct st. Qed.

Lemma session_open_nil c0 c i o : lz4f_session c0 c i o frame_idle -> i = [] /\ o = [] /\ c = c0.
Proof. by inversion 1. Qed.

(** The stage delivered. *)
Lemma fenc_drained c0 s taken given ph :
  fenc_at c0 s taken given ph -> fenc_at c0 (stage_at s 0 0) taken (given ++ pending s) ph.
Proof.
  intros ((c & Ec & Hs) & Hp & [H1 H2 H3]). assert (pending (stage_at s 0 0) = []) as E.
  { unfold pending. cbn. apply sub_0. }
  split_and!; [exists c; split; [done|]; by rewrite E, app_nil_r|done|constructor; cbn; lia].
Qed.

Lemma fenc_partly c0 s taken given ph pos o :
  fenc_at c0 s taken given ph -> pending s = o ++ pending (stage_at s (lz_stage_len s) pos) ->
  stage_ok (stage_at s (lz_stage_len s) pos) ->
  fenc_at c0 (stage_at s (lz_stage_len s) pos) taken (given ++ o) ph.
Proof.
  intros ((c & Ec & Hs) & Hp & _) E Hok. split_and!; [|done|done]. exists c. split; [done|].
  by rewrite <- app_assoc, <- E.
Qed.

Context {lz4_ok : Lz4FrameOk}.

(** The call of one round. *)
Lemma encoder_call_spec c0 s c b flush flushed taken given ph :
  fenc_at c0 s taken given ph -> pending s = [] -> lz_done s = false -> lz_ended s = false ->
  lz_cctx s = Some c -> flushed_ok flush flushed b ph -> buffer_ok b ->
  match lz4f_encoder_call s c b flush flushed with
  | None => avail_in b = 0 /\ flush <> ZU_FINISH /\ (flush = ZU_FLUSH -> ph = frame_flushed)
  | Some (r, prefs, started, ended, flushed', t) =>
      0 <= t <= avail_in b /\ lz4f_wrote (lz_stage_cap s) r /\ started = true /\
      (LZ4F_isError (lo_ret r) = false -> exists ph',
         lz4f_session c0 (lo_next r) (taken ++ sub (src_bytes b) (src_pos b) t) (given ++ lo_out r) ph' /\
         ph' <> frame_idle /\ (ended = true <-> ph' = frame_ended) /\
         flushed_ok flush flushed' (buf_consume b t) ph') /\
      (if ended then 0 else 1) + (if flushed' then 0 else 1) <
        t + (if lz_started s then 0 else 1) + 1 + (if flushed then 0 else 1)
  end.
Proof.
  intros ((c1 & Ec1 & Hs) & [Hph _] & _) Hpe Hd He Ec Hfl Hb. rewrite Ec in Ec1.
  injection Ec1 as <-. rewrite Hpe, app_nil_r in Hs. pose proof (avail_in_nonneg b Hb) as Hn.
  assert (Hopen : lz_started s = true -> ph = frame_open \/ ph = frame_flushed).
  { intros Es. destruct ph; cbn in Hph; destruct Hph; try congruence; tauto. }
  unfold lz4f_encoder_call. destruct (lz_started s) eqn:Es; cbn [negb].
  2:{ assert (ph = frame_idle) as -> by (destruct ph; cbn in Hph; destruct Hph; congruence).
      destruct (session_open_nil c0 c taken given Hs) as (-> & -> & ->).
      split_and!; [lia|done|apply lz4f_begin_wrote|done| |].
      - intros Ee. exists frame_open. split_and!; [by eapply fs_begin|done|by rewrite He|].
        intros ->. by destruct (Hfl eq_refl) as (_ & _ & ?).
      - rewrite He. destruct flushed; lia. }
  specialize (Hopen eq_refl). rewrite Z.gtb_ltb. destruct (Z.ltb_spec 0 (avail_in b)) as [Hp|Hp].
  { assert (flushed = false) as -> by (destruct flushed; [destruct (Hfl eq_refl); lia|done]).
    set (t := if avail_in b <? ZU_INT_LZ4F_CHUNK then avail_in b else ZU_INT_LZ4F_CHUNK).
    assert (0 < t <= avail_in b) by (unfold t, ZU_INT_LZ4F_CHUNK; zcase; lia).
    split_and!; [lia|lia|apply lz4f_update_wrote|done| |rewrite He; lia].
    intros Ee. exists frame_open. split_and!; [by eapply fs_update|done|by rewrite He|done]. }
  assert (E0 : avail_in b = 0) by lia. destruct (is_finish flush) eqn:Ef.
  { assert (flush = ZU_FINISH) as -> by (by destruct flush).
    assert (flushed = false) as -> by (destruct flushed; [by destruct (Hfl eq_refl)|done]).
    split_and!; [lia|lia|apply lz4f_end_wrote|done| |lia].
    intros Ee. exists frame_ended. rewrite sub_0, app_nil_r. split_and!; [by eapply fs_end|done..]. }
  destruct (is_flush flush && negb flushed) eqn:Ek.
  - apply andb_true_iff in Ek as [Ek Ek2]. apply negb_true_iff in Ek2 as ->.
    assert (flush = ZU_FLUSH) as -> by (by destruct flush).
    split_and!; [lia|lia|apply lz4f_flush_wrote|done| |rewrite He; lia].
    intros Ee. exists frame_flushed. rewrite sub_0, app_nil_r.
    split_and!; [by eapply fs_flush|done|by rewrite He|]. intros _. split_and!; [done| |done].
    unfold avail_in in *. cbn. lia.
  - split_and!; [done|by intros ->|]. intros ->. cbn in Ek.
    destruct flushed; [by apply Hfl|done].
Qed.

(** A successful call's bytes are staged. *)
Lemma fenc_stage c0 s r prefs ended taken given ph :
  stage_ok s -> lz4f_wrote (lz_stage_cap s) r -> LZ4F_isError (lo_ret r) = false ->
  lz_done s = false -> lz4f_session c0 (lo_next r) taken (given ++ lo_out r) ph ->
  ph <> frame_idle -> (ended = true <-> ph = frame_ended) ->
  fenc_at c0 (staged (lz_set_frame s (Some (lo_next r)) prefs true ended) (lo_out r) (lo_ret r))
    taken given ph.
Proof.
  intros [_ _ Hc] Hw Ee Hd Hs Hi Hen. destruct (Hw Ee) as [-> Ho].
  destruct (staged_ok (lz_set_frame s (Some (lo_next r)) prefs true ended) (lo_out r) Hc Ho) as [Hok Hp].
  split_and!; [exists (lo_next r); split; [done|by rewrite Hp]| |done].
  split; [|cbn; congruence].
  destruct ph; [done|split..]; cbn; try done; try (by apply Hen);
    destruct ended; try done; by destruct Hen as [He _]; specialize (He eq_refl).
Qed.

Lemma phase_ended s ph : phase_flags s ph -> lz_ended s = true -> ph = frame_ended.
Proof. intros [H _] E. destruct ph; destruct H; congruence. Qed.

Definition fenc_round_ok (c0 : LZ4F_cctx) (flush : zu_flush) (taken given : bytes)
    (sf : lz4_state * bool) (b : zu_buffer)
    (r : option zu_status * (lz4_state * bool) * zu_buffer) : Prop :=
  exists i o, moved b r.2 i o /\
    match r.1.1 with
    | Some st => fenc_answer c0 flush r.1.2.1 r.2 (taken ++ i) (given ++ o) st
    | None =>
        (exists ph, fenc_at c0 r.1.2.1 (taken ++ i) (given ++ o) ph /\
           flushed_ok flush r.1.2.2 r.2 ph) /\
        lz4f_encoder_measure r.1.2 r.2 < lz4f_encoder_measure sf b
    end.

(** The round after the stage was drained. *)
Lemma fenc_drained_round c0 s flushed b b1 taken given flush ph :
  fenc_at c0 s taken given ph -> flushed_ok flush flushed b ph -> buffer_ok b ->
  moved b b1 [] (pending s) -> zu_int_lz4_drain s b = (true, stage_at s 0 0, b1) ->
  fenc_round_ok c0 flush taken given (s, flushed) b (lz4f_encoder_round (s, flushed) b flush).
Proof.
  intros Hf Hfl Hb Hm E. unfold lz4f_encoder_round. rewrite E. cbn [negb].
  pose proof (fenc_drained c0 s taken given ph Hf) as Hf1.
  assert (Hp1 : pending (stage_at s 0 0) = []) by (unfold pending; apply sub_0).
  pose proof (moved_ok _ _ _ _ Hb Hm) as Hb1. destruct (moved_counts _ _ _ _ Hb Hm) as [Hin _].
  rewrite (@zlen_nil Z) in Hin. destruct Hf as ((c & Ec & _) & Hph & _).
  assert (Hend : forall s1, lz_ended s = true -> s1 = lz_set_done (stage_at s 0 0) true ->
    fenc_round_ok c0 flush taken given (s, flushed) b (Some ZU_STREAM_END, (s1, flushed), b1)).
  { intros s1 He ->. exists [], (pending s). rewrite app_nil_r. split; [exact Hm|]. cbn.
    rewrite (phase_ended s ph Hph He) in Hf1. destruct Hf1 as (Hc1 & [Hp2 _] & Hok1).
    split; [|done]. split; [exact Hc1|]. split; [|by destruct Hok1]. split; [done|]. by intros _. }
  destruct (lz_done (stage_at s 0 0)) eqn:Ed.
  { assert (He : lz_ended s = true) by (by apply Hph). apply Hend; [done|].
    revert Ed. destruct s; cbn. by intros ->. }
  destruct (lz_ended (stage_at s 0 0)) eqn:Een; [by apply Hend|]. cbn [stage_at lz_set_stage lz_cctx].
  rewrite Ec. assert (Hfl1 : flushed_ok flush flushed b1 ph).
  { intros Et. destruct (Hfl Et) as (? & ? & ?). split_and!; [done|lia|done]. }
  pose proof (encoder_call_spec c0 (stage_at s 0 0) c b1 flush flushed taken (given ++ pending s) ph
    Hf1 Hp1 Ed Een Ec Hfl1 Hb1) as Hcall.
  change (lz_set_stage s (lz_stage s) (lz_stage_cap s) 0 0) with (stage_at s 0 0).
  destruct (lz4f_encoder_call (stage_at s 0 0) c b1 flush flushed)
    as [ [ [ [ [ [r prefs] started] ended] flushed'] t] |].
  2:{ destruct Hcall as (H1 & H2 & H3). exists [], (pending s). rewrite app_nil_r.
      split; [exact Hm|]. cbn. split_and!; [done..|]. by exists ph. }
  destruct Hcall as (Ht & Hw & -> & Hok & Hmu). destruct (LZ4F_isError (lo_ret r)) eqn:Ee.
  { exists [], (pending s). split; [exact Hm|]. apply fenc_answer_failed, lz4f_error_failed. }
  destruct (Hok eq_refl) as (ph' & Hs' & Hi' & Hen' & Hfl').
  exists (sub (src_bytes b1) (src_pos b1) t), (pending s).
  split; [rewrite <- (app_nil_r (pending s)); rewrite <- (app_nil_l (sub _ _ t));
          eapply moved_trans; [exact Hm|by apply moved_consume]|]. cbn [fst snd]. split.
  - exists ph'. split; [|done]. apply fenc_stage; try done. by destruct Hf1 as (_ & _ & ?).
  - unfold lz4f_encoder_measure. cbn. cbn in Een. rewrite Een. cbn in Hmu.
    unfold avail_in in *. cbn in *. lia.
Qed.

Lemma fenc_round c0 sf b taken given flush ph :
  fenc_at c0 sf.1 taken given ph -> flushed_ok flush sf.2 b ph -> buffer_ok b ->
  fenc_round_ok c0 flush taken given sf b (lz4f_encoder_round sf b flush).
Proof.
  destruct sf as [s flushed]. cbn [fst snd]. intros Hf Hfl Hb.
  pose proof (drain_spec s b (proj2 (proj2 Hf)) Hb) as Hd.
  destruct (zu_int_lz4_drain s b) as [ [ [] s1] b1] eqn:E.
  - destruct Hd as [Hm ->]. by eapply fenc_drained_round.
  - destruct Hd as (pos & o & Hm & -> & Ep & Hok & Hz). unfold lz4f_encoder_round. rewrite E.
    cbn [negb]. exists [], o. split; [exact Hm|]. cbn. rewrite app_nil_r. split; [|done].
    exists ph. by apply fenc_partly.
Qed.

(** ** A call *)

Lemma fenc_call c0 s b taken given flush :
  fenc_inv c0 s taken given -> buffer_ok b ->
  is_Some (process_loop lz4f_encoder_round (lz4f_encoder_fuel (s, false) b) (s, false) b flush) /\
  let r := lz4f_encoder_process s b flush in
  exists i o, moved b r.2 i o /\ fenc_answer c0 flush r.1.2 r.2 (taken ++ i) (given ++ o) r.1.1.
Proof.
  intros [ph Hinv] Hb.
  set (I := fun (sf : lz4_state * bool) b1 => exists i o ph, moved b b1 i o /\
    fenc_at c0 sf.1 (taken ++ i) (given ++ o) ph /\ flushed_ok flush sf.2 b1 ph).
  set (Q := fun st (sf : lz4_state * bool) b1 => exists i o, moved b b1 i o /\
    fenc_answer c0 flush sf.1 b1 (taken ++ i) (given ++ o) st).
  assert (Hr : round_ok lz4f_encoder_round I Q lz4f_encoder_measure flush).
  { intros sf b1 (i & o & ph1 & Hm & Hi & Hfl). pose proof (moved_ok _ _ _ _ Hb Hm) as Hb1.
    destruct (fenc_round c0 sf b1 _ _ flush ph1 Hi Hfl Hb1) as (i1 & o1 & Hm1 & Hp).
    destruct (lz4f_encoder_round sf b1 flush) as [ [ost sf2] b2]. cbn [fst snd] in *.
    pose proof (moved_trans _ _ _ _ _ _ _ Hm Hm1) as Hm2. rewrite <- !app_assoc in Hp.
    destruct ost as [st|]; [by exists (i ++ i1), (o ++ o1)|]. destruct Hp as ((ph2 & Hp & Hf2) & Hmu).
    split; [by exists (i ++ i1), (o ++ o1), ph2|]. split; [|done]. unfold lz4f_encoder_measure.
    pose proof (avail_in_nonneg b2 ltac:(by eapply moved_ok)). repeat split_if; lia. }
  destruct (process_loop_run lz4f_encoder_round I Q _ flush Hr (lz4f_encoder_fuel (s, false) b) (s, false) b)
    as (st & [s' fl'] & b' & E & i & o & Hm & HQ).
  - exists [], [], ph. rewrite !app_nil_r. split_and!; [by apply moved_refl|done|done].
  - unfold lz4f_encoder_fuel. lia.
  - split; [rewrite E; eauto|]. unfold lz4f_encoder_process, run_process. rewrite E. cbn.
    by exists i, o.
Qed.

(** A new or reset encoder. *)
Definition fenc_new (c0 : LZ4F_cctx) (s : lz4_state) : Prop :=
  lz_cctx s = Some c0 /\ lz_started s = false /\ lz_ended s = false /\ lz_done s = false /\
  stage_ok s /\ lz_stage_len s = 0.

Lemma fenc_new_inv c0 s : fenc_new c0 s -> fenc_inv c0 s [] [].
Proof.
  intros (Ec & Es & Ee & Ed & Hok & El). exists frame_idle.
  split_and!; [|split; [done|by rewrite Ed]|done]. exists c0. split; [done|].
  assert (pending s = []) as ->; [|apply fs_start]. destruct Hok. unfold pending.
  replace (lz_stage_len s - lz_stage_pos s) with 0 by lia. apply sub_0.
Qed.

Lemma fenc_run_inv c0 s0 s taken given :
  fenc_new c0 s0 -> codec_run lz4f_encoder_process s0 s taken given -> fenc_inv c0 s taken given.
Proof.
  intros Hn. apply (codec_run_inv lz4f_encoder_process (fenc_inv c0)); [by apply fenc_new_inv|].
  intros s1 i1 o1 b f st s' b' i o Hinv Hb _ E Hst Hm.
  destruct (fenc_call c0 s1 b i1 o1 f Hinv Hb) as (_ & i' & o' & Hm' & Hp).
  rewrite E in Hm', Hp. cbn [fst snd] in *.
  destruct (moved_unique _ _ _ _ _ _ Hm Hm') as [-> ->].
  destruct st; try done; [|apply Hp]. destruct Hp as (_ & _ & _ & ph & Hp & _). by exists ph.
Qed.

(** C38: the lz4-frame encoder writes one frame of exactly what it took.  After any calls on
    a new or reset encoder, a further call returns within its fuel, and: liblz4 began a
    frame once, was given exactly the consumed bytes in order, and every byte it wrote was
    delivered or is still staged, the stage never overflowing; ZU_NEED_OUTPUT is answered
    only when the window is full; ZU_NEED_INPUT only when all input was taken and nothing
    is staged, never to ZU_FINISH, and to ZU_FLUSH only once the frame was flushed since
    the last input; ZU_STREAM_END only when the end mark, and with it the whole frame, was
    delivered. *)
Theorem lz4f_encoder_frames c0 s0 s taken given b flush :
  fenc_new c0 s0 -> codec_run lz4f_encoder_process s0 s taken given -> buffer_ok b ->
  is_Some (process_loop lz4f_encoder_round (lz4f_encoder_fuel (s, false) b) (s, false) b flush) /\
  let r := lz4f_encoder_process s b flush in
  exists i o, moved b r.2 i o /\ fenc_answer c0 flush r.1.2 r.2 (taken ++ i) (given ++ o) r.1.1.
Proof.
  intros Hn Hrun Hb. apply fenc_call; [|done]. by eapply fenc_run_inv.
Qed.

(** ** The decoder *)

Lemma lz4f_feed_is_call s : feed_is_call (lz4f_feed_held s).
Proof.
  intros d p d'. unfold lz4f_feed_held. cbn. destruct (LZ4F_isError _).
  - intros [= E _]. by destruct (failed_not_ok _ (lz4f_error_failed s _) E).
  - destruct (Z.eqb_spec (lo_used (LZ4F_decompress d p 0)) (zlen p)); [|done]. cbn [andb].
    destruct (_ =? 0); [|done]. by intros [= <-].
Qed.

Lemma lz4f_feed_status s d p st d' : lz4f_feed_held s d p = (st, d') -> st = ZU_OK \/ failed st.
Proof.
  unfold lz4f_feed_held. destruct (LZ4F_isError _).
  - intros [= <- _]. right. apply lz4f_error_failed.
  - destruct (_ && _); intros [= <- _]; [by left|by right].
Qed.

Definition ldec_inv (d0 : LZ4F_dctx) (s : lz4_state) (eaten out : bytes) : Prop :=
  exists d, lz_dctx s = Some d /\ fd_inv (lib := lz4_lib) d0 (lz_frames s, d) eaten out.

Lemma ldec_call d0 s b eaten out flush :
  ldec_inv d0 s eaten out -> buffer_ok b ->
  let r := lz4f_decoder_process s b flush in
  exists i o d, moved b r.2 i o /\ lz_dctx r.1.2 = Some d /\
    fd_post (lib := lz4_lib) d0 (eaten ++ i) (out ++ o) (Some r.1.1) (lz_frames r.1.2, d) /\
    honest r.1.1 r.2.
Proof.
  intros (d & Ed & Hinv) Hb. unfold lz4f_decoder_process. rewrite Ed.
  destruct (framed_process_call (lib := lz4_lib) (zu_int_lz4f_error s) (lz4f_feed_held s)
    (lz4f_feed_is_call s) (fun r _ => lz4f_error_failed s r) (lz4f_feed_status s)
    d0 (lz_frames s, d) eaten out b flush Hinv Hb) as (i & o & Hm & Hp & Hh).
  destruct (framed_process _ _ _ _ _) as [ [st [f' d'] ] b']. by exists i, o, d'.
Qed.

Lemma ldec_run_inv d0 flags s0 s eaten out :
  lz_dctx s0 = Some d0 -> lz_frames s0 = zu_int_frames_init ZU_INT_FRAMES_LZ4 flags ->
  codec_run lz4f_decoder_process s0 s eaten out -> ldec_inv d0 s eaten out.
Proof.
  intros Ed Ef. apply (codec_run_inv lz4f_decoder_process (ldec_inv d0)).
  { exists d0. split; [done|]. rewrite Ef. apply (fd_inv_start (lib := lz4_lib)). }
  intros s1 i1 o1 b f st s' b' i o Hinv Hb _ E Hst Hm.
  destruct (ldec_call d0 s1 b i1 o1 f Hinv Hb) as (i' & o' & d & Hm' & Hd & Hp & _).
  rewrite E in Hm', Hp, Hd. cbn [fst snd] in *.
  destruct (moved_unique _ _ _ _ _ _ Hm Hm') as [-> ->]. exists d. split; [done|].
  apply Hp. by apply progress_not_failed.
Qed.

(** C18: the lz4-frame decoder ends only on a whole frame: as for zstd, after any calls on a
    new or reset decoder the next call's loop returns, and ZU_STREAM_END means that liblz4,
    given the consumed bytes in order but at most the three last, completed a frame, and
    that its whole output was written. *)
Theorem lz4f_decoder_integrity d0 flags s0 s eaten out b flush :
  lz_dctx s0 = Some d0 -> lz_frames s0 = zu_int_frames_init ZU_INT_FRAMES_LZ4 flags ->
  codec_run lz4f_decoder_process s0 s eaten out -> buffer_ok b ->
  let r := lz4f_decoder_process s b flush in
  (exists d, lz_dctx s = Some d /\
     is_Some (process_loop (framed_round (zu_int_lz4f_error s) (lz4f_feed_held s))
       (framed_fuel (lib := lz4_lib) (lz_frames s, d) b) (lz_frames s, d) b flush)) /\
  exists i o, moved b r.2 i o /\
    (r.1.1 = ZU_STREAM_END -> exists d given held,
       lz_dctx r.1.2 = Some d /\ eaten ++ i = given ++ held /\ zlen held < 4 /\
       lib_run (lib := lz4_lib) d0 d given (out ++ o) true).
Proof.
  intros Ed Ef Hrun Hb. pose proof (ldec_run_inv d0 flags s0 s eaten out Ed Ef Hrun) as Hinv.
  split.
  - destruct Hinv as (d & Esd & Hinv). exists d. split; [done|].
    destruct (framed_call (lib := lz4_lib) (zu_int_lz4f_error s) (lz4f_feed_held s)
      (lz4f_feed_is_call s) (fun r _ => lz4f_error_failed s r) (lz4f_feed_status s)
      d0 (lz_frames s, d) eaten out b flush Hinv Hb) as (st & s' & b' & i & o & -> & _). eauto.
  - destruct (ldec_call d0 s b eaten out flush Hinv Hb) as (i & o & d & Hm & Esd & Hp & _).
    exists i, o. split; [done|]. intros E. rewrite E in Hp.
    destruct (fd_post_end _ _ _ _ Hp) as (g & h & Eg & Hh & Hl). by exists d, g, h.
Qed.

(** ** The cursor contract *)

#[export] Instance lz4f_decoder_contract : CursorContract lz4f_decoder_process.
Proof.
  intros s b f st s' b' Hb E. unfold lz4f_decoder_process in E.
  destruct (lz_dctx s) as [d|]; [|injection E as <- <- <-; by apply buffer_step_refl].
  destruct (framed_process (lib := lz4_lib) (zu_int_lz4f_error s) (lz4f_feed_held s) (lz_frames s, d) b f)
    as [ [st1 [f1 d1] ] b1] eqn:Ef. injection E as <- <- <-.
  by eapply (framed_process_contract (lib := lz4_lib) (zu_int_lz4f_error s) (lz4f_feed_held s)).
Qed.

(** Whatever the stage holds. *)
Lemma drain_step s b : buffer_ok b -> buffer_step b (zu_int_lz4_drain s b).2.
Proof.
  intros Hb. unfold zu_int_lz4_drain. pose proof (avail_out_nonneg b Hb).
  set (n := if _ <? avail_out b then _ else _).
  assert (Hn : n <= avail_out b) by (unfold n; zcase; lia). clearbody n. rewrite Z.gtb_ltb.
  destruct (Z.ltb_spec 0 n) as [H0|H0].
  - assert (buffer_step b (buf_emit b (sub (lz_stage s) (lz_stage_pos s) n))); [|by split_if].
    apply buf_emit_step; [done|]. unfold zlen, sub. rewrite length_take. lia.
  - split_if; by apply buffer_step_refl.
Qed.

Lemma fenc_round_step sf b flush : buffer_ok b -> buffer_step b (lz4f_encoder_round sf b flush).2.
Proof.
  destruct sf as [s flushed]. intros Hb. unfold lz4f_encoder_round.
  pose proof (drain_step s b Hb) as Hd. destruct (zu_int_lz4_drain s b) as [ [empty s1] b1].
  cbn [snd] in Hd. pose proof (buffer_step_ok _ _ Hb Hd) as Hb1. pose proof (avail_in_nonneg b1 Hb1).
  destruct (negb empty); [done|]. destruct (lz_done s1); [done|]. destruct (lz_ended s1); [done|].
  destruct (lz_cctx s1) as [c|]; [|done]. unfold lz4f_encoder_call.
  assert (Hc : forall t, 0 <= t <= avail_in b1 -> buffer_step b (buf_consume b1 t)).
  { intros t Ht. eapply buffer_step_trans; [exact Hd|]. by apply buf_consume_step. }
  destruct (negb (lz_started s1)); [destruct (LZ4F_isError _); [done|apply Hc; lia]|].
  rewrite Z.gtb_ltb. destruct (Z.ltb_spec 0 (avail_in b1)).
  - destruct (LZ4F_isError _); [done|]. apply Hc. unfold ZU_INT_LZ4F_CHUNK. zcase; lia.
  - destruct (is_finish flush); [destruct (LZ4F_isError _); [done|apply Hc; lia]|].
    destruct (is_flush flush && negb flushed); [|done].
    destruct (LZ4F_isError _); [done|apply Hc; lia].
Qed.

#[export] Instance lz4f_encoder_contract : CursorContract lz4f_encoder_process.
Proof.
  intros s b f st s' b' Hb E. unfold lz4f_encoder_process in E.
  destruct (run_process lz4f_encoder_round lz4f_encoder_fuel (s, false) b f)
    as [ [st1 [s1 f1] ] b1] eqn:Er. injection E as <- <- <-.
  by eapply (run_process_contract lz4f_encoder_round lz4f_encoder_fuel fenc_round_step).
Qed.

End lz4.

(** ** A small library

    A frame is the header 4, the bytes, and the end mark 0; a block is 0 and the bytes. *)
Definition toy_write (cap : Z) (out : bytes) : lib_outcome unit :=
  if zlen out <=? cap then mk_lib (zlen out) 0 out tt else mk_lib 200 0 [] tt.

Definition toy_block (src : bytes) (cap level : Z) : Z * bytes :=
  if zlen src + 1 <=? cap then (zlen src + 1, 0 :: src) else (0, []).

Definition toy_unblock (src : bytes) : option bytes :=
  match src with
  | x :: d => if x =? 0 then Some d else None
  | [] => None
  end.

Definition toy_lz4 : Lz4 := {|
  LZ4F_cctx := unit;
  LZ4F_dctx := unit;
  LZ4F_createCompressionContext := (0, tt);
  LZ4F_createDecompressionContext := (0, tt);
  LZ4F_resetDecompressionContext := fun d => d;
  LZ4F_compressBegin := fun _ cap _ => toy_write cap [4];
  LZ4F_compressUpdate := fun _ cap l => toy_write cap l;
  LZ4F_flush := fun _ cap => toy_write cap [];
  LZ4F_compressEnd := fun _ cap => toy_write cap [0];
  LZ4F_decompress := toy_decompress;
  LZ4F_compressBound := fun n _ => n + 32;
  LZ4F_compressFrameBound := fun n _ => n + 32;
  LZ4F_isError := toy_isError;
  LZ4F_getErrorCode := fun r => r - 184;
  LZ4_compress_HC := toy_block;
  LZ4_compress_fast := toy_block;
  LZ4_decompress_safe := fun src cap =>
    match toy_unblock src with
    | Some d => if zlen d <=? cap then (zlen d, d) else (-1, [])
    | None => (-1, [])
    end;
  LZ4_decompress_safe_partial := fun src target cap =>
    match toy_unblock src with
    | Some d => (Z.min cap (zlen d), take (Z.to_nat (Z.min cap (zlen d))) d)
    | None => (-1, [])
    end;
|}.

Lemma toy_wrote cap out : @lz4f_wrote toy_lz4 unit cap (toy_write cap out).
Proof.
  unfold lz4f_wrote, toy_write. destruct (Z.leb_spec (zlen out) cap); cbn; [|done]. lia.
Qed.

Lemma toy_lz4_ok : @Lz4FrameOk toy_lz4.
Proof.
  constructor; [constructor|intros; apply toy_wrote..].
  - intros [] l room Hr. cbn. unfold toy_decompress. pose proof (toy_frame_bounds l (Z.to_nat room)) as H.
    destruct (toy_frame l (Z.to_nat room)) as [ [u o] r]. cbn. intros _. unfold zlen in *. lia.
  - intros [] l room. cbn. unfold toy_decompress. pose proof (toy_frame_bounds l (Z.to_nat room)) as H.
    destruct (toy_frame l (Z.to_nat room)) as [ [u o] r]. cbn. intros _ ->. pose proof (zlen_nonneg o). lia.
Qed.

Definition toy_lz4_cctx : @LZ4F_cctx toy_lz4 := tt.
Definition toy_lz4_dctx : @LZ4F_dctx toy_lz4 := tt.

#[local] Existing Instance toy_lz4.
#[local] Existing Instance toy_lz4_ok.

Definition toy_lenc : lz4_state :=
  lz_set_stage (lz_set_frame (lz4_state_zero true 1) (Some toy_lz4_cctx) (mk_prefs 1 true 0) false false)
    (replicate 40 0) 40 0 0.
Definition toy_ldec : lz4_state :=
  lz_set_dctx (lz4_state_zero false 0) toy_lz4_dctx (zu_int_frames_init ZU_INT_FRAMES_LZ4 3).

(** The input [l], and room for [room] bytes. *)
Definition toy_lz4_buffer (l : bytes) (room : nat) : zu_buffer :=
  mk_buffer (Some l) (zlen l) 0 (Some (replicate room 9)) (Z.of_nat room) 0.

Lemma toy_lz4_buffer_ok l room :
  zlen l < 2 ^ 64 -> Z.of_nat room < 2 ^ 64 -> buffer_ok (toy_lz4_buffer l room).
Proof.
  intros. pose proof (zlen_nonneg l). constructor; cbn; try lia.
  unfold zlen. rewrite length_replicate. lia.
Qed.

Lemma toy_lenc_new : fenc_new toy_lz4_cctx toy_lenc.
Proof. split_and!; try done; constructor; vm_compute; try done; by split. Qed.

(** Five bytes' frame through three bytes of room, then the rest. *)
Lemma lz4f_encoder_frames_witness :
  let b := toy_lz4_buffer [65; 66; 67] 3 in
  let r := lz4f_encoder_process toy_lenc b ZU_FINISH in
  r.1.1 = ZU_NEED_OUTPUT /\ dst_written r.2 = [4; 65; 66] /\
  is_Some (process_loop lz4f_encoder_round (lz4f_encoder_fuel (toy_lenc, false) b) (toy_lenc, false) b ZU_FINISH) /\
  exists i o, moved b r.2 i o /\ fenc_answer toy_lz4_cctx ZU_FINISH r.1.2 r.2 ([] ++ i) ([] ++ o) r.1.1.
Proof.
  split; [vm_compute; reflexivity|]. split; [vm_compute; reflexivity|].
  apply (lz4f_encoder_frames toy_lz4_cctx toy_lenc toy_lenc [] [] (toy_lz4_buffer [65; 66; 67] 3) ZU_FINISH);
    [apply toy_lenc_new|apply run_start|apply toy_lz4_buffer_ok; reflexivity].
Defined.

Lemma lz4f_decoder_integrity_witness :
  let b := toy_lz4_buffer [4; 65; 66; 0] 3 in
  let r := lz4f_decoder_process toy_ldec b ZU_FINISH in
  r.1.1 = ZU_STREAM_END /\ dst_written r.2 = [65; 66] /\
  exists i o, moved b r.2 i o /\
    (r.1.1 = ZU_STREAM_END -> exists d given held,
       lz_dctx r.1.2 = Some d /\ [] ++ i = given ++ held /\ zlen held < 4 /\
       lib_run (lib := lz4_lib) toy_lz4_dctx d given ([] ++ o) true).
Proof.
  split; [vm_compute; reflexivity|]. split; [vm_compute; reflexivity|].
  apply (lz4f_decoder_integrity toy_lz4_dctx 3 toy_ldec toy_ldec [] [] (toy_lz4_buffer [4; 65; 66; 0] 3) ZU_FINISH);
    [reflexivity|reflexivity|apply run_start|apply toy_lz4_buffer_ok; reflexivity].
Defined.
