(* ===== verification/Lz4Block.v ===== *)
(** * The lz4-block codec and the LZ4 vtables: src/codec_lz4.c, second half

    Both directions gather the input until ZU_FINISH and then work in one pass, straight in
    the caller's windows when they are large enough.  A decoder that was not told the size
    searches for it. *)
From S2P Require Import Prelude Types SizeArith Registry Stream ProcessLoop Frames FramedDecoder Lz4.

Section block.
Context {lz4 : Lz4} {alloc : Allocator}.

Definition lz4b_new (encoder : bool) (level : Z) (d : option zu_decoder_opts) : result lz4_state :=
  if negb (alloc_ok req_state) then Err ZU_ERR_MEMORY
  else
    let s := lz4_state_zero encoder level in
    Ok match d with
       | Some o => lz_set_limits s o
       | None => s
       end.

Definition lz4b_encoder_new (o : zu_encoder_opts) : result lz4_state := lz4b_new true (eo_level o) None.
Definition lz4b_decoder_new (o : zu_decoder_opts) : result lz4_state :=
  lz4b_new false ZU_LEVEL_DEFAULT (Some o).

Definition zu_int_lz4b_clear (s : lz4_state) : lz4_state :=
  let s := lz_set_in s (lz_in s) (lz_in_cap s) 0 in
  let s := lz_set_stage s (lz_stage s) (lz_stage_cap s) 0 0 in
  lz_set_done s false.

Definition lz4b_encoder_reset (s : lz4_state) (o : zu_encoder_opts) : zu_status * lz4_state :=
  let s := if negb (eo_level o =? ZU_LEVEL_DEFAULT) then lz_set_level s (eo_level o) else s in
  (ZU_OK, zu_int_lz4b_clear s).

Definition lz4b_decoder_reset (s : lz4_state) (o : zu_decoder_opts) : zu_status * lz4_state :=
  (ZU_OK, zu_int_lz4b_clear (lz_set_limits s o)).

(** Appends what the caller offered to the gathered input. *)
Definition zu_int_lz4b_gather (s : lz4_state) (buf : zu_buffer) : zu_status * lz4_state * zu_buffer :=
  let avail := avail_in buf in
  let append s :=
    (ZU_OK,
     lz_set_in s (memcpy_at (lz_in s) (lz_in_len s) (sub (src_bytes buf) (src_pos buf) avail))
       (lz_in_cap s) (lz_in_len s + avail),
     buf_consume buf avail) in
  if avail =? 0 then (ZU_OK, s, buf)
  else
    match zu_int_add (lz_in_len s) avail true with
    | Err st => (st, s, buf)
    | Ok need =>
        if need >? LZ4_MAX_INPUT_SIZE
        then (if lz_encoder s then ZU_ERR_INVALID_ARGUMENT else ZU_ERR_INVALID_DATA, s, buf)
        else if need >? lz_in_cap s
        then
          match zu_int_grow (lz_in_cap s) (need - lz_in_cap s) true with
          | Err st => (st, s, buf)
          | Ok next =>
              if negb (alloc_ok (req_bytes next)) then (ZU_ERR_MEMORY, s, buf)
              else append (lz_set_in s (realloc_bytes (lz_in s) next) next (lz_in_len s))
          end
        else append s
    end.

Definition zu_int_lz4b_compress (s : lz4_state) (src : bytes) (cap : Z) : Z * bytes :=
  let lv := zu_int_lz4_level (lz_level s) in
  if lv >=? LZ4HC_CLEVEL_MIN then LZ4_compress_HC src cap lv
  else LZ4_compress_fast src cap (if lv <? 0 then - lv + 1 else 1).

Definition zu_int_lz4b_stage (s : lz4_state) (n : Z) : zu_status * lz4_state :=
  if n >? lz_stage_cap s
  then
    if negb (alloc_ok (req_bytes (if n =? 0 then 1 else n))) then (ZU_ERR_MEMORY, s)
    else (ZU_OK, lz_set_stage s (realloc_bytes (lz_stage s) n) n (lz_stage_len s) (lz_stage_pos s))
  else (ZU_OK, s).

(** [return zu_int_lz4_drain(s, buf) ? ZU_STREAM_END : ZU_NEED_OUTPUT;] *)
Definition lz4b_deliver (s : lz4_state) (buf : zu_buffer) : zu_status * lz4_state * zu_buffer :=
  let '(empty, s, buf) := zu_int_lz4_drain s buf in
  (if empty then ZU_STREAM_END else ZU_NEED_OUTPUT, s, buf).

(** What both directions end with: [len] bytes are staged, the input is freed. *)
Definition lz4b_staged (s : lz4_state) (stage : bytes) (len : Z) (buf : zu_buffer) :
    zu_status * lz4_state * zu_buffer :=
  let s := lz_set_done (lz_set_stage s stage (lz_stage_cap s) len 0) true in
  lz4b_deliver (lz_set_in s [] 0 0) buf.

(** The gathered input. *)
Definition lz4b_input (s : lz4_state) : bytes := sub (lz_in s) 0 (lz_in_len s).

(** The rest of [lz4b_encoder_process], when the block is compressed through the stage. *)
Definition lz4b_encoder_staged (s : lz4_state) (buf : zu_buffer) : zu_status * lz4_state * zu_buffer :=
  match zu_int_lz4b_gather s buf with
  | (ZU_OK, s, buf) =>
      let bound := LZ4_compressBound (lz_in_len s) in
      if bound <=? 0 then (ZU_ERR_INVALID_ARGUMENT, s, buf)
      else
        match zu_int_lz4b_stage s bound with
        | (ZU_OK, s) =>
            let '(w, out) := zu_int_lz4b_compress s (lz4b_input s) bound in
            if w <=? 0 then (ZU_ERR_INTERNAL, s, buf)
            else lz4b_staged s (memcpy_at (lz_stage s) 0 out) w buf
        | (gs, s) => (gs, s, buf)
        end
  | r => r
  end.

Definition lz4b_encoder_process (s : lz4_state) (buf : zu_buffer) (flush : zu_flush) :
    zu_status * lz4_state * zu_buffer :=
  if lz_done s then lz4b_deliver s buf
  else if negb (is_finish flush)
  then
    match zu_int_lz4b_gather s buf with
    | (ZU_OK, s, buf) => (ZU_NEED_INPUT, s, buf)
    | r => r
    end
  else
    let bound := LZ4_compressBound (avail_in buf) in
    if (lz_in_len s =? 0) && (avail_in buf <=? LZ4_MAX_INPUT_SIZE) && (bound >? 0) &&
       (avail_out buf >=? bound)
    then
      let '(w, out) :=
        zu_int_lz4b_compress s (sub (src_bytes buf) (src_pos buf) (avail_in buf)) bound in
      if w <=? 0 then (ZU_ERR_INTERNAL, s, buf)
      else (ZU_STREAM_END, lz_set_done s true, buf_emit (buf_consume buf (avail_in buf)) out)
    else lz4b_encoder_staged s buf.

(** ** The search for the size of a block *)

(** The capacity never to exceed, and whether [max_output] set it. *)
Definition lz4b_ceiling (n max_output : Z) : Z * bool :=
  let ceiling :=
    match zu_int_mul n 255 true with
    | Ok m =>
        match zu_int_add m 64 true with
        | Ok c => if c >? INT_MAX then INT_MAX else c
        | Err _ => INT_MAX
        end
    | Err _ => INT_MAX
    end in
  if negb (max_output =? 0) && (max_output <? ceiling) then (max_output, true) else (ceiling, false).

Definition lz4b_first_cap (n ceiling : Z) : Z :=
  let cap := u64 (n * 4) in
  let cap := if cap <? 4096 then 4096 else cap in
  if cap >? ceiling then ceiling else cap.

Fixpoint lz4b_search_loop (fuel : nat) (s : lz4_state) (ceiling : Z) (limited : bool) (cap : Z) :
    option (result Z * lz4_state) :=
  match fuel with
  | O => None
  | S fuel' =>
      match zu_int_lz4b_stage s cap with
      | (ZU_OK, s) =>
          let '(r, out) := LZ4_decompress_safe (lz4b_input s) cap in
          if r >=? 0
          then Some (Ok r, lz_set_stage s (memcpy_at (lz_stage s) 0 out) (lz_stage_cap s)
                             (lz_stage_len s) (lz_stage_pos s))
          else
            let '(p, part) := LZ4_decompress_safe_partial (lz4b_input s) cap cap in
            let s := lz_set_stage s (memcpy_at (lz_stage s) 0 part) (lz_stage_cap s)
                       (lz_stage_len s) (lz_stage_pos s) in
            if (p <? 0) || (p <? cap) then Some (Err ZU_ERR_INVALID_DATA, s)
            else if cap >=? ceiling
            then Some (Err (if limited then ZU_ERR_OUTPUT_LIMIT else ZU_ERR_INVALID_DATA), s)
            else lz4b_search_loop fuel' s ceiling limited
                   (if cap >? ceiling / 4 then ceiling else cap * 4)
      | (st, s) => Some (Err st, s)
      end
  end.

(** From 4096 or more, 4x at a time, 2^31 - 1 is within ten steps. *)
Definition lz4b_search_fuel : nat := 12.

Definition zu_int_lz4b_search (s : lz4_state) : result Z * lz4_state :=
  let '(ceiling, limited) := lz4b_ceiling (lz_in_len s) (lz_max_output s) in
  default (Err ZU_ERR_INTERNAL, s)
    (lz4b_search_loop lz4b_search_fuel s ceiling limited (lz4b_first_cap (lz_in_len s) ceiling)).

(** ** The decoder *)

(** With the size known: the staged way. *)
Definition lz4b_decoder_expected (s : lz4_state) (buf : zu_buffer) (want : Z) :
    zu_status * lz4_state * zu_buffer :=
  match zu_int_lz4b_gather s buf with
  | (ZU_OK, s, buf) =>
      if lz_in_len s =? 0 then (ZU_ERR_INVALID_DATA, s, buf)
      else
        match zu_int_lz4b_stage s want with
        | (ZU_OK, s) =>
            let '(r, out) := LZ4_decompress_safe (lz4b_input s) want in
            if (r <? 0) || negb (r =? want) then (ZU_ERR_INVALID_DATA, s, buf)
            else lz4b_staged s (memcpy_at (lz_stage s) 0 out) want buf
        | (gs, s) => (gs, s, buf)
        end
  | r => r
  end.

(** Without it. *)
Definition lz4b_decoder_unknown (s : lz4_state) (buf : zu_buffer) : zu_status * lz4_state * zu_buffer :=
  match zu_int_lz4b_gather s buf with
  | (ZU_OK, s, buf) =>
      if lz_in_len s =? 0 then (ZU_ERR_INVALID_DATA, s, buf)
      else
        match zu_int_lz4b_search s with
        | (Ok got, s) => lz4b_staged s (lz_stage s) got buf
        | (Err gs, s) => (gs, s, buf)
        end
  | r => r
  end.

Definition lz4b_decoder_process (s : lz4_state) (buf : zu_buffer) (flush : zu_flush) :
    zu_status * lz4_state * zu_buffer :=
  if lz_done s then lz4b_deliver s buf
  else if negb (is_finish flush)
  then
    match zu_int_lz4b_gather s buf with
    | (ZU_OK, s, buf) => (ZU_NEED_INPUT, s, buf)
    | r => r
    end
  else if lz_has_expected s
  then
    if negb (lz_max_output s =? 0) && (lz_expected s >? lz_max_output s)
    then (ZU_ERR_OUTPUT_LIMIT, s, buf)
    else if lz_expected s >? INT_MAX then (ZU_ERR_INVALID_DATA, s, buf)
    else
      let want := lz_expected s in
      if (lz_in_len s =? 0) && (avail_out buf >=? want)
      then
        if (avail_in buf =? 0) || (avail_in buf >? LZ4_MAX_INPUT_SIZE)
        then (ZU_ERR_INVALID_DATA, s, buf)
        else
          let '(r, out) :=
            LZ4_decompress_safe (sub (src_bytes buf) (src_pos buf) (avail_in buf)) want in
          if (r <? 0) || negb (r =? want) then (ZU_ERR_INVALID_DATA, s, buf)
          else (ZU_STREAM_END, lz_set_done s true, buf_emit (buf_consume buf (avail_in buf)) out)
      else lz4b_decoder_expected s buf want
  else lz4b_decoder_unknown s buf.

Definition lz4b_bound (level n : Z) : result Z :=
  if n >? LZ4_MAX_INPUT_SIZE then Err ZU_ERR_INVALID_ARGUMENT
  else
    let b := LZ4_compressBound n in
    if b <=? 0 then Err ZU_ERR_INVALID_ARGUMENT else Ok b.

(** ** The vtables *)

Definition zu_int_codec_lz4_frame : zu_codec_vtable := {|
  vt_state := lz4_state;
  vt_struct_size := sizeof_vtable;
  vt_codec := ZU_CODEC_LZ4_FRAME;
  vt_name := Some "lz4-frame"%string;
  vt_content_encoding := None;
  vt_source := Some "zukomp"%string;
  vt_level_min := ZU_INT_LZ4_LEVEL_MIN;
  vt_level_max := ZU_INT_LZ4_LEVEL_MAX;
  vt_level_default := ZU_INT_LZ4_LEVEL_DEFAULT;
  vt_flags := Z.lor (Z.lor ZU_CAN_ENCODE ZU_CAN_DECODE) ZU_CAN_FLUSH;
  vt_magic := Some lz4_magic;
  vt_magic_len := 4;
  vt_magic_offset := 0;
  vt_sniff := None;
  vt_encoder_new := Some lz4f_encoder_new;
  vt_encoder_process := Some lz4f_encoder_process;
  vt_encoder_reset := Some lz4f_encoder_reset;
  vt_encoder_free := true;
  vt_decoder_new := Some lz4f_decoder_new;
  vt_decoder_process := Some lz4f_decoder_process;
  vt_decoder_reset := Some lz4f_decoder_reset;
  vt_decoder_free := true;
  vt_bound := Some lz4f_bound;
  vt_level_fast := 1;
  vt_level_best := LZ4HC_CLEVEL_MAX;
|}.

Definition zu_int_codec_lz4_block : zu_codec_vtable := {|
  vt_state := lz4_state;
  vt_struct_size := sizeof_vtable;
  vt_codec := ZU_CODEC_LZ4_BLOCK;
  vt_name := Some "lz4-block"%string;
  vt_content_encoding := None;
  vt_source := Some "zukomp"%string;
  vt_level_min := ZU_INT_LZ4_LEVEL_MIN;
  vt_level_max := ZU_INT_LZ4_LEVEL_MAX;
  vt_level_default := ZU_INT_LZ4_LEVEL_DEFAULT;
  vt_flags := Z.lor ZU_CAN_ENCODE ZU_CAN_DECODE;
  vt_magic := None;
  vt_magic_len := 0;
  vt_magic_offset := 0;
  vt_sniff := None;
  vt_encoder_new := Some lz4b_encoder_new;
  vt_encoder_process := Some lz4b_encoder_process;
  vt_encoder_reset := Some lz4b_encoder_reset;
  vt_encoder_free := true;
  vt_decoder_new := Some lz4b_decoder_new;
  vt_decoder_process := Some lz4b_decoder_process;
  vt_decoder_reset := Some lz4b_decoder_reset;
  vt_decoder_free := true;
  vt_bound := Some lz4b_bound;
  vt_level_fast := 1;
  vt_level_best := LZ4HC_CLEVEL_MAX;
|}.

End block.
