(* ===== verification/Lz4BlockProps.v ===== *)
(** * What lz4-block promises

    The search for a block's size, and that each direction turns the whole input into one
    block, or one block into the whole output, however the windows are cut. *)
From S2P Require Import Prelude Types SizeArith Stream ProcessLoop FramedDecoder Lz4 Lz4Props Lz4Block.

(** What lz4.h and lz4hc.h document.  [lz4_decode] is the block format: what a well-formed
    block stands for. *)
Class Lz4BlockOk `{Lz4} := {
  lz4_decode : bytes -> option bytes;
  lb_safe : forall src cap d,
    lz4_decode src = Some d -> zlen d <= cap -> LZ4_decompress_safe src cap = (zlen d, d);
  lb_safe_fail : forall src cap,
    (forall d, lz4_decode src = Some d -> cap < zlen d) -> fst (LZ4_decompress_safe src cap) < 0;
  lb_partial : forall src cap d, 0 < cap ->
    lz4_decode src = Some d -> cap < zlen d -> fst (LZ4_decompress_safe_partial src cap cap) = cap;
  lb_partial_room : forall src cap, 0 <= cap ->
    zlen (snd (LZ4_decompress_safe_partial src cap cap)) <= cap;
  lb_ratio : forall src d, lz4_decode src = Some d -> zlen d <= 255 * zlen src;
  lb_compress : forall src level r, zlen src <= LZ4_MAX_INPUT_SIZE ->
    r = LZ4_compress_HC src (LZ4_compressBound (zlen src)) level \/
    r = LZ4_compress_fast src (LZ4_compressBound (zlen src)) level ->
    0 < fst r /\ fst r = zlen (snd r) /\ fst r <= LZ4_compressBound (zlen src) /\
    lz4_decode (snd r) = Some src;
}.

Lemma compressBound_range n :
  0 <= n <= LZ4_MAX_INPUT_SIZE ->
  LZ4_compressBound n = n + n / 255 + 16 /\ 0 < LZ4_compressBound n <= INT_MAX.
Proof.
  unfold LZ4_MAX_INPUT_SIZE. intros Hn. unfold LZ4_compressBound, LZ4_MAX_INPUT_SIZE, INT_MAX.
  assert (0 <= n / 255 <= 8289918).
  { split; [apply Z.div_pos; lia|]. apply (Z.div_le_mono n 0x7E000000 255); lia. }
  rewrite u32_small by lia. rewrite Z.gtb_ltb. destruct (Z.ltb_spec 0x7E000000 n); [lia|].
  rewrite s32_small by (unfold INT32_MIN; lia). lia.
Qed.

Lemma zlen_realloc p n : 0 <= n -> zlen p <= n -> zlen (realloc_bytes p n) = n.
Proof.
  unfold realloc_bytes, zlen. intros. rewrite length_app, length_take, length_replicate. lia.
Qed.

Lemma sub_realloc p n len :
  0 <= len <= zlen p -> zlen p <= n -> sub (realloc_bytes p n) 0 len = sub p 0 len.
Proof.
  unfold realloc_bytes, sub, zlen. intros. rewrite !drop_0, (take_ge p) by lia.
  apply take_app_le. lia.
Qed.

Section block.
Context {lz4 : Lz4} {alloc : Allocator}.

(** ** Staging and gathering *)

(** [s'] is [s] with another stage; lengths and positions are kept. *)
Definition restaged (s s' : lz4_state) : Prop :=
  exists stage, s' = lz_set_stage s stage (zlen stage) (lz_stage_len s) (lz_stage_pos s) /\
    lz_stage_cap s <= zlen stage.

Lemma restaged_trans s1 s2 s3 : restaged s1 s2 -> restaged s2 s3 -> restaged s1 s3.
Proof.
  intros (p & -> & H1) (q & -> & H2). cbn in *. exists q. split; [done|lia].
Qed.

Lemma stage_spec s n :
  lz_stage_cap s = zlen (lz_stage s) -> 0 <= n ->
  match zu_int_lz4b_stage s n with
  | (ZU_OK, s') => restaged s s' /\ n <= lz_stage_cap s'
  | (st, s') => failed st /\ s' = s /\ exists m, alloc_ok (req_bytes m) = false
  end.
Proof.
  intros Hc Hn. unfold zu_int_lz4b_stage. rewrite Z.gtb_ltb.
  destruct (Z.ltb_spec (lz_stage_cap s) n) as [Hlt|Hge].
  - destruct (alloc_ok _) eqn:Ea; cbn [negb]; [|by split_and!; eauto].
    split; [|done]. exists (realloc_bytes (lz_stage s) n). rewrite zlen_realloc by lia.
    split; [done|lia].
  - split; [|done]. exists (lz_stage s). rewrite <- Hc. split; [by destruct s|done].
Qed.

Record in_ok (s : lz4_state) : Prop := {
  io_cap : lz_in_cap s = zlen (lz_in s);
  io_len : 0 <= lz_in_len s <= lz_in_cap s;
  io_max : lz_in_len s <= LZ4_MAX_INPUT_SIZE;
}.

Lemma zlen_input s : in_ok s -> zlen (lz4b_input s) = lz_in_len s.
Proof. intros []. unfold lz4b_input. apply zlen_sub; lia. Qed.

Lemma input_append s b p cap :
  in_ok s -> buffer_ok b -> cap = zlen p -> lz_in_len s + avail_in b <= cap ->
  lz_in_len s + avail_in b <= LZ4_MAX_INPUT_SIZE ->
  sub p 0 (lz_in_len s) = lz4b_input s ->
  let s' := lz_set_in s (memcpy_at p (lz_in_len s) (src_window b)) cap (lz_in_len s + avail_in b) in
  in_ok s' /\ lz4b_input s' = lz4b_input s ++ src_window b.
Proof.
  intros [H1 H2 H3] Hb -> Hl Hm Hp. pose proof (avail_in_nonneg b Hb).
  pose proof (zlen_src_window b Hb) as Hw. split.
  - constructor; cbn; [|lia|done]. by rewrite zlen_memcpy_at by lia.
  - unfold lz4b_input at 1. cbn. rewrite sub_split, Z.add_0_l by lia.
    rewrite sub_memcpy_at_before by lia. rewrite Hp, <- Hw, sub_memcpy_at by lia. done.
Qed.

(** Gathering appends the whole window, or fails. *)
Lemma gather_spec s b :
  in_ok s -> buffer_ok b ->
  match zu_int_lz4b_gather s b with
  | (ZU_OK, s', b') =>
      moved b b' (src_window b) [] /\ in_ok s' /\ lz4b_input s' = lz4b_input s ++ src_window b /\
      s' = lz_set_in s (lz_in s') (lz_in_cap s') (lz_in_len s') /\ avail_in b' = 0
  | (st, s', b') => failed st /\ b' = b /\ s' = s
  end.
Proof.
  intros Hi Hb. pose proof Hi as [H1 H2 H3]. pose proof (avail_in_nonneg b Hb) as Hn.
  unfold zu_int_lz4b_gather. destruct (Z.eqb_spec (avail_in b) 0) as [E0|E0].
  { assert (src_window b = []) as -> by (by apply src_window_nil).
    rewrite app_nil_r. split_and!; auto using moved_refl. by destruct s. }
  assert (Hsz : is_size (avail_in b)) by (unfold is_size, SIZE_MAX, avail_in in *; destruct Hb; lia).
  unfold LZ4_MAX_INPUT_SIZE in *.
  destruct (Z.le_gt_cases (lz_in_len s + avail_in b) SIZE_MAX) as [Hs|Hs];
    [|by rewrite zu_int_add_overflow].
  rewrite zu_int_add_ok by (done || (unfold is_size, SIZE_MAX; lia)). rewrite !Z.gtb_ltb.
  destruct (Z.ltb_spec 0x7E000000 (lz_in_len s + avail_in b)); [by destruct (lz_encoder s)|].
  assert (Hmv : moved b (buf_consume b (avail_in b)) (src_window b) []) by (by apply moved_consume; [|lia]).
  assert (Hend : avail_in (buf_consume b (avail_in b)) = 0) by (unfold avail_in; cbn; lia).
  destruct (Z.ltb_spec (lz_in_cap s) (lz_in_len s + avail_in b)) as [Hg|Hg].
  - destruct (zu_int_grow_cases (lz_in_cap s) (lz_in_len s + avail_in b - lz_in_cap s))
      as [ [_ ->] | [? _] ]; [unfold is_size, SIZE_MAX; lia..| |unfold SIZE_MAX in *; lia].
    set (next := Z.max _ _). assert (Hnx : lz_in_len s + avail_in b <= next /\ lz_in_cap s <= next)
      by (unfold next; split_if; lia). clearbody next.
    destruct (alloc_ok _) eqn:Ea; cbn [negb]; [|done].
    destruct (input_append s b (realloc_bytes (lz_in s) next) next) as [Hok Hin];
      [done|done|by rewrite zlen_realloc by lia|lia|done|by rewrite sub_realloc by lia|].
    by split_and!.
  - destruct (input_append s b (lz_in s) (lz_in_cap s)) as [Hok Hin]; done.
Qed.

(** ** The search *)

Lemma lz4b_ceiling_spec n max :
  0 <= n <= LZ4_MAX_INPUT_SIZE -> 0 <= max < 2 ^ 64 ->
  let '(ceiling, limited) := lz4b_ceiling n max in
  exists base, base = Z.min (n * 255 + 64) INT_MAX /\
    limited = (negb (max =? 0) && (max <? base)) /\
    ceiling = if limited then max else base.
Proof.
  unfold LZ4_MAX_INPUT_SIZE. intros Hn Hm. unfold lz4b_ceiling.
  rewrite zu_int_mul_ok by (unfold is_size, SIZE_MAX; lia).
  rewrite zu_int_add_ok by (unfold is_size, SIZE_MAX; lia).
  set (base := if n * 255 + 64 >? INT_MAX then INT_MAX else n * 255 + 64).
  assert (Hb : base = Z.min (n * 255 + 64) INT_MAX) by (unfold base; zcase; lia).
  clearbody base. destruct (negb (max =? 0) && (max <? base)) eqn:E; exists base; by rewrite E.
Qed.

Lemma lz4b_first_cap_spec n ceiling :
  0 <= n <= LZ4_MAX_INPUT_SIZE ->
  lz4b_first_cap n ceiling = Z.min ceiling (Z.max 4096 (n * 4)).
Proof.
  unfold LZ4_MAX_INPUT_SIZE, lz4b_first_cap. intros Hn. rewrite u64_small by lia.
  destruct (Z.ltb_spec (n * 4) 4096); zcase; lia.
Qed.

Context {block_ok : Lz4BlockOk}.

(** What the search finds for the block [src] under [ceiling]. *)
Definition search_result (src : bytes) (ceiling : Z) (limited : bool) (r : result Z) (s' : lz4_state) : Prop :=
  match lz4_decode src with
  | Some d =>
      if zlen d <=? ceiling
      then r = Ok (zlen d) /\ zlen d <= lz_stage_cap s' /\ sub (lz_stage s') 0 (zlen d) = d
      else r = Err (if limited then ZU_ERR_OUTPUT_LIMIT else ZU_ERR_INVALID_DATA)
  | None => r = Err ZU_ERR_INVALID_DATA \/ r = Err (if limited then ZU_ERR_OUTPUT_LIMIT else ZU_ERR_INVALID_DATA)
  end.

Lemma restage_write s s1 out :
  restaged s s1 -> zlen out <= lz_stage_cap s1 ->
  let s2 := lz_set_stage s1 (memcpy_at (lz_stage s1) 0 out) (lz_stage_cap s1)
              (lz_stage_len s1) (lz_stage_pos s1) in
  restaged s s2 /\ lz_stage_cap s2 = lz_stage_cap s1 /\ sub (lz_stage s2) 0 (zlen out) = out.
Proof.
  intros (p & -> & Hp) Ho. cbn in *. split_and!; [|done|by apply sub_memcpy_at; lia].
  exists (memcpy_at p 0 out). rewrite zlen_memcpy_at by lia. done.
Qed.

Context (Halloc : forall n, alloc_ok (req_bytes n) = true).

(** One round, whatever follows it. *)
Definition search_body (s : lz4_state) (ceiling : Z) (limited : bool) (cap : Z)
    (next : lz4_state -> Z -> option (result Z * lz4_state)) : option (result Z * lz4_state) :=
  match zu_int_lz4b_stage s cap with
  | (ZU_OK, s) =>
      let '(r, out) := LZ4_decompress_safe (lz4b_input s) cap in
      if r >=? 0
      then Some (Ok r, lz_set_stage s (memcpy_at (lz_stage s) 0 out) (lz_stage_cap s)
                         (lz_stage_len s) (lz_stage_pos s))
      else
        let '(p, part) := LZ4_decompress_safe_partial (lz4b_input s) cap cap in
        let s := lz_set_stage s (memcpy_at (lz_stage s) 0 part) (lz_stage_cap s)
                   (lz_stage_len s) (lz_stage_pos s) in
        if (p <? 0) || (p <? cap) then Some (Err ZU_ERR_INVALID_DATA, s)
        else if cap >=? ceiling
        then Some (Err (if limited then ZU_ERR_OUTPUT_LIMIT else ZU_ERR_INVALID_DATA), s)
        else next s (if cap >? ceiling / 4 then ceiling else cap * 4)
  | (st, s) => Some (Err st, s)
  end.

Definition search_found (s : lz4_state) (src : bytes) (ceiling : Z) (limited : bool)
    (o : option (result Z * lz4_state)) : Prop :=
  exists r s', o = Some (r, s') /\ restaged s s' /\ search_result src ceiling limited r s'.

(** A capacity that the block does not fit. *)
Lemma search_short s s1 ceiling limited cap next :
  let src := lz4b_input s in
  restaged s s1 -> cap <= lz_stage_cap s1 -> 0 < cap <= ceiling ->
  (forall d, lz4_decode src = Some d -> cap < zlen d) ->
  (forall s2, cap < ceiling -> restaged s s2 ->
     search_found s src ceiling limited (next s2 (if cap >? ceiling / 4 then ceiling else cap * 4))) ->
  search_found s src ceiling limited
    (let '(p, part) := LZ4_decompress_safe_partial src cap cap in
     let s := lz_set_stage s1 (memcpy_at (lz_stage s1) 0 part) (lz_stage_cap s1)
                (lz_stage_len s1) (lz_stage_pos s1) in
     if (p <? 0) || (p <? cap) then Some (Err ZU_ERR_INVALID_DATA, s)
     else if cap >=? ceiling
     then Some (Err (if limited then ZU_ERR_OUTPUT_LIMIT else ZU_ERR_INVALID_DATA), s)
     else next s (if cap >? ceiling / 4 then ceiling else cap * 4)).
Proof.
  intros src Hr Hs1 Hcap Hbig Hnext. pose proof (lb_partial_room src cap ltac:(lia)) as Hroom.
  pose proof (fun d => lb_partial src cap d ltac:(lia)) as Hpart.
  destruct (LZ4_decompress_safe_partial src cap cap) as [p part]. cbn [fst snd] in *.
  destruct (restage_write s s1 part Hr ltac:(lia)) as (Hr2 & Hc2 & _). cbv zeta in Hr2 |- *.
  set (s2 := lz_set_stage s1 _ _ _ _) in *. clearbody s2.
  destruct ((p <? 0) || (p <? cap)) eqn:Ep.
  { exists (Err ZU_ERR_INVALID_DATA), s2. split_and!; [done|done|]. unfold search_result.
    destruct (lz4_decode src) as [d|] eqn:Ed; [|by left].
    rewrite (Hpart d eq_refl (Hbig d eq_refl)) in Ep. zbool. lia. }
  rewrite Z.geb_leb. destruct (Z.leb_spec ceiling cap); [|by apply Hnext; [lia|] ].
  eexists _, s2. split_and!; [done|done|]. unfold search_result.
  destruct (lz4_decode src) as [d|] eqn:Ed; [|by right].
  specialize (Hbig d eq_refl). by destruct (Z.leb_spec (zlen d) ceiling); [lia|].
Qed.

Lemma search_body_spec s ceiling limited cap next :
  lz_stage_cap s = zlen (lz_stage s) -> 0 < cap <= ceiling ->
  (forall s2, cap < ceiling -> restaged s s2 ->
     search_found s (lz4b_input s) ceiling limited (next s2 (if cap >? ceiling / 4 then ceiling else cap * 4))) ->
  search_found s (lz4b_input s) ceiling limited (search_body s ceiling limited cap next).
Proof.
  intros Hc Hcap Hnext. unfold search_body. pose proof (stage_spec s cap Hc ltac:(lia)) as Hst.
  destruct (zu_int_lz4b_stage s cap) as [st s1].
  destruct st; try (destruct Hst as (? & ? & m & Hm); by rewrite Halloc in Hm).
  destruct Hst as [Hr Hs1].
  assert (Hin : lz4b_input s1 = lz4b_input s) by (by destruct Hr as (p1 & -> & _)).
  rewrite Hin. assert (Hdec : (exists d, lz4_decode (lz4b_input s) = Some d /\ zlen d <= cap) \/
    (forall d, lz4_decode (lz4b_input s) = Some d -> cap < zlen d)).
  { destruct (lz4_decode (lz4b_input s)) as [d|]; [|by right].
    destruct (Z.le_gt_cases (zlen d) cap); [left; by exists d|right; by intros ? [= <-] ]. }
  destruct Hdec as [(d & Ed & Hd)|Hbig].
  - rewrite (lb_safe _ _ _ Ed Hd). pose proof (zlen_nonneg d). rewrite Z.geb_leb.
    destruct (Z.leb_spec 0 (zlen d)); [|lia].
    destruct (restage_write s s1 d Hr ltac:(lia)) as (Hr2 & Hc2 & Hsub).
    eexists _, _. split_and!; [done|exact Hr2|]. unfold search_result. rewrite Ed.
    destruct (Z.leb_spec (zlen d) ceiling); [|lia]. split_and!; [done|cbn; lia|done].
  - pose proof (lb_safe_fail _ _ Hbig) as Hneg.
    destruct (LZ4_decompress_safe (lz4b_input s) cap) as [r out]. cbn [fst] in Hneg.
    rewrite Z.geb_leb. destruct (Z.leb_spec 0 r); [lia|]. by apply search_short.
Qed.

Lemma search_loop_spec ceiling limited : forall fuel s cap,
  lz_stage_cap s = zlen (lz_stage s) -> 0 < cap <= ceiling ->
  ceiling <= cap * 4 ^ (Z.of_nat fuel) ->
  search_found s (lz4b_input s) ceiling limited (lz4b_search_loop (S fuel) s ceiling limited cap).
Proof.
  induction fuel as [|fuel IH]; intros s cap Hc Hcap Hf.
  { apply (search_body_spec s ceiling limited cap (fun s2 c2 => lz4b_search_loop 0 s2 ceiling limited c2));
      [done..|]. intros s2 Hlt. rewrite Z.pow_0_r in Hf. lia. }
  apply (search_body_spec s ceiling limited cap
    (fun s2 c2 => lz4b_search_loop (S fuel) s2 ceiling limited c2)); [done..|].
  intros s2 Hlt Hr. pose proof Hr as (p & E2 & Hp).
  assert (Hin : lz4b_input s2 = lz4b_input s) by (by rewrite E2).
  set (cap' := if cap >? ceiling / 4 then ceiling else cap * 4).
  assert (Hcap' : 0 < cap' <= ceiling /\ ceiling <= cap' * 4 ^ Z.of_nat fuel).
  { rewrite Nat2Z.inj_succ, Z.pow_succ_r in Hf by lia. pose proof (Z.pow_pos_nonneg 4 (Z.of_nat fuel)).
    pose proof (Z.mul_div_le ceiling 4). unfold cap'. rewrite Z.gtb_ltb.
    destruct (Z.ltb_spec (ceiling / 4) cap); nia. }
  destruct (IH s2 cap') as (r & s' & E & Hr' & Hres); [by rewrite E2|apply Hcap'..|].
  exists r, s'. split_and!; [done|by eapply restaged_trans|by rewrite <- Hin].
Qed.

(** C40: the search finds the size of every block.  When allocations succeed, for a gathered
    input that is a well-formed block of at most INT_MAX bytes the search ends with exactly
    the decoded bytes staged, unless they exceed max_output, and then with
    ZU_ERR_OUTPUT_LIMIT; for an input that is no block it ends with an error.  The
    loop needs at most twelve rounds. *)
Theorem lz4b_search_finds s :
  in_ok s -> lz_stage_cap s = zlen (lz_stage s) -> 0 < lz_in_len s ->
  0 <= lz_max_output s < 2 ^ 64 ->
  is_Some (lz4b_search_loop lz4b_search_fuel s (lz4b_ceiling (lz_in_len s) (lz_max_output s)).1
    (lz4b_ceiling (lz_in_len s) (lz_max_output s)).2
    (lz4b_first_cap (lz_in_len s) (lz4b_ceiling (lz_in_len s) (lz_max_output s)).1)) /\
  let max := lz_max_output s in
  let r := (zu_int_lz4b_search s).1 in
  let s' := (zu_int_lz4b_search s).2 in
  restaged s s' /\
  match lz4_decode (lz4b_input s) with
  | Some d =>
      (zlen d <= INT_MAX -> max = 0 \/ zlen d <= max ->
         r = Ok (zlen d) /\ zlen d <= lz_stage_cap s' /\ sub (lz_stage s') 0 (zlen d) = d) /\
      (zlen d <= INT_MAX -> 0 < max < zlen d -> r = Err ZU_ERR_OUTPUT_LIMIT)
  | None => r = Err ZU_ERR_INVALID_DATA \/ r = Err ZU_ERR_OUTPUT_LIMIT
  end.
Proof.
  intros Hin Hc Hpos Hmax. pose proof (lz4b_ceiling_spec (lz_in_len s) (lz_max_output s)) as Hceil.
  pose proof Hin as [H1 H2 H3]. specialize (Hceil ltac:(lia) Hmax). unfold zu_int_lz4b_search.
  destruct (lz4b_ceiling _ _) as [ceiling limited]. cbn [fst snd].
  destruct Hceil as (base & Hb & El & Ec).
  assert (Hlim : limited = true /\ 0 < lz_max_output s < base /\ ceiling = lz_max_output s \/
    limited = false /\ ceiling = base /\ (lz_max_output s = 0 \/ base <= lz_max_output s)).
  { rewrite El in Ec |- *. destruct (Z.eqb_spec (lz_max_output s) 0); cbn [negb andb] in *; [right; lia|].
    destruct (Z.ltb_spec (lz_max_output s) base); [left|right]; lia. }
  clear El Ec. unfold INT_MAX, LZ4_MAX_INPUT_SIZE in *.
  rewrite lz4b_first_cap_spec by (unfold LZ4_MAX_INPUT_SIZE; lia).
  destruct (search_loop_spec ceiling limited 11 s (Z.min ceiling (Z.max 4096 (lz_in_len s * 4))) Hc)
    as (r & s' & E & Hr & Hres); [lia|cbn; lia|].
  change lz4b_search_fuel with 12%nat. rewrite E. cbn [default from_option id fst snd].
  split; [eauto|]. split; [done|]. unfold search_result in Hres.
  destruct (lz4_decode (lz4b_input s)) as [d|] eqn:Ed; [|destruct limited; tauto].
  pose proof (lb_ratio _ _ Ed) as Hratio. rewrite zlen_input in Hratio by done.
  split.
  - intros Hd Hm. destruct (Z.leb_spec (zlen d) ceiling); [done|lia].
  - intros Hd Hm. destruct (Z.leb_spec (zlen d) ceiling); [lia|].
    by destruct Hlim as [(-> & _)|(_ & ? & ?)]; [|lia].
Qed.

End block.

(** ** One block, however the windows are cut *)

Section histories.
Context {lz4 : Lz4} {alloc : Allocator} {block_ok : Lz4BlockOk}.

(** The settings a call never changes. *)
Definition keeps (s s' : lz4_state) : Prop :=
  lz_level s' = lz_level s /\ lz_max_output s' = lz_max_output s /\
  lz_has_expected s' = lz_has_expected s /\ lz_expected s' = lz_expected s.

Lemma keeps_refl s : keeps s s.
Proof. done. Qed.

Lemma keeps_trans s1 s2 s3 : keeps s1 s2 -> keeps s2 s3 -> keeps s1 s3.
Proof. intros (? & ? & ? & ?) (? & ? & ? & ?). split_and!; congruence. Qed.

(** [spec i o]: the whole input [i] stands for the whole output [o].  Until it is known the
    input is gathered and nothing is written; then what is not yet written is pending. *)
Definition block_inv (spec : bytes -> bytes -> Prop) (s : lz4_state) (taken given : bytes) : Prop :=
  stage_ok s /\
  if lz_done s then spec taken (given ++ pending s)
  else given = [] /\ in_ok s /\ lz4b_input s = taken.

Definition block_answer (spec : bytes -> bytes -> Prop) (s' : lz4_state) (b' : zu_buffer)
    (taken given : bytes) (st : zu_status) : Prop :=
  match st with
  | ZU_STREAM_END => spec taken given
  | ZU_NEED_INPUT => block_inv spec s' taken given /\ given = [] /\ avail_in b' = 0
  | ZU_NEED_OUTPUT => block_inv spec s' taken given /\ lz_done s' = true /\ avail_out b' = 0
  | ZU_OK | ZU_STATUS_OTHER _ => False
  | _ => True
  end.

(** What a call does, from [s] and [b]. *)
Definition block_call (spec : bytes -> bytes -> Prop) (taken given : bytes) (s : lz4_state) (b : zu_buffer)
    (r : zu_status * lz4_state * zu_buffer) : Prop :=
  exists i o, moved b r.2 i o /\ keeps s r.1.2 /\
    block_answer spec r.1.2 r.2 (taken ++ i) (given ++ o) r.1.1.

Lemma block_call_failed spec taken given s s' b st :
  failed st -> keeps s s' -> buffer_ok b -> block_call spec taken given s b (st, s', b).
Proof.
  intros Hf Hk Hb. exists [], []. split; [by apply moved_refl|]. split; [done|].
  by destruct st.
Qed.

(** A failure after some input was moved. *)
Lemma block_call_failed_after spec taken given s s' b b' i o st :
  failed st -> keeps s s' -> moved b b' i o -> block_call spec taken given s b (st, s', b').
Proof. intros Hf Hk Hm. exists i, o. split; [done|]. split; [done|]. by destruct st. Qed.

Lemma deliver_call spec taken given s b :
  stage_ok s -> lz_done s = true -> spec taken (given ++ pending s) -> buffer_ok b ->
  block_call spec taken given s b (lz4b_deliver s b).
Proof.
  intros Hs Hd Hsp Hb. unfold lz4b_deliver. pose proof (drain_spec s b Hs Hb) as H.
  destruct (zu_int_lz4_drain s b) as [ [ [] s'] b'].
  - destruct H as [Hm ->]. exists [], (pending s). rewrite app_nil_r.
    split; [exact Hm|]. split; [done|]. exact Hsp.
  - destruct H as (pos & o & Hm & -> & Ep & Hok & Hz). exists [], o. rewrite app_nil_r.
    split; [exact Hm|]. split; [done|]. cbn. split; [|done]. split; [done|].
    cbn. rewrite Hd, <- app_assoc, <- Ep. exact Hsp.
Qed.

(** Prefixing the call with what gathering moved. *)
Lemma block_call_after spec taken given s s1 b b1 i r :
  moved b b1 i [] -> keeps s s1 -> block_call spec (taken ++ i) given s1 b1 r ->
  block_call spec taken given s b r.
Proof.
  intros Hm Hk (i1 & o1 & Hm1 & Hk1 & Ha). exists (i ++ i1), o1.
  split; [rewrite <- (app_nil_l o1); by eapply moved_trans|].
  split; [by eapply keeps_trans|]. by rewrite app_assoc.
Qed.

Lemma staged_call spec taken s stage len b :
  lz_stage_cap s = zlen stage -> 0 <= len <= zlen stage -> spec taken (sub stage 0 len) -> buffer_ok b ->
  block_call spec taken [] s b (lz4b_staged s stage len b).
Proof.
  intros Hc Hl Hsp Hb. unfold lz4b_staged. set (s1 := lz_set_in _ _ _ _).
  apply (block_call_after spec taken [] s s1 b b []); [by apply moved_refl|done|].
  rewrite app_nil_r. apply deliver_call; try done; [constructor; cbn; lia|].
  unfold pending. cbn. by rewrite Z.sub_0_r.
Qed.

(** ZU_RUN and ZU_FLUSH gather. *)
Lemma gather_call spec taken s b :
  block_inv spec s taken [] -> lz_done s = false -> buffer_ok b ->
  block_call spec taken [] s b
    match zu_int_lz4b_gather s b with
    | (ZU_OK, s, buf) => (ZU_NEED_INPUT, s, buf)
    | r => r
    end.
Proof.
  intros [Hs Hinv] Hd Hb. rewrite Hd in Hinv. destruct Hinv as (_ & Hin & Ht).
  pose proof (gather_spec s b Hin Hb) as H. destruct (zu_int_lz4b_gather s b) as [ [st s'] b'].
  destruct st; try (destruct H as (Hf & -> & ->); by apply block_call_failed).
  destruct H as (Hm & Hin' & Hi' & Es & Ha). exists (src_window b), []. split; [done|].
  rewrite Es. split; [done|]. cbn. split; [|done]. split; [by destruct Hs|]. cbn. rewrite Hd.
  split; [done|]. rewrite <- Ht, <- Hi'. by rewrite <- Es.
Qed.

(** ** The encoder *)

Definition lz4b_block (level : Z) (src : bytes) : bytes :=
  snd (zu_int_lz4b_compress (lz4_state_zero true level) src (LZ4_compressBound (zlen src))).

Definition benc_spec (level : Z) (i o : bytes) : Prop :=
  o = lz4b_block level i /\ lz4_decode o = Some i.

Lemma compress_spec s src :
  zlen src <= LZ4_MAX_INPUT_SIZE ->
  let r := zu_int_lz4b_compress s src (LZ4_compressBound (zlen src)) in
  0 < r.1 /\ r.1 = zlen r.2 /\ r.1 <= LZ4_compressBound (zlen src) /\ benc_spec (lz_level s) src r.2.
Proof.
  intros Hn r. assert (H : 0 < r.1 /\ r.1 = zlen r.2 /\ r.1 <= LZ4_compressBound (zlen src) /\
    lz4_decode r.2 = Some src).
  { unfold r, zu_int_lz4b_compress. split_if; eapply lb_compress; eauto. }
  destruct H as (H1 & H2 & H3 & H4). split_and!; [done..|]. by split.
Qed.

Lemma encoder_staged_call s b taken :
  block_inv (benc_spec (lz_level s)) s taken [] -> lz_done s = false -> buffer_ok b ->
  block_call (benc_spec (lz_level s)) taken [] s b (lz4b_encoder_staged s b).
Proof.
  intros [Hs Hinv] Hd Hb. rewrite Hd in Hinv. destruct Hinv as (_ & Hin & Ht).
  unfold lz4b_encoder_staged. pose proof (gather_spec s b Hin Hb) as H.
  destruct (zu_int_lz4b_gather s b) as [ [st s1] b1].
  destruct st; try (destruct H as (Hf & -> & ->); by apply block_call_failed).
  destruct H as (Hm & Hin1 & Hi1 & Es & _).
  assert (Hk1 : keeps s s1) by (by rewrite Es).
  assert (Hc1 : lz_stage_cap s1 = zlen (lz_stage s1)) by (rewrite Es; cbn; by apply Hs).
  pose proof (moved_ok _ _ _ _ Hb Hm) as Hb1. pose proof (zlen_input s1 Hin1) as Hl.
  pose proof Hin1 as [_ ? ?].
  destruct (compressBound_range (lz_in_len s1) ltac:(lia)) as [_ Hbd].
  destruct (Z.leb_spec (LZ4_compressBound (lz_in_len s1)) 0); [lia|].
  pose proof (stage_spec s1 (LZ4_compressBound (lz_in_len s1)) Hc1 ltac:(lia)) as Hst.
  destruct (zu_int_lz4b_stage s1 (LZ4_compressBound (lz_in_len s1))) as [st s2].
  assert (Hfail : forall st', failed st' -> keeps s s2 ->
    block_call (benc_spec (lz_level s)) taken [] s b (st', s2, b1))
    by (intros; by eapply block_call_failed_after).
  destruct st; try (destruct Hst as (Hf & -> & _); by apply Hfail).
  destruct Hst as ((p & E2 & _) & Hcap).
  assert (Hk2 : keeps s s2) by (by rewrite E2).
  assert (Hi2 : lz4b_input s2 = lz4b_input s1) by (by rewrite E2).
  pose proof (compress_spec s2 (lz4b_input s2)) as Hcomp. rewrite Hi2, Hl in Hcomp.
  specialize (Hcomp ltac:(lia)). rewrite Hi2.
  assert (El : lz_in_len s2 = lz_in_len s1) by (by rewrite E2). rewrite <- ?El in *.
  destruct (zu_int_lz4b_compress s2 (lz4b_input s1) (LZ4_compressBound (lz_in_len s2))) as [w out].
  cbn [fst snd] in Hcomp. destruct Hcomp as (Hw1 & -> & Hw3 & Hsp).
  destruct (Z.leb_spec (zlen out) 0); [lia|].
  eapply block_call_after; [exact Hm|exact Hk2|].
  assert (Hc2 : lz_stage_cap s2 = zlen (lz_stage s2)) by (by rewrite E2).
  apply staged_call; [rewrite zlen_memcpy_at by lia; done|rewrite zlen_memcpy_at by lia; lia| |done].
  rewrite sub_memcpy_at by lia. rewrite <- Ht, <- Hi1. destruct Hk2 as (Elv & _). by rewrite <- Elv.
Qed.

Lemma encoder_call s b taken given flush :
  block_inv (benc_spec (lz_level s)) s taken given -> buffer_ok b ->
  block_call (benc_spec (lz_level s)) taken given s b (lz4b_encoder_process s b flush).
Proof.
  intros Hinv Hb. unfold lz4b_encoder_process. destruct (lz_done s) eqn:Ed.
  { destruct Hinv as [Hs Hsp]. rewrite Ed in Hsp. by apply deliver_call. }
  pose proof Hinv as [_ Hi]. rewrite Ed in Hi. destruct Hi as (-> & Hin & Ht).
  destruct (negb (is_finish flush)); [by apply gather_call|].
  destruct (_ && _) eqn:Ec; [|by apply encoder_staged_call].
  apply andb_true_iff in Ec as [Ec Hroom]. apply andb_true_iff in Ec as [Ec _].
  apply andb_true_iff in Ec as [E0 Hmax]. rewrite Z.geb_leb in Hroom. zbool.
  pose proof (avail_in_nonneg b Hb). fold (src_window b).
  pose proof (compress_spec s (src_window b)) as Hcomp. rewrite zlen_src_window in Hcomp by done.
  specialize (Hcomp Hmax).
  destruct (zu_int_lz4b_compress s (src_window b) (LZ4_compressBound (avail_in b))) as [w out].
  cbn [fst snd] in Hcomp. destruct Hcomp as (Hw1 & -> & Hw3 & Hsp).
  destruct (Z.leb_spec (zlen out) 0); [lia|].
  exists (src_window b), out. split; [apply moved_through; [done|lia|lia]|]. split; [done|].
  cbn. rewrite <- Ht. unfold lz4b_input. by rewrite E0, sub_0.
Qed.

(** ** The decoder *)

Definition bdec_spec (s : lz4_state) (i o : bytes) : Prop :=
  lz4_decode i = Some o /\
  (lz_has_expected s = true -> zlen o = lz_expected s) /\
  (lz_max_output s <> 0 -> zlen o <= lz_max_output s).

Lemma bdec_spec_keeps s s' i o : keeps s s' -> bdec_spec s i o -> bdec_spec s' i o.
Proof. unfold bdec_spec. by intros (_ & -> & -> & ->). Qed.

(** What a success of [LZ4_decompress_safe] means. *)
Lemma safe_inv src cap r out :
  LZ4_decompress_safe src cap = (r, out) -> 0 <= r ->
  lz4_decode src = Some out /\ r = zlen out /\ zlen out <= cap.
Proof.
  intros E Hr. destruct (lz4_decode src) as [d|] eqn:Ed.
  - destruct (Z.le_gt_cases (zlen d) cap) as [Hd|Hd].
    + rewrite (lb_safe _ _ _ Ed Hd) in E. by injection E as <- <-.
    + assert (r < 0); [|lia]. replace r with (fst (LZ4_decompress_safe src cap)) by (by rewrite E).
      apply lb_safe_fail. intros d' Ed'. rewrite Ed in Ed'. by injection Ed' as <-.
  - assert (r < 0); [|lia]. replace r with (fst (LZ4_decompress_safe src cap)) by (by rewrite E).
    apply lb_safe_fail. intros d' Ed'. congruence.
Qed.

(** The search, when it succeeds, whatever the allocator did. *)
Lemma search_loop_found ceiling limited : forall fuel s cap r s',
  lz_stage_cap s = zlen (lz_stage s) -> 0 <= cap <= ceiling ->
  lz4b_search_loop fuel s ceiling limited cap = Some (r, s') ->
  restaged s s' /\
  match r with
  | Ok n => exists d, lz4_decode (lz4b_input s) = Some d /\ n = zlen d /\ zlen d <= ceiling /\
      zlen d <= lz_stage_cap s' /\ sub (lz_stage s') 0 (zlen d) = d
  | Err st => failed st
  end.
Proof.
  induction fuel as [|fuel IH]; intros s cap r s' Hc Hcap E; [done|]. cbn [lz4b_search_loop] in E.
  pose proof (stage_spec s cap Hc ltac:(lia)) as Hst. destruct (zu_int_lz4b_stage s cap) as [st s1].
  assert (Hrr : restaged s s) by (exists (lz_stage s); rewrite <- Hc; split; [by destruct s|done]).
  destruct st; try (destruct Hst as (Hf & -> & _); injection E as <- <-; by split).
  destruct Hst as [Hr Hcap1]. assert (Hi1 : lz4b_input s1 = lz4b_input s) by (by destruct Hr as (p & -> & _)).
  rewrite Hi1 in E. destruct (LZ4_decompress_safe _ _) as [n out] eqn:Es. rewrite Z.geb_leb in E.
  destruct (Z.leb_spec 0 n) as [Hn|Hn].
  { destruct (safe_inv _ _ _ _ Es Hn) as (Hd & -> & Hle). injection E as <- <-.
    destruct (restage_write s s1 out Hr ltac:(lia)) as (Hr2 & Hc2 & Hsub).
    split; [done|]. exists out. split_and!; [done|done|lia|cbn; lia|done]. }
  pose proof (lb_partial_room (lz4b_input s) cap ltac:(lia)) as Hroom.
  destruct (LZ4_decompress_safe_partial _ _ _) as [p part]. cbn [snd] in Hroom.
  destruct (restage_write s s1 part Hr ltac:(lia)) as (Hr2 & _ & _). cbv zeta in Hr2.
  set (s2 := lz_set_stage s1 _ _ _ _) in *. clearbody s2.
  destruct (_ || _); [injection E as <- <-; by split|].
  destruct (cap >=? ceiling); [injection E as <- <-; split; [done|by destruct limited]|].
  pose proof Hr2 as (p2 & E2 & _).
  destruct (IH s2 (if cap >? ceiling / 4 then ceiling else cap * 4) r s' ltac:(by rewrite E2))
    as [Hr3 Hres]; [|exact E|].
  { rewrite Z.gtb_ltb. pose proof (Z.mul_div_le ceiling 4). destruct (Z.ltb_spec (ceiling / 4) cap); lia. }
  split; [by eapply restaged_trans|]. by rewrite E2 in Hres.
Qed.

Lemma search_found_ok s :
  in_ok s -> lz_stage_cap s = zlen (lz_stage s) -> 0 <= lz_max_output s < 2 ^ 64 ->
  let r := (zu_int_lz4b_search s).1 in
  let s' := (zu_int_lz4b_search s).2 in
  restaged s s' /\
  match r with
  | Ok n => exists d, lz4_decode (lz4b_input s) = Some d /\ n = zlen d /\
      (lz_max_output s <> 0 -> zlen d <= lz_max_output s) /\
      zlen d <= lz_stage_cap s' /\ sub (lz_stage s') 0 (zlen d) = d
  | Err st => failed st
  end.
Proof.
  intros Hin Hc Hmax. pose proof Hin as [H1 H2 H3]. unfold zu_int_lz4b_search.
  pose proof (lz4b_ceiling_spec (lz_in_len s) (lz_max_output s) ltac:(lia) Hmax) as Hceil.
  destruct (lz4b_ceiling _ _) as [ceiling limited]. destruct Hceil as (base & Hb & El & Ec).
  assert (Hle : 0 <= ceiling /\ (lz_max_output s <> 0 -> ceiling <= lz_max_output s)).
  { unfold INT_MAX in Hb. rewrite El in Ec. revert Ec.
    destruct (Z.eqb_spec (lz_max_output s) 0); cbn [negb andb]; [lia|]. split_if; zbool; lia. }
  destruct (lz4b_search_loop _ _ _ _ _) as [ [r s'] |] eqn:E; cbn [default from_option id fst snd].
  - rewrite lz4b_first_cap_spec in E by lia.
    eapply search_loop_found in E as [Hr Hres]; [|done|lia]. split; [done|].
    destruct r; [|done]. destruct Hres as (d & ? & ? & ? & ? & ?). exists d. split_and!; try done.
    intros Hm. destruct Hle as [_ Hle]. specialize (Hle Hm). lia.
  - split; [|done]. exists (lz_stage s). rewrite <- Hc. split; [by destruct s|done].
Qed.

(** The part of a decoder call that gathers the rest of the input first. *)
Lemma decoder_gathered s b taken (rest : lz4_state -> zu_buffer -> zu_status * lz4_state * zu_buffer) :
  block_inv (bdec_spec s) s taken [] -> lz_done s = false -> buffer_ok b ->
  (forall s1 b1 all, keeps s s1 -> in_ok s1 -> lz_stage_cap s1 = zlen (lz_stage s1) ->
     lz4b_input s1 = all -> buffer_ok b1 -> block_call (bdec_spec s) all [] s1 b1 (rest s1 b1)) ->
  block_call (bdec_spec s) taken [] s b
    match zu_int_lz4b_gather s b with
    | (ZU_OK, s1, b1) => if lz_in_len s1 =? 0 then (ZU_ERR_INVALID_DATA, s1, b1) else rest s1 b1
    | r => r
    end.
Proof.
  intros [Hs Hinv] Hd Hb Hrest. rewrite Hd in Hinv. destruct Hinv as (_ & Hin & Ht).
  pose proof (gather_spec s b Hin Hb) as H. destruct (zu_int_lz4b_gather s b) as [ [st s1] b1].
  destruct st; try (destruct H as (Hf & -> & ->); by apply block_call_failed).
  destruct H as (Hm & Hin1 & Hi1 & Es & _). assert (Hk : keeps s s1) by (by rewrite Es).
  destruct (_ =? 0); [by eapply block_call_failed_after|].
  eapply block_call_after; [exact Hm|exact Hk|]. apply Hrest; try done.
  - rewrite Es. cbn. by apply Hs.
  - by rewrite <- Ht.
  - by eapply moved_ok.
Qed.

Lemma decoder_expected_call s b taken :
  block_inv (bdec_spec s) s taken [] -> lz_done s = false -> buffer_ok b -> 0 <= lz_expected s ->
  (lz_max_output s <> 0 -> lz_expected s <= lz_max_output s) ->
  block_call (bdec_spec s) taken [] s b (lz4b_decoder_expected s b (lz_expected s)).
Proof.
  intros Hinv Hd Hb He Hmax. apply decoder_gathered; try done.
  intros s1 b1 all Hk Hin1 Hc1 Hi1 Hb1.
  pose proof (stage_spec s1 (lz_expected s) Hc1 He) as Hst.
  destruct (zu_int_lz4b_stage s1 (lz_expected s)) as [st s2].
  destruct st; try (destruct Hst as (Hf & -> & _); by apply block_call_failed).
  destruct Hst as ((p & E2 & _) & Hcap). assert (Hk2 : keeps s1 s2) by (by rewrite E2).
  assert (Hi2 : lz4b_input s2 = all) by (by rewrite E2). rewrite Hi2.
  destruct (LZ4_decompress_safe all (lz_expected s)) as [r out] eqn:Es.
  destruct ((r <? 0) || negb (r =? lz_expected s)) eqn:Er; [by apply block_call_failed|].
  apply orb_false_iff in Er as [Er1 Er2]. apply negb_false_iff, Z.eqb_eq in Er2.
  destruct (safe_inv _ _ _ _ Es ltac:(lia)) as (Hdec & Hr & Hle).
  assert (Hc2 : lz_stage_cap s2 = zlen (lz_stage s2)) by (by rewrite E2).
  apply (block_call_after _ all [] s1 s2 b1 b1 []); [by apply moved_refl|done|]. rewrite app_nil_r.
  apply staged_call; [rewrite zlen_memcpy_at by lia; done|rewrite zlen_memcpy_at by lia; lia| |done].
  replace (lz_expected s) with (zlen out) by lia. rewrite sub_memcpy_at by lia.
  split_and!; [done|lia|intros Hm; specialize (Hmax Hm); lia].
Qed.

Lemma decoder_unknown_call s b taken :
  block_inv (bdec_spec s) s taken [] -> lz_done s = false -> buffer_ok b ->
  lz_has_expected s = false -> 0 <= lz_max_output s < 2 ^ 64 ->
  block_call (bdec_spec s) taken [] s b (lz4b_decoder_unknown s b).
Proof.
  intros Hinv Hd Hb He Hmax. apply decoder_gathered; try done.
  intros s1 b1 all Hk Hin1 Hc1 Hi1 Hb1. pose proof Hk as (_ & Ekm & _).
  pose proof (search_found_ok s1 Hin1 Hc1 ltac:(by rewrite Ekm)) as [Hr Hres].
  destruct (zu_int_lz4b_search s1) as [r s2]. cbn [fst snd] in Hr, Hres.
  destruct Hr as (p & E2 & _). assert (Hk2 : keeps s1 s2) by (by rewrite E2).
  destruct r as [n|st]; [|by apply block_call_failed].
  destruct Hres as (d & Hdec & -> & Hlim & Hcap & Hsub).
  assert (Hc2 : lz_stage_cap s2 = zlen (lz_stage s2)) by (by rewrite E2).
  apply (block_call_after _ all [] s1 s2 b1 b1 []); [by apply moved_refl|done|]. rewrite app_nil_r.
  pose proof (zlen_nonneg d). apply staged_call; [done|lia| |done].
  rewrite Hsub. split_and!; [by rewrite <- Hi1|congruence|by rewrite <- Ekm].
Qed.

(** The options fit their C types. *)
Definition limits_ok (s : lz4_state) : Prop :=
  0 <= lz_max_output s < 2 ^ 64 /\ 0 <= lz_expected s < 2 ^ 64.

Lemma decoder_call s b taken given flush :
  block_inv (bdec_spec s) s taken given -> limits_ok s -> buffer_ok b ->
  block_call (bdec_spec s) taken given s b (lz4b_decoder_process s b flush).
Proof.
  intros Hinv [Hmx Hex] Hb. unfold lz4b_decoder_process. destruct (lz_done s) eqn:Ed.
  { destruct Hinv as [Hs Hsp]. rewrite Ed in Hsp. by apply deliver_call. }
  pose proof Hinv as [_ Hi]. rewrite Ed in Hi. destruct Hi as (-> & Hin & Ht).
  destruct (negb (is_finish flush)); [by apply gather_call|].
  destruct (lz_has_expected s) eqn:Ee; [|by apply decoder_unknown_call].
  destruct (negb (lz_max_output s =? 0) && (lz_expected s >? lz_max_output s)) eqn:El;
    [by apply block_call_failed|].
  assert (Hmax : lz_max_output s <> 0 -> lz_expected s <= lz_max_output s).
  { intros Hm. rewrite Z.gtb_ltb in El. destruct (Z.eqb_spec (lz_max_output s) 0); [done|]. cbn in El. zbool. lia. }
  destruct (lz_expected s >? INT_MAX); [by apply block_call_failed|].
  destruct ((lz_in_len s =? 0) && (avail_out b >=? lz_expected s)) eqn:Ec;
    [|by apply decoder_expected_call; [..|lia|] ].
  apply andb_true_iff in Ec as [E0 Hroom]. rewrite Z.geb_leb in Hroom. zbool.
  destruct (_ || _); [by apply block_call_failed|]. fold (src_window b).
  pose proof (avail_in_nonneg b Hb).
  destruct (LZ4_decompress_safe (src_window b) (lz_expected s)) as [r out] eqn:Es.
  destruct ((r <? 0) || negb (r =? lz_expected s)) eqn:Er; [by apply block_call_failed|].
  apply orb_false_iff in Er as [Er1 Er2]. apply negb_false_iff, Z.eqb_eq in Er2.
  destruct (safe_inv _ _ _ _ Es ltac:(lia)) as (Hdec & Hr & Hle).
  exists (src_window b), out. split; [apply moved_through; [done|lia|lia]|]. split; [done|].
  cbn. rewrite <- Ht. unfold lz4b_input. rewrite E0, sub_0. cbn.
  split_and!; [done|lia|]. intros Hm. specialize (Hmax Hm). lia.
Qed.

(** ** The theorems *)

(** A new or reset codec: nothing gathered, nothing staged. *)
Definition block_new (s : lz4_state) : Prop :=
  lz_done s = false /\ lz_in_len s = 0 /\ in_ok s /\ stage_ok s.

Lemma block_new_inv spec s : block_new s -> block_inv spec s [] [].
Proof.
  intros (Hd & Hl & Hi & Hs). split; [done|]. rewrite Hd. split_and!; [done..|].
  unfold lz4b_input. by rewrite Hl, sub_0.
Qed.

(** Histories of either direction. *)
Lemma block_run_inv process (spec : lz4_state -> bytes -> bytes -> Prop) (P : lz4_state -> Prop) s0 :
  (forall s s' i o, keeps s s' -> spec s i o <-> spec s' i o) ->
  (forall s s', keeps s s' -> P s -> P s') ->
  (forall s b taken given flush, block_inv (spec s) s taken given -> P s -> buffer_ok b ->
     block_call (spec s) taken given s b (process s b flush)) ->
  block_new s0 -> P s0 ->
  forall s taken given, codec_run process s0 s taken given ->
  keeps s0 s /\ block_inv (spec s) s taken given.
Proof.
  intros Hspec HP Hcall Hnew H0.
  apply (codec_run_inv process (fun s i o => keeps s0 s /\ block_inv (spec s) s i o)).
  { split; [done|]. by apply block_new_inv. }
  intros s i1 o1 b f st s' b' i o [Hk Hinv] Hb _ E Hst Hm.
  destruct (Hcall s b i1 o1 f Hinv ltac:(by eapply HP) Hb) as (i' & o' & Hm' & Hk' & Ha).
  rewrite E in Hm', Hk', Ha. cbn [fst snd] in *.
  destruct (moved_unique _ _ _ _ _ _ Hm Hm') as [-> ->].
  split; [by eapply keeps_trans|].
  assert (Hinv' : block_inv (spec s) s' (i1 ++ i) (o1 ++ o)) by (destruct st; try done; apply Ha).
  destruct Hinv' as [Hs' Hif]. split; [done|]. destruct (lz_done s'); [|done]. by apply (Hspec s s').
Qed.

(** C39: lz4-block compresses the whole input into one block.  However the input is cut into
    calls and however small the output windows are, a new or reset encoder gathers without
    writing until ZU_FINISH, and when it answers ZU_STREAM_END what it wrote is the one
    block liblz4 makes of the whole input at its level -- the same block in every case --
    which decodes to that input.  ZU_NEED_INPUT means that the whole window was taken,
    ZU_NEED_OUTPUT that the rest of the block is staged and the window full. *)
Theorem lz4b_encoder_one_block s0 s taken given b flush :
  block_new s0 -> codec_run lz4b_encoder_process s0 s taken given -> buffer_ok b ->
  let r := lz4b_encoder_process s b flush in
  exists i o, moved b r.2 i o /\
    block_answer (benc_spec (lz_level s0)) r.1.2 r.2 (taken ++ i) (given ++ o) r.1.1.
Proof.
  intros Hnew Hrun Hb.
  destruct (block_run_inv lz4b_encoder_process (fun s => benc_spec (lz_level s)) (fun _ => True) s0)
    with (s := s) (taken := taken) (given := given) as [Hk Hinv]; try done.
  - by intros ? ? ? ? (-> & _).
  - intros. by apply encoder_call.
  - destruct (encoder_call s b taken given flush Hinv Hb) as (i & o & Hm & _ & Ha).
    exists i, o. split; [done|]. by destruct Hk as (<- & _).
Qed.

(** C19: lz4-block decodes exactly its input.  However input and output are cut, and
    whatever the allocator does, when a new or reset decoder answers ZU_STREAM_END the
    whole input is one well-formed block, the output is all that it decodes to, of exactly
    the expected size when one was given, and within max_output when there is one.  Nothing
    is written before. *)
Theorem lz4b_decoder_one_block s0 s taken given b flush :
  block_new s0 -> limits_ok s0 -> codec_run lz4b_decoder_process s0 s taken given -> buffer_ok b ->
  let r := lz4b_decoder_process s b flush in
  exists i o, moved b r.2 i o /\
    block_answer (bdec_spec s0) r.1.2 r.2 (taken ++ i) (given ++ o) r.1.1.
Proof.
  intros Hnew Hlim Hrun Hb.
  assert (HP : forall s s', keeps s s' -> limits_ok s -> limits_ok s').
  { unfold limits_ok. by intros ? ? (_ & -> & _ & ->). }
  destruct (block_run_inv lz4b_decoder_process bdec_spec limits_ok s0)
    with (s := s) (taken := taken) (given := given) as [Hk Hinv]; try done.
  - unfold bdec_spec. by intros ? ? ? ? (_ & -> & -> & ->).
  - intros. by apply decoder_call.
  - destruct (decoder_call s b taken given flush Hinv ltac:(by eapply HP) Hb) as (i & o & Hm & _ & Ha).
    exists i, o. split; [done|]. unfold bdec_spec in *. destruct Hk as (_ & <- & <- & <-). exact Ha.
Qed.

(** ** The cursor contract, in any state *)

Lemma deliver_step s b : buffer_ok b -> buffer_step b (lz4b_deliver s b).2.
Proof.
  intros Hb. unfold lz4b_deliver. pose proof (drain_step s b Hb).
  by destruct (zu_int_lz4_drain s b) as [ [empty s'] b'].
Qed.

Lemma gather_step s b : buffer_ok b -> buffer_step b (zu_int_lz4b_gather s b).2.
Proof.
  intros Hb. pose proof (avail_in_nonneg b Hb). pose proof (buffer_step_refl b Hb).
  assert (buffer_step b (buf_consume b (avail_in b))) by (apply buf_consume_step; [done|lia]).
  unfold zu_int_lz4b_gather. destruct (_ =? 0); [done|]. destruct (zu_int_add _ _ _); [|done].
  destruct (_ >? _); [done|]. destruct (_ >? _); [|done]. destruct (zu_int_grow _ _ _); [|done].
  by destruct (negb _).
Qed.

Lemma gathered_step s b (rest : lz4_state -> zu_buffer -> zu_status * lz4_state * zu_buffer) :
  buffer_ok b -> (forall s1 b1, buffer_ok b1 -> buffer_step b1 (rest s1 b1).2) ->
  buffer_step b (match zu_int_lz4b_gather s b with (ZU_OK, s1, b1) => rest s1 b1 | r => r end).2.
Proof.
  intros Hb Hr. pose proof (gather_step s b Hb) as Hg.
  destruct (zu_int_lz4b_gather s b) as [ [st s1] b1]. destruct st; try done.
  eapply buffer_step_trans; [exact Hg|]. apply Hr. by eapply buffer_step_ok.
Qed.

Lemma encoder_block_step s b flush : buffer_ok b -> buffer_step b (lz4b_encoder_process s b flush).2.
Proof.
  intros Hb. unfold lz4b_encoder_process. destruct (lz_done s); [by apply deliver_step|].
  destruct (negb _).
  { pose proof (gathered_step s b (fun s b => (ZU_NEED_INPUT, s, b)) Hb) as H.
    apply H. intros. by apply buffer_step_refl. }
  destruct (_ && _) eqn:Ec.
  - apply andb_true_iff in Ec as [Ec Hroom]. apply andb_true_iff in Ec as [Ec _].
    apply andb_true_iff in Ec as [E0 Hmax]. rewrite Z.geb_leb in Hroom. zbool. fold (src_window b).
    pose proof (compress_spec s (src_window b)) as Hcomp. rewrite zlen_src_window in Hcomp by done.
    specialize (Hcomp Hmax). destruct (zu_int_lz4b_compress _ _ _) as [w out].
    cbn [fst snd] in Hcomp. destruct Hcomp as (_ & -> & Hw3 & _).
    destruct (_ <=? 0); [by apply buffer_step_refl|]. pose proof (avail_in_nonneg b Hb).
    eapply mv_step, moved_through; [done|lia|lia].
  - unfold lz4b_encoder_staged. apply gathered_step; [done|]. intros s1 b1 Hb1.
    destruct (_ <=? 0); [by apply buffer_step_refl|]. destruct (zu_int_lz4b_stage _ _) as [st s2].
    destruct st; try by apply buffer_step_refl. destruct (zu_int_lz4b_compress _ _ _) as [w out].
    destruct (w <=? 0); [by apply buffer_step_refl|]. by apply deliver_step.
Qed.

Lemma decoder_block_step s b flush : buffer_ok b -> buffer_step b (lz4b_decoder_process s b flush).2.
Proof.
  intros Hb. pose proof (buffer_step_refl b Hb) as Hrefl. unfold lz4b_decoder_process.
  destruct (lz_done s); [by apply deliver_step|]. destruct (negb _).
  { pose proof (gathered_step s b (fun s b => (ZU_NEED_INPUT, s, b)) Hb) as H.
    apply H. intros. by apply buffer_step_refl. }
  destruct (lz_has_expected s).
  - destruct (_ && _); [done|]. destruct (_ >? _); [done|]. destruct (_ && _) eqn:Ec.
    + apply andb_true_iff in Ec as [_ Hroom]. rewrite Z.geb_leb in Hroom. zbool.
      destruct (_ || _); [done|]. destruct (LZ4_decompress_safe _ _) as [r out] eqn:Es.
      destruct ((r <? 0) || _) eqn:Er; [done|]. apply orb_false_iff in Er as [Er1 _]. zbool.
      destruct (safe_inv _ _ _ _ Es Er1) as (_ & _ & Hle). pose proof (avail_in_nonneg b Hb).
      eapply mv_step, moved_through; [done|lia|lia].
    + unfold lz4b_decoder_expected. apply gathered_step; [done|]. intros s1 b1 Hb1.
      destruct (lz_in_len s1 =? 0); [by apply buffer_step_refl|]. destruct (zu_int_lz4b_stage _ _) as [st s2].
      destruct st; try by apply buffer_step_refl. destruct (LZ4_decompress_safe _ _) as [r out].
      destruct (_ || _); [by apply buffer_step_refl|]. by apply deliver_step.
  - unfold lz4b_decoder_unknown. apply gathered_step; [done|]. intros s1 b1 Hb1.
    destruct (lz_in_len s1 =? 0); [by apply buffer_step_refl|]. destruct (zu_int_lz4b_search s1) as [ [n|st] s2];
      [by apply deliver_step|by apply buffer_step_refl].
Qed.

#[export] Instance lz4b_encoder_contract : CursorContract lz4b_encoder_process.
Proof. intros s b f st s' b' Hb E. pose proof (encoder_block_step s b f Hb) as H. by rewrite E in H. Qed.

#[export] Instance lz4b_decoder_contract : CursorContract lz4b_decoder_process.
Proof. intros s b f st s' b' Hb E. pose proof (decoder_block_step s b f Hb) as H. by rewrite E in H. Qed.

End histories.

(** ** Witnesses *)

Lemma toy_block_laws src level r :
  zlen src <= LZ4_MAX_INPUT_SIZE ->
  r = toy_block src (LZ4_compressBound (zlen src)) level ->
  0 < fst r /\ fst r = zlen (snd r) /\ fst r <= LZ4_compressBound (zlen src) /\
  toy_unblock (snd r) = Some src.
Proof.
  intros Hn ->. pose proof (zlen_nonneg src).
  destruct (compressBound_range (zlen src)) as [E _]; [lia|].
  assert (0 <= zlen src / 255) by (apply Z.div_pos; lia).
  unfold toy_block. destruct (Z.leb_spec (zlen src + 1) (LZ4_compressBound (zlen src))); [|lia].
  cbn. rewrite zlen_cons. split_and!; [lia|lia|lia|done].
Qed.

Definition toy_block_ok : @Lz4BlockOk toy_lz4.
Proof.
  refine {| lz4_decode := toy_unblock |}.
  - intros src cap d E Hd. cbn. rewrite E. by destruct (Z.leb_spec (zlen d) cap); [|lia].
  - intros src cap H. cbn. destruct (toy_unblock src) as [d|]; [|done].
    specialize (H d eq_refl). by destruct (Z.leb_spec (zlen d) cap); [lia|].
  - intros src cap d Hc E Hd. cbn. rewrite E. cbn. lia.
  - intros src cap Hc. cbn. destruct (toy_unblock src) as [d|]; cbn; [|done].
    unfold zlen. rewrite length_take. unfold zlen in *. lia.
  - intros [|x d'] d; [done|]. cbn. destruct (x =? 0); [|done]. intros [= <-].
    rewrite zlen_cons. pose proof (zlen_nonneg d'). lia.
  - intros src level r Hn [->| ->]; by eapply toy_block_laws.
Defined.

#[local] Existing Instance toy_lz4.
#[local] Existing Instance toy_block_ok.
#[local] Instance all_allocs : Allocator := fun _ => true.

Definition toy_benc : lz4_state := lz4_state_zero true 1.
Definition toy_bdec (max : Z) : lz4_state :=
  lz_set_limits (lz4_state_zero false ZU_LEVEL_DEFAULT) (mk_decoder_opts 32 19 max 0 0 0).

Lemma toy_block_new s :
  lz_done s = false -> lz_in_len s = 0 -> lz_in_cap s = 0 -> lz_in s = [] ->
  lz_stage_len s = 0 -> lz_stage_pos s = 0 -> lz_stage_cap s = 0 -> lz_stage s = [] -> block_new s.
Proof.
  intros Ed E1 E2 E3 E4 E5 E6 E7. split_and!; try done; constructor;
    rewrite ?E1, ?E2, ?E3, ?E4, ?E5, ?E6, ?E7; unfold zlen, LZ4_MAX_INPUT_SIZE; cbn; lia.
Qed.

Lemma lz4b_encoder_one_block_witness :
  let b := toy_lz4_buffer [65; 66; 67] 3 in
  let r := lz4b_encoder_process toy_benc b ZU_FINISH in
  r.1.1 = ZU_NEED_OUTPUT /\ dst_written r.2 = [0; 65; 66] /\
  exists i o, moved b r.2 i o /\
    block_answer (benc_spec 1) r.1.2 r.2 ([] ++ i) ([] ++ o) r.1.1.
Proof.
  split; [vm_compute; reflexivity|]. split; [vm_compute; reflexivity|].
  apply (lz4b_encoder_one_block toy_benc toy_benc [] [] (toy_lz4_buffer [65; 66; 67] 3) ZU_FINISH);
    [by apply toy_block_new|apply run_start|apply toy_lz4_buffer_ok; reflexivity].
Defined.

Lemma lz4b_decoder_one_block_witness :
  let b := toy_lz4_buffer [0; 65; 66] 2 in
  let r := lz4b_decoder_process (toy_bdec 2) b ZU_FINISH in
  r.1.1 = ZU_STREAM_END /\ dst_written r.2 = [65; 66] /\
  (lz4b_decoder_process (toy_bdec 1) b ZU_FINISH).1.1 = ZU_ERR_OUTPUT_LIMIT /\
  exists i o, moved b r.2 i o /\
    block_answer (bdec_spec (toy_bdec 2)) r.1.2 r.2 ([] ++ i) ([] ++ o) r.1.1.
Proof.
  split; [vm_compute; reflexivity|]. split; [vm_compute; reflexivity|].
  split; [vm_compute; reflexivity|].
  apply (lz4b_decoder_one_block (toy_bdec 2) (toy_bdec 2) [] [] (toy_lz4_buffer [0; 65; 66] 2) ZU_FINISH);
    [by apply toy_block_new|split; vm_compute; by split|apply run_start|apply toy_lz4_buffer_ok; reflexivity].
Defined.

Definition toy_gathered (l : bytes) (max : Z) : lz4_state :=
  lz_set_in (toy_bdec max) l (zlen l) (zlen l).

Lemma lz4b_search_finds_witness :
  (zu_int_lz4b_search (toy_gathered [0; 65; 66] 0)).1 = Ok 2 /\
  (zu_int_lz4b_search (toy_gathered [7; 65; 66] 0)).1 = Err ZU_ERR_INVALID_DATA /\
  let s := toy_gathered [0; 65; 66] 1 in
  let r := (zu_int_lz4b_search s).1 in
  let s' := (zu_int_lz4b_search s).2 in
  restaged s s' /\
  match lz4_decode (lz4b_input s) with
  | Some d =>
      (zlen d <= INT_MAX -> lz_max_output s = 0 \/ zlen d <= lz_max_output s ->
         r = Ok (zlen d) /\ zlen d <= lz_stage_cap s' /\ sub (lz_stage s') 0 (zlen d) = d) /\
      (zlen d <= INT_MAX -> 0 < lz_max_output s < zlen d -> r = Err ZU_ERR_OUTPUT_LIMIT)
  | None => r = Err ZU_ERR_INVALID_DATA \/ r = Err ZU_ERR_OUTPUT_LIMIT
  end.
Proof.
  split; [vm_compute; reflexivity|]. split; [vm_compute; reflexivity|].
  apply (lz4b_search_finds (fun _ => eq_refl) (toy_gathered [0; 65; 66] 1));
    [constructor; vm_compute; try done; by split|reflexivity|reflexivity|vm_compute; by split].
Defined.
