(* ===== verification/Identity.v ===== *)
(** * The identity codec: src/codec_identity.c

    One copy loop serves both directions.  [pointwise_step] is the specification this
    codec shares with any stateless codec that maps bytes one at a time: as many bytes
    as both cursors allow, and a status that says what stopped it. *)
From S2P Require Import Prelude Types SizeArith Registry Stream.

(** ** Specification: a stateless byte-by-byte codec *)

Definition pointwise_count (b : zu_buffer) : Z := Z.min (avail_in b) (avail_out b).

Definition pointwise_status (b : zu_buffer) (f : zu_flush) : zu_status :=
  if avail_out b <? avail_in b then ZU_NEED_OUTPUT
  else if is_finish f then ZU_STREAM_END else ZU_NEED_INPUT.

Definition pointwise_buffer (g : Z -> Z) (b : zu_buffer) : zu_buffer :=
  buf_emit (buf_consume b (pointwise_count b))
    (List.map g (sub (src_bytes b) (src_pos b) (pointwise_count b))).

(** The interface a codec of this kind offers its clients. *)
Class Pointwise {S : Type} (g : Z -> Z)
    (process : S -> zu_buffer -> zu_flush -> zu_status * S * zu_buffer) : Prop :=
  pointwise : forall s b f, buffer_ok b ->
    process s b f = (pointwise_status b f, s, pointwise_buffer g b).

(** ** The codec *)

(** The handle points at a static [int] nobody reads: the state is [unit].  The
    source's [st == NULL] and [buf == NULL] guards have no counterpart, since the
    driver passes the address of a local and a checked buffer. *)
Definition identity_new : result unit := Ok tt.

Definition identity_encoder_new (opts : zu_encoder_opts) : result unit := identity_new.
Definition identity_decoder_new (opts : zu_decoder_opts) : result unit := identity_new.

Definition identity_process (st : unit) (buf : zu_buffer) (flush : zu_flush) :
    zu_status * unit * zu_buffer :=
  if (src_pos buf >? src_size buf) || (dst_pos buf >? dst_size buf)
  then (ZU_ERR_INVALID_ARGUMENT, st, buf)
  else
    let avail_in := src_size buf - src_pos buf in
    let avail_out := dst_size buf - dst_pos buf in
    let n := if avail_in <? avail_out then avail_in else avail_out in
    if (n >? 0) && (is_null (src buf) || is_null (dst buf))
    then (ZU_ERR_INVALID_ARGUMENT, st, buf)
    else
      let buf' :=
        if n >? 0
        then buf_emit (buf_consume buf n) (sub (src_bytes buf) (src_pos buf) n)
        else buf in
      let avail_in := if n >? 0 then avail_in - n else avail_in in
      (if avail_in >? 0 then ZU_NEED_OUTPUT
       else if is_finish flush then ZU_STREAM_END
       else ZU_NEED_INPUT, st, buf').

Definition identity_encoder_reset (st : unit) (opts : zu_encoder_opts) : zu_status * unit :=
  (ZU_OK, st).
Definition identity_decoder_reset (st : unit) (opts : zu_decoder_opts) : zu_status * unit :=
  (ZU_OK, st).

Definition identity_bound (level n : Z) : result Z := Ok n.

Definition zu_int_codec_identity : zu_codec_vtable := {|
  vt_state := unit;
  vt_struct_size := sizeof_vtable;
  vt_codec := ZU_CODEC_IDENTITY;
  vt_name := Some "identity"%string;
  vt_content_encoding := Some "identity"%string;
  vt_source := Some "zukomp"%string;
  vt_level_min := 0;
  vt_level_max := 0;
  vt_level_default := 0;
  vt_flags := Z.lor (Z.lor ZU_CAN_ENCODE ZU_CAN_DECODE) ZU_CAN_FLUSH;
  vt_magic := None;
  vt_magic_len := 0;
  vt_magic_offset := 0;
  vt_sniff := None;
  vt_encoder_new := Some identity_encoder_new;
  vt_encoder_process := Some identity_process;
  vt_encoder_reset := Some identity_encoder_reset;
  vt_encoder_free := true;
  vt_decoder_new := Some identity_decoder_new;
  vt_decoder_process := Some identity_process;
  vt_decoder_reset := Some identity_decoder_reset;
  vt_decoder_free := true;
  vt_bound := Some identity_bound;
  vt_level_fast := 0;
  vt_level_best := 0;
|}.

(** ** The specification honours the cursor contract *)

Lemma pointwise_count_bounds b :
  buffer_ok b -> 0 <= pointwise_count b <= avail_in b /\ pointwise_count b <= avail_out b.
Proof.
  intros Hb. unfold pointwise_count.
  pose proof (avail_in_nonneg b Hb). pose proof (avail_out_nonneg b Hb). lia.
Qed.

Lemma zlen_map (g : Z -> Z) l : zlen (List.map g l) = zlen l.
Proof. unfold zlen. by rewrite length_map. Qed.

Lemma pointwise_emit_len (g : Z -> Z) b :
  buffer_ok b ->
  zlen (List.map g (sub (src_bytes b) (src_pos b) (pointwise_count b))) = pointwise_count b.
Proof.
  intros Hb. rewrite zlen_map. apply zlen_src_sub; [done|].
  pose proof (pointwise_count_bounds b Hb). lia.
Qed.

Lemma pointwise_buffer_step g b : buffer_ok b -> buffer_step b (pointwise_buffer g b).
Proof.
  intros Hb. pose proof (pointwise_count_bounds b Hb) as (Hc & Ho).
  unfold pointwise_buffer.
  assert (Hs : buffer_step b (buf_consume b (pointwise_count b))) by (apply buf_consume_step; done).
  eapply buffer_step_trans; [exact Hs|].
  apply buf_emit_step; [by eapply buffer_step_ok|].
  rewrite pointwise_emit_len by done. exact Ho.
Qed.

#[export] Instance pointwise_contract {S} g process `{Hp : @Pointwise S g process} :
  CursorContract process.
Proof.
  intros s b f st s' b' Hb E. rewrite (pointwise s b f Hb) in E.
  injection E as <- <- <-. by apply pointwise_buffer_step.
Qed.

(** Written so far, followed by the image of what is left to read, never changes. *)
Lemma pointwise_conserves (g : Z -> Z) b :
  buffer_ok b ->
  dst_written (pointwise_buffer g b) ++ List.map g (src_window (pointwise_buffer g b)) =
  dst_written b ++ List.map g (src_window b).
Proof.
  intros Hb. pose proof (pointwise_count_bounds b Hb) as (Hc & Ho).
  pose proof (pointwise_emit_len g b Hb) as Hl.
  unfold pointwise_buffer. rewrite dst_written_emit;
    [|eapply buffer_step_ok; [exact Hb|apply buf_consume_step; done]|by rewrite Hl].
  rewrite <- app_assoc.
  rewrite (src_window_consume b (pointwise_count b)) at 1 by (done || lia).
  rewrite map_app. done.
Qed.

(** ** The codec meets the specification *)

Lemma not_null_src b : buffer_ok b -> 0 < pointwise_count b -> is_null (src b) = false.
Proof.
  unfold pointwise_count. intros Hb Hc. destruct (src_some b Hb) as [m ->]; [lia|done].
Qed.

Lemma not_null_dst b : buffer_ok b -> 0 < pointwise_count b -> is_null (dst b) = false.
Proof.
  unfold pointwise_count. intros Hb Hc. destruct (dst_some b Hb) as [m ->]; [lia|done].
Qed.

Lemma if_ltb_min a b : (if a <? b then a else b) = Z.min a b.
Proof. destruct (Z.ltb_spec a b); lia. Qed.

Lemma pointwise_buffer_zero g b :
  buffer_ok b -> pointwise_count b = 0 -> pointwise_buffer g b = b.
Proof.
  intros Hb E. unfold pointwise_buffer. rewrite E, sub_0.
  unfold buf_emit, buf_consume. cbn [List.map src src_size src_pos dst dst_size dst_pos].
  change (zlen (@nil Z)) with 0. rewrite !Z.add_0_r. destruct b as [s ss sp d ds dp].
  cbn [src src_size src_pos dst dst_size dst_pos]. f_equal.
  destruct d; cbn; [by rewrite memcpy_at_nil|done].
Qed.

#[export] Instance identity_pointwise : Pointwise (fun c => c) identity_process.
Proof.
  intros [] b f Hb. unfold identity_process. rewrite !Z.gtb_ltb.
  pose proof (pointwise_count_bounds b Hb) as (Hc & Ho).
  destruct (Z.ltb_spec (src_size b) (src_pos b)); [destruct Hb; lia|].
  destruct (Z.ltb_spec (dst_size b) (dst_pos b)); [destruct Hb; lia|]. cbn [orb].
  rewrite if_ltb_min.
  change (Z.min (src_size b - src_pos b) (dst_size b - dst_pos b)) with (pointwise_count b).
  unfold pointwise_status.
  destruct (Z.ltb_spec 0 (pointwise_count b)) as [Hn|Hn]; cbn [andb].
  - rewrite not_null_src, not_null_dst by done. cbn [orb]. unfold pointwise_buffer.
    rewrite map_id. repeat f_equal.
    unfold avail_in, avail_out in *.
    replace (0 <? src_size b - src_pos b - pointwise_count b)
      with (dst_size b - dst_pos b <? src_size b - src_pos b); [done|].
    unfold pointwise_count, avail_in, avail_out in *. zcase; lia.
  - rewrite pointwise_buffer_zero by (done || lia). repeat f_equal.
    unfold avail_in, avail_out in *.
    replace (0 <? src_size b - src_pos b)
      with (dst_size b - dst_pos b <? src_size b - src_pos b); [done|].
    unfold pointwise_count, avail_in, avail_out in *. zcase; lia.
Qed.

(** ** Any pointwise codec behind the one-shot entry points *)

(** What a vtable must offer for the one-shot results below. *)
Record pointwise_codec (g : Z -> Z) (v : zu_codec_vtable) : Prop := {
  pc_encodes : has_flag (vt_flags v) ZU_CAN_ENCODE = true;
  pc_decodes : has_flag (vt_flags v) ZU_CAN_DECODE = true;
  pc_encoder_new : exists new, vt_encoder_new v = Some new /\ forall o, exists s, new o = Ok s;
  pc_decoder_new : exists new, vt_decoder_new v = Some new /\ forall o, exists s, new o = Ok s;
  pc_encoder_process : exists p, vt_encoder_process v = Some p /\ Pointwise g p;
  pc_decoder_process : exists p, vt_decoder_process v = Some p /\ Pointwise g p;
}.

Lemma zu_int_codec_identity_pointwise : pointwise_codec (fun c => c) zu_int_codec_identity.
Proof.
  constructor; try reflexivity;
    first [exists identity_encoder_new|exists identity_decoder_new|exists identity_process];
    (split; [reflexivity|]); first [by intros; exists tt|exact identity_pointwise].
Qed.

Lemma decoder_opts_copied o :
  decoder_opts_fit o -> do_struct_size o = sizeof_decoder_opts ->
  decoder_opts_of (zu_int_copy_opts sizeof_decoder_opts (decoder_opts_bytes o)
    (opts_struct_size (decoder_opts_bytes o))) = o.
Proof.
  intros Hfit Hs.
  assert (Hz : opts_struct_size (decoder_opts_bytes o) = 32).
  { transitivity (do_struct_size (decoder_opts_of (decoder_opts_bytes o))); [done|].
    by rewrite decoder_opts_roundtrip, Hs. }
  rewrite Hz, copy_opts_eq by (unfold zlen; rewrite ?length_decoder_opts_bytes; done).
  unfold sizeof_decoder_opts in *. change (Z.to_nat (Z.min 32 32)) with 32%nat.
  rewrite take_ge by (by rewrite length_decoder_opts_bytes).
  change (Z.to_nat (32 - 32)) with 0%nat. cbn [replicate]. rewrite app_nil_r.
  etransitivity; [|exact (decoder_opts_roundtrip o Hfit)]. f_equal.
  unfold decoder_opts_bytes. rewrite drop_app_length' by (by rewrite length_le_bytes).
  by rewrite Hs.
Qed.

(** The level policy of a codec without a level axis. *)
Lemma check_level_default v : zu_int_check_level v ZU_LEVEL_DEFAULT = Ok tt.
Proof. done. Qed.

(** The buffer both one-shot directions start from. *)
Definition one_shot_buffer (src : option bytes) (n : Z) (dst : option bytes) (cap : Z) : zu_buffer :=
  mk_buffer src n 0 dst cap 0.

Lemma one_shot_guard src n dst cap :
  buffer_ok (one_shot_buffer src n dst cap) ->
  negb true || (is_null src && negb (n =? 0)) || (is_null dst && negb (cap =? 0)) = false.
Proof.
  intros [? ? ? ? Hs Hd]; simpl in *.
  destruct src, dst; simpl in *; try rewrite Hs; try rewrite Hd; done.
Qed.

(** One round of the drive loop is all a pointwise codec ever needs. *)
Lemma one_shot_loop_pointwise {H} g process fuel (h : H) h' b st :
  buffer_ok b -> src_pos b = 0 -> dst_pos b = 0 ->
  process h b ZU_FINISH = (st, h', pointwise_buffer g b) ->
  st = pointwise_status b ZU_FINISH ->
  one_shot_loop process (S fuel) h b =
    Some (if src_size b <=? dst_size b then ZU_OK else ZU_ERR_OUTPUT_LIMIT, h',
          pointwise_buffer g b).
Proof.
  intros Hb Hs Hd Hp ->. cbn [one_shot_loop]. rewrite Hp.
  unfold pointwise_status, avail_in, avail_out. rewrite Hs, Hd, !Z.sub_0_r.
  destruct (Z.ltb_spec (dst_size b) (src_size b)) as [Hlt|Hge].
  - destruct (Z.leb_spec (src_size b) (dst_size b)); [lia|].
    status_simpl.
    replace (dst_pos (pointwise_buffer g b) =? dst_size (pointwise_buffer g b)) with true;
      [done|]. symmetry. apply Z.eqb_eq.
    unfold pointwise_buffer. cbn [dst_pos dst_size buf_emit].
    rewrite pointwise_emit_len by done. cbn [dst_pos dst_size buf_consume].
    unfold pointwise_count, avail_in, avail_out. rewrite Hs, Hd. lia.
  - destruct (Z.leb_spec (src_size b) (dst_size b)); [|lia]. done.
Qed.

(** What it leaves behind. *)
Lemma pointwise_buffer_one_shot g src n dst cap :
  let b := one_shot_buffer src n dst cap in
  buffer_ok b ->
  dst_pos (pointwise_buffer g b) = Z.min n cap /\
  Types.dst (pointwise_buffer g b) =
    ((fun m => memcpy_at m 0 (List.map g (sub (default [] src) 0 (Z.min n cap)))) <$> dst).
Proof.
  intros b Hb.
  assert (E : pointwise_count b = Z.min n cap).
  { unfold pointwise_count, avail_in, avail_out. simpl. by rewrite !Z.sub_0_r. }
  split.
  - unfold pointwise_buffer. cbn [dst_pos buf_emit]. rewrite pointwise_emit_len by done.
    by rewrite E.
  - unfold pointwise_buffer. rewrite E. done.
Qed.

Section one_shot.
Context {alloc : Allocator} (reg : registry) (g : Z -> Z) (v : zu_codec_vtable).
Context (Hpc : pointwise_codec g v) (Hlookup : zu_int_registry_lookup reg (vt_codec v) = Some v).

Lemma pointwise_encoder_new o :
  encoder_opts_fit o -> eo_struct_size o = sizeof_encoder_opts ->
  eo_codec o = vt_codec v -> eo_level o = ZU_LEVEL_DEFAULT ->
  alloc_ok req_encoder = true ->
  exists s o', zu_encoder_new reg true (Some (encoder_opts_bytes o)) =
    Ok (mk_encoder v s o' false).
Proof.
  intros Hfit Hs Hc Hl Ha. unfold zu_encoder_new. cbn [negb].
  assert (Hz : opts_struct_size (encoder_opts_bytes o) = 16).
  { transitivity (eo_struct_size (encoder_opts_of (encoder_opts_bytes o))); [done|].
    by rewrite encoder_opts_roundtrip, Hs. }
  rewrite Hz. change (16 <? ZU_ENCODER_OPTS_REQUIRED_SIZE) with false. cbv iota.
  rewrite encoder_opts_roundtrip, Hc, Hl by done.
  unfold zu_int_resolve. rewrite Hlookup, (pc_encodes _ _ Hpc). cbn [mbind result_bind].
  rewrite check_level_default. cbn [mbind result_bind]. rewrite Ha. cbn [negb].
  destruct (pc_encoder_new _ _ Hpc) as (new & -> & Hnew).
  destruct (Hnew (encoder_opts_of (zu_int_copy_opts sizeof_encoder_opts
    (encoder_opts_bytes o) 16))) as [s ->]. eauto.
Qed.

Lemma pointwise_decoder_new o :
  decoder_opts_fit o -> do_struct_size o = sizeof_decoder_opts ->
  do_codec o = vt_codec v -> alloc_ok req_decoder = true ->
  exists s, zu_decoder_new reg true (Some (decoder_opts_bytes o)) =
    Ok (mk_decoder v s o false 0 0).
Proof.
  intros Hfit Hs Hc Ha. unfold zu_decoder_new. cbn [negb].
  pose proof (decoder_opts_copied o Hfit Hs) as Hcopy.
  assert (Hz : opts_struct_size (decoder_opts_bytes o) = 32).
  { transitivity (do_struct_size (decoder_opts_of (decoder_opts_bytes o))); [done|].
    by rewrite decoder_opts_roundtrip, Hs. }
  unfold zu_int_check_dec_opts. rewrite Hcopy, Hz.
  change (32 <? ZU_DECODER_OPTS_REQUIRED_SIZE) with false.
  change (32 <? 24 + 8) with false. rewrite andb_false_r.
  change (status_eqb ZU_OK ZU_OK) with true. cbn [negb].
  rewrite decoder_opts_roundtrip, Hc by done.
  unfold zu_int_resolve. rewrite Hlookup, (pc_decodes _ _ Hpc). cbn [mbind result_bind].
  rewrite Ha. cbn [negb].
  destruct (pc_decoder_new _ _ Hpc) as (new & -> & Hnew).
  destruct (Hnew o) as [s ->]. cbn [mbind result_bind]. eauto.
Qed.

Lemma pointwise_compress_one o src n dst cap :
  encoder_opts_fit o -> eo_struct_size o = sizeof_encoder_opts ->
  eo_codec o = vt_codec v -> eo_level o = ZU_LEVEL_DEFAULT ->
  alloc_ok req_encoder = true ->
  buffer_ok (one_shot_buffer src n dst cap) ->
  zu_compress_one reg (Some (encoder_opts_bytes o)) src n dst cap true =
    Some (if n <=? cap then ZU_OK else ZU_ERR_OUTPUT_LIMIT, Some (Z.min n cap),
      (fun m => memcpy_at m 0 (List.map g (sub (default [] src) 0 (Z.min n cap)))) <$> dst).
Proof.
  intros Hfit Hs Hc Hl Ha Hb. unfold zu_compress_one, one_shot_result.
  rewrite one_shot_guard by done.
  destruct (pointwise_encoder_new o Hfit Hs Hc Hl Ha) as (s & o' & ->).
  change (mk_buffer src n 0 dst cap 0) with (one_shot_buffer src n dst cap).
  destruct (pc_encoder_process _ _ Hpc) as (p & Hp & Hpw).
  pose proof (pointwise_buffer_one_shot g src n dst cap Hb) as [Hpos Hdst].
  set (b := one_shot_buffer src n dst cap) in *.
  unfold one_shot_fuel.
  erewrite (one_shot_loop_pointwise g encoder_process _ _ _ b); [| | | | |];
    [|done|done|done| |].
  2:{ unfold encoder_process. rewrite check_buffer_ok by done. cbn [zu_int_check_flush enc_finished
      enc_vtable enc_state]. cbn [is_flush andb]. rewrite Hp, (pointwise s b ZU_FINISH Hb). done. }
  - rewrite Hpos, Hdst. done.
  - done.
Qed.

Lemma ratio_allowed_ge n r : 0 <= n < 2 ^ 64 -> 1 <= r -> n <= ratio_allowed n r.
Proof.
  intros Hn Hr. unfold ratio_allowed. rewrite Z.gtb_ltb.
  destruct (Z.eqb_spec n 0); [lia|].
  destruct (Z.ltb_spec (UINT64_MAX / r) n) as [H|H]; [unfold UINT64_MAX; lia|].
  assert (n * r <= UINT64_MAX).
  { transitivity (UINT64_MAX / r * r); [by apply Z.mul_le_mono_nonneg_r; lia|].
    rewrite Z.mul_comm. apply Z.mul_div_le. lia. }
  unfold UINT64_MAX in *. rewrite u64_small by nia. nia.
Qed.

Lemma over_status_error o :
  over_status o = ZU_ERR_OUTPUT_LIMIT \/ over_status o = ZU_ERR_INVALID_DATA.
Proof.
  unfold over_status, decoder_ceiling.
  destruct (do_max_output o =? 0), (has_expected o); cbn; auto.
  destruct (_ <=? _); cbn; auto.
Qed.

(** How much the decoder may write into a [cap]-byte buffer. *)
Definition one_shot_limit (o : zu_decoder_opts) (cap : Z) : Z :=
  match decoder_ceiling o with
  | Some (c, _) => Z.min c cap
  | None => cap
  end.

(** What the one-shot decoder reports for a codec that copies [n] bytes. *)
Definition one_shot_decode_status (o : zu_decoder_opts) (n cap : Z) : zu_status :=
  let limit := one_shot_limit o cap in
  if n <=? limit
  then (if has_expected o && negb (n =? do_expected_size o) then ZU_ERR_INVALID_DATA else ZU_OK)
  else if limit <? cap then over_status o else ZU_ERR_OUTPUT_LIMIT.

Lemma one_shot_window o src n dst cap :
  decoder_opts_fit o -> buffer_ok (one_shot_buffer src n dst cap) ->
  decoder_window o 0 (one_shot_buffer src n dst cap) =
    (one_shot_limit o cap, one_shot_limit o cap <? cap,
     one_shot_buffer src n dst (one_shot_limit o cap)) /\
  0 <= one_shot_limit o cap <= cap /\
  (do_max_output o <> 0 -> one_shot_limit o cap <= do_max_output o) /\
  (has_expected o = true -> one_shot_limit o cap <= do_expected_size o) /\
  buffer_ok (one_shot_buffer src n dst (one_shot_limit o cap)).
Proof.
  intros Hfit Hb. unfold one_shot_limit, decoder_window.
  pose proof (bo_dst_pos _ Hb) as Hcap. simpl in Hcap.
  destruct (decoder_ceiling o) as [[c st]|] eqn:Hc; cbn [dst_size dst_pos one_shot_buffer].
  - pose proof (ceiling_bounds _ _ _ Hfit Hc) as (Hcr & Hm & He & _).
    replace (if 0 <? c then c - 0 else 0) with c by (destruct (Z.ltb_spec 0 c); lia).
    rewrite Z.sub_0_r.
    assert (Hok : buffer_ok (one_shot_buffer src n dst (Z.min c cap))).
    { change (one_shot_buffer src n dst (Z.min c cap)) with
        (buf_set_dst_size (one_shot_buffer src n dst cap) (0 + Z.min c cap)).
      apply window_buffer_ok; [done|]. unfold avail_out. simpl. lia. }
    split_and!; try lia; [|intros; transitivity c; [lia|auto]..|done].
    destruct (Z.ltb_spec c cap).
    + rewrite Z.min_l by lia. destruct (Z.ltb_spec c cap); [|lia]. done.
    + rewrite Z.min_r by lia. by rewrite Z.ltb_irrefl.
  - apply no_ceiling in Hc as [Hm He].
    split_and!; try lia; [|intros; congruence|done].
    by rewrite Z.ltb_irrefl, Z.sub_0_r.
Qed.

Lemma decoder_verdict_pointwise o n lim cap st b :
  decoder_opts_fit o -> 0 <= n < 2 ^ 64 -> 0 <= lim <= cap ->
  (do_max_output o <> 0 -> lim <= do_max_output o) ->
  (has_expected o = true -> lim <= do_expected_size o) ->
  st = (if lim <? n then ZU_NEED_OUTPUT else ZU_STREAM_END) ->
  src_pos b = Z.min n lim -> src_size b = n ->
  decoder_verdict o (Z.min n lim) (Z.min n lim) st (lim <? cap) (Z.min n lim) lim b =
  if n <=? lim
  then (if has_expected o && negb (n =? do_expected_size o) then ZU_ERR_INVALID_DATA
        else ZU_STREAM_END)
  else if lim <? cap then over_status o else ZU_NEED_OUTPUT.
Proof.
  intros Hfit Hn Hlim Hmax Hexp -> Hpos Hsize.
  destruct Hfit as (_ & _ & _ & Hr & _ & _).
  pose proof (ratio_allowed_ge (Z.min n lim) (do_max_ratio o)) as Hratio.
  unfold decoder_verdict. rewrite Hpos, Hsize, !Z.gtb_ltb.
  destruct (Z.ltb_spec lim n) as [Hlt|Hge].
  - destruct (Z.leb_spec n lim); [lia|].
    status_simpl.
    rewrite Z.min_r in * by lia. rewrite Z.eqb_refl.
    destruct (lim <? cap); cbn [andb negb]; [done|].
    destruct (Z.eqb_spec (do_max_output o) 0), (Z.ltb_spec (do_max_output o) lim);
      cbn [andb negb]; try lia;
    destruct (has_expected o), (Z.ltb_spec (do_expected_size o) lim); cbn [andb negb]; try lia;
    (destruct (Z.eqb_spec (do_max_ratio o) 0), (Z.ltb_spec (ratio_allowed lim (do_max_ratio o)) lim);
      cbn [andb negb]; rewrite ?andb_false_r; try lia; done).
  - destruct (Z.leb_spec n lim); [|lia]. rewrite Z.min_l in * by lia.
    status_simpl.
    rewrite Z.ltb_irrefl. cbn [andb negb]. rewrite !andb_false_r. cbn [andb].
    destruct (has_expected o && negb (n =? do_expected_size o)) eqn:E; [done|].
    destruct (Z.eqb_spec (do_max_output o) 0), (Z.ltb_spec (do_max_output o) n);
      cbn [andb negb]; try lia;
    destruct (has_expected o), (Z.ltb_spec (do_expected_size o) n); cbn [andb negb]; try lia;
    (destruct (Z.eqb_spec (do_max_ratio o) 0), (Z.ltb_spec (ratio_allowed n (do_max_ratio o)) n);
      cbn [andb negb]; rewrite ?andb_false_r; try lia; done).
Qed.

Lemma pointwise_decompress_one o src n dst cap :
  decoder_opts_fit o -> do_struct_size o = sizeof_decoder_opts ->
  do_codec o = vt_codec v -> alloc_ok req_decoder = true ->
  buffer_ok (one_shot_buffer src n dst cap) ->
  let k := Z.min n (one_shot_limit o cap) in
  zu_decompress_one reg (Some (decoder_opts_bytes o)) src n dst cap true =
    Some (one_shot_decode_status o n cap, Some k,
      (fun m => memcpy_at m 0 (List.map g (sub (default [] src) 0 k))) <$> dst).
Proof.
  intros Hfit Hs Hc Ha Hb k. unfold zu_decompress_one, one_shot_result.
  rewrite one_shot_guard by done.
  destruct (pointwise_decoder_new o Hfit Hs Hc Ha) as (s & ->).
  change (mk_buffer src n 0 dst cap 0) with (one_shot_buffer src n dst cap).
  destruct (pc_decoder_process _ _ Hpc) as (p & Hp & Hpw).
  pose proof (one_shot_window o src n dst cap Hfit Hb) as (Hw & Hlim & Hm & He & Hok).
  unfold one_shot_fuel. cbn [one_shot_loop]. unfold decoder_process.
  rewrite check_buffer_ok by done.
  cbn [zu_int_check_flush dec_finished dec_vtable dec_opts dec_total_out dec_total_in dec_state
       is_flush andb].
  rewrite Hp, Hw, (pointwise s _ ZU_FINISH Hok).
  pose proof (pointwise_buffer_one_shot g src n dst _ Hok) as [Hpos Hdst].
  set (lim := one_shot_limit o cap) in *.
  set (b1 := pointwise_buffer g (one_shot_buffer src n dst lim)) in *.
  assert (Hsp : src_pos b1 = Z.min n lim).
  { unfold b1, pointwise_buffer, pointwise_count, avail_in, avail_out. simpl.
    by rewrite !Z.sub_0_r. }
  destruct Hb as [Hb1 Hb2 Hb3 Hb4 _ _]. simpl in Hb1, Hb2, Hb3, Hb4.
  cbn [src_pos dst_pos one_shot_buffer]. rewrite Hsp, Hpos, !Z.sub_0_r.
  cbn [dst_size one_shot_buffer]. rewrite !(u64_small (Z.min n lim)) by lia.
  rewrite !Z.add_0_l, !(u64_small (Z.min n lim)) by lia.
  rewrite (decoder_verdict_pointwise o n lim cap) by
    (try done; try lia; destruct (lim <? cap); try done;
     unfold pointwise_status, avail_in, avail_out; simpl; by rewrite !Z.sub_0_r).
  unfold one_shot_decode_status. fold lim. subst k.
  destruct (Z.leb_spec n lim) as [Hle|Hgt].
  - destruct (has_expected o && negb (n =? do_expected_size o)); 
      destruct (lim <? cap); status_simpl; cbn [dst_pos Types.dst buf_set_dst_size];
      rewrite ?Hpos, ?Hdst; done.
  - destruct (lim <? cap) eqn:Hcap; cbn [dst_pos dst_size buf_set_dst_size].
    + destruct (over_status_error o) as [-> | ->]; status_simpl;
        cbn [dst_pos Types.dst buf_set_dst_size]; rewrite ?Hpos, ?Hdst; done.
    + assert (lim = cap) as Hlc by (apply Z.ltb_ge in Hcap; lia).
      status_simpl.
      replace (dst_pos b1 =? dst_size b1) with true; [by rewrite Hpos, Hdst|].
      symmetry. apply Z.eqb_eq. rewrite Hpos. unfold b1. simpl. lia.
Qed.

End one_shot.

Lemma drop_memcpy_at_0 p bs :
  (length bs <= length p)%nat -> drop (length bs) (memcpy_at p 0 bs) = drop (length bs) p.
Proof. intros. rewrite memcpy_at_0. by rewrite drop_app_length. Qed.

Lemma one_shot_decode_status_cases o n cap :
  decoder_opts_fit o -> 0 <= n -> 0 <= cap ->
  let st := one_shot_decode_status o n cap in
  (st = ZU_OK <->
     n <= cap /\ (do_max_output o <> 0 -> n <= do_max_output o) /\
     (has_expected o = true -> n = do_expected_size o)) /\
  (st <> ZU_OK ->
     st = ZU_ERR_INVALID_DATA /\ has_expected o = true /\ n <> do_expected_size o \/
     st = ZU_ERR_OUTPUT_LIMIT /\
     (cap < n \/ do_max_output o <> 0 /\ do_max_output o < n)).
Proof.
  intros Hf Hn Hcap st. subst st. unfold one_shot_decode_status, one_shot_limit, over_status.
  destruct (decoder_ceiling o) as [[c st]|] eqn:Hc.
  - pose proof (ceiling_bounds _ _ _ Hf Hc) as (_ & Hm & He & Hwhich).
    destruct (Z.leb_spec n (Z.min c cap)).
    + destruct (has_expected o) eqn:Hexp; cbn [andb].
      * destruct (Z.eqb_spec n (do_expected_size o)); cbn [negb]; split; naive_solver lia.
      * split; naive_solver lia.
    + destruct (Z.ltb_spec (Z.min c cap) cap).
      * destruct Hwhich as [(-> & -> & Hne & Hexp)|(-> & -> & Hexp)];
          split; naive_solver lia.
      * split; naive_solver lia.
  - apply no_ceiling in Hc as [Hm He]. rewrite He, Z.ltb_irrefl. cbn [andb].
    destruct (Z.leb_spec n cap); split; naive_solver lia.
Qed.

Lemma one_shot_buffer_ok s m cap :
  zlen s < 2 ^ 64 -> 0 <= cap <= zlen m -> cap < 2 ^ 64 ->
  buffer_ok (one_shot_buffer (Some s) (zlen s) (Some m) cap).
Proof.
  intros. pose proof (zlen_nonneg s). constructor; simpl; lia.
Qed.

Lemma identity_vtable_codec : vt_codec zu_int_codec_identity = ZU_CODEC_IDENTITY.
Proof. done. Qed.

(** The identity codec through the one-shot entry points loses nothing.  When the
    buffers are large enough, compressing [s] writes exactly [zlen s] bytes and
    decompressing what was written gives [s] back, both with [ZU_OK]; every byte of the
    destination past the written ones is untouched. *)
Theorem identity_one_shot_roundtrip {alloc : Allocator} (reg : registry)
    (eo : zu_encoder_opts) (do_ : zu_decoder_opts) (s m m' : bytes) :
  zu_int_registry_lookup reg ZU_CODEC_IDENTITY = Some zu_int_codec_identity ->
  encoder_opts_fit eo -> eo_struct_size eo = sizeof_encoder_opts ->
  eo_codec eo = ZU_CODEC_IDENTITY -> eo_level eo = ZU_LEVEL_DEFAULT ->
  decoder_opts_fit do_ -> do_struct_size do_ = sizeof_decoder_opts ->
  do_codec do_ = ZU_CODEC_IDENTITY ->
  (do_max_output do_ <> 0 -> zlen s <= do_max_output do_) ->
  (has_expected do_ = true -> do_expected_size do_ = zlen s) ->
  alloc_ok req_encoder = true -> alloc_ok req_decoder = true ->
  zlen s <= zlen m -> zlen s <= zlen m' -> zlen m < 2 ^ 64 -> zlen m' < 2 ^ 64 ->
  exists out back,
    zu_compress_one reg (Some (encoder_opts_bytes eo)) (Some s) (zlen s) (Some m) (zlen m) true =
      Some (ZU_OK, Some (zlen s), Some out) /\
    zu_decompress_one reg (Some (decoder_opts_bytes do_)) (Some out) (zlen s)
      (Some m') (zlen m') true = Some (ZU_OK, Some (zlen s), Some back) /\
    sub back 0 (zlen s) = s /\
    length back = length m' /\ drop (length s) back = drop (length s) m' /\
    length out = length m /\ drop (length s) out = drop (length s) m.
Proof.
  intros Hreg Hef Hes Hec Hel Hdf Hds Hdc Hmax Hexp Hae Had Hm Hm' Hm64 Hm64'.
  rewrite <- identity_vtable_codec in Hreg, Hec, Hdc.
  pose proof zu_int_codec_identity_pointwise as Hpc.
  pose proof (zlen_nonneg s) as Hs.
  exists (memcpy_at m 0 s), (memcpy_at m' 0 s). split_and!.
  - rewrite (pointwise_compress_one reg _ _ Hpc Hreg) by (done || apply one_shot_buffer_ok; lia).
    rewrite Z.min_l by lia. destruct (Z.leb_spec (zlen s) (zlen m)); [|lia].
    cbn [from_option id]. by rewrite sub_all, map_id.
  - assert (Hout : buffer_ok (one_shot_buffer (Some (memcpy_at m 0 s)) (zlen s) (Some m') (zlen m'))).
    { constructor; simpl; rewrite ?zlen_memcpy_at; lia. }
    rewrite (pointwise_decompress_one reg _ _ Hpc Hreg) by done.
    assert (Hlim : zlen s <= one_shot_limit do_ (zlen m')).
    { unfold one_shot_limit. destruct (decoder_ceiling do_) as [[c st]|] eqn:Hc; [|lia].
      apply ceiling_bounds in Hc as (_ & _ & _ & [(_ & -> & ? & _)|(_ & -> & ?)]); [| |done].
      - specialize (Hmax ltac:(done)). lia.
      - rewrite Hexp by done. lia. }
    rewrite Z.min_l by lia. unfold one_shot_decode_status.
    destruct (Z.leb_spec (zlen s) (one_shot_limit do_ (zlen m'))); [|lia].
    replace (has_expected do_ && negb (zlen s =? do_expected_size do_)) with false
      by (destruct (has_expected do_); [rewrite Hexp, Z.eqb_refl by done|]; done).
    cbn [from_option id]. rewrite map_id, sub_memcpy_at by lia. done.
  - rewrite sub_memcpy_at by lia. done.
  - apply length_memcpy_at; lia.
  - apply drop_memcpy_at_0. unfold zlen in *. lia.
  - apply length_memcpy_at; lia.
  - apply drop_memcpy_at_0. unfold zlen in *. lia.
Qed.

Definition id_registry : registry :=
  register_attempts empty_registry [Some zu_int_codec_identity].

Definition id_encoder_opts : zu_encoder_opts :=
  mk_encoder_opts 16 ZU_CODEC_IDENTITY ZU_LEVEL_DEFAULT 0.

Definition id_decoder_opts (max_output flags expected : Z) : zu_decoder_opts :=
  mk_decoder_opts 32 ZU_CODEC_IDENTITY max_output 0 flags expected.

Lemma identity_one_shot_roundtrip_witness :
  exists out back,
    zu_compress_one (alloc := fun _ => true) id_registry
      (Some (encoder_opts_bytes id_encoder_opts)) (Some [1; 2; 3]) 3
      (Some [0; 0; 0; 0]) 4 true = Some (ZU_OK, Some 3, Some out) /\
    zu_decompress_one (alloc := fun _ => true) id_registry
      (Some (decoder_opts_bytes (id_decoder_opts 3 4 3))) (Some out) 3
      (Some [9; 9; 9; 9; 9]) 5 true = Some (ZU_OK, Some 3, Some back) /\
    sub back 0 3 = [1; 2; 3] /\
    length back = 5%nat /\ drop 3 back = [9; 9] /\
    length out = 4%nat /\ drop 3 out = [0].
Proof.
  apply (identity_one_shot_roundtrip (alloc := fun _ => true) id_registry id_encoder_opts
    (id_decoder_opts 3 4 3) [1; 2; 3] [0; 0; 0; 0] [9; 9; 9; 9; 9]);
  vm_compute; repeat split; try reflexivity; discriminate.
Defined.

(** Decompression through the identity codec under every combination of limits,
    expected size and buffer size: the bytes written are exactly the [k] first ones,
    [k] the least of the input, the buffer and the ceiling; the status is [ZU_OK]
    exactly when everything fitted and matched the expected size, and otherwise names
    what stopped it (the caller's buffer or [max_output]: [ZU_ERR_OUTPUT_LIMIT]; the
    expected size: [ZU_ERR_INVALID_DATA]). *)
Theorem identity_decompress_one_spec {alloc : Allocator} (reg : registry)
    (o : zu_decoder_opts) (s m : bytes) :
  zu_int_registry_lookup reg ZU_CODEC_IDENTITY = Some zu_int_codec_identity ->
  decoder_opts_fit o -> do_struct_size o = sizeof_decoder_opts ->
  do_codec o = ZU_CODEC_IDENTITY -> alloc_ok req_decoder = true ->
  zlen s < 2 ^ 64 -> zlen m < 2 ^ 64 ->
  let k := Z.min (zlen s) (one_shot_limit o (zlen m)) in
  exists st,
    zu_decompress_one reg (Some (decoder_opts_bytes o)) (Some s) (zlen s) (Some m) (zlen m) true =
      Some (st, Some k, Some (take (Z.to_nat k) s ++ drop (Z.to_nat k) m)) /\
    (st = ZU_OK <->
       zlen s <= zlen m /\ (do_max_output o <> 0 -> zlen s <= do_max_output o) /\
       (has_expected o = true -> zlen s = do_expected_size o)) /\
    (st <> ZU_OK ->
       st = ZU_ERR_INVALID_DATA /\ has_expected o = true /\ zlen s <> do_expected_size o \/
       st = ZU_ERR_OUTPUT_LIMIT /\
       (zlen m < zlen s \/ do_max_output o <> 0 /\ do_max_output o < zlen s)).
Proof.
  intros Hreg Hf Hs Hc Ha Hs64 Hm64 k.
  rewrite <- identity_vtable_codec in Hreg, Hc.
  pose proof zu_int_codec_identity_pointwise as Hpc.
  pose proof (zlen_nonneg s) as Hs0. pose proof (zlen_nonneg m) as Hm0.
  exists (one_shot_decode_status o (zlen s) (zlen m)). split.
  - rewrite (pointwise_decompress_one reg _ _ Hpc Hreg) by (done || apply one_shot_buffer_ok; lia).
    fold k. cbn [from_option id]. rewrite map_id. do 2 f_equal.
    pose proof (one_shot_window o (Some s) (zlen s) (Some m) (zlen m) Hf
      (one_shot_buffer_ok s m (zlen m) ltac:(lia) ltac:(lia) ltac:(lia))) as (_ & Hlim & _).
    cbn. rewrite memcpy_at_0. unfold sub. rewrite drop_0, length_take.
    replace (Z.to_nat k `min` length s)%nat with (Z.to_nat k); [done|].
    subst k. unfold zlen in *. lia.
  - by apply one_shot_decode_status_cases.
Qed.

Lemma identity_decompress_one_spec_witness :
  let run o := zu_decompress_one (alloc := fun _ => true) id_registry
    (Some (decoder_opts_bytes o)) (Some [7; 8; 9]) 3 (Some [0; 0; 0; 0]) 4 true in
  run (id_decoder_opts 2 0 0) = Some (ZU_ERR_OUTPUT_LIMIT, Some 2, Some [7; 8; 0; 0]) /\
  run (id_decoder_opts 0 4 4) = Some (ZU_ERR_INVALID_DATA, Some 3, Some [7; 8; 9; 0]).
Proof.
  intros run. split.
  - destruct (identity_decompress_one_spec (alloc := fun _ => true) id_registry
      (id_decoder_opts 2 0 0) [7; 8; 9] [0; 0; 0; 0]) as (st & E & _);
      [vm_compute; repeat split; try reflexivity; discriminate..|].
    etransitivity; [exact E|]. vm_compute in E. injection E as <-. reflexivity.
  - destruct (identity_decompress_one_spec (alloc := fun _ => true) id_registry
      (id_decoder_opts 0 4 4) [7; 8; 9] [0; 0; 0; 0]) as (st & E & _);
      [vm_compute; repeat split; try reflexivity; discriminate..|].
    etransitivity; [exact E|]. vm_compute in E. injection E as <-. reflexivity.
Defined.
