(* ===== verification/StreamProps.v ===== *)
(** * What the core driver guarantees: theorems about src/zu_stream.c

    The output ceiling over any sequence of calls, the success conditions that hold
    whatever the codec does, the absence of false limit reports, normalised options,
    reset, termination and memory safety of the one-shot loop, and the encoder's level
    policy. *)
From S2P Require Import Prelude Types SizeArith Registry Stream Identity.

(** ** Sequences of calls *)

(** A client's calls on one decoder; the total is the number of output bytes the
    client saw appear. *)
Fixpoint decoder_run (d : zu_decoder) (calls : list (zu_buffer * zu_flush)) :
    zu_decoder * Z :=
  match calls with
  | [] => (d, 0)
  | (b, f) :: rest =>
      let '(_, d', b') := decoder_process d b f in
      let '(d'', n) := decoder_run d' rest in
      (d'', dst_pos b' - dst_pos b + n)
  end.

Lemma invalid_flush_idle d b n :
  buffer_ok b -> decoder_process d b (ZU_FLUSH_OTHER n) = (ZU_ERR_INVALID_ARGUMENT, d, b).
Proof. intros. unfold decoder_process. by rewrite check_buffer_ok. Qed.

Lemma flush_cases f : valid_flush f \/ exists n, f = ZU_FLUSH_OTHER n.
Proof. unfold valid_flush. destruct f; eauto. Qed.

Lemma decoder_process_limits d b f st d' b' :
  codec_contract (dec_vtable d) -> limits_ok d -> buffer_ok b ->
  decoder_process d b f = (st, d', b') ->
  limits_ok d' /\ buffer_step b b' /\ dec_opts d' = dec_opts d /\ dec_vtable d' = dec_vtable d /\
  (decoder_ceiling (dec_opts d) <> None ->
   dec_total_out d' = dec_total_out d + (dst_pos b' - dst_pos b)).
Proof.
  intros Hc Hl Hb Hp. destruct (flush_cases f) as [Hf|[n ->]].
  - eapply decoder_call_limits; eauto. by eapply decoder_process_view.
  - rewrite invalid_flush_idle in Hp by done. injection Hp as <- <- <-.
    split_and!; auto with zu. intros _. lia.
Qed.

Lemma decoder_run_limits d calls d' n :
  codec_contract (dec_vtable d) -> limits_ok d ->
  Forall (fun c => buffer_ok c.1) calls -> decoder_run d calls = (d', n) ->
  limits_ok d' /\ dec_opts d' = dec_opts d /\
  (decoder_ceiling (dec_opts d) <> None -> dec_total_out d' = dec_total_out d + n).
Proof.
  intros Hc Hl Hall. revert d n Hc Hl.
  induction Hall as [|[b f] calls Hb Hall IH]; intros d n Hc Hl; cbn [decoder_run fst] in *.
  - intros [= -> <-]. split_and!; try done. intros _. lia.
  - destruct (decoder_process d b f) as [[st d1] b1] eqn:Hp.
    cbn [fst] in Hb.
    destruct (decoder_run d1 calls) as [d2 m] eqn:Hr. intros [= <- <-].
    destruct (decoder_process_limits _ _ _ _ _ _ Hc Hl Hb Hp) as (Hl1 & Hs & Ho & Hv & Ht).
    destruct (IH d1 m) as (Hl2 & Ho2 & Ht2); [congruence|done|done|].
    rewrite Ho in *. split_and!; try congruence; try done.
    intros Hne. rewrite Ht2, Ht by done. lia.
Qed.

Lemma decoder_process_vtable d b f st d' b' :
  decoder_process d b f = (st, d', b') -> dec_vtable d' = dec_vtable d.
Proof.
  unfold decoder_process. intros H. repeat (case_match; simplify_eq/=; try done).
Qed.

Lemma decoder_run_vtable d calls d' n :
  decoder_run d calls = (d', n) -> dec_vtable d' = dec_vtable d.
Proof.
  revert d n. induction calls as [|[b f] calls IH]; intros d n; cbn [decoder_run].
  - by intros [= -> <-].
  - destruct (decoder_process d b f) as [[st d1] b1] eqn:Hp.
    destruct (decoder_run d1 calls) as [d2 k] eqn:Hr. intros [= <- <-].
    rewrite (IH _ _ Hr). by eapply decoder_process_vtable.
Qed.

Lemma ceiling_some_max o : do_max_output o <> 0 -> decoder_ceiling o <> None.
Proof. intros H E. apply no_ceiling in E as [? _]. done. Qed.

Lemma ceiling_some_expected o : has_expected o = true -> decoder_ceiling o <> None.
Proof. intros H E. apply no_ceiling in E as [_ ?]. congruence. Qed.

(** C1: no client, however it slices the work into calls and whatever buffers and flush
    modes it passes, ever sees more output from one stream than [max_output], nor more
    than the expected size it declared, for every codec that honours the cursor
    contract; every single call moves the cursors forward only, restores [dst_size] and
    leaves the rest of the buffer alone. *)
Theorem decoder_output_ceiling {alloc : Allocator} (reg : registry) (m : bytes)
    (d : zu_decoder) (calls : list (zu_buffer * zu_flush)) (d' : zu_decoder) (n : Z) :
  registry_contract reg -> bytes_ok m ->
  zu_decoder_new reg true (Some m) = Ok d ->
  Forall (fun c => buffer_ok c.1) calls -> decoder_run d calls = (d', n) ->
  (do_max_output (dec_opts d) <> 0 -> n <= do_max_output (dec_opts d)) /\
  (has_expected (dec_opts d) = true -> n <= do_expected_size (dec_opts d)) /\
  (forall b f st d'' b', buffer_ok b ->
     decoder_process d' b f = (st, d'', b') -> buffer_step b b').
Proof.
  intros Hreg Hm Hnew Hall Hrun.
  assert (Hr : decoder_reachable reg d) by (by eapply dr_new).
  pose proof (reachable_contract _ _ Hreg Hr) as Hc.
  pose proof (reachable_limits _ _ Hreg Hr) as Hl.
  pose proof (decoder_run_limits _ _ _ _ Hc Hl Hall Hrun) as ([Hr' Hmax Hexp Hfit] & Ho & Ht).
  apply decoder_new_inv in Hnew as (_ & _ & _ & _ & _ & H0). rewrite H0, Z.add_0_l in Ht.
  rewrite Ho in *. split_and!.
  - intros Hne. rewrite <- Ht by (by apply ceiling_some_max). auto.
  - intros He. rewrite <- Ht by (by apply ceiling_some_expected). auto.
  - intros b f st d'' b' Hb Hp.
    assert (codec_contract (dec_vtable d')) by (by rewrite (decoder_run_vtable _ _ _ _ Hrun)).
    eapply decoder_process_limits; eauto. rewrite <- Ho in *. by constructor.
Qed.

(** A codec that writes whatever it likes into its window, for the witnesses. *)
Definition id_decoder (max_output flags expected : Z) : zu_decoder :=
  mk_decoder zu_int_codec_identity tt (id_decoder_opts max_output flags expected) false 0 0.

Lemma id_registry_contract : registry_contract id_registry.
Proof.
  apply Forall_cons_2; [|by apply Forall_nil_2].
  exact (pointwise_contract (fun c => c) identity_process).
Qed.

Lemma small_buffer_ok s m sp dp :
  0 <= sp <= zlen s -> 0 <= dp <= zlen m -> zlen s < 2 ^ 64 -> zlen m < 2 ^ 64 ->
  buffer_ok (mk_buffer (Some s) (zlen s) sp (Some m) (zlen m) dp).
Proof. intros. constructor; simpl; lia. Qed.

Definition small_calls : list (zu_buffer * zu_flush) :=
  let b := mk_buffer (Some [5; 6; 7]) 3 0 (Some [0; 0; 0; 0]) 4 0 in
  [(b, ZU_RUN); (b, ZU_FINISH)].

Lemma small_calls_ok : Forall (fun c => buffer_ok c.1) small_calls.
Proof.
  repeat apply Forall_cons_2; try apply Forall_nil_2;
    (apply (small_buffer_ok [5; 6; 7] [0; 0; 0; 0] 0 0);
     vm_compute; first [reflexivity|split; discriminate]).
Qed.

Lemma decoder_output_ceiling_witness :
  let r := decoder_run (id_decoder 2 0 0) small_calls in r.2 = 2 /\ r.2 <= 2.
Proof.
  intros r. split; [reflexivity|].
  destruct (decoder_output_ceiling (alloc := fun _ => true) id_registry
    (decoder_opts_bytes (id_decoder_opts 2 0 0)) (id_decoder 2 0 0) small_calls r.1 r.2
    id_registry_contract (decoder_opts_bytes_ok _) eq_refl small_calls_ok
    (surjective_pairing _)) as [H _].
  apply H. discriminate.
Defined.

(** ** What success means *)

Lemma ratio_allowed_le n r t :
  0 <= n < 2 ^ 64 -> 0 < r -> t < 2 ^ 64 -> t <= ratio_allowed n r -> t <= n * r.
Proof.
  intros Hn Hr Ht. unfold ratio_allowed. rewrite Z.gtb_ltb.
  destruct (Z.eqb_spec n 0); [lia|].
  destruct (Z.ltb_spec (UINT64_MAX / r) n) as [H|H].
  - intros _. pose proof (Z.mul_succ_div_gt UINT64_MAX r ltac:(lia)).
    unfold UINT64_MAX in *. nia.
  - assert (n * r <= UINT64_MAX).
    { transitivity (UINT64_MAX / r * r); [by apply Z.mul_le_mono_nonneg_r; lia|].
      rewrite Z.mul_comm. apply Z.mul_div_le. lia. }
    unfold UINT64_MAX in *. rewrite u64_small by nia. done.
Qed.

Lemma ratio_from_guard st0 r tin tout :
  is_progress st0 || status_eqb st0 ZU_STREAM_END = true ->
  negb (status_eqb st0 ZU_ERR_OUTPUT_LIMIT) && negb (r =? 0) && (0 <? tout) &&
    (ratio_allowed tin r <? tout) = false ->
  r <> 0 -> 0 < tout -> tout <= ratio_allowed tin r.
Proof.
  intros Hst E Hr Ht. destruct (Z.ltb_spec (ratio_allowed tin r) tout); [|lia].
  destruct (Z.eqb_spec r 0), (Z.ltb_spec 0 tout); try lia.
  by destruct st0.
Qed.

Lemma ended_guards (expected reject : bool) tout size sp ss :
  status_eqb ZU_STREAM_END ZU_STREAM_END && expected && negb (tout =? size) = false ->
  status_eqb ZU_STREAM_END ZU_STREAM_END && (sp <? ss) && reject = false ->
  (expected = true -> tout = size) /\ (reject = true -> ss <= sp).
Proof.
  status_simpl. destruct (Z.eqb_spec tout size), (Z.ltb_spec sp ss), expected, reject;
    cbn; try done; intros; split; intros; try done; lia.
Qed.

(** What a verdict that is not an error implies about the counters. *)
Lemma verdict_success o tin tout st0 capped produced allowance b :
  let st := decoder_verdict o tin tout st0 capped produced allowance b in
  is_progress st || status_eqb st ZU_STREAM_END = true ->
  st = st0 /\
  (do_max_output o <> 0 -> tout <= do_max_output o) /\
  (has_expected o = true -> tout <= do_expected_size o) /\
  (do_max_ratio o <> 0 -> 0 < tout -> tout <= ratio_allowed tin (do_max_ratio o)) /\
  (st = ZU_STREAM_END ->
     (has_expected o = true -> tout = do_expected_size o) /\
     (has_flag (do_flags o) ZU_DEC_REJECT_TRAILING = true -> src_size b <= src_pos b)).
Proof.
  intros st Hst. subst st. revert Hst. unfold decoder_verdict. rewrite !Z.gtb_ltb.
  pose proof (over_status_error o) as Hover.
  set (e1 := _ && _ && negb _). set (e2 := _ && _ && has_flag _ _).
  destruct e1 eqn:E1; [done|]. destruct e2 eqn:E2; [done|].
  set (e3 := _ && _ && (_ =? _)). destruct e3; [by destruct Hover as [-> | ->]|].
  set (e4 := _ && (_ <? _)). destruct e4; [by destruct Hover as [-> | ->]|]. subst e1 e2.
  destruct (Z.eqb_spec (do_max_output o) 0), (Z.ltb_spec (do_max_output o) tout);
    cbn [negb andb]; try done;
  destruct (has_expected o), (Z.ltb_spec (do_expected_size o) tout); cbn [negb andb]; try done;
  (destruct (_ && (ratio_allowed tin (do_max_ratio o) <? tout)) eqn:E5; [done|]);
  intros Hst; (split; [done|]; split; [lia|]; split; [done || lia|]; split);
  first [by apply (ratio_from_guard st0)|by intros ->; eapply ended_guards].
Qed.


(** A codec that ignores its window and its input: it claims the end of the stream
    after moving the output cursor by 10. *)
Definition rogue_process (s : unit) (b : zu_buffer) (f : zu_flush) :
    zu_status * unit * zu_buffer :=
  (ZU_STREAM_END, s, mk_buffer (src b) (src_size b) (src_pos b + 1) (dst b) (dst_size b)
                       (dst_pos b + 10)).

Definition rogue_decoder (max_output flags expected : Z) : zu_decoder :=
  mk_decoder (mk_vtable unit sizeof_vtable 1024 (Some "rogue"%string) None None 0 0 0
    ZU_CAN_DECODE None 0 0 None None None None false
    (Some (fun _ => Ok tt)) (Some rogue_process) None true None 0 0) tt
    (mk_decoder_opts 32 1024 max_output 10 flags expected) false 0 0.

Definition rogue_buffer : zu_buffer := mk_buffer (Some [1]) 1 0 (Some (replicate 20 0)) 20 0.


(** ** No false limit reports *)

Lemma verdict_limit o tin tout st0 capped produced allowance b :
  decoder_verdict o tin tout st0 capped produced allowance b = ZU_ERR_OUTPUT_LIMIT ->
  st0 = ZU_ERR_OUTPUT_LIMIT \/
  (do_max_output o <> 0 /\ do_max_output o < tout) \/
  (capped = true /\ over_status o = ZU_ERR_OUTPUT_LIMIT /\
   produced = allowance /\ st0 = ZU_NEED_OUTPUT) \/
  (capped = true /\ over_status o = ZU_ERR_OUTPUT_LIMIT /\
   allowance = 0 /\ st0 <> ZU_STREAM_END /\ src_pos b < src_size b).
Proof.
  unfold decoder_verdict. rewrite !Z.gtb_ltb.
  destruct (_ && _ && negb _); [done|]. destruct (_ && _ && has_flag _ _); [done|].
  destruct (capped && _ && _) eqn:E3.
  { intros Ho. apply andb_true_iff in E3 as [[-> E]%andb_true_iff ->%Z.eqb_eq].
    apply status_eqb_spec in E as ->. by do 2 right; left. }
  destruct (capped && _ && _ && _) eqn:E4.
  { intros Ho. do 3 right. apply andb_true_iff in E4 as [E4 ?%Z.ltb_lt].
    apply andb_true_iff in E4 as [[-> ->%Z.eqb_eq]%andb_true_iff E4%negb_true_iff].
    split_and!; try done. intros ->. done. }
  destruct (negb _ && (do_max_output o <? _)) eqn:E5.
  { intros _. right. left. apply andb_true_iff in E5 as [?%negb_true_iff%Z.eqb_neq ?%Z.ltb_lt].
    done. }
  case_match; [done|]. case_match; [done|]. intros ->. by left.
Qed.

(** A shrunken window under the [max_output] ceiling. *)
Lemma capped_window o total b allowance given :
  decoder_window o total b = (allowance, true, given) ->
  over_status o = ZU_ERR_OUTPUT_LIMIT ->
  do_max_output o <> 0 /\
  allowance = Z.max 0 (do_max_output o - total) /\
  dst_pos b + allowance < dst_size b.
Proof.
  unfold decoder_window, over_status, decoder_ceiling.
  destruct (Z.eqb_spec (do_max_output o) 0) as [E|E]; cbn [negb].
  - destruct (has_expected o); cbn [andb]; [|done]. done.
  - destruct (has_expected o && _); [done|].
    destruct (Z.ltb_spec (if total <? do_max_output o then do_max_output o - total else 0)
      (dst_size b - dst_pos b)) as [H|H]; [|done].
    intros [= <- <-] _. split; [done|]. revert H.
    destruct (Z.ltb_spec total (do_max_output o)); lia.
Qed.

(** C27: the output limit is never reported falsely.  When a client's call on a reachable
    decoder reports [ZU_ERR_OUTPUT_LIMIT] and the codec itself did not, then exactly
    [max_output] bytes have been written, the caller's buffer had room for more, and the
    codec was still asking for room or had input left; a codec that reports the end of
    its stream, even exactly at the limit, is never turned into a limit error. *)
Theorem output_limit_is_precise {alloc : Allocator} (reg : registry) (d : zu_decoder)
    (b : zu_buffer) (f : zu_flush) (st : zu_status) (d' : zu_decoder) (b' : zu_buffer)
    (process : vt_state (dec_vtable d) -> zu_buffer -> zu_flush ->
               zu_status * vt_state (dec_vtable d) * zu_buffer) :
  registry_contract reg -> decoder_reachable reg d -> buffer_ok b ->
  vt_decoder_process (dec_vtable d) = Some process ->
  decoder_process d b f = (st, d', b') -> st = ZU_ERR_OUTPUT_LIMIT ->
  let given := (decoder_window (dec_opts d) (dec_total_out d) b).2 in
  let codec_status := (process (dec_state d) given f).1.1 in
  codec_status <> ZU_ERR_OUTPUT_LIMIT ->
  do_max_output (dec_opts d) <> 0 /\
  dec_total_out d' = do_max_output (dec_opts d) /\
  dst_pos b' < dst_size b' /\
  codec_status <> ZU_STREAM_END /\
  (codec_status = ZU_NEED_OUTPUT \/ src_pos b' < src_size b').
Proof.
  intros Hreg Hr Hb Hpr Hp -> given codec_status Hne.
  destruct (flush_cases f) as [Hf|[n ->]];
    [|by rewrite invalid_flush_idle in Hp].
  pose proof (reachable_contract _ _ Hreg Hr) as Hc.
  pose proof (reachable_limits _ _ Hreg Hr) as Hl.
  destruct (decoder_process_limits _ _ _ _ _ _ Hc Hl Hb Hp) as (Hl' & Hs & Ho & _ & Ht).
  pose proof (decoder_process_view _ _ _ _ _ _ Hb Hf Hp) as Hcall.
  remember ZU_ERR_OUTPUT_LIMIT as lim eqn:Elim in Hcall.
  destruct Hcall as [st Hfi Hid|process' allowance capped given' st0 s' b1 Hfin Hp' Hw Hproc
    bb produced tin tout].
  { destruct (dec_finished d); [specialize (Hfi eq_refl)|destruct (Hid eq_refl) as [? | [? _]]];
      subst; try done. revert Hfi; by case_match. }
  rewrite Hpr in Hp'. injection Hp' as <-.
  assert (given' = given) as -> by (unfold given; by rewrite Hw).
  assert (st0 = codec_status) as E0 by (unfold codec_status; by rewrite Hproc).
  clearbody codec_status. subst st0.
  cbn [dec_total_out] in *.
  assert (Hpos : dst_pos bb = dst_pos b1 /\ dst_size bb = dst_size b).
  { unfold bb. destruct (decoder_window_cases (dec_opts d) (dec_total_out d) b)
      as [E|(c & cst & rem & _ & _ & _ & E)]; rewrite E in Hw; injection Hw as <- <- <-;
      [|done]. split; [done|]. by destruct Hs. }
  destruct Hpos as [Hpos Hsz].
  destruct (decoder_call_step d Hc b f process allowance capped given codec_status s' b1)
    as (_ & Hout & Hin); try done; [by destruct Hl|].
  assert (produced = dst_pos b1 - dst_pos b) as Hprod.
  { apply u64_small. destruct Hs, Hb. lia. }
  destruct Hl' as [_ Hmax _ _]. cbn [dec_total_out dec_opts] in Hmax.
  destruct (verdict_limit _ _ _ _ _ _ _ _ Elim) as
    [Habs|[[Hm Hlt]|[(-> & Hov & Hpa & Hst)|(-> & Hov & Hall & Hst & Hin')]]].
  - done.
  - exfalso. specialize (Hmax Hm). lia.
  - destruct (capped_window _ _ _ _ _ Hw Hov) as (Hm & Hallow & Hroom).
    split_and!; [done| | |by rewrite Hst|by left].
    + rewrite Ht by (by apply ceiling_some_max). destruct Hl as [_ Hlm _ _]. specialize (Hlm Hm). lia.
    + rewrite Hpos, Hsz. lia.
  - destruct (capped_window _ _ _ _ _ Hw Hov) as (Hm & Hallow & Hroom).
    split_and!; [done| | |done|by right].
    + rewrite Ht by (by apply ceiling_some_max). destruct Hl as [_ Hlm _ _]. specialize (Hlm Hm). lia.
    + rewrite Hpos, Hsz. lia.
Qed.

Definition small_buffer : zu_buffer := mk_buffer (Some [5; 6; 7]) 3 0 (Some [0; 0; 0; 0]) 4 0.

Lemma small_buffer_is_ok : buffer_ok small_buffer.
Proof. pose proof small_calls_ok as H. by inversion H. Qed.

Lemma id_decoder_reachable max_output flags expected :
  zu_decoder_new (alloc := fun _ => true) id_registry true
    (Some (decoder_opts_bytes (id_decoder_opts max_output flags expected))) =
    Ok (id_decoder max_output flags expected) ->
  decoder_reachable (alloc := fun _ => true) id_registry (id_decoder max_output flags expected).
Proof. intros. by eapply dr_new; [apply decoder_opts_bytes_ok|]. Qed.

Lemma output_limit_is_precise_witness :
  let r := decoder_process (id_decoder 2 0 0) small_buffer ZU_RUN in
  r.1.1 = ZU_ERR_OUTPUT_LIMIT /\ dec_total_out r.1.2 = 2 /\ dst_pos r.2 < dst_size r.2.
Proof.
  intros r. split; [reflexivity|].
  destruct (output_limit_is_precise (alloc := fun _ => true) id_registry (id_decoder 2 0 0)
    small_buffer ZU_RUN r.1.1 r.1.2 r.2 identity_process id_registry_contract
    (id_decoder_reachable 2 0 0 eq_refl) small_buffer_is_ok eq_refl ltac:(reflexivity)
    eq_refl ltac:(vm_compute; discriminate)) as (_ & H1 & H2 & _).
  split; assumption.
Defined.

(** ** Options, reset and finished handles *)

Lemma sub_app_l p q off n :
  0 <= off -> 0 <= n -> off + n <= zlen p -> sub (p ++ q) off n = sub p off n.
Proof.
  unfold sub, zlen. intros. rewrite drop_app_le by lia. rewrite take_app_le; [done|].
  rewrite length_drop. lia.
Qed.

Lemma sub_app_r p q off n : zlen p <= off -> sub (p ++ q) off n = sub q (off - zlen p) n.
Proof.
  unfold sub, zlen. intros. rewrite drop_app_ge by lia. do 2 f_equal. lia.
Qed.

Lemma sub_take p k off n :
  0 <= off -> 0 <= n -> off + n <= k -> sub (take (Z.to_nat k) p) off n = sub p off n.
Proof.
  unfold sub. intros. rewrite skipn_firstn_comm, take_take. f_equal. lia.
Qed.

Lemma sub_drop p k off n :
  0 <= k -> 0 <= off -> sub (drop (Z.to_nat k) p) off n = sub p (k + off) n.
Proof. unfold sub. intros. rewrite drop_drop. do 2 f_equal. lia. Qed.

(** Reading the copied options back field by field. *)
Lemma decoder_opts_of_copy m :
  let sz := opts_struct_size m in
  24 <= sz -> sz <= zlen m ->
  decoder_opts_of (zu_int_copy_opts sizeof_decoder_opts m sz) =
    let given := decoder_opts_of m in
    mk_decoder_opts 32 (do_codec given) (do_max_output given) (do_max_ratio given)
      (do_flags given) (le_value (sub m 24 (Z.min sz 32 - 24))).
Proof.
  intros sz H24 Hlen. change sizeof_decoder_opts with 32.
  rewrite copy_opts_eq by lia. rewrite app_assoc.
  set (k := Z.min sz 32). set (pre := le_bytes 4 32 ++ drop 4 (take (Z.to_nat k) m)).
  assert (Hpre : zlen pre = k).
  { unfold pre. rewrite zlen_app. unfold zlen. rewrite length_drop, length_take, length_le_bytes.
    unfold zlen in Hlen. lia. }
  assert (Hfield : forall off n, 4 <= off -> 0 <= n -> off + n <= k ->
    sub (pre ++ replicate (Z.to_nat (32 - sz)) 0) off n = sub m off n).
  { intros off n Ho Hn Hk. rewrite sub_app_l by lia. unfold pre.
    rewrite sub_app_r by (unfold zlen; rewrite length_le_bytes; lia).
    change (zlen (le_bytes 4 32)) with 4. change 4%nat with (Z.to_nat 4).
    rewrite sub_drop by lia. replace (4 + (off - 4)) with off by lia. by apply sub_take; lia. }
  unfold decoder_opts_of. rewrite (Hfield 4 4), (Hfield 8 8), (Hfield 16 4), (Hfield 20 4) by lia.
  assert (sub (pre ++ replicate (Z.to_nat (32 - sz)) 0) 0 4 = le_bytes 4 32) as ->.
  { rewrite sub_app_l by lia. unfold pre. rewrite sub_app_l; [reflexivity|lia..|reflexivity]. }
  cbn [do_codec do_max_output do_max_ratio do_flags]. f_equal.
  replace 8 with ((k - 24) + (8 - (k - 24))) by lia.
  rewrite sub_split by lia. rewrite (Hfield 24 (k - 24)) by lia.
  rewrite le_value_app, sub_app_r by lia.
  assert (Hz : forall a b, le_value (sub (replicate a 0) b (8 - (k - 24))) = 0).
  { intros a b. unfold sub. rewrite drop_replicate, take_replicate. apply le_value_zeros. }
  rewrite Hz. lia.
Qed.

(** A caller's option struct of any size is read within its bounds.  A struct
    compiled against a shorter or a longer header gives exactly the fields it has: the
    ones the first release had must be there, a missing [expected_size] reads as zero,
    a partial one contributes only the bytes it has, and asking for an expected size
    the struct does not carry is refused. *)
Theorem decoder_options_normalised {alloc : Allocator} (reg : registry) (m : bytes) :
  bytes_ok m -> 4 <= zlen m -> opts_struct_size m <= zlen m ->
  let sz := opts_struct_size m in
  (sz < 24 -> zu_decoder_new reg true (Some m) = Err ZU_ERR_INVALID_ARGUMENT) /\
  (sz < 32 -> has_expected (decoder_opts_of m) = true ->
     zu_decoder_new reg true (Some m) = Err ZU_ERR_INVALID_ARGUMENT) /\
  (forall d, zu_decoder_new reg true (Some m) = Ok d ->
     24 <= sz /\
     dec_opts d =
       let given := decoder_opts_of m in
       mk_decoder_opts 32 (do_codec given) (do_max_output given) (do_max_ratio given)
         (do_flags given) (le_value (sub m 24 (Z.min sz 32 - 24)))).
Proof.
  intros Hm H4 Hlen sz. split_and!.
  - intros Hsz. unfold zu_decoder_new, zu_int_check_dec_opts. fold sz.
    change ZU_DECODER_OPTS_REQUIRED_SIZE with 24. destruct (Z.ltb_spec sz 24); [|lia]. done.
  - intros Hsz He. unfold zu_decoder_new, zu_int_check_dec_opts. fold sz.
    rewrite He. change ZU_DECODER_OPTS_REQUIRED_SIZE with 24.
    change (24 + 8) with 32. destruct (Z.ltb_spec sz 24); [done|].
    destruct (Z.ltb_spec sz 32); [done|lia].
  - intros d (Hck & _ & Ho & _)%decoder_new_inv.
    assert (24 <= sz) as H24.
    { revert Hck. unfold zu_int_check_dec_opts. fold sz.
      change ZU_DECODER_OPTS_REQUIRED_SIZE with 24. destruct (Z.ltb_spec sz 24); done. }
    split; [done|]. rewrite Ho. by apply decoder_opts_of_copy.
Qed.

Lemma pair_eta2 {A B C} (p : A * B * C) : p = (p.1.1, p.1.2, p.2).
Proof. by destruct p as [[? ?] ?]. Qed.

(** A 28-byte struct followed by unrelated memory: only half of [expected_size] is the
    caller's. *)
Lemma decoder_options_normalised_witness :
  let m := le_bytes 4 28 ++ drop 4 (decoder_opts_bytes (id_decoder_opts 7 1 258)) ++ [9; 9] in
  let d := id_decoder 7 1 258 in
  opts_struct_size m = 28 /\
  zu_decoder_new (alloc := fun _ => true) id_registry true (Some m) = Ok d /\
  dec_opts d = mk_decoder_opts 32 1 7 0 1 258.
Proof.
  intros m d. split; [reflexivity|]. split; [reflexivity|].
  assert (Hm : bytes_ok m).
  { apply bytes_ok_app; [apply le_bytes_ok|]. apply bytes_ok_app.
    - apply Forall_drop, decoder_opts_bytes_ok.
    - repeat apply Forall_cons_2; try apply Forall_nil_2; vm_compute; split; discriminate || reflexivity. }
  destruct (decoder_options_normalised (alloc := fun _ => true) id_registry m Hm
    ltac:(vm_compute; discriminate) ltac:(vm_compute; discriminate)) as (_ & _ & H).
  destruct (H d eq_refl) as [_ E]. etransitivity; [exact E|]. vm_compute. reflexivity.
Defined.

Lemma reachable_struct_size {alloc : Allocator} reg d :
  decoder_reachable reg d -> do_struct_size (dec_opts d) = sizeof_decoder_opts.
Proof.
  assert (Hcopy : forall m n,
    do_struct_size (decoder_opts_of (zu_int_copy_opts sizeof_decoder_opts m n)) = 32).
  { intros m n. unfold zu_int_copy_opts. rewrite memcpy_at_0.
    unfold decoder_opts_of. cbn [do_struct_size].
    rewrite (sub_app_l (le_bytes 4 sizeof_decoder_opts)) by (first [lia|by vm_compute]). reflexivity. }
  induction 1 as [m d Hm Hnew|d b f st d' b' Hr IH Hb Hf Hp|d opts st d' Hr IH Ho Hp].
  - apply decoder_new_inv in Hnew as (_ & _ & -> & _). apply Hcopy.
  - pose proof (decoder_process_view _ _ _ _ _ _ Hb Hf Hp) as Hc. by destruct Hc.
  - apply decoder_reset_cases in Hp as [_ [(_ & _ & _ & _ & _ & -> & _)|(_ & -> & _)]];
      [apply Hcopy|done].
Qed.



(** A finished handle is inert.  After the end of its stream neither handle calls its
    codec again: every further call leaves the handle and the buffer as they are; a
    decoder repeats the end of the stream, or the trailing-bytes error when the policy
    rejects the input it is shown, and an encoder calls more input a caller's mistake. *)
Theorem finished_handles_inert (d : zu_decoder) (e : zu_encoder) (b : zu_buffer)
    (f : zu_flush) :
  buffer_ok b -> valid_flush f -> dec_finished d = true -> enc_finished e = true ->
  decoder_process d b f =
    (if (src_pos b <? src_size b) && has_flag (do_flags (dec_opts d)) ZU_DEC_REJECT_TRAILING
     then ZU_ERR_TRAILING else ZU_STREAM_END, d, b) /\
  encoder_process e b f =
    (if src_pos b <? src_size b then ZU_ERR_INVALID_ARGUMENT else ZU_STREAM_END, e, b).
Proof.
  intros Hb Hf Hd He. unfold decoder_process, encoder_process.
  rewrite check_buffer_ok, Hd, He by done. by destruct Hf as [-> | [-> | ->] ].
Qed.

Lemma finished_handles_inert_witness :
  let d := mk_decoder zu_int_codec_identity tt (id_decoder_opts 0 1 0) true 3 3 in
  let e := mk_encoder zu_int_codec_identity tt id_encoder_opts true in
  (decoder_process d small_buffer ZU_RUN).1.1 = ZU_ERR_TRAILING /\
  encoder_process e small_buffer ZU_FINISH = (ZU_ERR_INVALID_ARGUMENT, e, small_buffer).
Proof.
  intros d e. split.
  - rewrite (proj1 (finished_handles_inert d e small_buffer ZU_RUN small_buffer_is_ok
      (or_introl eq_refl) eq_refl eq_refl)). reflexivity.
  - exact (proj2 (finished_handles_inert d e small_buffer ZU_FINISH small_buffer_is_ok
      (or_intror (or_intror eq_refl)) eq_refl eq_refl)).
Defined.

(** ** The one-shot loop *)

(** Not a status a caller would have to act on by calling again. *)
Definition is_final (st : zu_status) : Prop :=
  st <> ZU_NEED_INPUT /\ st <> ZU_NEED_OUTPUT /\ st <> ZU_STREAM_END.

Lemma one_shot_loop_total {H} (P : H -> Prop) process :
  (forall h b st h' b', P h -> buffer_ok b -> process h b ZU_FINISH = (st, h', b') ->
     buffer_step b b' /\ P h') ->
  forall fuel h b, P h -> buffer_ok b -> avail_in b + avail_out b < Z.of_nat fuel ->
  exists st h' b', one_shot_loop process fuel h b = Some (st, h', b') /\
    buffer_step b b' /\ is_final st.
Proof.
  intros Hstep fuel. unfold is_final.
  induction fuel as [|fuel IH]; intros h b Hh Hb Hfuel.
  { pose proof (avail_in_nonneg b Hb). pose proof (avail_out_nonneg b Hb). lia. }
  cbn [one_shot_loop]. destruct (process h b ZU_FINISH) as [[st h1] b1] eqn:Hp.
  destruct (Hstep _ _ _ _ _ Hh Hb Hp) as [Hs Hh1].
  destruct (status_eqb st ZU_STREAM_END) eqn:E1; [by eauto 8|].
  destruct (is_progress st) eqn:E2; cbn [negb].
  2:{ exists st, h1, b1. split_and!; try done; intros ->; done. }
  destruct (status_eqb st ZU_NEED_OUTPUT && (dst_pos b1 =? dst_size b1)); [by eauto 8|].
  destruct (Z.eqb_spec (dst_pos b1) (dst_pos b)), (Z.eqb_spec (src_pos b1) (src_pos b));
    cbn [andb]; [by eauto 8|..].
  all: destruct (IH h1 b1) as (st' & h' & b' & -> & Hs' & Hfin);
    [done|by eapply buffer_step_ok| |exists st', h', b'; by eauto with zu].
  all: destruct Hs; unfold avail_in, avail_out in *; lia.
Qed.

(** What one call leaves in the caller's hands, whatever its arguments. *)
Definition one_shot_safe (dst : option bytes) (cap : Z)
    (r : option (zu_status * option Z * option bytes)) : Prop :=
  exists st w out, r = Some (st, w, out) /\ is_final st /\
    match w with
    | Some k => 0 <= k <= cap /\ changed_within 0 k dst out
    | None => st = ZU_ERR_INVALID_ARGUMENT /\ out = dst
    end.

Lemma one_shot_result_safe {H} (P : H -> Prop) (new : result H) process src n dst cap written :
  (forall h, new = Ok h -> P h) ->
  (forall st, new = Err st -> is_final st) ->
  (forall h b st h' b', P h -> buffer_ok b -> process h b ZU_FINISH = (st, h', b') ->
     buffer_step b b' /\ P h') ->
  buffer_ok (one_shot_buffer src n dst cap) ->
  one_shot_safe dst cap (one_shot_result new process src n dst cap written).
Proof.
  intros Hok Herr Hstep Hb. unfold one_shot_result, one_shot_safe.
  destruct (negb written || _ || _).
  { exists ZU_ERR_INVALID_ARGUMENT, None, dst. by split_and!. }
  pose proof (bo_dst_pos _ Hb) as Hcap. pose proof (bo_src_pos _ Hb) as Hn. simpl in Hcap, Hn.
  destruct new as [h|st].
  - destruct (one_shot_loop_total P process Hstep (one_shot_fuel n cap) h
      (one_shot_buffer src n dst cap)) as (st & h' & b' & E & [s1 s2 s3 s4 s5 s6] & Hfin); auto.
    { unfold one_shot_fuel, avail_in, avail_out. simpl. lia. }
    change (mk_buffer src n 0 dst cap 0) with (one_shot_buffer src n dst cap). rewrite E.
    eexists _, _, _. split; [done|]. simpl in *. by auto.
  - eexists _, _, _. split; [done|]. split; [auto|]. split; [lia|]. auto with zu.
Qed.

Definition encoder_contract (v : zu_codec_vtable) : Prop :=
  match vt_encoder_process v with
  | Some process => CursorContract process
  | None => True
  end.

Lemma encoder_process_step e b f st e' b' :
  encoder_contract (enc_vtable e) -> buffer_ok b ->
  encoder_process e b f = (st, e', b') ->
  buffer_step b b' /\ enc_vtable e' = enc_vtable e.
Proof.
  intros Hc Hb. unfold encoder_process, encoder_contract in *. rewrite check_buffer_ok by done.
  destruct (zu_int_check_flush f); try (intros [= <- <- <-]; auto with zu; fail).
  destruct (enc_finished e); [intros [= <- <- <-]; auto with zu|].
  destruct (is_flush f && _); [intros [= <- <- <-]; auto with zu|].
  destruct (vt_encoder_process (enc_vtable e)) as [process|]; [|intros [= <- <- <-]; auto with zu].
  destruct (process _ b f) as [[st0 s'] b1] eqn:E. intros [= <- <- <-].
  split; [by eapply Hc|done].
Qed.

Lemma encoder_new_inv {alloc : Allocator} reg m e :
  zu_encoder_new reg true (Some m) = Ok e ->
  zu_int_resolve reg (eo_codec (encoder_opts_of m)) ZU_CAN_ENCODE = Ok (enc_vtable e) /\
  zu_int_check_level (enc_vtable e) (eo_level (encoder_opts_of m)) = Ok tt /\
  16 <= opts_struct_size m /\
  enc_opts e = encoder_opts_of
    (zu_int_copy_opts sizeof_encoder_opts m (opts_struct_size m)) /\
  enc_finished e = false.
Proof.
  unfold zu_encoder_new. cbn [negb]. change ZU_ENCODER_OPTS_REQUIRED_SIZE with 16.
  destruct (Z.ltb_spec (opts_struct_size m) 16); [done|].
  destruct (zu_int_resolve reg _ _) as [v|]; [|done]. cbn [mbind result_bind].
  destruct (zu_int_check_level v _) as [[]|] eqn:Hl; [|done]. cbn [mbind result_bind].
  destruct (negb (alloc_ok req_encoder)); [done|].
  destruct (vt_encoder_new v) as [new|]; [|done].
  destruct (new _) as [s|]; [|done]. cbn [mbind result_bind]. intros [= <-]. done.
Qed.

Lemma resolve_in reg codec dir v :
  zu_int_resolve reg codec dir = Ok v -> In v (reg_vtables reg).
Proof. intros [Hl _]%resolve_ok. by apply lookup_some_in in Hl as [Hin _]. Qed.

(** Codec constructors report failure with an error status. *)
Definition constructors_final (reg : registry) : Prop :=
  Forall (fun v =>
    (forall new o st, vt_encoder_new v = Some new -> new o = Err st -> is_final st) /\
    (forall new o st, vt_decoder_new v = Some new -> new o = Err st -> is_final st))
    (reg_vtables reg).

(** An error of a constructor is the driver's own or the codec's. *)
Lemma encoder_new_errs {alloc : Allocator} (Q : zu_status -> Prop) reg opts st :
  Q ZU_ERR_INVALID_ARGUMENT -> Q ZU_ERR_UNSUPPORTED -> Q ZU_ERR_MEMORY -> Q null_call ->
  (forall v new o st, In v (reg_vtables reg) -> vt_encoder_new v = Some new -> new o = Err st -> Q st) ->
  zu_encoder_new reg true opts = Err st -> Q st.
Proof.
  intros Hi Hu Hm Hnull Hreg. unfold zu_encoder_new. destruct opts as [m|]; [|by intros [= <-]]. cbn [negb].
  destruct (_ <? _); [by intros [= <-]|].
  destruct (zu_int_resolve reg _ _) as [v|] eqn:Hres; cbn [mbind result_bind].
  2:{ intros [= <-]. revert Hres. unfold zu_int_resolve. by repeat case_match; intros [= <-]. }
  destruct (zu_int_check_level v _) as [[]|] eqn:Hl; cbn [mbind result_bind].
  2:{ intros [= <-]. revert Hl. unfold zu_int_check_level. by repeat case_match; intros [= <-]. }
  destruct (negb _); [by intros [= <-]|].
  destruct (vt_encoder_new v) as [new|] eqn:Hn; [|by intros [= <-]].
  destruct (new _) as [s|st'] eqn:E; [done|]. intros [= <-].
  eapply (Hreg v); eauto. by eapply resolve_in.
Qed.

Lemma decoder_new_errs {alloc : Allocator} (Q : zu_status -> Prop) reg opts st :
  Q ZU_ERR_INVALID_ARGUMENT -> Q ZU_ERR_UNSUPPORTED -> Q ZU_ERR_MEMORY -> Q null_call ->
  (forall v new o st, In v (reg_vtables reg) -> vt_decoder_new v = Some new -> new o = Err st -> Q st) ->
  zu_decoder_new reg true opts = Err st -> Q st.
Proof.
  intros Hi Hu Hm Hnull Hreg. unfold zu_decoder_new. destruct opts as [m|]; [|by intros [= <-]]. cbn [negb].
  destruct (negb _); [by intros [= <-]|].
  destruct (zu_int_resolve reg _ _) as [v|] eqn:Hres; cbn [mbind result_bind].
  2:{ intros [= <-]. revert Hres. unfold zu_int_resolve. by repeat case_match; intros [= <-]. }
  destruct (negb _); [by intros [= <-]|].
  destruct (vt_decoder_new v) as [new|] eqn:Hn; [|by intros [= <-]].
  destruct (new _) as [s|st'] eqn:E; [done|]. intros [= <-].
  eapply (Hreg v); eauto. by eapply resolve_in.
Qed.

Lemma encoder_new_final {alloc : Allocator} reg opts st :
  constructors_final reg -> zu_encoder_new reg true opts = Err st -> is_final st.
Proof.
  unfold constructors_final. rewrite List.Forall_forall. intros Hreg. apply encoder_new_errs; try done.
  intros v new o st' Hin. by apply (proj1 (Hreg v Hin)).
Qed.

Lemma decoder_new_final {alloc : Allocator} reg opts st :
  constructors_final reg -> zu_decoder_new reg true opts = Err st -> is_final st.
Proof.
  unfold constructors_final. rewrite List.Forall_forall. intros Hreg. apply decoder_new_errs; try done.
  intros v new o st' Hin. by apply (proj2 (Hreg v Hin)).
Qed.

(** C10: the one-shot entry points always return, and safely.  For any options, even
    malformed ones, any codec that honours the cursor contract, and any input and output
    sizes, the drive loop ends within its bound; the status is never one that asks the
    caller to continue; [*written] is within the buffer; and no byte outside the written
    prefix is touched. *)
Theorem one_shot_terminates_safely {alloc : Allocator} (reg : registry)
    (eopts dopts : option bytes) (src : option bytes) (n : Z) (dst : option bytes) (cap : Z)
    (written : outp) :
  registry_contract reg -> Forall encoder_contract (reg_vtables reg) ->
  constructors_final reg -> (forall m, dopts = Some m -> bytes_ok m) ->
  buffer_ok (one_shot_buffer src n dst cap) ->
  one_shot_safe dst cap (zu_compress_one reg eopts src n dst cap written) /\
  one_shot_safe dst cap (zu_decompress_one reg dopts src n dst cap written).
Proof.
  intros Hdec Henc Hfin Hopts Hb. split.
  - apply (one_shot_result_safe (fun e => encoder_contract (enc_vtable e))); try done.
    + intros e. destruct eopts as [m|]; [|done]. intros (Hres & _)%encoder_new_inv.
      rewrite List.Forall_forall in Henc. apply Henc. by eapply resolve_in.
    + intros st. by apply encoder_new_final.
    + intros e b st e' b' Hc Hb' Hp. destruct (encoder_process_step _ _ _ _ _ _ Hc Hb' Hp) as [? E].
      by rewrite E.
  - apply (one_shot_result_safe (decoder_reachable reg)); try done.
    + intros d. destruct dopts as [m|]; [|done]. intros Hnew. eapply dr_new; eauto.
    + intros st. by apply decoder_new_final.
    + intros d b st d' b' Hr Hb' Hp. split; [|by eapply dr_process; eauto; right; right].
      eapply decoder_process_limits; eauto; [by eapply reachable_contract|by eapply reachable_limits].
Qed.

Lemma one_shot_terminates_safely_witness :
  one_shot_safe (Some [0; 0]) 2 (zu_decompress_one (alloc := fun _ => true) id_registry
    (Some (decoder_opts_bytes (id_decoder_opts 0 0 0))) (Some [1; 2; 3]) 3 (Some [0; 0]) 2 true) /\
  zu_decompress_one (alloc := fun _ => true) id_registry
    (Some (decoder_opts_bytes (id_decoder_opts 0 0 0))) (Some [1; 2; 3]) 3 (Some [0; 0]) 2 true =
    Some (ZU_ERR_OUTPUT_LIMIT, Some 2, Some [1; 2]).
Proof.
  split; [|vm_compute; reflexivity].
  apply (one_shot_terminates_safely (alloc := fun _ => true) id_registry None
    (Some (decoder_opts_bytes (id_decoder_opts 0 0 0))) (Some [1; 2; 3]) 3 (Some [0; 0]) 2 true).
  - exact id_registry_contract.
  - apply Forall_cons_2; [|by apply Forall_nil_2].
    exact (pointwise_contract (fun c => c) identity_process).
  - apply Forall_cons_2; [|by apply Forall_nil_2].
    split; intros new o st E; injection E as <-; discriminate.
  - intros m E. injection E as <-. apply decoder_opts_bytes_ok.
  - apply (one_shot_buffer_ok [1; 2; 3] [0; 0] 2); vm_compute; repeat split; discriminate.
Defined.

(** ** The encoder's level policy, and entry points that exist *)

Definition level_accepted (v : zu_codec_vtable) (level : Z) : Prop :=
  level = ZU_LEVEL_DEFAULT \/ vt_level_min v <= level <= vt_level_max v.

Lemma check_level_accepted v level :
  zu_int_check_level v level = Ok tt -> level_accepted v level.
Proof.
  unfold zu_int_check_level, level_accepted. rewrite Z.gtb_ltb.
  destruct (Z.eqb_spec level ZU_LEVEL_DEFAULT); [by left|].
  destruct (Z.eqb_spec (vt_level_min v) 0), (Z.eqb_spec (vt_level_max v) 0),
    (Z.eqb_spec (vt_level_default v) 0), (Z.eqb_spec level 0),
    (Z.ltb_spec level (vt_level_min v)), (Z.ltb_spec (vt_level_max v) level);
    cbn [andb orb]; try done; intros _; right; lia.
Qed.

Lemma encoder_opts_of_copy m :
  let sz := opts_struct_size m in
  16 <= sz -> sz <= zlen m ->
  encoder_opts_of (zu_int_copy_opts sizeof_encoder_opts m sz) =
    let given := encoder_opts_of m in
    mk_encoder_opts 16 (eo_codec given) (eo_level given) (eo_flags given).
Proof.
  intros sz H16 Hlen. change sizeof_encoder_opts with 16.
  rewrite copy_opts_eq by lia. rewrite Z.min_r by lia.
  replace (Z.to_nat (16 - sz)) with 0%nat by lia. cbn [replicate]. rewrite app_nil_r.
  assert (Hfield : forall off n, 4 <= off -> 0 <= n -> off + n <= 16 ->
    sub (le_bytes 4 16 ++ drop 4 (take (Z.to_nat 16) m)) off n = sub m off n).
  { intros off n Ho Hn Hk.
    rewrite sub_app_r by (unfold zlen; rewrite length_le_bytes; lia).
    change (zlen (le_bytes 4 16)) with 4. change 4%nat with (Z.to_nat 4).
    rewrite sub_drop by lia. replace (4 + (off - 4)) with off by lia. by apply sub_take; lia. }
  unfold encoder_opts_of. by rewrite (Hfield 4 4), (Hfield 8 4), (Hfield 12 4) by lia.
Qed.

Section encoders.
Context {alloc : Allocator} (reg : registry).

(** An encoder some client can hold. *)
Inductive encoder_reachable : zu_encoder -> Prop :=
  | er_new m e :
      bytes_ok m -> opts_struct_size m <= zlen m ->
      zu_encoder_new reg true (Some m) = Ok e -> encoder_reachable e
  | er_process e b f st e' b' :
      encoder_reachable e -> buffer_ok b ->
      encoder_process e b f = (st, e', b') -> encoder_reachable e'
  | er_reset e opts st e' :
      encoder_reachable e ->
      encoder_reset e opts = (st, e') -> encoder_reachable e'.

Lemma encoder_process_keeps e b f st e' b' :
  encoder_process e b f = (st, e', b') ->
  enc_vtable e' = enc_vtable e /\ enc_opts e' = enc_opts e.
Proof.
  unfold encoder_process. intros H. repeat (case_match; simplify_eq/=; try done).
Qed.

Lemma encoder_reset_cases e opts st e' :
  encoder_reset e opts = (st, e') ->
  enc_vtable e' = enc_vtable e /\
  (enc_opts e' = enc_opts e \/
   zu_int_check_level (enc_vtable e) (eo_level (enc_opts e')) = Ok tt /\
   eo_codec (enc_opts e') = eo_codec (enc_opts e)).
Proof.
  unfold encoder_reset. set (given := default (encoder_opts_bytes (enc_opts e)) opts).
  destruct (_ <? _); [intros [= <- <-]; by auto|].
  set (use := encoder_opts_of _).
  destruct (Z.eqb_spec (eo_codec use) (eo_codec (enc_opts e))) as [Hc|]; cbn [negb];
    [|intros [= <- <-]; split; [done|by left]].
  destruct (zu_int_check_level (enc_vtable e) (eo_level use)) as [[]|] eqn:Hl;
    [|intros [= <- <-]; split; [done|by left]].
  destruct (vt_encoder_reset (enc_vtable e)) as [reset|];
    [|intros [= <- <-]; split; [done|by left]].
  destruct (reset _ use) as [st0 s']. destruct st0; intros [= <- <-];
    (split; [done|]); first [by right|by left].
Qed.

(** What every live encoder's handle satisfies. *)
Record encoder_ok (e : zu_encoder) : Prop := {
  eok_resolved : zu_int_resolve reg (eo_codec (enc_opts e)) ZU_CAN_ENCODE = Ok (enc_vtable e);
  eok_level : level_accepted (enc_vtable e) (eo_level (enc_opts e));
}.

Lemma encoder_reachable_ok e : encoder_reachable e -> encoder_ok e.
Proof.
  induction 1 as [m e Hm Hlen Hnew|e b f st e' b' Hr [IH1 IH2] Hb Hp|e opts st e' Hr [IH1 IH2] Hp].
  - apply encoder_new_inv in Hnew as (Hres & Hl & H16 & Ho & _).
    rewrite encoder_opts_of_copy in Ho by done.
    constructor; rewrite Ho; [done|by apply check_level_accepted].
  - apply encoder_process_keeps in Hp as [Hv Ho]. constructor; by rewrite Hv, Ho.
  - apply encoder_reset_cases in Hp as [Hv [Ho|[Hl Hc]]].
    + constructor; by rewrite Hv, Ho.
    + constructor; rewrite Hv, ?Hc; [done|by apply check_level_accepted].
Qed.

End encoders.

(** C29: every encoder a client can hold, after any calls and resets, runs a registered
    codec that can encode, under the identity its options name, with a level the codec
    advertised or the default; and no handle of either direction ever has the driver
    call a function pointer its codec left NULL. *)
Theorem live_handles_well_formed {alloc : Allocator} (reg : registry)
    (e : zu_encoder) (d : zu_decoder) :
  registry_ok reg -> encoder_reachable reg e -> decoder_reachable reg d ->
  zu_int_registry_lookup reg (eo_codec (enc_opts e)) = Some (enc_vtable e) /\
  level_accepted (enc_vtable e) (eo_level (enc_opts e)) /\
  is_Some (vt_encoder_process (enc_vtable e)) /\
  is_Some (vt_decoder_process (dec_vtable d)) /\
  (forall codec v, zu_int_resolve reg codec ZU_CAN_ENCODE = Ok v -> is_Some (vt_encoder_new v)) /\
  (forall codec v, zu_int_resolve reg codec ZU_CAN_DECODE = Ok v -> is_Some (vt_decoder_new v)).
Proof.
  intros Hok He Hd. apply encoder_reachable_ok in He as [Hres Hl].
  pose proof (resolve_ok _ _ _ _ Hres) as [Hlook Hcan].
  assert (Hent : forall codec dir v, zu_int_resolve reg codec dir = Ok v ->
    vtable_ok v /\ has_flag (vt_flags v) dir = true).
  { intros codec dir v Hr. split; [|by apply resolve_ok in Hr as [_ ?]].
    eapply registered_vtable_ok; [done|]. by eapply resolve_in. }
  split_and!; try done.
  - destruct (Hent _ _ _ Hres) as [Hv Hf]. by apply registered_encoder_pointers.
  - by eapply reachable_has_process.
  - intros codec v Hr. destruct (Hent _ _ _ Hr) as [Hv Hf]. by apply registered_encoder_pointers.
  - intros codec v Hr. destruct (Hent _ _ _ Hr) as [Hv Hf]. by apply registered_decoder_pointers.
Qed.

Lemma live_handles_well_formed_witness :
  let e := mk_encoder zu_int_codec_identity tt id_encoder_opts false in
  zu_int_registry_lookup id_registry (eo_codec (enc_opts e)) = Some (enc_vtable e) /\
  level_accepted (enc_vtable e) (eo_level (enc_opts e)).
Proof.
  intros e.
  assert (He : encoder_reachable (alloc := fun _ => true) id_registry e).
  { eapply (er_new _ (encoder_opts_bytes id_encoder_opts));
      [repeat apply bytes_ok_app; apply le_bytes_ok|vm_compute; discriminate|reflexivity]. }
  destruct (live_handles_well_formed (alloc := fun _ => true) id_registry e (id_decoder 0 0 0)
    (register_attempts_ok _) He (id_decoder_reachable 0 0 0 eq_refl)) as (H1 & H2 & _).
  split; [exact H1|exact H2].
Defined.
