(* ===== verification/Builtins.v ===== *)
(** * The built-in codecs: the end of src/zu_registry.c

    The registry package initialisation leaves behind.  What every codec's file proves
    about its own process functions and constructors is collected here, so that the
    driver's theorems, stated for any registry of codecs that honour the contracts, apply
    to the one zukomp runs with. *)
From S2P Require Import Prelude Types SizeArith ProcessLoop Registry Stream Identity StreamProps.
From S2P Require Import Deflate DeflateProps FramedDecoder Zstd ZstdProps Lz4 Lz4Props Lz4Block Lz4BlockProps.

Section builtins.
Context {mz : Miniz} {mz_ok : MinizOk} {zstd : Zstd} {zstd_ok : ZstdOk}.
Context {alloc : Allocator} {lz4 : Lz4} {lz4_ok : Lz4FrameOk} {block_ok : Lz4BlockOk}.

(** [static const zu_codec_vtable *const builtin[]], and the function around it. *)
Definition zu_int_builtin : list zu_codec_vtable := [
  zu_int_codec_identity;
  zu_int_codec_deflate_raw;
  zu_int_codec_zlib;
  zu_int_codec_gzip;
  zu_int_codec_zstd;
  zu_int_codec_lz4_frame;
  zu_int_codec_lz4_block
].

Definition zu_int_register_builtin_codecs (reg : registry) : zu_status * registry :=
  register_all reg zu_int_builtin.

(** The registry once [R_init_zukomp] has run. *)
Definition builtin_registry : registry := mk_registry zu_int_builtin 7.

(** ** Registration *)

Lemma register_all_ok vs : forall reg,
  (register_all reg vs).1 = ZU_OK -> reg_gen reg + zlen vs < 2 ^ 64 -> 0 <= reg_gen reg ->
  register_all reg vs = (ZU_OK, mk_registry (reg_vtables reg ++ vs) (reg_gen reg + zlen vs)).
Proof.
  induction vs as [|v vs IH]; intros reg H Hg H0; cbn [register_all] in *.
  - rewrite app_nil_r, zlen_nil, Z.add_0_r. by destruct reg.
  - rewrite zlen_cons in *. pose proof (zlen_nonneg vs).
    destruct (zu_register_codec reg (Some v)) as [st reg'] eqn:E.
    destruct st; try discriminate H.
    apply register_ok_inv in E as (_ & _ & _ & _ & ->).
    rewrite IH; cbn [reg_gen reg_vtables]; [|done|rewrite u64_small by lia; lia|apply u64_range].
    rewrite <- app_assoc, u64_small by lia. do 2 f_equal. lia.
Qed.

Lemma builtin_registered :
  zu_int_register_builtin_codecs empty_registry = (ZU_OK, builtin_registry).
Proof.
  unfold zu_int_register_builtin_codecs.
  rewrite register_all_ok; [reflexivity|vm_compute; reflexivity|vm_compute; reflexivity|done].
Qed.

Lemma builtin_forall (Q : zu_codec_vtable -> Prop) :
  Q zu_int_codec_identity -> Q zu_int_codec_deflate_raw -> Q zu_int_codec_zlib ->
  Q zu_int_codec_gzip -> Q zu_int_codec_zstd -> Q zu_int_codec_lz4_frame ->
  Q zu_int_codec_lz4_block -> Forall Q zu_int_builtin.
Proof. intros. repeat (apply Forall_cons_2; [done|]). apply Forall_nil_2. Qed.

(** ** The contracts *)

Lemma builtin_decoders : registry_contract builtin_registry.
Proof.
  apply builtin_forall; unfold codec_contract; cbn [vt_decoder_process zu_int_codec_identity
    zu_int_codec_deflate_raw zu_int_codec_zlib zu_int_codec_gzip zu_int_codec_zstd
    zu_int_codec_lz4_frame zu_int_codec_lz4_block]; apply _.
Qed.

Lemma builtin_encoders : Forall encoder_contract (reg_vtables builtin_registry).
Proof.
  apply builtin_forall; unfold encoder_contract; cbn [vt_encoder_process zu_int_codec_identity
    zu_int_codec_deflate_raw zu_int_codec_zlib zu_int_codec_gzip zu_int_codec_zstd
    zu_int_codec_lz4_frame zu_int_codec_lz4_block]; apply _.
Qed.

Lemma deflate_new_failed w enc level flags st :
  zu_int_deflate_new w enc level flags = Err st -> failed st.
Proof.
  unfold zu_int_deflate_new. destruct (negb (alloc_ok req_state)); [by intros [= <-]|]. cbv zeta.
  set (init := if enc then _ else _).
  assert (Hret : mz_init_ret init.1)
    by (subst init; destruct enc; [apply mz_deflateInit2_ret|apply mz_inflateInit2_ret]).
  clearbody init. destruct init as [r m]. cbn in Hret.
  destruct Hret as [-> |[-> |[-> | ->] ] ]; cbn; by intros [= <-].
Qed.

Lemma zstd_encoder_new_failed o st : zstd_encoder_new o = Err st -> failed st.
Proof.
  unfold zstd_encoder_new, zu_int_zstd_level. do 2 (destruct (negb _); [by intros [= <-]|]).
  cbv zeta. destruct (ZSTD_CCtx_setParameter _ _ _) as [r c]. destruct (ZSTD_isError r); [by intros [= <-]|].
  destruct (ZSTD_CCtx_setParameter _ _ _) as [r1 c1]. destruct (ZSTD_isError r1); by intros [= <-].
Qed.

Lemma zstd_decoder_new_failed o st : zstd_decoder_new o = Err st -> failed st.
Proof.
  unfold zstd_decoder_new, zu_int_zstd_window. do 2 (destruct (negb _); [by intros [= <-]|]).
  cbv zeta. destruct (ZSTD_DCtx_setParameter _ _ _) as [r d]. destruct (ZSTD_isError r); by intros [= <-].
Qed.

Lemma lz4f_encoder_new_failed o st : lz4f_encoder_new o = Err st -> failed st.
Proof.
  unfold lz4f_encoder_new. destruct (negb _); [by intros [= <-]|]. cbv zeta.
  destruct LZ4F_createCompressionContext as [r c]. destruct (LZ4F_isError r); [by intros [= <-]|].
  destruct (negb _); by intros [= <-].
Qed.

Lemma lz4f_decoder_new_failed o st : lz4f_decoder_new o = Err st -> failed st.
Proof.
  unfold lz4f_decoder_new. destruct (negb _); [by intros [= <-]|].
  destruct LZ4F_createDecompressionContext as [r d]. destruct (LZ4F_isError r); by intros [= <-].
Qed.

Lemma lz4b_new_failed enc level d st : lz4b_new enc level d = Err st -> failed st.
Proof. unfold lz4b_new. destruct (negb _); by intros [= <-]. Qed.

(** A constructor that fails says so with an error. *)
Definition constructors_fail (v : zu_codec_vtable) : Prop :=
  (forall new o st, vt_encoder_new v = Some new -> new o = Err st -> failed st) /\
  (forall new o st, vt_decoder_new v = Some new -> new o = Err st -> failed st).

Lemma builtin_constructors_fail : Forall constructors_fail zu_int_builtin.
Proof.
  apply builtin_forall; (split; intros new o st; cbn; intros [= <-];
    first [discriminate|apply deflate_new_failed|apply zstd_encoder_new_failed
      |apply zstd_decoder_new_failed|apply lz4f_encoder_new_failed|apply lz4f_decoder_new_failed
      |apply lz4b_new_failed]).
Qed.

Lemma failed_final st : failed st -> is_final st.
Proof. intros H. unfold is_final. by destruct st. Qed.

Lemma builtin_constructors : constructors_final builtin_registry.
Proof.
  pose proof builtin_constructors_fail as H. unfold constructors_final.
  eapply List.Forall_impl; [|exact H]. intros v [He Hd].
  split; intros new o st En E; apply failed_final; eauto.
Qed.

Lemma builtin_ok : registry_ok builtin_registry.
Proof.
  assert (H : forall vs reg, registry_ok reg -> registry_ok (register_all reg vs).2).
  { induction vs as [|v vs IH]; intros reg Hreg; [done|]. cbn [register_all].
    destruct (zu_register_codec reg (Some v)) as [st reg'] eqn:E.
    pose proof (register_preserves _ _ _ _ Hreg E) as Hreg'. destruct st; auto. }
  specialize (H zu_int_builtin empty_registry empty_registry_ok).
  change (register_all empty_registry zu_int_builtin) with
    (zu_int_register_builtin_codecs empty_registry) in H. by rewrite builtin_registered in H.
Qed.

Lemma builtin_lookup v : In v zu_int_builtin -> zu_int_registry_lookup builtin_registry (vt_codec v) = Some v.
Proof. intros Hin. by apply (lookup_registered builtin_registry v builtin_ok). Qed.

(** A vtable whose entry points have the types and keep the promises the driver relies on. *)
Record vtable_well_typed (v : zu_codec_vtable) : Prop := {
  vwt_fields : vtable_typed v;
  vwt_flags : vt_flags v = Z.lor (Z.lor ZU_CAN_ENCODE ZU_CAN_DECODE) (Z.land (vt_flags v) ZU_CAN_FLUSH);
  vwt_decoder : codec_contract v;
  vwt_encoder : encoder_contract v;
  vwt_pointers : is_Some (vt_encoder_process v) /\ is_Some (vt_encoder_reset v) /\
    is_Some (vt_decoder_process v) /\ is_Some (vt_decoder_reset v);
}.

End builtins.

(** C16: the registry zukomp loads with is well typed.  Registering the seven built-in
    vtables into the empty registry succeeds and leaves exactly them, in order, under the
    registry's identity invariants; each has its fields in the range of its C types, both
    directions with their process and reset functions, and process functions that honour
    the cursor contract on every state and buffer; no constructor fails with a status that
    asks for more.  Each resolves in both directions by its identity, and by its name and
    its content-coding token. *)
Theorem builtin_registry_well_typed {mz : Miniz} {mz_ok : MinizOk} {zstd : Zstd}
    {zstd_ok : ZstdOk} {alloc : Allocator} {lz4 : Lz4} {lz4_ok : Lz4FrameOk} {block_ok : Lz4BlockOk} :
  zu_int_register_builtin_codecs empty_registry = (ZU_OK, builtin_registry) /\
  registry_ok builtin_registry /\ Forall vtable_well_typed zu_int_builtin /\
  constructors_final builtin_registry /\
  (forall v, In v zu_int_builtin ->
     zu_int_resolve builtin_registry (vt_codec v) ZU_CAN_ENCODE = Ok v /\
     zu_int_resolve builtin_registry (vt_codec v) ZU_CAN_DECODE = Ok v /\
     zu_codec_lookup builtin_registry (vt_name v) = vt_codec v /\
     forall t, tokens_clash (vt_content_encoding v) (Some t) = true ->
       zu_codec_from_content_encoding builtin_registry (Some t) = vt_codec v).
Proof.
  split; [exact builtin_registered|]. split; [exact builtin_ok|]. split; [|split].
  - pose proof builtin_decoders as Hd. pose proof builtin_encoders as He.
    unfold registry_contract in Hd. rewrite List.Forall_forall in Hd, He.
    apply List.Forall_forall. intros v Hin. constructor; [| |by apply Hd|by apply He|].
    + revert v Hin. apply List.Forall_forall. by apply builtin_forall; vm_compute.
    + revert v Hin. apply List.Forall_forall. by apply builtin_forall; vm_compute.
    + revert v Hin. apply List.Forall_forall. apply builtin_forall; split_and!; by eexists.
  - exact builtin_constructors.
  - intros v Hin. pose proof (builtin_lookup v Hin) as Hl. unfold zu_int_resolve. rewrite Hl.
    assert (Hf : has_flag (vt_flags v) ZU_CAN_ENCODE = true /\ has_flag (vt_flags v) ZU_CAN_DECODE = true).
    { revert v Hin Hl. intros v Hin _. revert v Hin. apply List.Forall_forall.
      apply builtin_forall; split; reflexivity. }
    destruct Hf as [-> ->]. split_and!; try done.
    + apply lookup_name_registered; [exact builtin_ok|done].
    + intros t. by apply lookup_token_registered; [exact builtin_ok|].
Qed.

(** ** The registry over the small libraries *)

Definition toy_builtin_registry : registry :=
  @builtin_registry toy_miniz toy_zstd (fun _ => true) toy_lz4.

Lemma builtin_registry_well_typed_witness :
  zu_codec_from_content_encoding toy_builtin_registry (Some "X-GZIP"%string) = ZU_CODEC_NONE /\
  zu_codec_from_content_encoding toy_builtin_registry (Some "GZip"%string) = ZU_CODEC_GZIP /\
  zu_codec_from_content_encoding toy_builtin_registry (Some "deflate"%string) = ZU_CODEC_ZLIB /\
  registry_ok toy_builtin_registry /\ constructors_final toy_builtin_registry.
Proof.
  do 3 (split; [vm_compute; reflexivity|]).
  pose proof (@builtin_registry_well_typed toy_miniz toy_miniz_ok toy_zstd toy_zstd_ok
    (fun _ => true) toy_lz4 toy_lz4_ok toy_block_ok) as (_ & Hok & _ & Hfin & _).
  split; [exact Hok|exact Hfin].
Defined.
