(* ===== verification/Session.v ===== *)
(** * Sessions: what driving a stream to its end means

    A session is a history of calls on one stream handle, seen through the bytes alone:
    what was taken and what was given, with no buffer, chunk or window in it.  It is the
    abstract specification the drive loops are refined against, for any process function
    that honours the cursor contract on the handles its client can hold. *)
From S2P Require Import Prelude Types ProcessLoop Registry Stream Identity StreamProps.

(** What the handles a client holds promise to a drive loop. *)
Class Drivable {H : Type} (P : H -> Prop)
    (process : H -> zu_buffer -> zu_flush -> zu_status * H * zu_buffer) : Prop :=
  drivable : forall h b f st h' b', P h -> buffer_ok b -> valid_flush f ->
    process h b f = (st, h', b') -> buffer_step b b' /\ P h'.

Section session.
Context {H : Type} (process : H -> zu_buffer -> zu_flush -> zu_status * H * zu_buffer).
Context (x : bytes).

(** Over the input [x]: the calls up to and including one that does not ask for more, with
    its status.  A call is told that the input is over when its window holds the rest of
    [x]; so are all that follow. *)
Inductive session (h0 : H) : zu_status -> H -> bytes -> bytes -> Prop :=
  | session_end fin h taken given b f st h' b' i o :
      ordered_run process x h0 fin h taken given ->
      buffer_ok b -> bytes_ok (src_bytes b) -> valid_flush f ->
      (fin = true -> f = ZU_FINISH) -> (f = ZU_FINISH -> taken ++ src_window b = x) ->
      process h b f = (st, h', b') -> is_progress st = false ->
      moved b b' i o ->
      session h0 st h' (taken ++ i) (given ++ o).

(** The calls up to and including one that was told the input is over, was left with
    nothing to write and still asked for input. *)
Inductive session_stuck (h0 : H) : H -> bytes -> bytes -> Prop :=
  | session_starved fin h taken given b h' b' i :
      ordered_run process x h0 fin h taken given ->
      buffer_ok b -> bytes_ok (src_bytes b) -> taken ++ src_window b = x ->
      process h b ZU_FINISH = (ZU_NEED_INPUT, h', b') ->
      moved b b' i [] ->
      session_stuck h0 h' (taken ++ i) given.

Lemma stuck_run h0 h taken given : session_stuck h0 h taken given -> codec_run process h0 h taken given.
Proof.
  destruct 1 as [fin h taken given b h' b' i Hr Hb Hs Hx E Hm]. rewrite <- (app_nil_r given).
  eapply run_call; eauto. by eapply ordered_codec_run.
Qed.

(** What a whole run may end with: the status of the call that ended the session, an
    internal error once the codec is stuck, or no memory for the output after some calls. *)
Inductive run_spec (h0 : H) : zu_status -> H -> bytes -> bytes -> Prop :=
  | spec_session st h taken given : session h0 st h taken given -> run_spec h0 st h taken given
  | spec_stuck h taken given : session_stuck h0 h taken given -> run_spec h0 ZU_ERR_INTERNAL h taken given
  | spec_memory h taken given :
      codec_run process h0 h taken given -> run_spec h0 ZU_ERR_MEMORY h taken given.

(** A run that reports the end is a session that ended. *)
Lemma run_spec_end h0 h taken given :
  run_spec h0 ZU_STREAM_END h taken given -> session h0 ZU_STREAM_END h taken given.
Proof. intros Hs. by inversion Hs; subst. Qed.

(** An invariant of the calls holds after the last one too. *)
Lemma session_inv (I : H -> bytes -> bytes -> Prop) (Q : zu_status -> H -> bytes -> bytes -> Prop)
    h0 st h taken given :
  (forall h1 taken1 given1, codec_run process h0 h1 taken1 given1 -> I h1 taken1 given1) ->
  (forall h1 taken1 given1 b f st1 h2 b2 i o,
     I h1 taken1 given1 -> buffer_ok b -> bytes_ok (src_bytes b) -> valid_flush f ->
     process h1 b f = (st1, h2, b2) -> moved b b2 i o -> Q st1 h2 (taken1 ++ i) (given1 ++ o)) ->
  session h0 st h taken given -> Q st h taken given.
Proof.
  intros Hi Hq. destruct 1. eapply Hq; eauto. by eapply Hi, ordered_codec_run.
Qed.

End session.

(** ** Codecs that end with their input

    [ended] is what their state says once the end was reached; it is reached only under
    ZU_FINISH, in a call that leaves nothing in its window.  A session of such a codec that
    ends has taken all of its input. *)
Section takes_all.
Context {S : Type} (process : S -> zu_buffer -> zu_flush -> zu_status * S * zu_buffer).

Definition ends_with_input (x : bytes) (s0 : S) (ended : S -> Prop) : Prop :=
  forall s taken given b f st s' b', codec_run process s0 s taken given -> buffer_ok b ->
    bytes_ok (src_bytes b) -> (f = ZU_FINISH -> avail_in b <= zlen x) -> process s b f = (st, s', b') ->
    ended s' \/ st = ZU_STREAM_END -> ended s \/ (f = ZU_FINISH /\ avail_in b' = 0).

Lemma ended_call x s0 ended fin s taken given b f st s' b' i o :
  ends_with_input x s0 ended -> codec_run process s0 s taken given -> buffer_ok b ->
  bytes_ok (src_bytes b) -> (fin = true -> f = ZU_FINISH) -> (f = ZU_FINISH -> taken ++ src_window b = x) ->
  (ended s -> fin = true /\ taken = x) ->
  process s b f = (st, s', b') -> moved b b' i o -> ended s' \/ st = ZU_STREAM_END ->
  is_finish f = true /\ taken ++ i = x.
Proof.
  intros He Hr Hb Hby Hfin Hall Hx E Hm Hend.
  assert (Hlen : f = ZU_FINISH -> avail_in b <= zlen x).
  { intros Ef. rewrite <- (Hall Ef), zlen_app, zlen_src_window by done. pose proof (zlen_nonneg taken). lia. }
  destruct (He _ _ _ _ _ _ _ _ Hr Hb Hby Hlen E Hend) as [Hs|[-> Hz] ].
  - destruct (Hx Hs) as [Ef ->]. rewrite (Hfin Ef). split; [done|].
    specialize (Hall (Hfin Ef)). rewrite <- (app_nil_r x) in Hall at 2. apply app_inv_head in Hall.
    destruct Hm as [_ Ht _]. rewrite Hall in Ht. symmetry in Ht. apply app_eq_nil in Ht as [-> _].
    by rewrite app_nil_r.
  - split; [done|]. pose proof (moved_ok _ _ _ _ Hb Hm) as Hb'. destruct Hm as [_ Ht _].
    rewrite <- (Hall eq_refl), Ht. pose proof (zlen_src_window b' Hb') as Hw.
    destruct (src_window b'); [by rewrite app_nil_r|]. rewrite zlen_cons in Hw.
    match goal with |- context [_ :: ?l] => pose proof (zlen_nonneg l) end. lia.
Qed.

Lemma session_takes_all x s0 ended s taken given :
  ends_with_input x s0 ended -> ~ ended s0 ->
  session process x s0 ZU_STREAM_END s taken given -> taken = x.
Proof.
  intros He H0 Hs. remember ZU_STREAM_END as st eqn:Est.
  destruct Hs as [fin s1 taken given b f st s2 b' i o Hr Hb Hby Hfl Hfin Hall E Hst Hm]. subst st.
  assert (Hinv : codec_run process s0 s1 taken given /\ (ended s1 -> fin = true /\ taken = x)).
  { revert Hr. apply (ordered_run_inv process (fun fin s taken given =>
      codec_run process s0 s taken given /\ (ended s -> fin = true /\ taken = x))).
    - split; [constructor|done].
    - intros fin1 s3 taken1 given1 b1 f1 st1 s4 b2 i1 o1 [Hr1 Hx1] Hb1 Hby1 Hfin1 Hall1 E1 Hst1 Hm1.
      split; [by eapply run_call|]. intros Hend.
      by eapply (ended_call x s0 ended fin1); eauto. }
  destruct Hinv as [Hr' Hx]. by eapply (ended_call x s0 ended fin); eauto.
Qed.

End takes_all.

(** ** Encoders and decoders can be driven *)

#[export] Instance encoder_drivable :
  Drivable (fun e => encoder_contract (enc_vtable e)) encoder_process.
Proof.
  intros e b f st e' b' He Hb _ E. destruct (encoder_process_step _ _ _ _ _ _ He Hb E) as [? Ev].
  by rewrite Ev.
Qed.

Lemma decoder_drivable {alloc : Allocator} reg :
  registry_contract reg -> Drivable (decoder_reachable reg) decoder_process.
Proof.
  intros Hreg d b f st d' b' Hd Hb Hf E. split; [|by eapply dr_process].
  eapply decoder_process_limits; [|by eapply reachable_limits|exact Hb|exact E].
  by eapply reachable_contract.
Qed.

(** ** From the driver to the codec

    A history of calls on a decoder is a history of calls on its codec's state: the
    driver hands every byte through, in a window it may have shrunk. *)

Lemma moved_window b b1 n i o :
  buffer_step (buf_set_dst_size b n) b1 ->
  moved b (buf_set_dst_size b1 (dst_size b)) i o -> moved (buf_set_dst_size b n) b1 i o.
Proof. intros Hs [_ Ht Hg]. by constructor. Qed.

Section decoder.
Context (v : zu_codec_vtable)
  (process : vt_state v -> zu_buffer -> zu_flush -> zu_status * vt_state v * zu_buffer).
Context (Hp : vt_decoder_process v = Some process) (Hc : CursorContract process).
Context (o : zu_decoder_opts) (Ho : decoder_opts_fit o).

(** The codec call behind a driver call that did not fail. *)
Lemma decoder_call_codec s tin tout b f st d' b' i w :
  buffer_ok b -> decoder_process (mk_decoder v s o false tin tout) b f = (st, d', b') ->
  is_progress st || status_eqb st ZU_STREAM_END = true -> moved b b' i w ->
  exists s' given b1 tin' tout',
    d' = mk_decoder v s' o (status_eqb st ZU_STREAM_END) tin' tout' /\
    process s given f = (st, s', b1) /\ buffer_ok given /\ src_bytes given = src_bytes b /\
    moved given b1 i w /\ valid_flush f /\ src_window given = src_window b.
Proof.
  intros Hb E Hst Hm. destruct (flush_cases f) as [Hf|[n ->]].
  2:{ rewrite invalid_flush_idle in E by done. by injection E as <- _ _. }
  pose proof (decoder_process_view _ _ _ _ _ _ Hb Hf E) as Hcall. clear E.
  remember (mk_decoder v s o false tin tout) as d eqn:Ed.
  destruct Hcall as [st0 Hfin Hlive|process0 allowance capped given st0 s' b1 Hfin Hp0 Hw Hproc
    bb produced tin1 tout1]; subst d; cbn in *.
  - destruct (Hlive eq_refl) as [->|[-> _] ]; by vm_compute in Hst.
  - rewrite Hp in Hp0. injection Hp0 as <-.
    destruct (verdict_success _ _ _ _ _ _ _ _ Hst) as (Heq & _). cbn in Heq. rewrite !Heq in *.
    destruct (decoder_window_cases o tout b) as [Ew|(c & cst & rem & Hce & Hrem & Hlt & Ew)];
      rewrite Hw in Ew; injection Ew as -> -> ->.
    + exists s', b, b1, tin1, tout1. by split_and!.
    + pose proof (ceiling_bounds _ _ _ Ho Hce) as (Hcr & _).
      assert (Hg : buffer_ok (buf_set_dst_size b (dst_pos b + rem))).
      { apply window_buffer_ok; [done|]. subst rem. revert Hlt.
        destruct (Z.ltb_spec tout c); lia. }
      exists s', (buf_set_dst_size b (dst_pos b + rem)), b1, tin1, tout1. split_and!; try done.
      apply moved_window; [|done]. by eapply Hc.
Qed.

Lemma decoder_ordered_codec x s0 fin d taken given :
  ordered_run decoder_process x (mk_decoder v s0 o false 0 0) fin d taken given ->
  exists s tin tout, d = mk_decoder v s o false tin tout /\ ordered_run process x s0 fin s taken given.
Proof.
  apply (ordered_run_inv decoder_process (fun fin d taken given =>
    exists s tin tout, d = mk_decoder v s o false tin tout /\ ordered_run process x s0 fin s taken given)).
  { exists s0, 0, 0. split; [done|constructor]. }
  intros fin1 d1 taken1 given1 b f st d' b' i w (s & tin & tout & -> & Hr) Hb Hs Hfin Hx E Hst Hm.
  destruct (decoder_call_codec _ _ _ _ _ _ _ _ _ _ Hb E ltac:(by rewrite Hst) Hm)
    as (s' & win & b1 & tin' & tout' & -> & Ep & Hw & Es & Hm' & _ & Ewin).
  exists s', tin', tout'. split.
  - by destruct st.
  - eapply ordered_call; eauto; by rewrite ?Es, ?Ewin.
Qed.

Lemma decoder_run_codec s0 d taken given :
  codec_run decoder_process (mk_decoder v s0 o false 0 0) d taken given ->
  exists s tin tout, d = mk_decoder v s o false tin tout /\ codec_run process s0 s taken given.
Proof.
  apply (codec_run_inv decoder_process (fun d taken given =>
    exists s tin tout, d = mk_decoder v s o false tin tout /\ codec_run process s0 s taken given)).
  { exists s0, 0, 0. split; [done|constructor]. }
  intros d1 taken1 given1 b f st d' b' i w (s & tin & tout & -> & Hr) Hb Hs E Hst Hm.
  destruct (decoder_call_codec _ _ _ _ _ _ _ _ _ _ Hb E ltac:(by rewrite Hst) Hm)
    as (s' & win & b1 & tin' & tout' & -> & Ep & Hw & Es & Hm' & _ & Ewin).
  exists s', tin', tout'. split; [by destruct st|]. eapply run_call; eauto. by rewrite Es.
Qed.

(** A decoder session that ends is a session of the codec that ends. *)
Lemma decoder_session_codec x s0 d taken given :
  session decoder_process x (mk_decoder v s0 o false 0 0) ZU_STREAM_END d taken given ->
  exists s, session process x s0 ZU_STREAM_END s taken given.
Proof.
  intros Hs. remember ZU_STREAM_END as st eqn:Est.
  destruct Hs as [fin d1 taken given b f st d' b' i w Hr Hb Hsrc Hf Hfin Hx E Hst Hm]. subst st.
  destruct (decoder_ordered_codec _ _ _ _ _ _ Hr) as (s & tin & tout & -> & Hr').
  destruct (decoder_call_codec _ _ _ _ _ _ _ _ _ _ Hb E eq_refl Hm)
    as (s' & win & b1 & tin' & tout' & _ & Ep & Hw & Es & Hm' & _ & Ewin).
  exists s'. eapply session_end; eauto; by rewrite ?Es, ?Ewin.
Qed.

(** The driver's count is the number of bytes given, when a limit needs it to be. *)
Lemma decoder_run_counts s0 d taken given :
  codec_run decoder_process (mk_decoder v s0 o false 0 0) d taken given ->
  limits_ok d /\ dec_opts d = o /\ dec_vtable d = v /\
  (decoder_ceiling o <> None -> dec_total_out d = zlen given).
Proof.
  apply (codec_run_inv decoder_process (fun d taken given => limits_ok d /\ dec_opts d = o /\
    dec_vtable d = v /\ (decoder_ceiling o <> None -> dec_total_out d = zlen given))).
  { destruct Ho as (? & ? & ? & ? & ? & ?). split_and!; try done. constructor; cbn; try lia; done. }
  intros d1 taken1 given1 b f st d' b' i w (Hl & Eo & Ev & Ht) Hb Hs E Hst Hm.
  assert (Hcv : codec_contract (dec_vtable d1)) by (rewrite Ev; unfold codec_contract; by rewrite Hp).
  destruct (decoder_process_limits _ _ _ _ _ _ Hcv Hl Hb E) as (Hl' & _ & Eo' & Ev' & Ht').
  split_and!; [done|congruence|congruence|]. intros Hce. rewrite zlen_app, <- Ht by done.
  rewrite Ht' by (by rewrite Eo). destruct (moved_counts _ _ _ _ Hb Hm) as [_ Hc'].
  destruct Hm as [ [_ _ Ed _ _ _] _ _]. unfold avail_out in Hc'. rewrite Ed in Hc'. lia.
Qed.

(** A decoder session that ends is within its limits, and exactly the expected size. *)
Lemma decoder_session_limits x s0 d taken given :
  session decoder_process x (mk_decoder v s0 o false 0 0) ZU_STREAM_END d taken given ->
  (do_max_output o <> 0 -> zlen given <= do_max_output o) /\
  (has_expected o = true -> zlen given = do_expected_size o).
Proof.
  intros Hs. remember ZU_STREAM_END as st eqn:Est.
  destruct Hs as [fin d1 taken given b f st d' b' i w Hr%ordered_codec_run Hb Hsrc Hf _ _ E Hst Hm].
  subst st.
  destruct (decoder_run_counts _ _ _ _ Hr) as (Hl & Eo & Ev & Ht).
  assert (Hcv : codec_contract (dec_vtable d1)) by (rewrite Ev; unfold codec_contract; by rewrite Hp).
  destruct (decoder_process_limits _ _ _ _ _ _ Hcv Hl Hb E) as (Hl' & _ & Eo' & _ & Ht').
  assert (Hz : decoder_ceiling o <> None -> zlen (given ++ w) = dec_total_out d').
  { intros Hce. rewrite Ht', zlen_app, <- Ht by (by rewrite ?Eo).
    destruct (moved_counts _ _ _ _ Hb Hm) as [_ Hc'].
    destruct Hm as [ [_ _ Ed _ _ _] _ _]. unfold avail_out in Hc'. rewrite Ed in Hc'. lia. }
  split.
  - intros Hne. rewrite Hz by (by apply ceiling_some_max). rewrite Eo in Eo'.
    pose proof (lo_max _ Hl') as Hm'. rewrite Eo' in Hm'. auto.
  - intros Hex. rewrite Hz by (by apply ceiling_some_expected).
    destruct (decoder_run_codec _ _ _ _ Hr) as (s & tin & tout & -> & _).
    pose proof (decoder_process_view _ _ _ _ _ _ Hb Hf E) as Hcall. cbn [dec_opts] in Eo.
    remember (mk_decoder v s o false tin tout) as d1 eqn:Ed1. remember ZU_STREAM_END as st eqn:Est.
    destruct Hcall as [st0 _ Hlive|process0 allowance capped win st0 s' b1 Hfin Hp0 Hw Hproc
      bb produced tin1 tout1].
    { subst d1 st0. cbn in Hlive. by destruct (Hlive eq_refl) as [?|[? _] ]. }
    assert (Hor : forall a, a = ZU_STREAM_END -> is_progress a || status_eqb a ZU_STREAM_END = true)
      by (by intros a ->).
    destruct (verdict_success _ _ _ _ _ _ _ _ (Hor _ Est)) as (_ & _ & _ & _ & Hend).
    destruct (Hend Est) as [Hx _]. subst d1. by apply Hx.
Qed.

End decoder.

(** The same for an encoder, whose window the driver leaves alone. *)
Section encoder.
Context (v : zu_codec_vtable)
  (process : vt_state v -> zu_buffer -> zu_flush -> zu_status * vt_state v * zu_buffer).
Context (Hp : vt_encoder_process v = Some process) (o : zu_encoder_opts).

Lemma encoder_call_codec s b f st e' b' :
  buffer_ok b -> encoder_process (mk_encoder v s o false) b f = (st, e', b') ->
  is_progress st || status_eqb st ZU_STREAM_END = true ->
  exists s', e' = mk_encoder v s' o (status_eqb st ZU_STREAM_END) /\
    process s b f = (st, s', b').
Proof.
  intros Hb. unfold encoder_process. rewrite check_buffer_ok by done.
  destruct (zu_int_check_flush f) eqn:Ef; try (destruct f; discriminate Ef);
    try (intros [= <- _ _] Hst; by vm_compute in Hst).
  cbn. destruct (is_flush f && _); [intros [= <- _ _] Hst; by vm_compute in Hst|].
  rewrite Hp. destruct (process s b f) as [ [st0 s'] b1]. intros [= <- <- <-] Hst.
  exists s'. split; [|done]. by destruct st0.
Qed.

Lemma encoder_ordered_codec x s0 fin e taken given :
  ordered_run encoder_process x (mk_encoder v s0 o false) fin e taken given ->
  exists s, e = mk_encoder v s o false /\ ordered_run process x s0 fin s taken given.
Proof.
  apply (ordered_run_inv encoder_process (fun fin e taken given =>
    exists s, e = mk_encoder v s o false /\ ordered_run process x s0 fin s taken given)).
  { exists s0. split; [done|constructor]. }
  intros fin1 e1 taken1 given1 b f st e' b' i w (s & -> & Hr) Hb Hs Hfin Hx E Hst Hm.
  destruct (encoder_call_codec _ _ _ _ _ _ Hb E ltac:(by rewrite Hst)) as (s' & -> & Ep).
  exists s'. split; [by destruct st|]. by eapply ordered_call.
Qed.

Lemma encoder_session_codec x s0 e taken given :
  session encoder_process x (mk_encoder v s0 o false) ZU_STREAM_END e taken given ->
  exists s, session process x s0 ZU_STREAM_END s taken given.
Proof.
  intros Hs. remember ZU_STREAM_END as st eqn:Est.
  destruct Hs as [fin e1 taken given b f st e' b' i w Hr Hb Hsrc Hf Hfin Hx E Hst Hm]. subst st.
  destruct (encoder_ordered_codec _ _ _ _ _ _ Hr) as (s & -> & Hr').
  destruct (encoder_call_codec _ _ _ _ _ _ Hb E eq_refl) as (s' & _ & Ep).
  exists s'. by eapply session_end.
Qed.

End encoder.

(** ** New handles, seen through the codec *)

Lemma decoder_new_codec {alloc : Allocator} reg v o d :
  decoder_opts_fit o -> do_struct_size o = sizeof_decoder_opts ->
  zu_int_registry_lookup reg (do_codec o) = Some v ->
  zu_decoder_new reg true (Some (decoder_opts_bytes o)) = Ok d ->
  exists new s0, vt_decoder_new v = Some new /\ new o = Ok s0 /\ d = mk_decoder v s0 o false 0 0.
Proof.
  intros Hfit Hs Hl. unfold zu_decoder_new. cbn [negb].
  rewrite (decoder_opts_copied o Hfit Hs), decoder_opts_roundtrip by done.
  destruct (negb (status_eqb _ _)); [done|]. unfold zu_int_resolve. rewrite Hl.
  destruct (has_flag (vt_flags v) ZU_CAN_DECODE); cbn [mbind result_bind]; [|done].
  destruct (negb (alloc_ok req_decoder)); [done|].
  destruct (vt_decoder_new v) as [new|]; [|done].
  destruct (new o) as [s|] eqn:En; cbn [mbind result_bind]; [|done]. intros [= <-]. eauto.
Qed.

Lemma decoder_new_found {alloc : Allocator} reg o d :
  decoder_opts_fit o -> do_struct_size o = sizeof_decoder_opts ->
  zu_decoder_new reg true (Some (decoder_opts_bytes o)) = Ok d ->
  exists v, zu_int_registry_lookup reg (do_codec o) = Some v.
Proof.
  intros Hfit Hs. unfold zu_decoder_new. cbn [negb].
  rewrite (decoder_opts_copied o Hfit Hs), decoder_opts_roundtrip by done.
  destruct (negb (status_eqb _ _)); [done|]. unfold zu_int_resolve.
  destruct (zu_int_registry_lookup reg (do_codec o)) as [v|]; [by exists v|done].
Qed.

Lemma encoder_new_codec {alloc : Allocator} reg v o e :
  encoder_opts_fit o -> eo_struct_size o = sizeof_encoder_opts ->
  zu_int_registry_lookup reg (eo_codec o) = Some v ->
  zu_encoder_new reg true (Some (encoder_opts_bytes o)) = Ok e ->
  exists new s0, vt_encoder_new v = Some new /\ new o = Ok s0 /\ e = mk_encoder v s0 o false.
Proof.
  intros Hfit Hs Hl. unfold zu_encoder_new. cbn [negb].
  assert (Hz : opts_struct_size (encoder_opts_bytes o) = 16).
  { transitivity (eo_struct_size (encoder_opts_of (encoder_opts_bytes o))); [done|].
    by rewrite encoder_opts_roundtrip, Hs. }
  rewrite encoder_opts_of_copy by (rewrite ?Hz; unfold zlen; rewrite ?length_encoder_opts_bytes; lia).
  rewrite encoder_opts_roundtrip by done. cbv zeta.
  replace (mk_encoder_opts 16 (eo_codec o) (eo_level o) (eo_flags o)) with o
    by (destruct o; cbn in *; by subst).
  destruct (_ <? _); [done|]. unfold zu_int_resolve. rewrite Hl.
  destruct (has_flag (vt_flags v) ZU_CAN_ENCODE); cbn [mbind result_bind]; [|done].
  destruct (zu_int_check_level v (eo_level o)); cbn [mbind result_bind]; [|done].
  destruct (negb (alloc_ok req_encoder)); [done|].
  destruct (vt_encoder_new v) as [new|]; [|done].
  destruct (new o) as [s|] eqn:En; cbn [mbind result_bind]; [|done]. intros [= <-]. eauto.
Qed.
