(* ===== verification/Whole.v ===== *)
(** * The whole-buffer drive loop: src/zu_whole.c

    One loop behind komp_compress(), komp_decompress() and the stream harness: it feeds
    a stream handle slices of the input, gives it windows of a growing sink, and stops
    when the codec ends, fails or is stuck.  [r_world] is what R and malloc keep about
    sinks: the live blocks, the external pointers that own them and the leak counter;
    an interrupt leaves through [longjmp], after which only finalizers run.  The loop
    is a function with fuel: one unit per call of the stream driver. *)
From stdpp Require Import gmap.
From S2P Require Import Prelude Types SizeArith Registry Stream.

(** ** The sink and its owner *)

Record zu_int_outbuf := mk_outbuf {
  ob_owner : option Z;            (** the external pointer, once made *)
  ob_buf : option (Z * bytes);    (** address and contents of the block *)
  ob_size : Z;
  ob_used : Z;
  ob_consumed : Z;
}.

(** Live malloc'd sink blocks, the address the next block gets, what each external
    pointer holds, the counter [zu_int_outbuf_live], and whether a block that was not
    live was ever freed. *)
Record r_world := mk_world {
  w_blocks : gset Z;
  w_next : Z;
  w_ptrs : gmap Z (option Z);
  w_live : Z;
  w_fault : bool;
}.

Definition w_free (w : r_world) (a : Z) : r_world :=
  mk_world (w_blocks w ∖ {[a]}) (w_next w) (w_ptrs w) (w_live w)
    (w_fault w || bool_decide (a ∉ w_blocks w)).

Definition w_set_ptr (w : r_world) (p : Z) (a : option Z) : r_world :=
  mk_world (w_blocks w) (w_next w) (<[p := a]> (w_ptrs w)) (w_live w) (w_fault w).

Definition w_count (w : r_world) (d : Z) : r_world :=
  mk_world (w_blocks w) (w_next w) (w_ptrs w) (w_live w + d) (w_fault w).

(** A fresh block, at an address no block had before. *)
Definition w_alloc (w : r_world) : Z * r_world :=
  (w_next w, mk_world ({[w_next w]} ∪ w_blocks w) (w_next w + 1) (w_ptrs w) (w_live w)
               (w_fault w)).

(** [R_ExternalPtrAddr]. *)
Definition R_ExternalPtrAddr (w : r_world) (p : Z) : option Z :=
  default None (w_ptrs w !! p).

Definition zu_int_outbuf_live_count (w : r_world) : Z := w_live w.

Definition zu_int_outbuf_finalizer (w : r_world) (ptr : Z) : r_world :=
  match R_ExternalPtrAddr w ptr with
  | None => w
  | Some p => w_set_ptr (w_count (w_free w p) (-1)) ptr None
  end.

(** [R_MakeExternalPtr(NULL, ...)] makes a pointer no earlier one is equal to. *)
Definition zu_int_outbuf_owner (w : r_world) (o : zu_int_outbuf) : Z * r_world * zu_int_outbuf :=
  let ptr := fresh (dom (w_ptrs w)) in
  (ptr, w_set_ptr w ptr None, mk_outbuf (Some ptr) None 0 0 (ob_consumed o)).

Definition zu_int_outbuf_release (w : r_world) (o : zu_int_outbuf) : r_world * zu_int_outbuf :=
  let w1 := match ob_owner o with Some ptr => w_set_ptr w ptr None | None => w end in
  let w2 := match ob_buf o with Some (a, _) => w_count (w_free w1 a) (-1) | None => w1 end in
  (w2, mk_outbuf (ob_owner o) None 0 (ob_used o) (ob_consumed o)).

(** What malloc'd memory holds before it is written. *)
Class HeapBytes := heap_byte : nat -> Z.

Definition heap_junk `{HeapBytes} (n : Z) : bytes :=
  heap_byte <$> List.seq 0 (Z.to_nat n).

Section sink.
Context {alloc : Allocator} {heap : HeapBytes}.

(** [realloc(old, n)]: a new block with the old contents in front; the old one is gone. *)
Definition sink_realloc (w : r_world) (old : option (Z * bytes)) (n : Z) :
    r_world * (Z * bytes) :=
  let w1 := match old with Some (a, _) => w_free w a | None => w end in
  let '(a', w2) := w_alloc w1 in
  let kept := take (Z.to_nat n) (match old with Some (_, m) => m | None => [] end) in
  (w2, (a', kept ++ heap_junk (n - zlen kept))).

Definition zu_int_reserve (w : r_world) (o : zu_int_outbuf) (extra : Z) :
    zu_status * r_world * zu_int_outbuf :=
  match ob_owner o with
  | None => (ZU_ERR_INVALID_ARGUMENT, w, o)
  | Some owner =>
      match zu_int_add (ob_used o) extra true with
      | Err st => (st, w, o)
      | Ok needed =>
          if needed <=? ob_size o then (ZU_OK, w, o)
          else
            match zu_int_grow (ob_size o) (needed - ob_size o) true with
            | Err st => (st, w, o)
            | Ok next =>
                if negb (alloc_ok (req_bytes next)) then (ZU_ERR_MEMORY, w, o)
                else
                  let '(w1, bigger) := sink_realloc w (ob_buf o) next in
                  let w2 := if is_null (ob_buf o) then w_count w1 1 else w1 in
                  (ZU_OK, w_set_ptr w2 owner (Some bigger.1),
                   mk_outbuf (ob_owner o) (Some bigger) next (ob_used o) (ob_consumed o))
            end
      end
  end.

End sink.

(** ** The loop *)

Record zu_int_run_opts := mk_run_opts {
  ro_src : option bytes;
  ro_n : Z;
  ro_encode : bool;
  ro_codec : zu_codec;
  ro_level : Z;
  ro_max_output : Z;
  ro_max_ratio : Z;
  ro_dec_flags : Z;
  ro_expected_size : Z;
  ro_in_chunk : Z;
  ro_out_chunk : Z;
  ro_flush_every : Z;
}.

Definition ZU_INT_INTERRUPT_EVERY : Z := 64.

(** Which calls of [R_CheckUserInterrupt] find an interrupt pending, by call count. *)
Class Interrupts := interrupted : Z -> bool.

Section drive.
Context {H : Type} (process : H -> zu_buffer -> zu_flush -> zu_status * H * zu_buffer).
Context {alloc : Allocator} {heap : HeapBytes} {ints : Interrupts}.

Record drive := mk_drive {
  dr_handle : H;
  dr_buf : zu_buffer;
  dr_fed : Z;
  dr_calls : Z;
  dr_out : zu_int_outbuf;
  dr_world : r_world;
}.

(** How the loop is left: [break] with a status, or through an interrupt. *)
Inductive drive_exit :=
  | drive_break (st : zu_status)
  | drive_longjmp.

(** [buf.src = r->src + fed; ...]: the next input slice, once the last one is spent. *)
Definition whole_refill (r : zu_int_run_opts) (buf : zu_buffer) (fed : Z) : zu_buffer * Z :=
  if (src_pos buf =? src_size buf) && (fed <? ro_n r) then
    let take := ro_n r - fed in
    let take := if take >? ro_in_chunk r then ro_in_chunk r else take in
    (mk_buffer ((fun m => ptr_add m fed) <$> ro_src r) take 0
       (dst buf) (dst_size buf) (dst_pos buf), fed + take)
  else (buf, fed).

Definition whole_last (r : zu_int_run_opts) (fed : Z) : bool := fed >=? ro_n r.

Definition whole_flush (r : zu_int_run_opts) (fed calls : Z) : zu_flush :=
  let last := whole_last r fed in
  let flush := if last then ZU_FINISH else ZU_RUN in
  if negb last && (ro_flush_every r >? 0) && (u64 (calls + 1) mod ro_flush_every r =? 0)
  then ZU_FLUSH else flush.

(** [buf.dst = out->buf + out->used; buf.dst_size = r->out_chunk; buf.dst_pos = 0]. *)
Definition whole_window (r : zu_int_run_opts) (out : zu_int_outbuf) (buf : zu_buffer) : zu_buffer :=
  mk_buffer (src buf) (src_size buf) (src_pos buf)
    ((fun b => ptr_add b.2 (ob_used out)) <$> ob_buf out) (ro_out_chunk r) 0.

(** What the codec wrote through [buf.dst] is in the sink's block. *)
Definition whole_store (out : zu_int_outbuf) (buf : zu_buffer) : zu_int_outbuf :=
  mk_outbuf (ob_owner out)
    ((fun b => (b.1, take (Z.to_nat (ob_used out)) b.2 ++ default [] (dst buf))) <$> ob_buf out)
    (ob_size out) (u64 (ob_used out + dst_pos buf)) (ob_consumed out).

Definition whole_round (r : zu_int_run_opts) (s : drive) : option drive_exit * drive :=
  let '(buf, fed) := whole_refill r (dr_buf s) (dr_fed s) in
  let last := whole_last r fed in
  let flush := whole_flush r fed (dr_calls s) in
  let '(st, w, out) := zu_int_reserve (dr_world s) (dr_out s) (ro_out_chunk r) in
  if negb (status_eqb st ZU_OK)
  then (Some (drive_break st), mk_drive (dr_handle s) buf fed (dr_calls s) out w)
  else
    let '(st, h, buf) := process (dr_handle s) (whole_window r out buf) flush in
    let s' := mk_drive h buf fed (u64 (dr_calls s + 1)) (whole_store out buf) w in
    if status_eqb st ZU_STREAM_END then (Some (drive_break st), s')
    else if negb (is_progress st) then (Some (drive_break st), s')
    else if (dst_pos buf =? 0) && last && status_eqb st ZU_NEED_INPUT
    then (Some (drive_break ZU_ERR_INTERNAL), s')
    else if (u64 (dr_calls s + 1) mod ZU_INT_INTERRUPT_EVERY =? 0) &&
            interrupted (u64 (dr_calls s + 1))
    then (Some drive_longjmp, s')
    else (None, s').

(** [None] is "out of fuel". *)
Fixpoint whole_loop (r : zu_int_run_opts) (fuel : nat) (s : drive) :
    option (drive_exit * drive) :=
  match fuel with
  | O => None
  | S fuel' =>
      match whole_round r s with
      | (Some e, s') => Some (e, s')
      | (None, s') => whole_loop r fuel' s'
      end
  end.

(** The state before the loop: a zeroed buffer and nothing fed. *)
Definition drive_start (h : H) (w : r_world) (out : zu_int_outbuf) : drive :=
  mk_drive h (mk_buffer None 0 0 None 0 0) 0 0 out w.

(** [out->consumed = fed - (buf.src_size - buf.src_pos)]. *)
Definition whole_consumed (s : drive) : Z :=
  u64 (dr_fed s - u64 (src_size (dr_buf s) - src_pos (dr_buf s))).

End drive.
Arguments drive H : clear implicits.

(** ** The entry point *)

(** The stream handle a run holds: [enc] or [dec], the other being NULL. *)
Inductive stream_handle :=
  | handle_enc (e : zu_encoder)
  | handle_dec (d : zu_decoder).

Definition handle_free (h : stream_handle) : list release :=
  match h with
  | handle_enc e => zu_encoder_free (Some e)
  | handle_dec d => zu_decoder_free (Some d)
  end.

(** The guard's finalizer, either direction: what it frees and what the external
    pointer holds afterwards. *)
Definition zu_int_encoder_finalizer (ptr : option stream_handle) :
    list release * option stream_handle :=
  match ptr with
  | None => ([], None)
  | Some h => (handle_free h, None)
  end.
Definition zu_int_decoder_finalizer := zu_int_encoder_finalizer.

(** [wr_status] is [None] when the call left through an interrupt; [wr_guard] is what
    the guard still holds and [wr_freed] what the call itself freed. *)
Record whole_result := mk_whole {
  wr_status : option zu_status;
  wr_out : zu_int_outbuf;
  wr_world : r_world;
  wr_guard : option stream_handle;
  wr_freed : list release;
}.

Definition run_encoder_opts (r : zu_int_run_opts) : zu_encoder_opts :=
  mk_encoder_opts sizeof_encoder_opts (ro_codec r) (ro_level r) 0.

Definition run_decoder_opts (r : zu_int_run_opts) : zu_decoder_opts :=
  mk_decoder_opts sizeof_decoder_opts (ro_codec r) (ro_max_output r) (ro_max_ratio r)
    (ro_dec_flags r) (ro_expected_size r).

(** What follows the loop on either exit. *)
Definition whole_finish {H} (handle : H -> stream_handle) (e : drive_exit) (s : drive H) :
    whole_result :=
  let out := dr_out s in
  match e with
  | drive_break st =>
      mk_whole (Some st)
        (mk_outbuf (ob_owner out) (ob_buf out) (ob_size out) (ob_used out) (whole_consumed s))
        (dr_world s) None (handle_free (handle (dr_handle s)))
  | drive_longjmp =>
      mk_whole None out (dr_world s) (Some (handle (dr_handle s))) []
  end.

Section run_whole.
Context {alloc : Allocator} {heap : HeapBytes} {ints : Interrupts}.

(** One direction: make the handle, drive it, finish. *)
Definition whole_drive {H} (new : result H) (handle : H -> stream_handle)
    (process : H -> zu_buffer -> zu_flush -> zu_status * H * zu_buffer)
    (fuel : nat) (r : zu_int_run_opts) (w : r_world) (out : zu_int_outbuf) :
    option whole_result :=
  match new with
  | Err st => Some (mk_whole (Some st) out w None [])
  | Ok h =>
      match whole_loop process r fuel (drive_start h w out) with
      | None => None
      | Some (e, s) => Some (whole_finish handle e s)
      end
  end.

Definition zu_int_run_whole (reg : registry) (fuel : nat) (r : option zu_int_run_opts)
    (w : r_world) (out : option zu_int_outbuf) : option whole_result :=
  match r, out with
  | Some r, Some out =>
      if (ro_in_chunk r =? 0) || (ro_out_chunk r =? 0)
      then Some (mk_whole (Some ZU_ERR_INVALID_ARGUMENT) out w None [])
      else if ro_encode r
      then whole_drive (zu_encoder_new reg true (Some (encoder_opts_bytes (run_encoder_opts r))))
             handle_enc encoder_process fuel r w out
      else whole_drive (zu_decoder_new reg true (Some (decoder_opts_bytes (run_decoder_opts r))))
             handle_dec decoder_process fuel r w out
  | _, _ =>
      Some (mk_whole (Some ZU_ERR_INVALID_ARGUMENT)
              (default (mk_outbuf None None 0 0 0) out) w None [])
  end.

End run_whole.
