(* ===== verification/WholeProps.v ===== *)
(** * Theorems about the whole-buffer drive loop

    The sink: its bounds, what a reservation preserves, and that its block is freed
    exactly once however the call ends.  The loop: it refines a session, a description
    of a run in which no chunk size appears; and it ends. *)
From stdpp Require Import gmap.
From S2P Require Import Prelude Types SizeArith ProcessLoop Registry Stream Identity StreamProps Session Whole.

(** ** The sink *)

Definition sink_bytes (o : zu_int_outbuf) : bytes := default [] (snd <$> ob_buf o).

(** What the sink holds so far. *)
Definition sink_written (o : zu_int_outbuf) : bytes := sub (sink_bytes o) 0 (ob_used o).

Record sink_room (o : zu_int_outbuf) : Prop := {
  sr_owner : is_Some (ob_owner o);
  sr_size : ob_size o = zlen (sink_bytes o);
  sr_used : 0 <= ob_used o <= ob_size o;
  sr_max : ob_size o <= SIZE_MAX;
}.

Section reserve.
Context {alloc : Allocator} {heap : HeapBytes}.

Lemma zlen_heap_junk n : 0 <= n -> zlen (heap_junk n) = n.
Proof. intros. unfold heap_junk, zlen. rewrite length_fmap, length_seq. lia. Qed.

(** The block after [realloc] has the asked size and the old bytes in front. *)
Lemma sink_realloc_spec w old n w' a m :
  zlen (default [] (snd <$> old)) <= n ->
  sink_realloc w old n = (w', (a, m)) ->
  zlen m = n /\ take (length (default [] (snd <$> old))) m = default [] (snd <$> old).
Proof.
  unfold sink_realloc, w_alloc. intros Hle.
  set (p := default [] (snd <$> old)) in *.
  assert (Ep : match old with Some (_, m0) => m0 | None => [] end = p) by (subst p; by destruct old as [ [] |]).
  rewrite Ep. pose proof (zlen_nonneg p). intros [= _ _ <-].
  assert (Et : take (Z.to_nat n) p = p) by (apply take_ge; unfold zlen in *; lia).
  rewrite Et, zlen_app, zlen_heap_junk by lia. split; [lia|]. by rewrite take_app_length.
Qed.

(** What a reservation that has to grow the block does. *)
Inductive sink_grown (w : r_world) (o : zu_int_outbuf) : r_world -> zu_int_outbuf -> Prop :=
  | sg_grown p next w1 b :
      ob_owner o = Some p -> ob_size o <= next ->
      sink_realloc w (ob_buf o) next = (w1, b) ->
      sink_grown w o
        (w_set_ptr (if is_null (ob_buf o) then w_count w1 1 else w1) p (Some b.1))
        (mk_outbuf (ob_owner o) (Some b) next (ob_used o) (ob_consumed o)).

(** A reservation either makes room, growing the block when it must, or changes nothing. *)
Lemma reserve_cases w o extra st w' o' :
  sink_room o -> is_size extra -> zu_int_reserve w o extra = (st, w', o') ->
  (st = ZU_ERR_MEMORY /\ w' = w /\ o' = o) \/
  (st = ZU_OK /\ is_size (ob_size o') /\ ob_used o + extra <= ob_size o' /\
   ((w' = w /\ o' = o) \/ sink_grown w o w' o')).
Proof.
  intros [ [p Ep] Hsz Hu Hmax] Hex. unfold zu_int_reserve. rewrite Ep.
  assert (Hused : is_size (ob_used o)) by (unfold is_size; lia).
  destruct (zu_int_add (ob_used o) extra true) as [needed|st0] eqn:Ea.
  2:{ intros [= <- <- <-]. left. destruct (Z.le_gt_cases (ob_used o + extra) SIZE_MAX).
      - by rewrite zu_int_add_ok in Ea.
      - rewrite zu_int_add_overflow in Ea by lia. by injection Ea as <-. }
  apply zu_int_add_inv in Ea as [-> Hn]; [|done..].
  destruct (Z.leb_spec (ob_used o + extra) (ob_size o)).
  { intros [= <- <- <-]. right. unfold is_size in *. split_and!; try done; try lia. by left. }
  assert (Hcur : is_size (ob_size o)) by (unfold is_size in *; lia).
  assert (Hgap : is_size (ob_used o + extra - ob_size o)) by (unfold is_size in *; lia).
  destruct (zu_int_grow_cases _ _ Hcur Hgap) as [ [Hle ->]|[Hgt ->] ].
  2:{ intros [= <- <- <-]. by left. }
  set (next := Z.max ZU_INT_MIN_BUFFER _). intros E.
  assert (Hnext : ob_used o + extra <= next /\ is_size next).
  { subst next. unfold is_size, ZU_INT_MIN_BUFFER, SIZE_MAX in *.
    destruct (Z.leb_spec (2 * ob_size o) (2 ^ 64 - 1)); lia. }
  revert E. destruct (alloc_ok (req_bytes next)); cbn [negb]; [|intros [= <- <- <-]; by left].
  destruct (sink_realloc w (ob_buf o) next) as [w1 b] eqn:Er. intros [= <- <- <-].
  right. split_and!; try done; try apply Hnext. right. rewrite <- Ep.
  apply sg_grown; [done|lia|done].
Qed.

Lemma grown_room w o w' o' :
  sink_room o -> sink_grown w o w' o' -> is_size (ob_size o') ->
  sink_room o' /\ ob_owner o' = ob_owner o /\ ob_used o' = ob_used o /\
  ob_consumed o' = ob_consumed o /\ sink_written o' = sink_written o.
Proof.
  intros [Ho Hsz Hu Hmax] Hg Hs. destruct Hg as [p next w1 [a m] Ep Hle Er]. cbn in *.
  unfold sink_bytes in Hsz. rewrite Hsz in Hle.
  destruct (sink_realloc_spec _ _ _ _ _ _ Hle Er) as [Hm Ht].
  split_and!; try done.
  - constructor; cbn; try done; unfold is_size in *; lia.
  - unfold sink_written, sink_bytes, sub. cbn. rewrite !drop_0, <- Ht.
    rewrite take_take. f_equal. unfold zlen in *. lia.
Qed.

Lemma reserve_room w o extra st w' o' :
  sink_room o -> is_size extra -> zu_int_reserve w o extra = (st, w', o') ->
  sink_room o' /\ ob_owner o' = ob_owner o /\ ob_used o' = ob_used o /\
  ob_consumed o' = ob_consumed o /\ sink_written o' = sink_written o /\
  (st = ZU_ERR_MEMORY \/ st = ZU_OK /\ ob_used o + extra <= ob_size o').
Proof.
  intros Ho Hex E. destruct (reserve_cases _ _ _ _ _ _ Ho Hex E)
    as [(-> & -> & ->)|(-> & Hs & Hr & [ [-> ->]|Hg])]; [split_and!; auto..|].
  destruct (grown_room _ _ _ _ Ho Hg Hs) as (? & ? & ? & ? & ?). split_and!; auto.
Qed.

(** ** The sink's block *)

(** Against the world [w0] the call started from: [p] owns exactly the sink's block, and
    everything else is as it was. *)
Record sink_owned (w0 : r_world) (p : Z) (w : r_world) (o : zu_int_outbuf) : Prop := {
  so_owner : ob_owner o = Some p;
  so_fault : w_fault w = w_fault w0;
  so_blocks : w_blocks w =
    match ob_buf o with Some (a, _) => {[a]} ∪ w_blocks w0 | None => w_blocks w0 end;
  so_fresh : forall a m, ob_buf o = Some (a, m) -> a ∉ w_blocks w0;
  so_next : w_next w0 <= w_next w /\ forall a, a ∈ w_blocks w -> a < w_next w;
  so_ptr : R_ExternalPtrAddr w p = fst <$> ob_buf o;
  so_live : w_live w = w_live w0 + (if is_null (ob_buf o) then 0 else 1);
  so_ptrs : forall q, q <> p -> R_ExternalPtrAddr w q = R_ExternalPtrAddr w0 q;
}.

Lemma ptr_addr_set w p a q :
  R_ExternalPtrAddr (w_set_ptr w p a) q = if bool_decide (q = p) then a else R_ExternalPtrAddr w q.
Proof.
  unfold R_ExternalPtrAddr, w_set_ptr. cbn. case_bool_decide as E.
  - subst. by rewrite lookup_insert_eq.
  - by rewrite lookup_insert_ne.
Qed.

Lemma grown_owned w0 p w o w' o' :
  (forall a, a ∈ w_blocks w0 -> a < w_next w0) ->
  sink_owned w0 p w o -> sink_grown w o w' o' -> sink_owned w0 p w' o'.
Proof.
  intros H0 [Eo Ef Eb Hfr [Hn Hlt] Ep El Eq] Hg.
  destruct Hg as [q next w1 [a m] Eq' Hle Er]. rewrite Eo in Eq'. injection Eq' as <-.
  revert Er. unfold sink_realloc, w_alloc.
  set (wf := match ob_buf o with Some (a0, _) => w_free w a0 | None => w end).
  assert (Hwf : w_blocks wf = w_blocks w0 /\ w_next wf = w_next w /\ w_ptrs wf = w_ptrs w /\
    w_live wf = w_live w /\ w_fault wf = w_fault w0).
  { subst wf. destruct (ob_buf o) as [ [a0 m0]|]; cbn in *; [|by split_and!].
    rewrite Eb. specialize (Hfr a0 m0 eq_refl). split_and!; try done; [set_solver|].
    rewrite Ef, bool_decide_eq_false_2 by set_solver. by rewrite orb_false_r. }
  clearbody wf. destruct Hwf as (Wb & Wn & Wp & Wl & Wf). intros [= <- <- _].
  assert (Hnew : w_next w ∉ w_blocks w0) by (intros Hin; specialize (H0 _ Hin); lia).
  constructor; cbn [ob_owner ob_buf].
  - done.
  - by destruct (is_null (ob_buf o)).
  - destruct (is_null (ob_buf o)); cbn; by rewrite Wb, Wn.
  - intros a' m' [= <- _]. by rewrite Wn.
  - destruct (is_null (ob_buf o)); cbn; rewrite Wb, Wn; (split; [lia|]);
      intros a' Ha; apply elem_of_union in Ha as [->%elem_of_singleton|Ha%H0]; lia.
  - rewrite ptr_addr_set, bool_decide_eq_true_2 by done. done.
  - destruct (ob_buf o) as [ [? ?]|]; cbn in *; rewrite Wl; lia.
  - intros q Hq. rewrite ptr_addr_set, bool_decide_eq_false_2 by done. rewrite <- (Eq q Hq).
    destruct (is_null (ob_buf o)); unfold R_ExternalPtrAddr; cbn; by rewrite Wp.
Qed.

Lemma reserve_owned w0 p w o extra st w' o' :
  (forall a, a ∈ w_blocks w0 -> a < w_next w0) ->
  sink_room o -> is_size extra -> zu_int_reserve w o extra = (st, w', o') ->
  sink_owned w0 p w o -> sink_owned w0 p w' o'.
Proof.
  intros H0 Ho Hex E Hs. destruct (reserve_cases _ _ _ _ _ _ Ho Hex E)
    as [(_ & -> & ->)|(_ & _ & _ & [ [-> ->]|Hg])]; [done..|]. by eapply grown_owned.
Qed.

End reserve.

(** A sink that was just made owns nothing yet. *)
Lemma owner_owned w0 o ptr w o' :
  (forall a, a ∈ w_blocks w0 -> a < w_next w0) ->
  zu_int_outbuf_owner w0 o = (ptr, w, o') ->
  w_ptrs w0 !! ptr = None /\ sink_room o' /\ sink_written o' = [] /\ ob_used o' = 0 /\
  sink_owned w0 ptr w o'.
Proof.
  intros H0 E. unfold zu_int_outbuf_owner in E. injection E as <- <- <-.
  set (ptr := fresh (dom (w_ptrs w0))).
  assert (Hf : w_ptrs w0 !! ptr = None).
  { apply not_elem_of_dom. apply is_fresh. }
  split; [done|]. split; [|split; [done|split; [done|] ] ].
  - constructor; cbn; [done|done|lia|unfold SIZE_MAX; lia].
  - constructor; cbn; try done; try lia.
    + by rewrite ptr_addr_set, bool_decide_eq_true_2.
    + intros q Hq. by rewrite ptr_addr_set, bool_decide_eq_false_2.
Qed.

(** Either release frees the block, if there is one, and leaves the owner empty. *)
Definition sink_gone (w0 : r_world) (p : Z) (w : r_world) : Prop :=
  w_blocks w = w_blocks w0 /\ w_live w = w_live w0 /\ w_fault w = w_fault w0 /\
  R_ExternalPtrAddr w p = None /\
  forall q, q <> p -> R_ExternalPtrAddr w q = R_ExternalPtrAddr w0 q.

Lemma release_gone w0 p w o :
  sink_owned w0 p w o -> sink_gone w0 p (zu_int_outbuf_release w o).1.
Proof.
  intros [Eo Ef Eb Hfr _ Ep El Eq]. unfold zu_int_outbuf_release. rewrite Eo.
  assert (Hptr : forall q, R_ExternalPtrAddr (w_set_ptr w p None) q =
    if bool_decide (q = p) then None else R_ExternalPtrAddr w q) by (intros; by rewrite ptr_addr_set).
  unfold sink_gone. destruct (ob_buf o) as [ [a m]|]; cbn in *.
  - specialize (Hfr a m eq_refl). rewrite Eb.
    split_and!; [set_solver|lia| | |].
    + rewrite Ef, bool_decide_eq_false_2 by set_solver. by rewrite orb_false_r.
    + specialize (Hptr p). by rewrite bool_decide_eq_true_2 in Hptr.
    + intros q Hq. specialize (Hptr q). rewrite bool_decide_eq_false_2 in Hptr by done.
      by rewrite <- Eq.
  - split_and!; [done|lia|done| |].
    + specialize (Hptr p). by rewrite bool_decide_eq_true_2 in Hptr.
    + intros q Hq. specialize (Hptr q). rewrite bool_decide_eq_false_2 in Hptr by done.
      by rewrite Hptr, Eq.
Qed.

Lemma finalizer_gone w0 p w o :
  sink_owned w0 p w o -> sink_gone w0 p (zu_int_outbuf_finalizer w p).
Proof.
  intros [Eo Ef Eb Hfr _ Ep El Eq]. unfold zu_int_outbuf_finalizer, sink_gone. rewrite Ep.
  destruct (ob_buf o) as [ [a m]|]; cbn [fmap option_fmap option_map fst is_null] in *.
  - specialize (Hfr a m eq_refl). cbn [w_set_ptr w_count w_free w_blocks w_live w_fault]. rewrite Eb.
    split_and!; [set_solver|lia| | |].
    + rewrite Ef, bool_decide_eq_false_2 by set_solver. by rewrite orb_false_r.
    + by rewrite ptr_addr_set, bool_decide_eq_true_2.
    + intros q Hq. rewrite ptr_addr_set, bool_decide_eq_false_2 by done. by rewrite <- Eq.
  - split_and!; [done|lia|done|done|done].
Qed.

(** A finalizer that runs afterwards finds nothing to free. *)
Lemma finalizer_idle w p :
  R_ExternalPtrAddr w p = None -> zu_int_outbuf_finalizer w p = w.
Proof. unfold zu_int_outbuf_finalizer. by intros ->. Qed.

(** ** One round of the loop *)

(** The input a run was given. *)
Definition run_input (r : zu_int_run_opts) : bytes := sub (default [] (ro_src r)) 0 (ro_n r).

(** What the caller of [zu_int_run_whole] owes it. *)
Record run_ok (r : zu_int_run_opts) : Prop := {
  rok_n : 0 <= ro_n r < 2 ^ 64;
  rok_src : object_covers (ro_src r) (ro_n r);
  rok_bytes : bytes_ok (default [] (ro_src r));
  rok_in : 1 <= ro_in_chunk r;
  rok_out : 1 <= ro_out_chunk r <= SIZE_MAX;
  rok_flush : 0 <= ro_flush_every r;
}.

Section drive.
Context {H : Type} (process : H -> zu_buffer -> zu_flush -> zu_status * H * zu_buffer)
  (P : H -> Prop) {Hdrive : Drivable P process}.
Context {alloc : Allocator} {heap : HeapBytes} {ints : Interrupts}.
Context (r : zu_int_run_opts) (Hr : run_ok r).
Context (w0 : r_world) (ptr : Z) (Hw0 : forall a, a ∈ w_blocks w0 -> a < w_next w0).
Context (h0 : H) (before : bytes).

(** Between rounds: [taken] and [given] so far, the rest of the input split between the
    slice in hand and what was not fed yet. *)
Record drive_inv (s : drive H) (taken given : bytes) : Prop := {
  di_handle : P (dr_handle s);
  di_input : run_input r =
    taken ++ src_window (dr_buf s) ++ drop (Z.to_nat (dr_fed s)) (run_input r);
  di_pos : 0 <= src_pos (dr_buf s) <= src_size (dr_buf s);
  di_size : src_size (dr_buf s) < 2 ^ 64;
  di_src : object_covers (src (dr_buf s)) (src_size (dr_buf s));
  di_bytes : bytes_ok (src_bytes (dr_buf s));
  di_fed : 0 <= dr_fed s <= ro_n r;
  di_room : sink_room (dr_out s);
  di_sink : sink_written (dr_out s) = before ++ given;
  di_owned : sink_owned w0 ptr (dr_world s) (dr_out s);
}.

Lemma zlen_run_input : zlen (run_input r) = ro_n r.
Proof.
  destruct Hr as [Hn Hs _ _ _ _]. unfold run_input. destruct (ro_src r); cbn in *.
  - apply zlen_sub; lia.
  - rewrite Hs. done.
Qed.

(** The slice in hand is what the counters say. *)
Lemma inv_counts s taken given :
  drive_inv s taken given ->
  zlen (src_window (dr_buf s)) = src_size (dr_buf s) - src_pos (dr_buf s) /\
  dr_fed s = zlen taken + zlen (src_window (dr_buf s)).
Proof.
  intros [_ Hi Hp Hz Hs _ Hf _ _ _].
  assert (Hw : zlen (src_window (dr_buf s)) = src_size (dr_buf s) - src_pos (dr_buf s)).
  { unfold src_window, avail_in, src_bytes. destruct (src (dr_buf s)); cbn in *.
    - apply zlen_sub; lia.
    - unfold sub, zlen. rewrite drop_nil, take_nil. cbn. lia. }
  split; [done|]. apply (f_equal zlen) in Hi. rewrite !zlen_app, zlen_run_input in Hi.
  pose proof zlen_run_input as Hn. unfold zlen in *. rewrite length_drop in Hi. lia.
Qed.

(** Refilling keeps the invariant. *)
Lemma refill_inv s taken given :
  drive_inv s taken given ->
  let '(buf, fed) := whole_refill r (dr_buf s) (dr_fed s) in
  drive_inv (mk_drive (dr_handle s) buf fed (dr_calls s) (dr_out s) (dr_world s)) taken given.
Proof.
  intros Hi. unfold whole_refill.
  destruct (Z.eqb_spec (src_pos (dr_buf s)) (src_size (dr_buf s))) as [Ee|]; cbn [andb];
    [|by destruct Hi; constructor].
  destruct (Z.ltb_spec (dr_fed s) (ro_n r)) as [Hlt|]; [|by destruct Hi; constructor].
  set (take := if ro_n r - dr_fed s >? ro_in_chunk r then ro_in_chunk r else ro_n r - dr_fed s).
  assert (Ht : 0 <= take <= ro_n r - dr_fed s).
  { subst take. destruct Hr. rewrite Z.gtb_ltb.
    destruct (Z.ltb_spec (ro_in_chunk r) (ro_n r - dr_fed s)); lia. }
  clearbody take. destruct Hi as [Hb Hc Hd He Hf Hg Hh Hi Hj Hk]. destruct Hr as [Hn Hs Hby _ _ _].
  constructor; cbn; try done; try lia.
  - rewrite Hc at 1. f_equal. unfold src_window at 1, avail_in. rewrite Ee, Z.sub_diag, sub_0. cbn.
    unfold src_window, avail_in, src_bytes, run_input. cbn. rewrite Z.sub_0_r.
    destruct (ro_src r) as [m|]; cbn in *; [|lia]. unfold sub, ptr_add. rewrite !drop_0.
    rewrite skipn_firstn_comm, skipn_firstn_comm.
    replace (Z.to_nat (dr_fed s + take)) with (Z.to_nat (dr_fed s) + Z.to_nat take)%nat by lia.
    replace (Z.to_nat (ro_n r) - Z.to_nat (dr_fed s))%nat with
      (Z.to_nat take + (Z.to_nat (ro_n r) - (Z.to_nat (dr_fed s) + Z.to_nat take)))%nat by lia.
    rewrite <- drop_drop. by rewrite take_take_drop.
  - destruct (ro_src r) as [m|]; cbn in *; [|lia]. unfold ptr_add, zlen in *. rewrite length_drop. lia.
  - unfold src_bytes. cbn. destruct (ro_src r); cbn in *; [|constructor].
    by apply bytes_ok_drop.
Qed.

(** The window in the sink is a buffer the codec may be given. *)
Lemma window_ok s taken given out :
  drive_inv s taken given -> sink_room out ->
  ob_used out + ro_out_chunk r <= ob_size out ->
  buffer_ok (whole_window r out (dr_buf s)).
Proof.
  intros Hi [_ Hsz Hu Hm] Hroom. destruct Hr. destruct Hi.
  constructor; cbn; try done; try (unfold SIZE_MAX in *; lia).
  unfold sink_bytes in Hsz. destruct (ob_buf out) as [ [a m]|]; cbn in *.
  - unfold ptr_add, zlen in *. rewrite length_drop. lia.
  - rewrite zlen_nil in Hsz. lia.
Qed.

(** Storing what the codec wrote appends it to the sink. *)
Lemma store_sink out buf b' i o :
  sink_room out -> ob_used out + ro_out_chunk r <= ob_size out ->
  buffer_ok (whole_window r out buf) -> moved (whole_window r out buf) b' i o ->
  let out' := whole_store out b' in
  sink_room out' /\ sink_written out' = sink_written out ++ o /\
  ob_used out' = ob_used out + zlen o.
Proof.
  intros [Ho Hsz Hu Hm] Hroom Hb Hmv.
  destruct (moved_counts _ _ _ _ Hb Hmv) as [_ Hcount]. unfold avail_out in Hcount.
  pose proof (moved_ok _ _ _ _ Hb Hmv) as Hb'. destruct Hmv as [ [_ _ Hds _ Hdp Hch] _ Hg].
  cbn in Hds, Hdp, Hch, Hcount. rewrite Hds in Hcount.
  assert (Hpos : dst_pos b' = zlen o) by lia.
  assert (Hused : u64 (ob_used out + dst_pos b') = ob_used out + zlen o).
  { rewrite Hpos. apply u64_small. unfold SIZE_MAX in *. lia. }
  unfold dst_written in Hg. cbn in Hg. rewrite sub_0 in Hg. cbn in Hg.
  unfold sink_bytes, whole_store in *. cbn. rewrite Hused.
  destruct (ob_buf out) as [ [a m]|] eqn:Eb; cbn in *; [|destruct Hr; rewrite zlen_nil in Hsz; lia].
  destruct (dst b') as [d|] eqn:Ed; cbn in *; [|done].
  destruct Hch as [Hl _]. unfold ptr_add in Hl. rewrite length_drop in Hl.
  assert (Hlen : zlen (take (Z.to_nat (ob_used out)) m ++ d) = ob_size out).
  { rewrite zlen_app. unfold zlen in *. rewrite length_take. lia. }
  split_and!; try done.
  - constructor; cbn; [done|done| |done]. lia.
  - unfold sink_written, sink_bytes. cbn. rewrite Eb. cbn.
    pose proof (zlen_nonneg o) as Ho0. rewrite Hpos in Hg. revert Hg Hpos Hcount Ho0.
    generalize (zlen o). intros k <- _ _ Hk.
    unfold sub. rewrite !drop_0.
    replace (Z.to_nat (ob_used out + k)) with (Z.to_nat (ob_used out) + Z.to_nat k)%nat by lia.
    rewrite take_app, take_take, length_take. f_equal; f_equal; unfold zlen in *; lia.
Qed.

Lemma store_owned w out b' :
  sink_owned w0 ptr w out -> sink_owned w0 ptr w (whole_store out b').
Proof.
  intros [? ? Eb Hf ? Ep El ?]. unfold whole_store.
  constructor; cbn; try done; destruct (ob_buf out) as [ [a m]|]; cbn in *; try done.
  intros a' m' [= <- _]. by apply (Hf _ m).
Qed.

(** What is true when the loop is left. *)
Record drive_post (e : drive_exit) (s : drive H) (taken given rest : bytes) : Prop := {
  dp_input : run_input r = taken ++ rest;
  dp_sink : sink_written (dr_out s) = before ++ given;
  dp_room : sink_room (dr_out s);
  dp_owned : sink_owned w0 ptr (dr_world s) (dr_out s);
  dp_handle : P (dr_handle s);
  dp_end :
    match e with
    | drive_break st =>
        run_spec process (run_input r) h0 st (dr_handle s) taken given /\ whole_consumed s = zlen taken
    | drive_longjmp => codec_run process h0 (dr_handle s) taken given
    end;
}.

Lemma inv_consumed s taken given : drive_inv s taken given -> whole_consumed s = zlen taken.
Proof.
  intros Hi. destruct (inv_counts _ _ _ Hi) as [Hw Hf]. destruct Hi, Hr. unfold whole_consumed.
  pose proof (zlen_nonneg taken). rewrite (u64_small (src_size _ - _)) by lia. rewrite u64_small; lia.
Qed.

(** The call of a round: the invariant of the new state, for what it moved. *)
Lemma call_inv s taken given out w h b' i o calls :
  drive_inv s taken given -> sink_room out -> sink_owned w0 ptr w out ->
  sink_written out = before ++ given -> ob_used out + ro_out_chunk r <= ob_size out ->
  P h -> moved (whole_window r out (dr_buf s)) b' i o ->
  drive_inv (mk_drive h b' (dr_fed s) calls (whole_store out b') w) (taken ++ i) (given ++ o).
Proof.
  intros Hi Hro Hso Hsw Hfit HP Hm.
  pose proof (window_ok _ _ _ _ Hi Hro Hfit) as Hb.
  destruct (store_sink _ _ _ _ _ Hro Hfit Hb Hm) as (Hroom & Hw' & Hu').
  pose proof (moved_ok _ _ _ _ Hb Hm) as Hb'. pose proof Hm as [ [Es Ez _ _ _ _] Ht _].
  cbn in Es, Ez. destruct Hi as [_ Hi _ _ _ Hby Hf _ _ _], Hb'.
  constructor; cbn; try done; try lia.
  - rewrite Hi at 1. change (src_window (whole_window r out (dr_buf s))) with (src_window (dr_buf s)) in Ht.
    by rewrite Ht, <- !app_assoc.
  - unfold src_bytes. by rewrite Es.
  - by rewrite Hw', Hsw, app_assoc.
  - by apply store_owned.
Qed.

Lemma inv_post e s taken given :
  drive_inv s taken given ->
  match e with
  | drive_break st => run_spec process (run_input r) h0 st (dr_handle s) taken given
  | drive_longjmp => codec_run process h0 (dr_handle s) taken given
  end ->
  exists taken given rest, drive_post e s taken given rest.
Proof.
  intros Hi He. exists taken, given, (src_window (dr_buf s) ++ drop (Z.to_nat (dr_fed s)) (run_input r)).
  pose proof (inv_consumed _ _ _ Hi). destruct Hi. constructor; try done. by destruct e.
Qed.

Lemma whole_flush_valid fed calls : valid_flush (whole_flush r fed calls).
Proof.
  unfold whole_flush. destruct (negb _ && _ && _); [by right; left|].
  destruct (whole_last r fed); [by right; right|by left].
Qed.

(** A round that goes round again made one call that asked for more and is not stuck. *)
Inductive round_call (s : drive H) (i o : bytes) : drive H -> Prop :=
  | rc_call buf fed w out st h b' :
      whole_refill r (dr_buf s) (dr_fed s) = (buf, fed) ->
      buffer_ok (whole_window r out buf) ->
      process (dr_handle s) (whole_window r out buf) (whole_flush r fed (dr_calls s)) = (st, h, b') ->
      is_progress st = true -> moved (whole_window r out buf) b' i o ->
      (dst_pos b' =? 0) && whole_last r fed && status_eqb st ZU_NEED_INPUT = false ->
      round_call s i o (mk_drive h b' fed (u64 (dr_calls s + 1)) (whole_store out b') w).

(** The calls so far, told that the input is over only once all of it was fed. *)
Definition drive_run (s : drive H) (taken given : bytes) : Prop :=
  exists fin, ordered_run process (run_input r) h0 fin (dr_handle s) taken given /\
    (fin = true -> whole_last r (dr_fed s) = true).

Lemma drive_codec_run s taken given :
  drive_run s taken given -> codec_run process h0 (dr_handle s) taken given.
Proof. intros (fin & Hord & _). by eapply ordered_codec_run. Qed.

Lemma whole_flush_sticks fed calls : whole_last r fed = true -> whole_flush r fed calls = ZU_FINISH.
Proof. unfold whole_flush. by intros ->. Qed.

Lemma whole_flush_last fed calls :
  is_finish (whole_flush r fed calls) = true -> whole_last r fed = true.
Proof. unfold whole_flush. by destruct (whole_last r fed), (_ && _ && _). Qed.

Lemma refill_last buf fed buf' fed' :
  whole_refill r buf fed = (buf', fed') -> whole_last r fed = true -> fed' = fed.
Proof.
  unfold whole_refill, whole_last. rewrite Z.geb_leb. intros E Hl%Z.leb_le. revert E.
  destruct (Z.ltb_spec fed (ro_n r)); [lia|]. rewrite andb_false_r. by intros [= _ <-].
Qed.

Lemma round_spec s taken given :
  drive_inv s taken given -> drive_run s taken given ->
  match whole_round process r s with
  | (Some e, s') => exists taken given rest, drive_post e s' taken given rest
  | (None, s') => exists i o, drive_inv s' (taken ++ i) (given ++ o) /\
      drive_run s' (taken ++ i) (given ++ o) /\ round_call s i o s'
  end.
Proof.
  intros Hi Hdrun. pose proof (drive_codec_run _ _ _ Hdrun) as Hrun.
  destruct Hdrun as (fin & Hord & Hfin). pose proof (refill_inv _ _ _ Hi) as Hi2. unfold whole_round.
  destruct (whole_refill r (dr_buf s) (dr_fed s)) as [buf fed] eqn:Erf. clear Hi.
  assert (Hall : whole_flush r fed (dr_calls s) = ZU_FINISH -> taken ++ src_window buf = run_input r).
  { intros Ef. pose proof (di_input _ _ _ Hi2) as Hin. cbn in Hin.
    assert (Hl : whole_last r fed = true) by (eapply whole_flush_last; by rewrite Ef).
    unfold whole_last in Hl. rewrite Z.geb_leb in Hl. apply Z.leb_le in Hl.
    rewrite (drop_ge (run_input r)) in Hin; [by rewrite app_nil_r in Hin|].
    pose proof zlen_run_input as Hz. unfold zlen in Hz. lia. }
  assert (Hstick : fin = true -> whole_last r fed = true /\ whole_flush r fed (dr_calls s) = ZU_FINISH).
  { intros Ef%Hfin. rewrite (refill_last _ _ _ _ Erf Ef). split; [done|by apply whole_flush_sticks]. }
  pose proof (whole_flush_valid fed (dr_calls s)) as Hfl.
  set (s1 := mk_drive _ _ _ _ _ _) in Hi2.
  destruct (zu_int_reserve (dr_world s) (dr_out s) (ro_out_chunk r)) as [ [st w] out] eqn:Er.
  assert (Hex : is_size (ro_out_chunk r)) by (destruct Hr; unfold is_size; lia).
  pose proof (di_room _ _ _ Hi2) as Hro0. pose proof (di_owned _ _ _ Hi2) as Hso0. cbn in Hro0, Hso0.
  pose proof (reserve_owned _ _ _ _ _ _ _ _ Hw0 Hro0 Hex Er Hso0) as Hso.
  destruct (reserve_room _ _ _ _ _ _ Hro0 Hex Er) as (Hro & Eo & Eu & Ec & Ew & Hst).
  pose proof (di_sink _ _ _ Hi2) as Hsink. cbn in Hsink. rewrite <- Ew in Hsink.
  destruct Hst as [->|[-> Hfit] ]; status_simpl; cbv iota.
  { apply (inv_post _ _ taken given); [destruct Hi2; by constructor|by apply spec_memory]. }
  rewrite <- Eu in Hfit.
  assert (Hb : buffer_ok (whole_window r out buf)) by (by apply (window_ok s1 taken given)).
  destruct (process (dr_handle s) (whole_window r out buf) (whole_flush r fed (dr_calls s)))
    as [ [st h] b'] eqn:Ep.
  destruct (drivable _ _ _ _ _ _ (di_handle _ _ _ Hi2) Hb Hfl Ep) as [Hstep HP].
  destruct (step_moved _ _ Hb Hstep) as (i & o & Hm).
  pose proof (call_inv s1 _ _ out w h b' i o (u64 (dr_calls s + 1)) Hi2 Hro Hso Hsink Hfit HP Hm) as Hi3.
  cbn [s1 dr_fed] in Hi3. pose proof (di_bytes _ _ _ Hi2) as Hby. cbn in Hby.
  destruct (is_progress st) eqn:Hpr; cbn [negb].
  2:{ assert (Hs : session process (run_input r) h0 st h (taken ++ i) (given ++ o))
        by (eapply session_end; try done; by intros [_ ?]%Hstick).
      destruct (status_eqb st ZU_STREAM_END) eqn:Ee; (eapply inv_post; [exact Hi3|]);
        [apply status_eqb_spec in Ee as ->|]; by apply spec_session. }
  assert (Hrun' : ordered_run process (run_input r) h0 (is_finish (whole_flush r fed (dr_calls s))) h
    (taken ++ i) (given ++ o)) by (eapply ordered_call; try done; by intros [_ ?]%Hstick).
  destruct (status_eqb st ZU_STREAM_END) eqn:Ee; [apply status_eqb_spec in Ee as ->; done|].
  destruct ((dst_pos b' =? 0) && whole_last r fed && status_eqb st ZU_NEED_INPUT) eqn:Estuck.
  { apply andb_prop in Estuck as [ [Ed El]%andb_prop Es]. apply status_eqb_spec in Es as ->.
    eapply inv_post; [exact Hi3|]. apply spec_stuck.
    assert (o = []) as ->.
    { destruct (moved_counts _ _ _ _ Hb Hm) as [_ Hc]. unfold avail_out in Hc.
      destruct Hstep as [_ _ Hds _ _ _]. rewrite Hds in Hc. cbn in Hc. zbool.
      destruct o; [done|]. rewrite zlen_cons in Hc. pose proof (zlen_nonneg o). lia. }
    rewrite app_nil_r. eapply session_starved; try done.
    { apply Hall. unfold whole_flush. by rewrite El. }
    revert Ep. unfold whole_flush. by rewrite El. }
  destruct (_ && interrupted _); [eapply inv_post; [exact Hi3|by eapply ordered_codec_run]|].
  exists i, o. split_and!; [done| |by econstructor]. eexists. split; [exact Hrun'|].
  apply whole_flush_last.
Qed.

Lemma loop_spec fuel : forall s taken given e s',
  drive_inv s taken given -> drive_run s taken given ->
  whole_loop process r fuel s = Some (e, s') ->
  exists taken given rest, drive_post e s' taken given rest.
Proof.
  induction fuel as [|fuel IH]; intros s taken given e s' Hi Hrun E; [done|]. cbn [whole_loop] in E.
  pose proof (round_spec _ _ _ Hi Hrun) as Hround.
  destruct (whole_round process r s) as [ [e1|] s1].
  - by injection E as <- <-.
  - destruct Hround as (i & o & Hi' & Hrun' & _). by eapply IH.
Qed.

Lemma start_inv w out :
  sink_room out -> sink_written out = before -> sink_owned w0 ptr w out -> P h0 ->
  drive_inv (drive_start h0 w out) [] [].
Proof.
  intros Hro Hsw Hso HP. destruct Hr. constructor; cbn; try done; try lia.
  - constructor.
  - by rewrite Hsw, app_nil_r.
Qed.

Lemma start_run w out : drive_run (drive_start h0 w out) [] [].
Proof. exists false. by split; [constructor|]. Qed.

End drive.

(** ** The entry point *)

(** What a run of one direction leaves behind, stated without a chunk, window or buffer:
    either the handle could not be made, or a session of the handle over the input. *)
Definition whole_outcome {H} (new : result H) (handle : H -> stream_handle)
    (process : H -> zu_buffer -> zu_flush -> zu_status * H * zu_buffer)
    (r : zu_int_run_opts) (res : whole_result) : Prop :=
  match new with
  | Err st =>
      wr_status res = Some st /\ sink_written (wr_out res) = [] /\
      wr_guard res = None /\ wr_freed res = []
  | Ok h0 =>
      exists h taken given rest,
        run_input r = taken ++ rest /\ sink_written (wr_out res) = given /\
        match wr_status res with
        | Some st =>
            run_spec process (run_input r) h0 st h taken given /\ ob_consumed (wr_out res) = zlen taken /\
            wr_guard res = None /\ wr_freed res = handle_free (handle h)
        | None =>
            codec_run process h0 h taken given /\
            wr_guard res = Some (handle h) /\ wr_freed res = []
        end
  end.

Section entry.
Context {alloc : Allocator} {heap : HeapBytes} {ints : Interrupts}.

Lemma whole_drive_spec {H} (P : H -> Prop) new handle process fuel r w0 ptr w out res :
  Drivable P process -> (forall h, new = Ok h -> P h) -> run_ok r ->
  (forall a, a ∈ w_blocks w0 -> a < w_next w0) ->
  sink_room out -> sink_written out = [] -> sink_owned w0 ptr w out ->
  whole_drive new handle process fuel r w out = Some res ->
  whole_outcome new handle process r res /\ sink_room (wr_out res) /\
  sink_owned w0 ptr (wr_world res) (wr_out res).
Proof.
  intros Hd Hnew Hr Hw0 Hro Hsw Hso. unfold whole_drive, whole_outcome.
  destruct new as [h0|st]; [|intros [= <-]; by split_and!].
  destruct (whole_loop process r fuel (drive_start h0 w out)) as [ [e s]|] eqn:El; [|done].
  intros [= <-].
  destruct (loop_spec process P r Hr w0 ptr Hw0 h0 [] fuel _ [] [] e s
    (start_inv P r Hr w0 ptr h0 [] w out Hro Hsw Hso (Hnew h0 eq_refl))
    (start_run process r h0 w out) El) as (taken & given & rest & [Hi Hs Hroom Hown HP He]).
  destruct e as [st|]; cbn.
  - split; [|by destruct Hroom, Hown].
    destruct He as [Hspec Hcons]. exists (dr_handle s), taken, given, rest. by split_and!.
  - split; [|done]. exists (dr_handle s), taken, given, rest. by split_and!.
Qed.

Context (reg : registry).
Context (Hdec : registry_contract reg) (Henc : Forall encoder_contract (reg_vtables reg)).

(** The abstract specification of [zu_int_run_whole], for either direction. *)
Definition run_whole_spec (r : zu_int_run_opts) (res : whole_result) : Prop :=
  if ro_encode r
  then whole_outcome (zu_encoder_new reg true (Some (encoder_opts_bytes (run_encoder_opts r))))
         handle_enc encoder_process r res
  else whole_outcome (zu_decoder_new reg true (Some (decoder_opts_bytes (run_decoder_opts r))))
         handle_dec decoder_process r res.

Lemma run_whole_post fuel r w0 o0 ptr w o res :
  run_ok r -> (forall a, a ∈ w_blocks w0 -> a < w_next w0) ->
  zu_int_outbuf_owner w0 o0 = (ptr, w, o) ->
  zu_int_run_whole reg fuel (Some r) w (Some o) = Some res ->
  run_whole_spec r res /\ sink_room (wr_out res) /\ sink_owned w0 ptr (wr_world res) (wr_out res).
Proof.
  intros Hr Hw0 Hown. destruct (owner_owned _ _ _ _ _ Hw0 Hown) as (_ & Hro & Hsw & _ & Hso).
  unfold zu_int_run_whole, run_whole_spec. pose proof Hr as [_ _ _ Hin Hout _].
  destruct (Z.eqb_spec (ro_in_chunk r) 0); [lia|]. destruct (Z.eqb_spec (ro_out_chunk r) 0); [lia|].
  cbn [orb]. destruct (ro_encode r).
  - apply (whole_drive_spec (fun e => encoder_contract (enc_vtable e))); try done; [apply _|].
    intros e (Hres & _)%encoder_new_inv. rewrite List.Forall_forall in Henc.
    apply Henc. by eapply resolve_in.
  - apply (whole_drive_spec (decoder_reachable reg)); try done; [by apply decoder_drivable|].
    intros d Hnew. eapply dr_new; [|exact Hnew]. apply decoder_opts_bytes_ok.
Qed.

End entry.

(** C3: the drive loop refines its abstract specification.  Whatever the codec, the chunk
    sizes, the flush interval and the allocator do, a run that returns has put in the sink
    exactly the bytes one session of a fresh stream handle gave, reports in [consumed]
    exactly the bytes that session took from the front of the input, and returns the status
    that ended the session: the codec's own, an internal error when the codec asked for more
    input after the end, or no memory.  Once the session was told that the input is over, it
    was told so at every later call, and each time with the rest of the input in its window.  A run left by an interrupt stands between two calls
    of such a session. *)
Theorem run_whole_refines {alloc : Allocator} {heap : HeapBytes} {ints : Interrupts}
    (reg : registry) (fuel : nat) (r : zu_int_run_opts) (w0 w : r_world) (ptr : Z)
    (o0 o : zu_int_outbuf) (res : whole_result) :
  registry_contract reg -> Forall encoder_contract (reg_vtables reg) -> run_ok r ->
  (forall a, a ∈ w_blocks w0 -> a < w_next w0) ->
  zu_int_outbuf_owner w0 o0 = (ptr, w, o) ->
  zu_int_run_whole reg fuel (Some r) w (Some o) = Some res ->
  run_whole_spec reg r res.
Proof. intros Hd He Hr Hw0 Ho E. by eapply run_whole_post. Qed.


(** ** A run that is interrupted, and one that is not *)

#[local] Instance every_alloc : Allocator := fun _ => true.
#[local] Instance zero_heap : HeapBytes := fun _ => 0.

Definition toy_world : r_world := mk_world {[3]} 4 ∅ 1 false.
Definition toy_outbuf : zu_int_outbuf := mk_outbuf None None 0 0 0.
Definition toy_run (encode : bool) (input : bytes) : zu_int_run_opts :=
  mk_run_opts (Some input) (zlen input) encode ZU_CODEC_IDENTITY ZU_LEVEL_DEFAULT 0 0 0 0 2 3 0.

Definition toy_sink : Z * r_world * zu_int_outbuf := zu_int_outbuf_owner toy_world toy_outbuf.
Definition toy_result (ints : Interrupts) : option whole_result :=
  zu_int_run_whole id_registry 200 (Some (toy_run false [1; 2; 3; 4; 5; 6; 7])) toy_sink.1.2
    (Some toy_sink.2).

Definition quiet : Interrupts := fun _ => false.
Definition pressed : Interrupts := fun calls => calls =? 64.

Lemma toy_run_ok encode input :
  bytes_okb input = true -> zlen input < 2 ^ 64 -> run_ok (toy_run encode input).
Proof.
  intros Hb%bytes_okb_ok Hn. pose proof (zlen_nonneg input).
  constructor; cbn; try done; lia.
Qed.

Lemma toy_world_fresh a : a ∈ w_blocks toy_world -> a < w_next toy_world.
Proof. unfold toy_world. cbn. intros ->%elem_of_singleton. lia. Qed.

Lemma id_registry_encoders : Forall encoder_contract (reg_vtables id_registry).
Proof.
  apply Forall_cons_2; [|by apply Forall_nil_2].
  exact (pointwise_contract (fun c => c) identity_process).
Qed.

Definition no_result : whole_result := mk_whole None toy_outbuf toy_world None [].

Lemma run_whole_refines_witness :
  let r := toy_run false [1; 2; 3; 4; 5; 6; 7] in
  let res := default no_result (toy_result quiet) in
  wr_status res = Some ZU_STREAM_END /\ sink_written (wr_out res) = [1; 2; 3; 4; 5; 6; 7] /\
  ob_consumed (wr_out res) = 7 /\ run_whole_spec id_registry r res.
Proof.
  intros r res. do 3 (split; [vm_compute; reflexivity|]).
  apply (run_whole_refines (ints := quiet) id_registry 200 r toy_world toy_sink.1.2 toy_sink.1.1
    toy_outbuf toy_sink.2 res).
  - exact id_registry_contract.
  - exact id_registry_encoders.
  - apply toy_run_ok; vm_compute; reflexivity.
  - exact toy_world_fresh.
  - reflexivity.
  - vm_compute. reflexivity.
Defined.

(** One byte per call, an interrupt pending at the 64th: the sink is live until the
    finalizer runs. *)
Definition slow_run : zu_int_run_opts :=
  mk_run_opts (Some (replicate 100 7)) 100 false ZU_CODEC_IDENTITY ZU_LEVEL_DEFAULT 0 0 0 0 1 1 0.
Definition slow_result : whole_result :=
  default no_result (zu_int_run_whole (ints := pressed) id_registry 200 (Some slow_run)
    toy_sink.1.2 (Some toy_sink.2)).

Lemma slow_run_ok : run_ok slow_run.
Proof.
  constructor; try (apply bytes_okb_ok; vm_compute; reflexivity); vm_compute; repeat split;
    discriminate.
Qed.

