(* ===== verification/WholeRuns.v ===== *)
(** * Whole-buffer runs of the codecs

    Termination: a run under an output limit, over a codec that never asks to go round
    again without moving, returns within a computable number of calls.  DEFLATE: what a
    run of a deflate-raw, zlib or gzip decoder that reports the end has put in the sink,
    and that it is what a run of the encoder was given. *)
From stdpp Require Import gmap.
From S2P Require Import Prelude Types SizeArith ProcessLoop Registry Stream Identity StreamProps Session Whole WholeProps.
From S2P Require Import Checksum GzipHeader Deflate DeflateProps DeflateFraming DeflateDecode.

(** ** What a run that ends says of its codec *)

Section codec_runs.
Context {alloc : Allocator} {heap : HeapBytes} {ints : Interrupts}.
Context (reg : registry).
Context (Hdec : registry_contract reg) (Henc : Forall encoder_contract (reg_vtables reg)).
Context (Hfinal : constructors_final reg).

(** A run from a new sink: [o0] is what the caller zeroed. *)
Definition runs (fuel : nat) (r : zu_int_run_opts) (w0 : r_world) (o0 : zu_int_outbuf)
    (res : whole_result) : Prop :=
  run_ok r /\ (forall a, a ∈ w_blocks w0 -> a < w_next w0) /\
  zu_int_run_whole reg fuel (Some r) (zu_int_outbuf_owner w0 o0).1.2
    (Some (zu_int_outbuf_owner w0 o0).2) = Some res.

Lemma runs_spec fuel r w0 o0 res : runs fuel r w0 o0 res -> run_whole_spec reg r res.
Proof.
  intros (Hr & Hw & E). destruct (zu_int_outbuf_owner w0 o0) as [ [ptr w1] o] eqn:Eo.
  by eapply (run_whole_post reg Hdec Henc).
Qed.

Lemma run_input_bytes r : run_ok r -> bytes_ok (run_input r).
Proof. intros [_ _ Hb _ _ _]. by apply bytes_ok_sub. Qed.

Context (v : zu_codec_vtable).

(** A decoding run that ends is a session of the codec over the input, within the limits. *)
Lemma run_decoder_session new process fuel r w0 o0 res :
  vt_decoder_new v = Some new -> vt_decoder_process v = Some process ->
  zu_int_registry_lookup reg (ro_codec r) = Some v ->
  runs fuel r w0 o0 res -> ro_encode r = false -> decoder_opts_fit (run_decoder_opts r) ->
  wr_status res = Some ZU_STREAM_END ->
  exists s0 s taken rest, new (run_decoder_opts r) = Ok s0 /\ run_input r = taken ++ rest /\
    ob_consumed (wr_out res) = zlen taken /\
    session process (run_input r) s0 ZU_STREAM_END s taken (sink_written (wr_out res)) /\
    (ro_max_output r <> 0 -> zlen (sink_written (wr_out res)) <= ro_max_output r) /\
    (has_flag (ro_dec_flags r) ZU_DEC_EXPECTED_SIZE = true ->
     zlen (sink_written (wr_out res)) = ro_expected_size r).
Proof.
  intros Hn Hp Hl Hrun%runs_spec Hdir Hfit Hst. revert Hrun.
  unfold run_whole_spec, whole_outcome. rewrite Hdir, Hst.
  destruct (zu_decoder_new _ _ _) as [d0|st] eqn:Enew.
  2:{ intros ([= <-] & _). by destruct (decoder_new_final _ _ _ Hfinal Enew) as (_ & _ & []). }
  intros (d & taken & given & rest & Hi & -> & Hspec%run_spec_end & Hcons & _).
  assert (Hreach : decoder_reachable reg d0) by (eapply dr_new; [apply decoder_opts_bytes_ok|exact Enew]).
  destruct (decoder_new_codec reg v _ _ Hfit eq_refl Hl Enew) as (new' & s0 & Hn' & Es0 & ->).
  rewrite Hn in Hn'. injection Hn' as <-.
  assert (Hc : CursorContract process).
  { pose proof (reachable_contract _ _ Hdec Hreach) as Hc. unfold codec_contract in Hc. cbn in Hc.
    by rewrite Hp in Hc. }
  destruct (decoder_session_codec v process Hp Hc _ Hfit _ _ _ _ _ Hspec) as [s Hs].
  exists s0, s, taken, rest. split_and!; try done;
    by apply (decoder_session_limits v process Hp Hc _ Hfit _ _ _ _ _ Hspec).
Qed.

(** An encoding run that ends is a session of the codec over the input. *)
Lemma run_encoder_session new process fuel r w0 o0 res :
  vt_encoder_new v = Some new -> vt_encoder_process v = Some process ->
  zu_int_registry_lookup reg (ro_codec r) = Some v ->
  runs fuel r w0 o0 res -> ro_encode r = true -> encoder_opts_fit (run_encoder_opts r) ->
  wr_status res = Some ZU_STREAM_END ->
  exists s0 s taken rest, new (run_encoder_opts r) = Ok s0 /\ run_input r = taken ++ rest /\
    ob_consumed (wr_out res) = zlen taken /\
    session process (run_input r) s0 ZU_STREAM_END s taken (sink_written (wr_out res)).
Proof.
  intros Hn Hp Hl Hrun%runs_spec Hdir Hfit Hst. revert Hrun.
  unfold run_whole_spec, whole_outcome. rewrite Hdir, Hst.
  destruct (zu_encoder_new _ _ _) as [e0|st] eqn:Enew.
  2:{ intros ([= <-] & _). by destruct (encoder_new_final _ _ _ Hfinal Enew) as (_ & _ & []). }
  intros (e & taken & given & rest & Hi & -> & Hspec%run_spec_end & Hcons & _).
  destruct (encoder_new_codec reg v _ _ Hfit eq_refl Hl Enew) as (new' & s0 & Hn' & Es0 & ->).
  rewrite Hn in Hn'. injection Hn' as <-.
  destruct (encoder_session_codec v process Hp _ _ _ _ _ _ Hspec) as [s Hs].
  by exists s0, s, taken, rest.
Qed.

(** ** What one direction writes, the other reads *)

(** The bytes [x] became the frame [c]: a new encoder, over an input that begins with [x],
    took [x] and gave [c] to the end. *)
Definition encodes_to (x c : bytes) : Prop :=
  exists new process o s0 s input, vt_encoder_new v = Some new /\ vt_encoder_process v = Some process /\
    new o = Ok s0 /\ session process input s0 ZU_STREAM_END s x c.

(** The codec's two directions are inverse: over a frame an encoder wrote, a decoder that
    ends has taken the frame and given what went into it. *)
Class CodecInverse : Prop :=
  codec_inverse : forall x c new process o s0 s taken given rest,
    bytes_ok x -> bytes_ok c -> encodes_to x c ->
    vt_decoder_new v = Some new -> vt_decoder_process v = Some process ->
    decoder_opts_fit o -> new o = Ok s0 ->
    session process c s0 ZU_STREAM_END s taken given -> c = taken ++ rest ->
    given = x /\ taken = c.

(** An encoder that ends has taken the whole of an input of at most [limit] bytes. *)
Class EncoderTakesAll (limit : Z) : Prop :=
  encoder_takes_all : forall x new process o s0 s taken given,
    vt_encoder_new v = Some new -> vt_encoder_process v = Some process -> new o = Ok s0 ->
    zlen x <= limit -> session process x s0 ZU_STREAM_END s taken given -> taken = x.

(** The client of these interfaces: the drive loop, over any codec that has them. *)
Lemma run_takes_all {limit} {takes : EncoderTakesAll limit} fuel r w0 o0 res :
  is_Some (vt_encoder_new v) -> is_Some (vt_encoder_process v) ->
  zu_int_registry_lookup reg (ro_codec r) = Some v ->
  runs fuel r w0 o0 res -> ro_encode r = true -> encoder_opts_fit (run_encoder_opts r) ->
  wr_status res = Some ZU_STREAM_END -> ro_n r <= limit -> ob_consumed (wr_out res) = ro_n r.
Proof.
  intros [en Hen] [ep Hep] Hl Hrun Hdir Hfit Hst Hn.
  destruct (run_encoder_session en ep _ _ _ _ _ Hen Hep Hl Hrun Hdir Hfit Hst)
    as (s0 & s & x & rest & En & E & -> & Hs).
  pose proof (zlen_run_input r (proj1 Hrun)) as Hz. rewrite <- Hz in Hn |- *.
  by rewrite (encoder_takes_all _ en ep _ s0 s x _ Hen Hep En Hn Hs).
Qed.

Lemma runs_roundtrip {inverse : CodecInverse} fuel1 fuel2 r1 r2 w1 w2 o1 o2 res1 res2 :
  is_Some (vt_encoder_new v) -> is_Some (vt_encoder_process v) ->
  is_Some (vt_decoder_new v) -> is_Some (vt_decoder_process v) ->
  zu_int_registry_lookup reg (vt_codec v) = Some v ->
  runs fuel1 r1 w1 o1 res1 -> ro_encode r1 = true -> ro_codec r1 = vt_codec v ->
  encoder_opts_fit (run_encoder_opts r1) -> wr_status res1 = Some ZU_STREAM_END ->
  runs fuel2 r2 w2 o2 res2 -> ro_encode r2 = false -> ro_codec r2 = vt_codec v ->
  decoder_opts_fit (run_decoder_opts r2) -> wr_status res2 = Some ZU_STREAM_END ->
  run_input r2 = sink_written (wr_out res1) ->
  sink_written (wr_out res2) = take (Z.to_nat (ob_consumed (wr_out res1))) (run_input r1) /\
  ob_consumed (wr_out res2) = zlen (run_input r2).
Proof.
  intros [en Hen] [ep Hep] [dn Hdn] [dp Hdp] Hl Hrun1 Hdir1 Hc1 Hfit1 Hst1 Hrun2 Hdir2 Hc2 Hfit2 Hst2 Ein.
  destruct (run_encoder_session en ep _ _ _ _ _ Hen Hep ltac:(by rewrite Hc1) Hrun1 Hdir1 Hfit1 Hst1)
    as (s1 & s1' & x & rest1 & En1 & E1 & Hcons1 & Hs1).
  destruct (run_decoder_session dn dp _ _ _ _ _ Hdn Hdp ltac:(by rewrite Hc2) Hrun2 Hdir2 Hfit2 Hst2)
    as (s2 & s2' & taken & rest2 & En2 & E2 & Hcons2 & Hs2 & _).
  pose proof (run_input_bytes r1 (proj1 Hrun1)) as Hb1. rewrite E1 in Hb1. apply Forall_app in Hb1 as [Hx _].
  pose proof (run_input_bytes r2 (proj1 Hrun2)) as Hc. rewrite Ein in Hc, Hs2.
  destruct (codec_inverse x (sink_written (wr_out res1)) dn dp (run_decoder_opts r2) s2 s2' taken
    (sink_written (wr_out res2)) rest2 Hx Hc) as [Hg Ht]; try done.
  { by exists en, ep, (run_encoder_opts r1), s1, s1', (run_input r1). }
  { by rewrite <- Ein. }
  split; [|by rewrite Hcons2, Ein, Ht]. rewrite Hg, E1, Hcons1. unfold zlen.
  by rewrite Nat2Z.id, take_app_length.
Qed.

End codec_runs.

(** ** Termination *)

(** A new decoder of the codec answers honestly as long as it asks for more. *)
Class HonestDecoder (v : zu_codec_vtable) : Prop :=
  honest_decoder : forall new process o s0,
    vt_decoder_new v = Some new -> vt_decoder_process v = Some process ->
    decoder_opts_fit o -> new o = Ok s0 -> HonestRuns process s0.

#[export] Instance pointwise_honest {S} g process `{Hp : @Pointwise S g process} s0 : HonestRuns process s0.
Proof.
  intros s taken given _ b f st s' b' Hb E. rewrite Hp in E by done. injection E as <- <- <-.
  pose proof (pointwise_emit_len g b Hb) as Hl. unfold pointwise_status, pointwise_count in *.
  unfold honest, avail_in, avail_out. cbn [src_pos src_size dst_pos dst_size pointwise_buffer buf_emit buf_consume].
  unfold pointwise_count, avail_in, avail_out in *.
  destruct (Z.ltb_spec (dst_size b - dst_pos b) (src_size b - src_pos b)); [lia|].
  destruct (is_finish f); [done|lia].
Qed.

#[export] Instance identity_honest : HonestDecoder zu_int_codec_identity.
Proof. intros new process o s0 _ Hp _ _. cbn in *. injection Hp as <-. apply _. Qed.

(** Seen through the driver: offered some space, a decoder that asks for another call has
    moved a cursor, or was given no input. *)
Lemma decoder_live d b f st d' b' :
  (forall process, vt_decoder_process (dec_vtable d) = Some process ->
     honest_at process (dec_state d) /\ CursorContract process) ->
  decoder_opts_fit (dec_opts d) ->
  buffer_ok b -> 0 < avail_out b -> valid_flush f ->
  decoder_process d b f = (st, d', b') -> is_progress st = true ->
  src_pos b < src_pos b' \/ dst_pos b < dst_pos b' \/ (st = ZU_NEED_INPUT /\ avail_in b = 0).
Proof.
  intros Hlive Hfit Hb Hout Hf E Hst.
  pose proof (decoder_process_view _ _ _ _ _ _ Hb Hf E) as Hcall. clear E.
  destruct Hcall as [st0 Hfin Hl|process0 allowance capped given st0 s' b1 Hfin Hp0 Hw Hproc
    bb produced tin1 tout1].
  { destruct (dec_finished d).
    - rewrite (Hfin eq_refl) in Hst. by destruct (_ && _).
    - destruct (Hl eq_refl) as [->|[-> _] ]; by vm_compute in Hst. }
  destruct (Hlive _ Hp0) as [Hh Hcc].
  assert (Hor : forall a, is_progress a = true -> is_progress a || status_eqb a ZU_STREAM_END = true)
    by (by intros a ->).
  destruct (verdict_success _ _ _ _ _ _ _ _ (Hor _ Hst)) as (Heq & _). cbn in Heq.
  assert (Epos : dst_pos bb = dst_pos b1 /\ src_pos bb = src_pos b1) by (subst bb; by destruct capped).
  destruct Epos as [-> ->].
  destruct (decoder_window_cases (dec_opts d) (dec_total_out d) b)
    as [Ew|(c & cst & rem & Hce & Hrem & Hlt & Ew)]; rewrite Hw in Ew; injection Ew as -> -> ->.
  - rewrite Heq in Hst |- *.
    destruct (honest_moves process0 _ _ _ _ _ _ Hh Hb Hproc Hst) as [?|[?|[ [? ?]|[_ ?] ] ] ]; auto. lia.
  - pose proof (ceiling_bounds _ _ _ Hfit Hce) as (Hcr & _).
    assert (Hrem0 : 0 <= rem) by (subst rem; destruct (Z.ltb_spec (dec_total_out d) c); lia).
    assert (Hg : buffer_ok (buf_set_dst_size b (dst_pos b + rem))) by (apply window_buffer_ok; [done|lia]).
    rewrite Heq in Hst. pose proof (Hcc _ _ _ _ _ _ Hg Hproc) as [_ _ _ _ Hdp _]. cbn in Hdp.
    destruct (honest_moves process0 _ _ _ _ _ _ Hh Hg Hproc Hst) as [?|[?|[ [Es ?]|[Es Ha] ] ] ]; auto.
    { right. right. by rewrite Heq. }
    exfalso. unfold avail_out in Ha. cbn in Ha.
    assert (Er : rem = 0) by lia. assert (Epr : produced = 0) by (subst produced; replace (dst_pos b1) with (dst_pos b) by lia; by rewrite Z.sub_diag).
    clearbody produced. rewrite Er, Epr, Es in Heq.
    revert Heq. unfold decoder_verdict. status_simpl. change (0 =? 0) with true.
    pose proof (over_status_error (dec_opts d)) as Hov. cbn [andb].
    intros E. rewrite E in Hov. by destruct Hov.
Qed.

Lemma refill_cases r buf fed buf' fed' :
  run_ok r -> whole_refill r buf fed = (buf', fed') ->
  (buf' = buf /\ fed' = fed /\ (src_pos buf <> src_size buf \/ ro_n r <= fed)) \/
  (src_pos buf = src_size buf /\ fed < fed' <= ro_n r /\
   src_size buf' = fed' - fed /\ src_pos buf' = 0).
Proof.
  intros [_ _ _ Hin _ _]. unfold whole_refill.
  destruct (Z.eqb_spec (src_pos buf) (src_size buf)), (Z.ltb_spec fed (ro_n r)); cbn [andb];
    try (intros [= <- <-]; left; split_and!; auto; fail).
  rewrite Z.gtb_ltb. destruct (Z.ltb_spec (ro_in_chunk r) (ro_n r - fed)); intros [= <- <-];
    right; cbn; split_and!; try done; lia.
Qed.

Section termination.
Context {H : Type} (process : H -> zu_buffer -> zu_flush -> zu_status * H * zu_buffer)
  (P : H -> Prop) {Hdrive : Drivable P process}.
Context {alloc : Allocator} {heap : HeapBytes} {ints : Interrupts}.
Context (r : zu_int_run_opts) (Hr : run_ok r).
Context (w0 : r_world) (ptr : Z) (Hw0 : forall a, a ∈ w_blocks w0 -> a < w_next w0).
Context (h0 : H) (before : bytes).

(** The handles are live, and no session over the input gives more than [cap] bytes. *)
Context (Hlive : forall h taken given b f st h' b',
  codec_run process h0 h taken given -> P h -> buffer_ok b -> 0 < avail_out b -> valid_flush f ->
  process h b f = (st, h', b') -> is_progress st = true ->
  src_pos b < src_pos b' \/ dst_pos b < dst_pos b' \/ (st = ZU_NEED_INPUT /\ avail_in b = 0)).
Context (cap : Z) (Hcap : forall h taken given, codec_run process h0 h taken given -> zlen given <= cap).

(** Input not fed yet counts twice: feeding it moves it to the slice in hand. *)
Definition run_measure (s : drive H) (given : bytes) : Z :=
  2 * (ro_n r - dr_fed s) + (src_size (dr_buf s) - src_pos (dr_buf s)) + (cap - zlen given).

Lemma round_call_lowers s taken given i o s' :
  drive_inv P r w0 ptr before s taken given -> codec_run process h0 (dr_handle s) taken given ->
  round_call process r s i o s' -> run_measure s' (given ++ o) < run_measure s given.
Proof.
  intros Hi Hrun Hc. destruct Hc as [buf fed w out st h b' Erf Hb Ep Hst Hm Hstuck].
  pose proof (whole_flush_valid r fed (dr_calls s)) as Hfl.
  destruct (moved_counts _ _ _ _ Hb Hm) as [Hin Hout]. pose proof (zlen_nonneg i). pose proof (zlen_nonneg o).
  pose proof Hm as [ [_ Ess Eds _ _ _] _ _]. cbn in Ess, Eds.
  unfold avail_in, avail_out in Hin, Hout. cbn in Hin, Hout. rewrite Ess in Hin. rewrite Eds in Hout.
  unfold run_measure. cbn [dr_fed dr_buf]. rewrite zlen_app, Ess.
  destruct (refill_cases _ _ _ _ _ Hr Erf) as [(-> & -> & Hspent)|(He & Hfed & Hz & Hp0)]; [|lia].
  assert (Hmoved : 0 < zlen i + zlen o); [|lia].
  assert (Havail : 0 < avail_out (whole_window r out (dr_buf s)))
    by (unfold avail_out; cbn; destruct Hr; lia).
  destruct (Hlive _ _ _ _ _ _ _ _ Hrun (di_handle _ _ _ _ _ _ _ _ Hi) Hb Havail Hfl Ep Hst)
    as [Hl|[Hl|[-> Hl] ] ]; unfold avail_in in *; cbn in Hl; try lia.
  destruct (Z.eq_dec (zlen o) 0) as [Eo|]; [|lia]. exfalso. revert Hstuck. status_simpl.
  unfold whole_last. rewrite (proj2 (Z.eqb_eq (dst_pos b') 0)) by lia.
  rewrite (proj2 (Z.geb_le (dr_fed s) (ro_n r))) by lia. done.
Qed.

Lemma loop_returns fuel : forall s taken given,
  drive_inv P r w0 ptr before s taken given -> drive_run process r h0 s taken given ->
  (Z.to_nat (run_measure s given) < fuel)%nat -> is_Some (whole_loop process r fuel s).
Proof.
  induction fuel as [|fuel IH]; intros s taken given Hi Hrun Hf; [lia|]. cbn [whole_loop].
  pose proof (round_spec process P r Hr w0 ptr Hw0 h0 before _ _ _ Hi Hrun) as Hround.
  destruct (whole_round process r s) as [ [e|] s']; [by eexists|].
  destruct Hround as (i & o & Hi' & Hrun' & Hc).
  pose proof (round_call_lowers _ _ _ _ _ _ Hi (drive_codec_run _ _ _ _ _ _ Hrun) Hc) as Hlow.
  apply (IH s' _ _ Hi' Hrun'). pose proof (Hcap _ _ _ (drive_codec_run _ _ _ _ _ _ Hrun')).
  assert (0 <= run_measure s' (given ++ o)); [|lia].
  unfold run_measure. pose proof (di_fed _ _ _ _ _ _ _ _ Hi'). pose proof (di_pos _ _ _ _ _ _ _ _ Hi'). lia.
Qed.

End termination.

(** Calls that are enough: each but the last feeds, takes or gives a byte. *)
Definition run_fuel (r : zu_int_run_opts) (limit : Z) : nat :=
  S (Z.to_nat (2 * ro_n r + limit)).

(** A limited decode returns.  With a ceiling on the output -- [max_output] or an
    expected size -- and a codec whose decoders ask for input only when they have none left,
    and for room only when they have none left, the drive loop ends, by a status or an interrupt,
    within [2 n + ceiling + 1] calls, whatever the input, the chunk sizes and the
    allocator. *)
Theorem limited_decode_returns {alloc : Allocator} {heap : HeapBytes} {ints : Interrupts}
    (reg : registry) (v : zu_codec_vtable)
    (r : zu_int_run_opts) (w0 w : r_world) (ptr : Z) (o0 o : zu_int_outbuf)
    (ceiling : Z) (over : zu_status) :
  registry_contract reg -> run_ok r -> decoder_opts_fit (run_decoder_opts r) ->
  (forall a, a ∈ w_blocks w0 -> a < w_next w0) ->
  zu_int_outbuf_owner w0 o0 = (ptr, w, o) ->
  ro_encode r = false -> decoder_ceiling (run_decoder_opts r) = Some (ceiling, over) ->
  zu_int_registry_lookup reg (ro_codec r) = Some v -> is_Some (vt_decoder_process v) ->
  HonestDecoder v ->
  is_Some (zu_int_run_whole reg (run_fuel r ceiling) (Some r) w (Some o)).
Proof.
  intros Hreg Hr Hfit Hw0 Hown Hdir Hce Hl [process Hp] Hlive.
  destruct (owner_owned _ _ _ _ _ Hw0 Hown) as (_ & Hro & Hsw & _ & Hso).
  unfold zu_int_run_whole. pose proof Hr as [Hn _ _ Hin Hout _].
  destruct (Z.eqb_spec (ro_in_chunk r) 0); [lia|]. destruct (Z.eqb_spec (ro_out_chunk r) 0); [lia|].
  cbn [orb]. rewrite Hdir. unfold whole_drive.
  destruct (zu_decoder_new _ _ _) as [d0|] eqn:Enew; [|by eexists].
  assert (Hreach : decoder_reachable reg d0) by (eapply dr_new; [apply decoder_opts_bytes_ok|exact Enew]).
  destruct (decoder_new_codec reg v _ _ Hfit eq_refl Hl Enew) as (new & s0 & Hnew & Es0 & ->).
  specialize (Hlive new process _ s0 Hnew Hp Hfit Es0).
  assert (Hc : CursorContract process).
  { pose proof (reachable_contract _ _ Hreg Hreach) as Hc. unfold codec_contract in Hc. cbn in Hc.
    by rewrite Hp in Hc. }
  pose proof (ceiling_bounds _ _ _ Hfit Hce) as (Hcr & Hcm & Hcx & Hwhich).
  assert (Hcount : forall d taken given,
    codec_run decoder_process (mk_decoder v s0 (run_decoder_opts r) false 0 0) d taken given ->
    dec_vtable d = v /\ dec_opts d = run_decoder_opts r /\ zlen given <= ceiling).
  { intros d taken given Hrun.
    destruct (decoder_run_counts v process Hp Hc _ Hfit _ _ _ _ Hrun) as ([_ Hm He _] & Eo & Ev & Ht).
    rewrite Eo in Hm, He. rewrite <- Ht by (by rewrite Hce). split_and!; try done.
    destruct Hwhich as [(_ & -> & ? & _)|(_ & -> & ?)]; auto. }
  pose proof (decoder_drivable reg Hreg) as Hdrv.
  destruct (loop_returns decoder_process (decoder_reachable reg) r Hr w0 ptr Hw0
    (mk_decoder v s0 (run_decoder_opts r) false 0 0) []) with
    (cap := ceiling) (fuel := run_fuel r ceiling)
    (s := drive_start (mk_decoder v s0 (run_decoder_opts r) false 0 0) w o)
    (taken := @nil Z) (given := @nil Z) as [ [e s] ->]; [..|by eexists].
  - intros h taken given b f st h' b' Hrun _ Hb Ha Hf E Hst.
    destruct (decoder_run_codec v process Hp Hc _ Hfit _ _ _ _ Hrun) as (s & tin & tout & -> & Hcrun).
    refine (decoder_live (mk_decoder v s (run_decoder_opts r) false tin tout) b f st h' b' _ Hfit Hb Ha Hf E Hst).
    cbn. rewrite Hp. intros ? [= <-]. split; [exact (Hlive _ _ _ Hcrun)|done].
  - intros h taken given Hrun. apply (Hcount _ _ _ Hrun).
  - by apply start_inv.
  - apply start_run.
  - unfold run_measure, run_fuel. change (zlen (@nil Z)) with 0. cbn [drive_start dr_fed dr_buf src_size src_pos]. lia.
Qed.

Lemma limited_decode_returns_witness :
  let r := mk_run_opts (Some [1; 2; 3; 4; 5]) 5 false ZU_CODEC_IDENTITY ZU_LEVEL_DEFAULT 4 0 0 0 2 3 0 in
  run_fuel r 4 = 15%nat /\
  is_Some (zu_int_run_whole (alloc := fun _ => true) (heap := fun _ => 0) (ints := quiet)
    id_registry (run_fuel r 4) (Some r) toy_sink.1.2 (Some toy_sink.2)).
Proof.
  split; [reflexivity|].
  apply (limited_decode_returns (alloc := fun _ => true) (heap := fun _ => 0) (ints := quiet)
    id_registry zu_int_codec_identity _ toy_world toy_sink.1.2 toy_sink.1.1
    toy_outbuf toy_sink.2 4 ZU_ERR_OUTPUT_LIMIT).
  - exact id_registry_contract.
  - constructor; try (apply bytes_okb_ok; vm_compute; reflexivity); vm_compute; repeat split; discriminate.
  - vm_compute. repeat split; discriminate.
  - exact toy_world_fresh.
  - reflexivity.
  - reflexivity.
  - vm_compute. reflexivity.
  - reflexivity.
  - by eexists.
  - exact identity_honest.
Defined.
