(* ===== verification/DeflateRuns.v ===== *)
(** * Whole-buffer runs of deflate-raw, zlib and gzip

    The integrity of the decoder and the framing of the encoder, carried through the
    stream driver and the drive loop to the bytes in the sink, and what the two directions
    make of each other when miniz's inflate inverts its deflate. *)
From stdpp Require Import gmap.
From S2P Require Import Prelude Types SizeArith ProcessLoop Registry Stream Identity StreamProps Session Whole WholeProps WholeRuns.
From S2P Require Import Checksum GzipHeader Deflate DeflateProps DeflateFraming DeflateDecode Zstd ZstdProps Lz4 Lz4Props Lz4Block Lz4BlockProps Builtins.

Section runs.
Context {mz : Miniz} {mz_ok : MinizOk} {alloc : Allocator}.

Definition deflate_codec (w : wrap_kind) : zu_codec_vtable :=
  match w with
  | WRAP_NONE => zu_int_codec_deflate_raw
  | WRAP_ZLIB => zu_int_codec_zlib
  | WRAP_GZIP => zu_int_codec_gzip
  end.

Lemma deflate_new_fields w enc level flags s :
  zu_int_deflate_new w enc level flags = Ok s -> df_dec_flags s = flags /\
  (enc = true -> exists l, mz_deflateInit2 mz_stream_zero l = (MZ_OK, df_mz s)).
Proof.
  unfold zu_int_deflate_new. destruct (negb (alloc_ok req_state)); [done|]. cbv zeta.
  destruct enc.
  - destruct (mz_deflateInit2 _ _) as [r m] eqn:Ei. destruct (Z.eqb_spec r MZ_OK); cbn [negb]; [|done].
    intros [= <-]. subst r. destruct w; cbn; split; eauto.
  - destruct (mz_inflateInit2 _) as [r m]. destruct (negb (r =? MZ_OK)); [done|].
    intros [= <-]. destruct w; done.
Qed.

(** A decoder session that ends: whole members, and nothing but what they hold. *)
Definition decodes (w : wrap_kind) (flags : Z) (taken given : bytes) : Prop :=
  exists input held, taken = input ++ held /\ members w (concatenates w flags) input given /\
    (held = [] \/ held = [0x1f] /\ concatenates w flags = true).

Lemma codec_session_decodes x w flags s0 s taken given :
  zu_int_deflate_new w false ZU_LEVEL_DEFAULT flags = Ok s0 ->
  session deflate_process x s0 ZU_STREAM_END s taken given -> decodes w flags taken given.
Proof.
  intros Hnew Hs. destruct (deflate_new_fields _ _ _ _ _ Hnew) as [<- _].
  assert (Hf : deflate_fresh w false s0) by (left; eauto).
  remember ZU_STREAM_END as st eqn:Est.
  destruct Hs as [fin s1 taken given b f st s2 b' i o Hr%ordered_codec_run Hb Hby Hfl Hfin Hx E Hst Hm].
  subst st.
  destruct (deflate_decoder_integrity w s0 s1 taken given b f s2 b' Hf Hr Hb Hby E)
    as (i' & o' & input & held & Hm' & Ei & Hmem & Hh).
  destruct (moved_unique _ _ _ _ _ _ Hm Hm') as [-> ->]. by exists input, held.
Qed.

(** An encoder session that ends: one frame of what it took. *)
Definition encodes (w : wrap_kind) (taken given : bytes) : Prop :=
  exists level l m0 m p, mz_deflateInit2 mz_stream_zero l = (MZ_OK, m0) /\
    mz_session mz_deflate m0 m taken p true /\
    given = enc_header w level ++ p ++ frame_trailer w taken.

Lemma codec_session_encodes x w level s0 s taken given :
  zu_int_deflate_new w true level 0 = Ok s0 ->
  session deflate_process x s0 ZU_STREAM_END s taken given -> encodes w taken given.
Proof.
  intros Hnew Hs. destruct (deflate_new_fields _ _ _ _ _ Hnew) as [_ Hi].
  destruct (Hi eq_refl) as [l Hl].
  assert (Hf : deflate_fresh w true s0) by (left; eauto).
  remember ZU_STREAM_END as st eqn:Est.
  destruct Hs as [fin s1 taken given b f st s2 b' i o Hr%ordered_codec_run Hb Hby Hfl Hfin Hx E Hst Hm].
  subst st.
  destruct (deflate_encoder_frames w s0 s1 taken given b f _ s2 b' Hf Hr Hb Hby E eq_refl)
    as (i' & o' & p & m & fin1 & Hm' & Hsess & _ & Hend).
  destruct (moved_unique _ _ _ _ _ _ Hm Hm') as [-> ->]. destruct (Hend eq_refl) as [-> Eo].
  by exists (df_level s0), l, (df_mz s0), m, p.
Qed.

(** ** An encoder that ends has taken all of its input

    miniz.h: mz_deflate returns MZ_STREAM_END, to MZ_FINISH, "when all input has been
    consumed and all output bytes have been written". *)
Class MinizDrains : Prop :=
  mz_drains : forall l m0 m x p next_in room flush,
    mz_deflateInit2 mz_stream_zero l = (MZ_OK, m0) -> mz_session mz_deflate m0 m x p false ->
    let r := mz_deflate m next_in room flush in
    mz_ret r = MZ_STREAM_END -> flush = MZ_FINISH /\ mz_used r = zlen next_in.

Section drains.
Context {drains : MinizDrains}.

Definition enc_ended (s : deflate_state) : Prop := df_state s = ST_TRAILER \/ df_state s = ST_DONE.

(** [mz_window] caps what miniz is offered. *)
Definition mz_limit : Z := 0x7fffffff.

Lemma from_mz_end r : r <> MZ_STREAM_END -> zu_int_from_mz r <> ZU_STREAM_END.
Proof.
  intros H. unfold zu_int_from_mz. rewrite (proj2 (Z.eqb_neq r MZ_STREAM_END) H). by repeat split_if.
Qed.

Lemma enc_round_ends w l level m0 s eaten out b f :
  mz_deflateInit2 mz_stream_zero l = (MZ_OK, m0) -> enc_inv w level m0 s eaten out -> buffer_ok b ->
  (enc_ended s -> f = ZU_FINISH /\ avail_in b = 0) -> (f = ZU_FINISH -> avail_in b <= mz_limit) ->
  let r := deflate_round s b f in
  enc_ended r.1.2 \/ r.1.1 = Some ZU_STREAM_END -> f = ZU_FINISH /\ avail_in r.2 = 0.
Proof.
  intros Hl Hi Hb Hne Hlim. pose proof Hi as [ [Ew Ee _ _ _ _ _ _] _ _ Hst]. unfold enc_ended in *. unfold deflate_round.
  destruct (df_state s) eqn:Es; [| | |done|by intros _; apply Hne; right].
  3:{ intros _. specialize (Hne ltac:(by left)). unfold deflate_trailer. rewrite Ee.
      by repeat split_if. }
  { unfold deflate_header. rewrite Ee. repeat split_if; cbn; rewrite ?Es; intros [ [?|?]|?]; try done; congruence. }
  destruct Hst as (p & Hm & _). rewrite deflate_body_eq, Ee. cbv zeta.
  destruct (_ && true); [cbn; rewrite Es; by intros [ [?|?]|?]|].
  destruct (body_state_fields s b f) as (E1 & E2 & E3 & E4).
  destruct (Z.eqb_spec (mz_ret (mz_crank s b f)) MZ_STREAM_END) as [Eend|Nend].
  - intros _. rewrite body_end_buffer. unfold mz_crank in *. rewrite Ee in *.
    destruct (mz_drains _ _ _ _ _ _ _ _ Hl Hm Eend) as [Hf Hu]. unfold mz_flush_of in Hf. rewrite Ee in Hf.
    assert (f = ZU_FINISH) as -> by (by destruct f). split; [done|]. specialize (Hlim eq_refl).
    pose proof (avail_in_nonneg b Hb). unfold crank_buffer, mz_crank. rewrite Ee.
    unfold mz_window, mz_limit in *. rewrite Z.gtb_ltb in *.
    destruct (Z.ltb_spec 0x7fffffff (avail_in b)); [lia|]. rewrite (zlen_src_sub b (avail_in b)) in Hu by (done || lia).
    unfold avail_in in *. cbn. lia.
  - destruct (_ && _); [|destruct (_ && _)]; cbn; rewrite ?E1, ?Es; intros [ [?|?]|HE]; try done.
    + injection HE as HE. by destruct (from_mz_end _ Nend HE).
    + injection HE as HE. by destruct (body_stuck_not_end _ _ _ _ HE).
Qed.
Lemma deflate_encoder_ends w level x s0 :
  zu_int_deflate_new w true level 0 = Ok s0 -> zlen x <= mz_limit ->
  ends_with_input deflate_process x s0 enc_ended.
Proof.
  intros Hnew Hx s taken given b f st s' b' Hr Hb Hby Hlen E Hend.
  destruct (decide (df_state s = ST_TRAILER)) as [?|H1]; [by left; left|].
  destruct (decide (df_state s = ST_DONE)) as [?|H2]; [by left; right|]. right.
  destruct (deflate_new_fields _ _ _ _ _ Hnew) as [_ Hi]. destruct (Hi eq_refl) as [l Hl].
  assert (Hf : deflate_fresh w true s0) by (left; eauto).
  pose proof (enc_run _ _ _ _ _ _ _ (fresh_enc w s0 Hf) Hr) as Hinv.
  pose proof (deflate_process_loop s b f Hb) as El. rewrite E in El. revert Hend.
  refine (process_loop_inv deflate_round
    (fun s1 b1 => (enc_ended s1 -> f = ZU_FINISH /\ avail_in b1 = 0) /\ exists i o, moved b b1 i o /\
       enc_inv w (df_level s0) (df_mz s0) s1 (taken ++ i) (given ++ o))
    (fun st1 s1 b1 => enc_ended s1 \/ st1 = ZU_STREAM_END -> f = ZU_FINISH /\ avail_in b1 = 0)
    f _ _ s b (st, s', b') _ El).
  2:{ split; [by intros [?|?] |]. exists [], []. rewrite !app_nil_r. split; [by apply moved_refl|done]. }
  intros s1 b1 [Hne (i & o & Hm & Hi1)]. pose proof (moved_ok _ _ _ _ Hb Hm) as Hb1.
  assert (Hlim : f = ZU_FINISH -> avail_in b1 <= mz_limit).
  { intros Ef. specialize (Hlen Ef). destruct (moved_counts _ _ _ _ Hb Hm) as [Hc _]. pose proof (zlen_nonneg i). lia. }
  pose proof (enc_round_ends w l _ _ s1 _ _ b1 f Hl Hi1 Hb1 Hne Hlim) as Hends. cbv zeta in Hends.
  destruct (enc_round w _ _ s1 _ _ b1 f Hi1 Hb1) as (i1 & o1 & Hm1 & Hp).
  { by rewrite (buffer_step_src b b1) by apply (mv_step _ _ _ _ Hm). }
  rewrite <- !(assoc_L (++)) in Hp. pose proof (moved_trans _ _ _ _ _ _ _ Hm Hm1).
  destruct (deflate_round s1 b1 f) as [ [ [st1|] s2] b2]; cbn [fst snd] in *.
  - intros [?| ->]; apply Hends; auto.
  - split; [|by eauto]. intros ?. apply Hends. by left.
Qed.

#[export] Instance deflate_takes_all w : EncoderTakesAll (deflate_codec w) mz_limit.
Proof.
  intros x new process o s0 s taken given Hn Hp En Hx Hs.
  assert (Htake : forall level s1 s2, zu_int_deflate_new w true level 0 = Ok s1 ->
    session deflate_process x s1 ZU_STREAM_END s2 taken given -> taken = x).
  { intros level s1 s2 Hnew Hs'. apply (session_takes_all deflate_process x s1 enc_ended s2 taken given);
      [by eapply deflate_encoder_ends| |exact Hs'].
    revert Hnew. unfold zu_int_deflate_new. destruct (negb _); [done|]. cbv zeta.
    destruct (mz_deflateInit2 _ _) as [r m]. destruct (negb (r =? MZ_OK)); [done|].
    intros [= <-]. by destruct w; intros [?|?]. }
  destruct w; cbn in *; injection Hn as <-; injection Hp as <-; by eapply Htake.
Qed.
End drains.

(** ** Frames read back *)

(** What inflate owes deflate: a complete session over bytes that begin with the payload of
    a complete deflate session ends where that payload ends, with what went into it. *)
Class MinizInverse : Prop :=
  mz_inverse : forall l m0 m x p n0 n q o t t',
    bytes_ok x -> bytes_ok (p ++ t) -> mz_deflateInit2 mz_stream_zero l = (MZ_OK, m0) ->
    mz_session mz_deflate m0 m x p true -> inflate_fresh n0 ->
    mz_session mz_inflate n0 n q o true -> p ++ t = q ++ t' -> q = p /\ o = x.

Lemma gzip_written_header : gz_fields_ok gz_plain /\ gz_encode gz_plain = zu_int_gzip_write_header.
Proof.
  split; [|reflexivity].
  constructor; [vm_compute; split; [discriminate|reflexivity]|reflexivity|..]; split;
    try (apply bytes_okb_ok; reflexivity); try reflexivity; try constructor;
    vm_compute; discriminate.
Qed.

(** Where an accepted header ends is decided by the bytes. *)
Lemma header_unique w level h t t' :
  header_accepted w h -> bytes_ok (h ++ t) -> h ++ t = enc_header w level ++ t' ->
  h = enc_header w level /\ t = t'.
Proof.
  intros Hh Hb E. destruct w; cbn [header_accepted enc_header] in *.
  - by subst h.
  - destruct Hh as [Hl _]. apply app_inj_1; [|done]. unfold zlen in Hl.
    rewrite zlib_header_length. lia.
  - destruct Hh as (g & Hg & ->). destruct gzip_written_header as [Hp <-].
    assert (Ha : gz_accepts zu_int_gzip_header_init (gz_encode g ++ t) t)
      by (apply gz_accepts_init; [done|by exists g]).
    assert (Ha' : gz_accepts zu_int_gzip_header_init (gz_encode g ++ t) t').
    { rewrite E in Hb |- *. apply gz_accepts_init; [done|by exists gz_plain]. }
    destruct Ha as [h1 E1], Ha' as [h2 E2]. rewrite E1 in E2. injection E2 as _ ->.
    by apply app_inv_tail in E.
Qed.

Section inverse.
Context {inverse : MinizInverse}.

Lemma member_unique w x c i o tl :
  bytes_ok x -> encodes w x c -> member w i o -> bytes_ok (i ++ tl) -> i ++ tl = c ->
  i = c /\ o = x /\ tl = [].
Proof.
  intros Hx (level & l & m0 & m & p & Hi & Hs & ->) (h & q & n0 & n & Hh & Hf & Hd & ->) Hb E.
  rewrite <- !app_assoc in Hb, E.
  destruct (header_unique w level _ _ _ Hh Hb E) as [-> E'].
  assert (Hb' : bytes_ok (p ++ frame_trailer w x)).
  { rewrite E in Hb. by apply Forall_app in Hb as [_ ?]. }
  destruct (mz_inverse l m0 m x p n0 n q o (frame_trailer w x) (frame_trailer w o ++ tl)
    Hx Hb' Hi Hs Hf Hd (eq_sym E')) as [-> ->].
  apply app_inv_head in E'. rewrite <- (app_nil_r (frame_trailer w x)) in E' at 2.
  apply app_inv_head in E'. by subst tl.
Qed.

Lemma members_unique w concat x c i o :
  (concat = true -> w = WRAP_GZIP) -> bytes_ok x -> bytes_ok c -> encodes w x c ->
  members w concat i o -> forall tl, i ++ tl = c -> i = c /\ o = x /\ tl = [].
Proof.
  intros Hw Hx Hc He. induction 1 as [i o Hm|i o i1 o1 Hct Hmore IH Hm]; intros tl E.
  - apply (member_unique w x c); try done. by rewrite E.
  - rewrite <- app_assoc in E. destruct (IH _ E) as (_ & _ & Hnil).
    apply app_eq_nil in Hnil as [-> _]. exfalso.
    destruct Hm as (h & q & n0 & n & _ & _ & _ & Enil). rewrite (Hw Hct) in Enil.
    symmetry in Enil. apply app_eq_nil in Enil as [_ [_ Enil]%app_eq_nil]. discriminate Enil.
Qed.

Lemma decodes_encoded w flags x c rest taken given :
  bytes_ok x -> bytes_ok c -> encodes w x c -> decodes w flags taken given -> c = taken ++ rest ->
  given = x /\ taken = c.
Proof.
  intros Hx Hc He (i & held & -> & Hm & _) E. rewrite <- app_assoc in E.
  destruct (members_unique w (concatenates w flags) x c i given) with (tl := held ++ rest) as (-> & -> & Hnil); try done.
  - unfold concatenates. by destruct w.
  - apply app_eq_nil in Hnil as [-> _]. by rewrite app_nil_r.
Qed.

(** The interface of the drive loop's round trip, for the three wrappers. *)
#[export] Instance deflate_inverse w : CodecInverse (deflate_codec w).
Proof.
  intros x c new process o s0 s taken given rest Hx Hc (en & ep & eo & e0 & e & input & Hen & Hep & Een & Hes)
    Hn Hp _ En Hs E.
  assert (Hencodes : encodes w x c).
  { destruct w; cbn in *; injection Hen as <-; injection Hep as <-; by eapply codec_session_encodes. }
  assert (Hdecodes : decodes w (do_flags o) taken given).
  { destruct w; cbn in *; injection Hn as <-; injection Hp as <-; by eapply codec_session_decodes. }
  by eapply decodes_encoded.
Qed.

End inverse.

End runs.

(** ** Runs *)

(** A DEFLATE run that ends has decoded.  When a whole-buffer run of the deflate-raw,
    zlib or gzip decoder returns the end of the stream -- for any input, chunk sizes, limits
    and allocator -- the input begins with whole members, [consumed] is their length (plus
    the one 0x1f a gzip probe may hold), the sink holds exactly what the members decode to,
    each with its header accepted and its trailer verified, no more than [max_output] and
    exactly the expected size when one was given. *)
Theorem deflate_run_integrity {mz : Miniz} {mz_ok : MinizOk} {alloc : Allocator}
    {heap : HeapBytes} {ints : Interrupts} (reg : registry) (w : wrap_kind) (fuel : nat)
    (r : zu_int_run_opts) (w0 : r_world) (o0 : zu_int_outbuf) (res : whole_result) :
  registry_contract reg -> Forall encoder_contract (reg_vtables reg) -> constructors_final reg ->
  zu_int_registry_lookup reg (vt_codec (deflate_codec w)) = Some (deflate_codec w) ->
  runs reg fuel r w0 o0 res -> ro_encode r = false ->
  ro_codec r = vt_codec (deflate_codec w) -> decoder_opts_fit (run_decoder_opts r) ->
  wr_status res = Some ZU_STREAM_END ->
  exists input held rest, run_input r = input ++ held ++ rest /\
    ob_consumed (wr_out res) = zlen (input ++ held) /\
    members w (concatenates w (ro_dec_flags r)) input (sink_written (wr_out res)) /\
    (held = [] \/ held = [0x1f] /\ concatenates w (ro_dec_flags r) = true) /\
    (ro_max_output r <> 0 -> zlen (sink_written (wr_out res)) <= ro_max_output r) /\
    (has_flag (ro_dec_flags r) ZU_DEC_EXPECTED_SIZE = true ->
     zlen (sink_written (wr_out res)) = ro_expected_size r).
Proof.
  intros Hd He Hf Hl Hrun Hdir Hc Hfit Hst.
  assert (Hses : exists taken rest, run_input r = taken ++ rest /\
    ob_consumed (wr_out res) = zlen taken /\
    decodes w (ro_dec_flags r) taken (sink_written (wr_out res)) /\
    (ro_max_output r <> 0 -> zlen (sink_written (wr_out res)) <= ro_max_output r) /\
    (has_flag (ro_dec_flags r) ZU_DEC_EXPECTED_SIZE = true ->
     zlen (sink_written (wr_out res)) = ro_expected_size r)).
  { rewrite <- Hc in Hl.
    pose proof (run_decoder_session reg Hd He Hf (deflate_codec w)) as Hrs.
    destruct w; destruct (Hrs _ _ _ _ _ _ _ eq_refl eq_refl Hl Hrun Hdir Hfit Hst)
        as (s0 & s & taken & rest & En & Ei & Hcons & Hs & Hlim);
      exists taken, rest; split_and!; try done; try apply Hlim; by eapply codec_session_decodes. }
  destruct Hses as (taken & rest & Ei & Hcons & (input & held & -> & Hm & Hh) & Hlim).
  exists input, held, rest. split; [by rewrite Ei, <- app_assoc|]. do 2 (split; [done|]).
  split; [exact Hh|exact Hlim].
Qed.

(** What one direction writes, the other reads back.  If a whole-buffer run of a
    DEFLATE-family encoder ends, and a run of the decoder over the bytes in its sink ends,
    at any level, chunk sizes, flush interval and limits, then the decoder consumed all of
    them and its sink holds exactly the bytes the encoder consumed. *)
Theorem deflate_whole_roundtrip {mz : Miniz} {mz_ok : MinizOk} {inverse : MinizInverse}
    {alloc : Allocator} {heap : HeapBytes} {ints : Interrupts}
    (reg : registry) (w : wrap_kind) (fuel1 fuel2 : nat)
    (r1 r2 : zu_int_run_opts) (w1 w2 : r_world) (o1 o2 : zu_int_outbuf) (res1 res2 : whole_result) :
  registry_contract reg -> Forall encoder_contract (reg_vtables reg) -> constructors_final reg ->
  zu_int_registry_lookup reg (vt_codec (deflate_codec w)) = Some (deflate_codec w) ->
  runs reg fuel1 r1 w1 o1 res1 -> ro_encode r1 = true -> ro_codec r1 = vt_codec (deflate_codec w) ->
  encoder_opts_fit (run_encoder_opts r1) -> wr_status res1 = Some ZU_STREAM_END ->
  runs reg fuel2 r2 w2 o2 res2 -> ro_encode r2 = false -> ro_codec r2 = vt_codec (deflate_codec w) ->
  decoder_opts_fit (run_decoder_opts r2) -> wr_status res2 = Some ZU_STREAM_END ->
  run_input r2 = sink_written (wr_out res1) ->
  sink_written (wr_out res2) =
    take (Z.to_nat (ob_consumed (wr_out res1))) (run_input r1) /\
  ob_consumed (wr_out res2) = zlen (run_input r2).
Proof.
  intros Hd He Hf Hl. apply (runs_roundtrip reg Hd He Hf (deflate_codec w));
    [destruct w; by eexists..|done].
Qed.

(** ** The small library inverts itself *)

Fixpoint toy_parse (l : bytes) : option (bytes * bytes) :=
  match l with
  | 0 :: t => Some ([], t)
  | 1 :: c :: t => (fun p => (c :: p.1, p.2)) <$> toy_parse t
  | 2 :: t => toy_parse t
  | _ => None
  end.

Definition toy_prefix (x : bytes) (p : option (bytes * bytes)) : option (bytes * bytes) :=
  (fun p => (x ++ p.1, p.2)) <$> p.
Arguments toy_prefix : simpl never.

Lemma toy_prefix_app x y p : toy_prefix (x ++ y) p = toy_prefix x (toy_prefix y p).
Proof. destruct p as [ [a b]|]; [|done]. unfold toy_prefix. cbn. by rewrite <- app_assoc. Qed.

Lemma toy_prefix_nil p : toy_prefix [] p = p.
Proof. by destruct p as [ [a b]|]. Qed.

(** What a session has written so far reads as what it took. *)
Lemma toy_deflate_session m x p fin :
  mz_session toy_deflate 0 m x p fin -> bytes_ok x ->
  (m = if fin then 2 else 0) /\
  forall l, toy_parse (p ++ l) = toy_prefix x (if fin then Some ([], l) else toy_parse l).
Proof.
  induction 1 as [|m x p next_in room flush r Hs IH -> Hret]; intros Hx.
  { split; [done|]. intros l. by rewrite toy_prefix_nil. }
  apply Forall_app in Hx as [Hx Hu]. destruct (IH Hx) as [-> Hp]. clear IH.
  revert Hu Hret. unfold toy_deflate. change (0 =? 2) with false. cbv iota.
  destruct next_in as [|c next_in].
  - destruct (room <? 1); [|destruct (flush =? MZ_FINISH); [|destruct (flush =? MZ_SYNC_FLUSH)]]; cbn;
      intros _ _; rewrite ?app_nil_r; (split; [done|]); intros l; try apply Hp; rewrite <- app_assoc, Hp; unfold toy_prefix; cbn; by rewrite ?app_nil_r.
  - destruct (2 <=? room); cbn; intros Hu _; rewrite ?app_nil_r; (split; [done|]); intros l;
      [|apply Hp].
    apply Forall_cons in Hu as [Hc _]. rewrite <- app_assoc, Hp, toy_prefix_app. f_equal. cbn.
    unfold u8. rewrite Z.mod_small by (unfold byte_ok in Hc; lia). by destruct (toy_parse l) as [ [? ?]|].
Qed.

Lemma toy_inflate_session m q o fin :
  mz_session toy_inflate 0 m q o fin -> bytes_ok q ->
  match m with
  | 0 => fin = false /\ forall l, toy_parse (q ++ l) = toy_prefix o (toy_parse l)
  | 1 => fin = false /\ forall c l, toy_parse (q ++ c :: l) = toy_prefix (o ++ [c]) (toy_parse l)
  | 2 => fin = true /\ forall l, toy_parse (q ++ l) = Some (o, l)
  | _ => False
  end.
Proof.
  induction 1 as [|m q o next_in room flush r Hs IH -> Hret]; intros Hq.
  { split; [done|]. intros l. by rewrite toy_prefix_nil. }
  apply Forall_app in Hq as [Hq Hu]. specialize (IH Hq). revert Hu Hret.
  assert (Hst : m = 0 \/ m = 1 \/ m = 2).
  { destruct m as [|[?|[?|?|]|]|?]; try done; auto. }
  destruct Hst as [-> |[-> | ->] ]; [| |by destruct IH].
  - destruct IH as [_ IH]. unfold toy_inflate. change (0 =? 2) with false. change (0 =? 1) with false.
    cbv iota. destruct next_in as [|c next_in]; [cbn; rewrite !app_nil_r; intros _ _; by split|].
    destruct (Z.eqb_spec c 0) as [->|]; [|destruct (Z.eqb_spec c 1) as [->|];
      [|destruct (Z.eqb_spec c 2) as [->|]; [|cbn; intros _ [?|[?|?] ]; discriminate]]]; cbn; intros _ _;
      rewrite ?app_nil_r; (split; [done|]); intros; rewrite <- app_assoc, IH; cbn; try done.
    + change (Z.to_nat 1) with 1%nat. unfold toy_prefix. cbn. by rewrite app_nil_r.
    + change (Z.to_nat 1) with 1%nat. cbn. rewrite toy_prefix_app. f_equal.
  - destruct IH as [_ IH]. unfold toy_inflate. change (1 =? 2) with false. change (1 =? 1) with true.
    cbv iota. destruct next_in as [|c next_in]; [cbn; rewrite !app_nil_r; intros _ _; by split|].
    destruct (1 <=? room); cbn; intros Hu _; rewrite ?app_nil_r; (split; [done|]); [|done].
    apply Forall_cons in Hu as [Hc _]. intros l. change (Z.to_nat 1) with 1%nat. rewrite <- app_assoc. cbn. rewrite IH.
    unfold u8. by rewrite Z.mod_small by (unfold byte_ok in Hc; lia).
Qed.

Lemma toy_inverse : @MinizInverse toy_miniz.
Proof.
  intros l m0 m x p n0 n q o t t' Hx Hb Hi Hs Hf Hd E. injection Hi as <-.
  assert (n0 = 0) as -> by (destruct Hf as [H|[? H] ]; by injection H).
  destruct (toy_deflate_session _ _ _ _ Hs Hx) as [_ Hp]. specialize (Hp t). unfold toy_prefix in Hp. cbn in Hp.
  rewrite app_nil_r in Hp. assert (Hq : bytes_ok q).
  { rewrite E in Hb. by apply Forall_app in Hb as [? _]. }
  assert (Ho : toy_parse (q ++ t') = Some (o, t')).
  { pose proof (toy_inflate_session _ _ _ _ Hd Hq) as Hn.
    destruct n as [|[?|[?|?|]|]|?]; try done; destruct Hn; done. }
  rewrite E, Ho in Hp. injection Hp as -> ->. split; [|done]. symmetry. by eapply app_inv_tail.
Qed.

(** ** Witness: three bytes through gzip and back, in small chunks *)

#[local] Existing Instance toy_miniz.
#[local] Existing Instance toy_miniz_ok.
#[local] Existing Instance toy_inverse.
#[local] Instance some_alloc : Allocator := fun _ => true.
#[local] Instance some_heap : HeapBytes := fun _ => 0.
#[local] Existing Instance quiet.
#[local] Existing Instances toy_zstd toy_zstd_ok toy_lz4 toy_lz4_ok toy_block_ok.

Definition gzip_run (encode : bool) (input : bytes) (max_output : Z) : zu_int_run_opts :=
  mk_run_opts (Some input) (zlen input) encode ZU_CODEC_GZIP ZU_LEVEL_DEFAULT max_output 0 0 0 2 3 0.

Definition gzip_result (encode : bool) (input : bytes) (max_output : Z) : whole_result :=
  default no_result (zu_int_run_whole toy_builtin_registry 400 (Some (gzip_run encode input max_output))
    toy_sink.1.2 (Some toy_sink.2)).

Definition gzip_text : bytes := [104; 105; 106].
Definition gzip_packed : bytes :=
  zu_int_gzip_write_header ++ [1; 104; 1; 105; 1; 106; 0] ++ le_bytes 4 (mz_crc32 0 gzip_text) ++ le_bytes 4 3.

Lemma gzip_run_ok encode input max_output :
  bytes_okb input = true -> zlen input < 2 ^ 64 -> run_ok (gzip_run encode input max_output).
Proof.
  intros Hb%bytes_okb_ok Hn. pose proof (zlen_nonneg input).
  constructor; cbn; try done; lia.
Qed.

Lemma toy_builtin_contracts :
  registry_contract toy_builtin_registry /\ Forall encoder_contract (reg_vtables toy_builtin_registry) /\
  constructors_final toy_builtin_registry.
Proof.
  split; [|split]; [apply builtin_decoders|apply builtin_encoders|apply builtin_constructors].
Qed.

Lemma gzip_runs encode input max_output :
  run_ok (gzip_run encode input max_output) ->
  is_Some (zu_int_run_whole toy_builtin_registry 400 (Some (gzip_run encode input max_output))
    toy_sink.1.2 (Some toy_sink.2)) ->
  runs toy_builtin_registry 400 (gzip_run encode input max_output) toy_world toy_outbuf
    (gzip_result encode input max_output).
Proof.
  intros Hr [res E]. split; [done|]. split; [exact toy_world_fresh|]. unfold gzip_result.
  change (zu_int_outbuf_owner toy_world toy_outbuf) with toy_sink. by rewrite E.
Qed.

Lemma gzip_lookup :
  zu_int_registry_lookup toy_builtin_registry (vt_codec (deflate_codec WRAP_GZIP)) =
  Some (deflate_codec WRAP_GZIP).
Proof. reflexivity. Qed.

Lemma deflate_run_integrity_witness :
  let r := gzip_run false gzip_packed 100 in
  let res := gzip_result false gzip_packed 100 in
  wr_status res = Some ZU_STREAM_END /\ sink_written (wr_out res) = gzip_text /\
  exists input held rest, run_input r = input ++ held ++ rest /\
    ob_consumed (wr_out res) = zlen (input ++ held) /\
    members WRAP_GZIP (concatenates WRAP_GZIP (ro_dec_flags r)) input (sink_written (wr_out res)) /\
    (held = [] \/ held = [0x1f] /\ concatenates WRAP_GZIP (ro_dec_flags r) = true) /\
    (ro_max_output r <> 0 -> zlen (sink_written (wr_out res)) <= ro_max_output r) /\
    (has_flag (ro_dec_flags r) ZU_DEC_EXPECTED_SIZE = true ->
     zlen (sink_written (wr_out res)) = ro_expected_size r).
Proof.
  intros r res. split; [vm_compute; reflexivity|]. split; [vm_compute; reflexivity|].
  destruct toy_builtin_contracts as (Hd & He & Hf).
  apply (deflate_run_integrity toy_builtin_registry WRAP_GZIP 400 r toy_world toy_outbuf res Hd He Hf
    gzip_lookup).
  - apply gzip_runs; [apply gzip_run_ok; vm_compute; reflexivity|vm_compute; by eexists].
  - reflexivity.
  - reflexivity.
  - vm_compute. repeat split; discriminate.
  - vm_compute. reflexivity.
Defined.

Lemma deflate_whole_roundtrip_witness :
  let res1 := gzip_result true gzip_text 0 in
  let res2 := gzip_result false (sink_written (wr_out res1)) 0 in
  sink_written (wr_out res1) = gzip_packed /\
  sink_written (wr_out res2) =
    take (Z.to_nat (ob_consumed (wr_out res1))) (run_input (gzip_run true gzip_text 0)) /\
  ob_consumed (wr_out res2) = zlen (run_input (gzip_run false (sink_written (wr_out res1)) 0)).
Proof.
  intros res1 res2. assert (E1 : sink_written (wr_out res1) = gzip_packed) by (vm_compute; reflexivity).
  split; [exact E1|]. subst res2. rewrite E1.
  destruct toy_builtin_contracts as (Hd & He & Hf).
  apply (deflate_whole_roundtrip toy_builtin_registry WRAP_GZIP 400 400 (gzip_run true gzip_text 0)
    (gzip_run false gzip_packed 0) toy_world toy_world toy_outbuf toy_outbuf res1 _ Hd He Hf gzip_lookup).
  - apply gzip_runs; [apply gzip_run_ok; vm_compute; reflexivity|vm_compute; by eexists].
  - reflexivity.
  - reflexivity.
  - vm_compute. repeat split; discriminate.
  - vm_compute. reflexivity.
  - apply gzip_runs; [apply gzip_run_ok; vm_compute; reflexivity|vm_compute; by eexists].
  - reflexivity.
  - reflexivity.
  - vm_compute. repeat split; discriminate.
  - vm_compute. reflexivity.
  - rewrite E1. vm_compute. reflexivity.
Defined.
