(* ===== verification/CodecRuns.v ===== *)
(** * Sessions of the other codecs, end to end

    What a session of identity, zstd, lz4-frame and lz4-block that ends has written or
    read, and that the two directions of each are inverse when the library's are: the
    instances of [CodecInverse] and [TakesAll] (WholeRuns.v) besides those of DEFLATE. *)
From S2P Require Import Prelude Types ProcessLoop Registry Stream Identity StreamProps Session Whole WholeProps WholeRuns.
From S2P Require Import Frames FramedDecoder Zstd ZstdProps Lz4 Lz4Props Lz4Block Lz4BlockProps.

(** The last call of a session that ends, with the history before it. *)
Lemma session_last {S} (process : S -> zu_buffer -> zu_flush -> zu_status * S * zu_buffer) x s0 st s taken given :
  session process x s0 st s taken given ->
  exists fin s1 taken1 given1 b f b' i o,
    ordered_run process x s0 fin s1 taken1 given1 /\ codec_run process s0 s1 taken1 given1 /\
    buffer_ok b /\ (fin = true -> f = ZU_FINISH) /\ (f = ZU_FINISH -> taken1 ++ src_window b = x) /\
    process s1 b f = (st, s, b') /\ moved b b' i o /\ taken = taken1 ++ i /\ given = given1 ++ o.
Proof.
  destruct 1. do 9 eexists. split_and!; eauto. by eapply ordered_codec_run.
Qed.

(** ** Codecs that map bytes one at a time *)
Section pointwise.
Context {S : Type} (g : Z -> Z)
  (process : S -> zu_buffer -> zu_flush -> zu_status * S * zu_buffer) `{Hp : !Pointwise g process}.

Lemma pointwise_call s b f st s' b' i o :
  buffer_ok b -> process s b f = (st, s', b') -> moved b b' i o ->
  o = List.map g i /\ s' = s /\ (st = ZU_STREAM_END -> f = ZU_FINISH /\ avail_in b' = 0).
Proof.
  intros Hb E Hm. rewrite (pointwise s b f Hb) in E. injection E as <- <- <-.
  pose proof (pointwise_emit_len g b Hb) as Hl. pose proof (pointwise_count_bounds b Hb) as (Hc & Ho).
  pose proof (moved_through b _ (List.map g (sub (src_bytes b) (src_pos b) (pointwise_count b))) Hb
    ltac:(exact Hc) ltac:(by rewrite Hl)) as Hm'.
  destruct (moved_unique _ _ _ _ _ _ Hm Hm') as [-> ->]. split_and!; [done|done|].
  unfold pointwise_status. destruct (Z.ltb_spec (avail_out b) (avail_in b)); [done|].
  destruct (is_finish f) eqn:Ef; [|done]. intros _. split; [by destruct f|].
  unfold pointwise_count in *. unfold avail_in at 1.
  cbn [src_pos src_size pointwise_buffer buf_emit buf_consume]. unfold pointwise_count, avail_in in *. lia.
Qed.

Lemma pointwise_run s0 s taken given :
  codec_run process s0 s taken given -> given = List.map g taken.
Proof.
  apply (codec_run_inv process (fun _ taken given => given = List.map g taken)); [done|].
  intros s1 i1 o1 b f st s' b' i o -> Hb _ E _ Hm.
  destruct (pointwise_call _ _ _ _ _ _ _ _ Hb E Hm) as (-> & _). by rewrite map_app.
Qed.

Lemma pointwise_takes_all x s0 s taken given :
  session process x s0 ZU_STREAM_END s taken given -> taken = x /\ given = List.map g x.
Proof.
  intros Hs. assert (Ht : taken = x).
  { eapply (session_takes_all process x s0 (fun _ => False)); [|by intros []|exact Hs].
    intros s1 t1 g1 b f st s' b' _ Hb _ _ E [ [] | -> ]. right.
    pose proof (pointwise_contract g process _ _ _ _ _ _ Hb E) as Hstep.
    destruct (step_moved b b' Hb Hstep) as (i & o & Hm).
    by apply (pointwise_call _ _ _ _ _ _ _ _ Hb E Hm). }
  split; [done|]. destruct (session_last _ _ _ _ _ _ _ Hs)
    as (fin & s1 & t1 & g1 & b & f & b' & i & o & _ & Hr & Hb & _ & _ & E & Hm & Et & ->).
  destruct (pointwise_call _ _ _ _ _ _ _ _ Hb E Hm) as (-> & _).
  by rewrite (pointwise_run _ _ _ _ Hr), <- map_app, <- Et, Ht.
Qed.
End pointwise.

#[export] Instance identity_inverse : CodecInverse zu_int_codec_identity.
Proof.
  intros x c new process o s0 s taken given rest _ _ (en & ep & eo & e0 & e & input & Hen & Hep & _ & Hes)
    Hn Hp _ _ Hs E. cbn in *. injection Hep as <-. injection Hp as <-.
  destruct (pointwise_takes_all (fun c => c) _ _ _ _ _ _ Hes) as [-> ->].
  destruct (pointwise_takes_all (fun c => c) _ _ _ _ _ _ Hs) as [-> ->]. by rewrite !map_id.
Qed.

#[export] Instance identity_takes_all limit : EncoderTakesAll zu_int_codec_identity limit.
Proof.
  intros x new process o s0 s taken given _ Hp _ _ Hs. cbn in *. injection Hp as <-.
  by destruct (pointwise_takes_all (fun c => c) _ _ _ _ _ _ Hs).
Qed.

(** ** zstd *)

(** What libzstd documents of its two directions: a decoder over bytes that begin a frame one
    encoding session made has completed a frame only at its end, and has then given what
    went in; and a frame is complete only when all the input of the call was taken. *)
Class ZstdInverse `{Zstd} : Prop := {
  zstd_reads_back : forall level c0 c x p calls window d q o rest,
    bytes_ok x -> (ZSTD_CCtx_setParameter
      (ZSTD_CCtx_setParameter ZSTD_createCCtx ZSTD_c_compressionLevel level).2
      ZSTD_c_checksumFlag 1).2 = c0 ->
    zstd_session c0 c x p calls -> one_frame calls -> frame_complete calls ->
    lib_run (lib := zstd_lib) (ZSTD_DCtx_setParameter ZSTD_createDCtx ZSTD_d_windowLogMax window).2
      d q o true ->
    p = q ++ rest -> rest = [] /\ o = x;
  zstd_completes : forall c next_in room,
    let r := ZSTD_compressStream2 c next_in room ZSTD_e_end in
    ZSTD_isError (lo_ret r) = false -> lo_ret r = 0 -> lo_used r = zlen next_in;
}.

Section zstd.
Context {zstd : Zstd} {zstd_ok : ZstdOk} {alloc : Allocator}.

Lemma zstd_encoder_new_fields o s :
  zstd_encoder_new o = Ok s -> zs_done s = false /\ exists level, zs_cctx s = Some
    (ZSTD_CCtx_setParameter (ZSTD_CCtx_setParameter ZSTD_createCCtx ZSTD_c_compressionLevel level).2
      ZSTD_c_checksumFlag 1).2.
Proof.
  unfold zstd_encoder_new, zu_int_zstd_level. do 2 (destruct (negb _); [done|]). cbv zeta.
  set (level := if eo_level o =? ZU_LEVEL_DEFAULT then _ else _).
  destruct (ZSTD_CCtx_setParameter ZSTD_createCCtx _ _) as [r c] eqn:E1.
  destruct (ZSTD_isError r); [done|]. cbn.
  destruct (ZSTD_CCtx_setParameter c _ _) as [r2 c2] eqn:E2.
  destruct (ZSTD_isError r2); [done|]. intros [= <-]. split; [done|]. exists level.
  rewrite E1. cbn. by rewrite E2.
Qed.

Lemma zstd_decoder_new_fields o s :
  zstd_decoder_new o = Ok s ->
  zs_frames s = zu_int_frames_init ZU_INT_FRAMES_ZSTD (do_flags o) /\
  zs_dctx s = Some (ZSTD_DCtx_setParameter ZSTD_createDCtx ZSTD_d_windowLogMax
    (zstd_window_log (do_max_output o))).2.
Proof.
  unfold zstd_decoder_new, zu_int_zstd_window. do 2 (destruct (negb _); [done|]). cbv zeta.
  cbn [zs_max_output]. destruct (ZSTD_DCtx_setParameter _ _ _) as [r d].
  destruct (ZSTD_isError r); [done|]. by intros [= <-].
Qed.

(** An encoder session that ends made one frame. *)
Lemma zstd_session_frame c0 s0 x s taken given :
  zs_cctx s0 = Some c0 -> zs_done s0 = false ->
  session zstd_encoder_process x s0 ZU_STREAM_END s taken given ->
  exists c calls, zstd_session c0 c taken given calls /\ one_frame calls /\ frame_complete calls.
Proof.
  intros Hc Hd Hs. destruct (session_last _ _ _ _ _ _ _ Hs)
    as (fin & s1 & t1 & g1 & b & f & b' & i & o & Ho & _ & Hb & Hfin & _ & E & Hm & -> & ->).
  pose proof (zenc_ordered_inv c0 s0 x fin s1 t1 g1 Hc Hd Ho) as Hinv.
  apply (zenc_mono _ (frame_calls (is_finish f))) in Hinv; [|intros; by eapply frame_calls_mono].
  destruct (zenc_call _ c0 s1 b t1 g1 f (frame_calls_closed f) Hinv Hb) as (_ & i' & o' & Hm' & Ha).
  rewrite E in Hm', Ha. cbn [fst snd zenc_answer] in *.
  destruct (moved_unique _ _ _ _ _ _ Hm Hm') as [-> ->].
  destruct Ha as [(c & calls & _ & Hses & [Hone _] & Hdone) Hd']. exists c, calls.
  split_and!; [done|done|by apply Hdone].
Qed.

(** A decoder session that ends read one or more whole frames, but three bytes at most. *)
Lemma zstd_session_reads d0 flags s0 x s taken given :
  zs_dctx s0 = Some d0 -> zs_frames s0 = zu_int_frames_init ZU_INT_FRAMES_ZSTD flags ->
  session zstd_decoder_process x s0 ZU_STREAM_END s taken given ->
  exists d q held, taken = q ++ held /\ lib_run (lib := zstd_lib) d0 d q given true.
Proof.
  intros Hd Hf Hs. destruct (session_last _ _ _ _ _ _ _ Hs)
    as (fin & s1 & t1 & g1 & b & f & b' & i & o & _ & Hr & Hb & _ & _ & E & Hm & -> & ->).
  pose proof (zdec_run_inv d0 flags s0 s1 t1 g1 Hd Hf Hr) as Hinv.
  destruct (zdec_call d0 s1 b t1 g1 f Hinv Hb) as (i' & o' & d & Hm' & Esd & Hp & _).
  rewrite E in Hm', Esd, Hp. cbn [fst snd] in *.
  destruct (moved_unique _ _ _ _ _ _ Hm Hm') as [-> ->].
  destruct (fd_post_end (lib := zstd_lib) _ _ _ _ Hp) as (q & h & -> & _ & Hl). by exists d, q, h.
Qed.

Context {inverse : ZstdInverse}.

(** A round that ends the frame was told to, and took the window. *)
Lemma zstd_round_ends s b f :
  zs_done s = false -> buffer_ok b ->
  match zstd_encoder_round s b f with
  | (Some st, s', b') => zs_done s' = true \/ st = ZU_STREAM_END -> f = ZU_FINISH /\ avail_in b' = 0
  | (None, s', b') => zs_done s' = false /\ buffer_ok b'
  end.
Proof.
  intros Hd Hb. pose proof (zenc_round_step s b f Hb) as Hstep.
  unfold zstd_encoder_round in *. destruct (zs_cctx s) as [c|]; [|intros [?|?]; [congruence|done] ].
  pose proof (zstd_completes c (sub (src_bytes b) (src_pos b) (avail_in b)) (avail_out b)) as Hall.
  cbv zeta in Hall. pose proof (avail_in_nonneg b Hb).
  set (r := ZSTD_compressStream2 c _ _ (zstd_op f)) in *.
  destruct (ZSTD_isError (lo_ret r)) eqn:Ee.
  { pose proof (zstd_error_failed s (lo_ret r)) as Hf. intros [?|E]; [by cbn in *; congruence|].
    rewrite E in Hf. by vm_compute in Hf. }
  destruct ((zstd_op f =? ZSTD_e_end) && (lo_ret r =? 0)) eqn:E1.
  { apply andb_prop in E1 as [Eop%Z.eqb_eq Er%Z.eqb_eq]. subst r. rewrite Eop in *. intros _.
    split; [by destruct f|]. specialize (Hall Ee Er). rewrite (zlen_src_sub b (avail_in b)) in Hall by (done || lia).
    unfold avail_in in *. cbn. lia. }
  destruct (_ && (_ || _)); [intros [?|?]; [by cbn in *; congruence|done]|].
  destruct ((lo_used r =? 0) && (zlen (lo_out r) =? 0)).
  - intros [?|?]; [by cbn in *; congruence|]. by destruct (avail_out b =? 0).
  - split; [done|]. by eapply buffer_step_ok.
Qed.

Lemma zstd_encoder_ends x s0 : ends_with_input zstd_encoder_process x s0 (fun s => zs_done s = true).
Proof.
  intros s taken given b f st s' b' _ Hb _ _ E Hend. unfold zstd_encoder_process in E.
  destruct (zs_done s) eqn:Ed; [by left|]. right. unfold run_process in E.
  destruct (process_loop zstd_encoder_round (zstd_encoder_fuel s b) s b f) as [r|] eqn:El; cbn in E.
  2:{ injection E as <- <- <-. destruct Hend as [He|He]; [congruence|done]. }
  subst r. revert Hend. refine (process_loop_inv zstd_encoder_round
    (fun s1 b1 => zs_done s1 = false /\ buffer_ok b1)
    (fun st1 s1 b1 => zs_done s1 = true \/ st1 = ZU_STREAM_END -> f = ZU_FINISH /\ avail_in b1 = 0)
    f _ _ _ _ _ (conj Ed Hb) El).
  intros s1 b1 [Hd1 Hb1]. by apply zstd_round_ends.
Qed.

#[export] Instance zstd_inverse : CodecInverse zu_int_codec_zstd.
Proof.
  intros x c new process o s0 s taken given rest Hx _ (en & ep & eo & e0 & e & input & Hen & Hep & Ee & Hes)
    Hn Hp _ En Hs E. cbn in *. injection Hen as <-. injection Hep as <-. injection Hn as <-. injection Hp as <-.
  destruct (zstd_encoder_new_fields _ _ Ee) as (Hd & level & Hc).
  destruct (zstd_session_frame _ _ _ _ _ _ Hc Hd Hes) as (cc & calls & Hses & Hone & Hdone).
  destruct (zstd_decoder_new_fields _ _ En) as [Hf Hdc].
  destruct (zstd_session_reads _ _ _ _ _ _ _ Hdc Hf Hs) as (d & q & held & -> & Hl).
  rewrite <- app_assoc in E.
  destruct (zstd_reads_back level _ cc x c calls _ d q given (held ++ rest) Hx eq_refl Hses Hone Hdone Hl E)
    as [Hnil ->]. apply app_eq_nil in Hnil as [-> ->]. by rewrite !app_nil_r in *.
Qed.

#[export] Instance zstd_takes_all limit : EncoderTakesAll zu_int_codec_zstd limit.
Proof.
  intros x new process o s0 s taken given Hn Hp En _ Hs. cbn in *. injection Hn as <-. injection Hp as <-.
  destruct (zstd_encoder_new_fields _ _ En) as [Hd _].
  apply (session_takes_all zstd_encoder_process x s0 (fun s => zs_done s = true) s taken given);
    [apply zstd_encoder_ends|congruence|exact Hs].
Qed.

End zstd.

(** ** lz4-frame *)

(** The same of liblz4's frame functions, from a context they made. *)
Class Lz4Inverse `{Lz4} : Prop :=
  lz4_reads_back : forall c x p d q o rest,
    bytes_ok x -> lz4f_session LZ4F_createCompressionContext.2 c x p frame_ended ->
    lib_run (lib := lz4_lib) LZ4F_createDecompressionContext.2 d q o true ->
    p = q ++ rest -> rest = [] /\ o = x.

Section lz4f.
Context {lz4 : Lz4} {lz4_ok : Lz4FrameOk} {alloc : Allocator}.

Lemma lz4f_encoder_new_fields o s :
  lz4f_encoder_new o = Ok s -> fenc_new LZ4F_createCompressionContext.2 s.
Proof.
  unfold lz4f_encoder_new. destruct (negb _); [done|]. cbv zeta.
  destruct LZ4F_createCompressionContext as [r c]. destruct (LZ4F_isError r); [done|].
  set (cap := if _ <? _ then _ else _).
  assert (Hcap : LZ4F_HEADER_SIZE_MAX <= cap) by (subst cap; zcase; lia). clearbody cap.
  destruct (negb _); [done|]. intros [= <-]. unfold LZ4F_HEADER_SIZE_MAX in Hcap.
  split_and!; try done. constructor; cbn; [lia|lia|]. unfold zlen. rewrite length_replicate. lia.
Qed.

Lemma lz4f_decoder_new_fields o s :
  lz4f_decoder_new o = Ok s ->
  lz_dctx s = Some LZ4F_createDecompressionContext.2 /\
  lz_frames s = zu_int_frames_init ZU_INT_FRAMES_LZ4 (do_flags o).
Proof.
  unfold lz4f_decoder_new. destruct (negb _); [done|].
  destruct LZ4F_createDecompressionContext as [r d]. destruct (LZ4F_isError r); [done|]. by intros [= <-].
Qed.

Lemma lz4f_session_frame c0 s0 x s taken given :
  fenc_new c0 s0 -> session lz4f_encoder_process x s0 ZU_STREAM_END s taken given ->
  exists c, lz4f_session c0 c taken given frame_ended.
Proof.
  intros Hn Hs. destruct (session_last _ _ _ _ _ _ _ Hs)
    as (fin & s1 & t1 & g1 & b & f & b' & i & o & _ & Hr & Hb & _ & _ & E & Hm & -> & ->).
  destruct (fenc_call c0 s1 b t1 g1 f (fenc_run_inv _ _ _ _ _ Hn Hr) Hb) as (_ & i' & o' & Hm' & Ha).
  rewrite E in Hm', Ha. cbn [fst snd fenc_answer] in *.
  destruct (moved_unique _ _ _ _ _ _ Hm Hm') as [-> ->].
  destruct Ha as (((c & _ & Hses) & _) & Hp & _). rewrite Hp, app_nil_r in Hses. by exists c.
Qed.

Lemma lz4f_session_reads d0 flags s0 x s taken given :
  lz_dctx s0 = Some d0 -> lz_frames s0 = zu_int_frames_init ZU_INT_FRAMES_LZ4 flags ->
  session lz4f_decoder_process x s0 ZU_STREAM_END s taken given ->
  exists d q held, taken = q ++ held /\ lib_run (lib := lz4_lib) d0 d q given true.
Proof.
  intros Hd Hf Hs. destruct (session_last _ _ _ _ _ _ _ Hs)
    as (fin & s1 & t1 & g1 & b & f & b' & i & o & _ & Hr & Hb & _ & _ & E & Hm & -> & ->).
  destruct (ldec_call d0 s1 b t1 g1 f (ldec_run_inv d0 flags s0 s1 t1 g1 Hd Hf Hr) Hb)
    as (i' & o' & d & Hm' & Esd & Hp & _).
  rewrite E in Hm', Esd, Hp. cbn [fst snd] in *.
  destruct (moved_unique _ _ _ _ _ _ Hm Hm') as [-> ->].
  destruct (fd_post_end (lib := lz4_lib) _ _ _ _ Hp) as (q & h & -> & _ & Hl). by exists d, q, h.
Qed.

#[export] Instance lz4f_inverse {inverse : Lz4Inverse} : CodecInverse zu_int_codec_lz4_frame.
Proof.
  intros x c new process o s0 s taken given rest Hx _ (en & ep & eo & e0 & e & input & Hen & Hep & Ee & Hes)
    Hn Hp _ En Hs E. cbn in *. injection Hen as <-. injection Hep as <-. injection Hn as <-. injection Hp as <-.
  destruct (lz4f_session_frame _ _ _ _ _ _ (lz4f_encoder_new_fields _ _ Ee) Hes) as (cc & Hses).
  destruct (lz4f_decoder_new_fields _ _ En) as [Hdc Hf].
  destruct (lz4f_session_reads _ _ _ _ _ _ _ Hdc Hf Hs) as (d & q & held & -> & Hl).
  rewrite <- app_assoc in E.
  destruct (lz4_reads_back cc x c d q given (held ++ rest) Hx Hses Hl E) as [Hnil ->].
  apply app_eq_nil in Hnil as [-> ->]. by rewrite !app_nil_r in *.
Qed.

(** The end mark is written under ZU_FINISH, when no input is left. *)
Lemma lz4f_round_ends ended0 sf b f :
  (lz_ended sf.1 = true -> ended0 = true \/ (f = ZU_FINISH /\ avail_in b = 0)) ->
  (lz_done sf.1 = true -> lz_ended sf.1 = true) -> buffer_ok b ->
  match lz4f_encoder_round sf b f with
  | (ost, sf', b') =>
      (lz_ended sf'.1 = true \/ ost = Some ZU_STREAM_END ->
         ended0 = true \/ (f = ZU_FINISH /\ avail_in b' = 0)) /\
      (lz_done sf'.1 = true -> lz_ended sf'.1 = true) /\ buffer_ok b'
  end.
Proof.
  destruct sf as [s flushed]. cbn [fst]. intros He Hdn Hb.
  assert (Hok : buffer_ok (lz4f_encoder_round (s, flushed) b f).2)
    by (eapply buffer_step_ok; [exact Hb|by apply fenc_round_step]).
  revert Hok. unfold lz4f_encoder_round. pose proof (drain_step s b Hb) as Hstep.
  assert (Hs : lz_ended (zu_int_lz4_drain s b).1.2 = lz_ended s /\
    lz_done (zu_int_lz4_drain s b).1.2 = lz_done s /\ avail_in (zu_int_lz4_drain s b).2 = avail_in b)
    by (unfold zu_int_lz4_drain, avail_in; repeat split_if; done).
  destruct (zu_int_lz4_drain s b) as [ [empty s1] b1]. cbn [fst snd] in *.
  destruct Hs as (Ee & Ed & Ea). rewrite <- Ee, <- Ea in He. rewrite <- Ee, <- Ed in Hdn.
  pose proof (buffer_step_ok _ _ Hb Hstep) as Hb1.
  destruct empty; cbn [negb].
  2:{ cbn. intros ?. split_and!; try done. intros [?|?]; [auto|done]. }
  destruct (lz_done s1) eqn:Ed1; [cbn; intros ?; split_and!; auto|].
  destruct (lz_ended s1) eqn:Ee1; [cbn; intros ?; split_and!; auto|].
  destruct (lz_cctx s1) as [c|]; [|cbn; intros ?; split_and!; try congruence; intros [?|?]; [congruence|done] ].
  unfold lz4f_encoder_call. pose proof (avail_in_nonneg b1 Hb1).
  assert (Hfail : forall a, Some (zu_int_lz4f_error s1 a) = Some ZU_STREAM_END -> False).
  { intros a [= E]. pose proof (lz4f_error_failed s1 a) as Hf. rewrite E in Hf. by vm_compute in Hf. }
  assert (Hnot : forall P : Prop, lz_ended s1 = true \/ P -> P) by (intros P [?|?]; [congruence|done]).
  destruct (negb (lz_started s1)); [|destruct (avail_in b1 >? 0) eqn:Ea1; [|destruct (is_finish f) eqn:Ef;
    [|destruct (is_flush f && negb flushed)]]]; try (destruct (LZ4F_isError _)); cbn; rewrite ?Ee1, ?Ed1;
    intros ?; split_and!; try done; intros [?|HE]; try done; try (by destruct (Hfail _ HE)).
  right. rewrite Z.gtb_ltb in Ea1. zbool. split; [by destruct f|]. unfold avail_in in *. cbn. lia.
Qed.

Lemma lz4f_encoder_ends c0 x s0 :
  fenc_new c0 s0 -> ends_with_input lz4f_encoder_process x s0 (fun s => lz_ended s = true).
Proof.
  intros Hn s taken given b f st s' b' Hr Hb _ _ E Hend.
  destruct (fenc_run_inv _ _ _ _ _ Hn Hr) as (ph & _ & [_ Hdn] & _). revert Hend.
  destruct (proj1 (fenc_call c0 s b taken given f (fenc_run_inv _ _ _ _ _ Hn Hr) Hb)) as [r El].
  unfold lz4f_encoder_process, run_process in E. rewrite El in E. cbn in E.
  pose proof (process_loop_inv lz4f_encoder_round
    (fun sf b1 => (lz_ended sf.1 = true -> lz_ended s = true \/ (f = ZU_FINISH /\ avail_in b1 = 0)) /\
      (lz_done sf.1 = true -> lz_ended sf.1 = true) /\ buffer_ok b1)
    (fun st1 sf b1 => lz_ended sf.1 = true \/ st1 = ZU_STREAM_END ->
      lz_ended s = true \/ (f = ZU_FINISH /\ avail_in b1 = 0)) f) as Hl.
  destruct r as [ [st1 [s1 f1] ] b1]. injection E as <- <- <-.
  refine (Hl _ _ _ _ _ _ El).
  - intros sf b2 (H1 & H2 & H3). pose proof (lz4f_round_ends (lz_ended s) sf b2 f H1 H2 H3) as H4.
    destruct (lz4f_encoder_round sf b2 f) as [ [ [st2|] sf2] b3]; destruct H4 as (H4 & H5 & H6).
    + intros [?| ->]; apply H4; auto.
    + split_and!; auto.
  - cbn. split_and!; auto.
Qed.

#[export] Instance lz4f_takes_all limit : EncoderTakesAll zu_int_codec_lz4_frame limit.
Proof.
  intros x new process o s0 s taken given Hn Hp En _ Hs. cbn in *. injection Hn as <-. injection Hp as <-.
  pose proof (lz4f_encoder_new_fields _ _ En) as Hnew. pose proof Hnew as (_ & _ & He & _).
  apply (session_takes_all lz4f_encoder_process x s0 (fun s => lz_ended s = true) s taken given);
    [by eapply lz4f_encoder_ends|congruence|exact Hs].
Qed.

End lz4f.

(** ** lz4-block *)
Section lz4b.
Context {lz4 : Lz4} {block_ok : Lz4BlockOk} {alloc : Allocator}.

Lemma lz4b_new_fields enc level d s :
  lz4b_new enc level d = Ok s -> block_new s /\ forall o, d = Some o -> decoder_opts_fit o -> limits_ok s.
Proof.
  unfold lz4b_new. destruct (negb _); [done|]. intros [= <-]. split.
  - destruct d; split_and!; try done; constructor; cbn; unfold LZ4_MAX_INPUT_SIZE; rewrite ?zlen_nil; done || lia.
  - intros o -> (_ & _ & Hm & _ & _ & He). by split.
Qed.

(** Delivering takes nothing. *)
Lemma deliver_takes s b : avail_in (lz4b_deliver s b).2 = avail_in b.
Proof.
  unfold lz4b_deliver, zu_int_lz4_drain, avail_in. by repeat split_if.
Qed.

Lemma staged_takes s stage len b : avail_in (lz4b_staged s stage len b).2 = avail_in b.
Proof. apply deliver_takes. Qed.

(** A call that has something to say has gathered the window first. *)
Definition takes_window (r : zu_status * lz4_state * zu_buffer) : Prop :=
  lz_done r.1.2 = true \/ r.1.1 = ZU_STREAM_END -> avail_in r.2 = 0.

Lemma failed_takes st s b : failed st -> lz_done s = false -> takes_window (st, s, b).
Proof. intros Hf Hd [H|H]; cbn in H; [congruence|]. subst st. by vm_compute in Hf. Qed.

Lemma gathered_takes s b (rest : lz4_state -> zu_buffer -> zu_status * lz4_state * zu_buffer) :
  in_ok s -> lz_done s = false -> buffer_ok b ->
  (forall s1 b1, avail_in b1 = 0 -> avail_in (rest s1 b1).2 = 0) ->
  takes_window
    match zu_int_lz4b_gather s b with
    | (ZU_OK, s, buf) => rest s buf
    | r => r
    end.
Proof.
  intros Hi Hd Hb Hrest. pose proof (gather_spec s b Hi Hb) as H.
  destruct (zu_int_lz4b_gather s b) as [ [st s'] b'].
  destruct st; try (destruct H as (Hf & -> & ->); by apply failed_takes).
  destruct H as (_ & _ & _ & _ & Ha). intros _. by apply Hrest.
Qed.

Lemma gathered_waits s b st s' b' :
  in_ok s -> lz_done s = false -> buffer_ok b ->
  match zu_int_lz4b_gather s b with
  | (ZU_OK, s, buf) => (ZU_NEED_INPUT, s, buf)
  | r => r
  end = (st, s', b') -> lz_done s' = true \/ st = ZU_STREAM_END -> False.
Proof.
  intros Hi Hd Hb. pose proof (gather_spec s b Hi Hb) as H.
  destruct (zu_int_lz4b_gather s b) as [ [st1 s1] b1].
  destruct st1; try (destruct H as (Hf & -> & ->); intros [= <- <- <-] [?|?]; [congruence|by subst]).
  destruct H as (_ & _ & _ & Es & _). intros [= <- <- <-] [He|]; [|done].
  rewrite Es in He. cbn in He. congruence.
Qed.

Lemma encoder_staged_takes s b :
  in_ok s -> lz_done s = false -> buffer_ok b -> takes_window (lz4b_encoder_staged s b).
Proof.
  intros Hi Hd Hb. unfold lz4b_encoder_staged. apply gathered_takes; try done. intros s1 b1 Ha. cbv zeta.
  destruct (_ <=? 0); [done|]. destruct (zu_int_lz4b_stage s1 _) as [st2 s2].
  destruct st2; try done. destruct (zu_int_lz4b_compress _ _ _) as [w out].
  destruct (w <=? 0); [done|]. by rewrite staged_takes.
Qed.

Lemma lz4b_encoder_ends x s0 :
  block_new s0 -> ends_with_input lz4b_encoder_process x s0 (fun s => lz_done s = true).
Proof.
  intros Hn s taken given b f st s' b' Hr Hb _ _ E Hend.
  destruct (block_run_inv lz4b_encoder_process (fun s => benc_spec (lz_level s)) (fun _ => True) s0)
    with (s := s) (taken := taken) (given := given) as [_ [_ Hinv] ]; try done.
  { by intros ? ? ? ? (-> & _). }
  { intros. by apply encoder_call. }
  unfold lz4b_encoder_process in E. destruct (lz_done s) eqn:Ed; [by left|]. right.
  destruct Hinv as (_ & Hin & _). destruct (is_finish f) eqn:Ef; cbn [negb] in E.
  2:{ by destruct (gathered_waits s b st s' b' Hin Ed Hb E Hend). }
  split; [by destruct f|]. revert E. destruct (_ && _ && _ && _).
  - destruct (zu_int_lz4b_compress _ _ _) as [w out].
    destruct (w <=? 0); intros [= <- <- <-]; [destruct Hend; congruence|]. unfold avail_in. cbn. lia.
  - intros E. pose proof (encoder_staged_takes s b Hin Ed Hb) as H. rewrite E in H. by apply H.
Qed.

Lemma decoder_expected_takes s b want :
  in_ok s -> lz_done s = false -> buffer_ok b -> takes_window (lz4b_decoder_expected s b want).
Proof.
  intros Hi Hd Hb. unfold lz4b_decoder_expected. apply gathered_takes; try done. intros s1 b1 Ha. cbn beta.
  destruct (_ =? 0); [done|]. destruct (zu_int_lz4b_stage s1 _) as [st2 s2].
  destruct st2; try done. destruct (LZ4_decompress_safe _ _) as [r out].
  destruct (_ || _); [done|]. by rewrite staged_takes.
Qed.

Lemma decoder_unknown_takes s b :
  in_ok s -> lz_done s = false -> buffer_ok b -> takes_window (lz4b_decoder_unknown s b).
Proof.
  intros Hi Hd Hb. unfold lz4b_decoder_unknown. apply gathered_takes; try done. intros s1 b1 Ha. cbn beta.
  destruct (_ =? 0); [done|]. destruct (zu_int_lz4b_search s1) as [ [got|gs] s2]; [|done].
  by rewrite staged_takes.
Qed.

Lemma lz4b_decoder_ends x s0 :
  block_new s0 -> limits_ok s0 -> ends_with_input lz4b_decoder_process x s0 (fun s => lz_done s = true).
Proof.
  intros Hn Hlim s taken given b f st s' b' Hr Hb _ _ E Hend.
  assert (HP : forall s s', keeps s s' -> limits_ok s -> limits_ok s').
  { unfold limits_ok. by intros ? ? (_ & -> & _ & ->). }
  destruct (block_run_inv lz4b_decoder_process bdec_spec limits_ok s0)
    with (s := s) (taken := taken) (given := given) as [_ [_ Hinv] ]; try done.
  { unfold bdec_spec. by intros ? ? ? ? (_ & -> & -> & ->). }
  { intros. by apply decoder_call. }
  unfold lz4b_decoder_process in E. destruct (lz_done s) eqn:Ed; [by left|]. right.
  destruct Hinv as (_ & Hin & _). destruct (is_finish f) eqn:Ef; cbn [negb] in E.
  2:{ by destruct (gathered_waits s b st s' b' Hin Ed Hb E Hend). }
  split; [by destruct f|].
  assert (Herr : forall st1, (st1, s, b) = (st, s', b') -> st1 <> ZU_STREAM_END -> avail_in b' = 0)
    by (intros st1 [= <- <- <-] ?; destruct Hend; congruence).
  pose proof (decoder_expected_takes s b (lz_expected s) Hin Ed Hb) as Hexp.
  pose proof (decoder_unknown_takes s b Hin Ed Hb) as Hunk.
  revert E. destruct (lz_has_expected s); [|intros E; rewrite E in Hunk; by apply Hunk].
  destruct (_ && (_ >? _)); [intros E; by eapply Herr|].
  destruct (_ >? INT_MAX); [intros E; by eapply Herr|].
  destruct (_ && _); [|intros E; rewrite E in Hexp; by apply Hexp].
  destruct (_ || _); [intros E; by eapply Herr|].
  destruct (LZ4_decompress_safe _ _) as [r out]. destruct (_ || _); [intros E; by eapply Herr|].
  intros [= <- <- <-]. unfold avail_in. cbn. lia.
Qed.

#[export] Instance lz4b_takes_all limit : EncoderTakesAll zu_int_codec_lz4_block limit.
Proof.
  intros x new process o s0 s taken given Hn Hp En _ Hs. cbn in *. injection Hn as <-. injection Hp as <-.
  destruct (lz4b_new_fields _ _ _ _ En) as [Hnew _]. pose proof Hnew as (Hd & _).
  apply (session_takes_all lz4b_encoder_process x s0 (fun s => lz_done s = true) s taken given);
    [by apply lz4b_encoder_ends|congruence|exact Hs].
Qed.

#[export] Instance lz4b_inverse : CodecInverse zu_int_codec_lz4_block.
Proof.
  intros x c new process o s0 s taken given rest _ _ (en & ep & eo & e0 & e & input & Hen & Hep & Ee & Hes)
    Hn Hp Hfit En Hs E. cbn in *. injection Hen as <-. injection Hep as <-. injection Hn as <-. injection Hp as <-.
  destruct (lz4b_new_fields _ _ _ _ Ee) as [Hnew _]. destruct (lz4b_new_fields _ _ _ _ En) as [Hnew' Hlim].
  specialize (Hlim o eq_refl Hfit). pose proof Hnew' as (Hd & _).
  assert (Ht : taken = c).
  { apply (session_takes_all lz4b_decoder_process c s0 (fun s => lz_done s = true) s taken given);
      [by apply lz4b_decoder_ends|congruence|exact Hs]. }
  split; [|done]. subst taken.
  destruct (session_last _ _ _ _ _ _ _ Hes) as (fin & s1 & t1 & g1 & b & f & b' & i & o' & _ & Hr & Hb & _ & _ & E1 & Hm & -> & ->).
  destruct (lz4b_encoder_one_block e0 s1 t1 g1 b f Hnew Hr Hb) as (i2 & o2 & Hm2 & Ha).
  rewrite E1 in Hm2, Ha. destruct (moved_unique _ _ _ _ _ _ Hm Hm2) as [-> ->]. destruct Ha as [_ Hdec].
  destruct (session_last _ _ _ _ _ _ _ Hs) as (fin3 & s3 & t3 & g3 & b3 & f3 & b3' & i3 & o3 & _ & Hr3 & Hb3 & _ & _ & E3 & Hm3 & Et & ->).
  destruct (lz4b_decoder_one_block s0 s3 t3 g3 b3 f3 Hnew' Hlim Hr3 Hb3) as (i4 & o4 & Hm4 & Ha4).
  rewrite E3 in Hm4, Ha4. destruct (moved_unique _ _ _ _ _ _ Hm3 Hm4) as [-> ->]. destruct Ha4 as [Hdec4 _].
  cbn [fst snd] in *. rewrite <- Et, Hdec in Hdec4. by injection Hdec4 as <-.
Qed.

End lz4b.
