(* ===== verification/Liveness.v ===== *)
(** * Honest answers

    What a built-in codec's status promises: more input is asked for only when none is
    left, more room only when none is left, and no status is one the header does not
    name.  With a ceiling on the output, that makes every decode of the drive loop end. *)
From S2P Require Import Prelude Types ProcessLoop Registry Stream Identity StreamProps Session Whole WholeProps WholeRuns.
From S2P Require Import GzipHeader Deflate DeflateProps DeflateFraming DeflateDecode.
From S2P Require Import Frames FramedDecoder Zstd ZstdProps Lz4 Lz4Props Lz4Block Lz4BlockProps.
From S2P Require Import Builtins DeflateRuns CodecRuns.

(** ** DEFLATE *)

(** zlib.h of inflate's Z_BUF_ERROR: "no progress was possible", which with input and room
    it is. *)
Class MinizMoves `{Miniz} : Prop :=
  mz_inflate_moves : forall m next_in room flush,
    let r := mz_inflate m next_in room flush in
    mz_ret r = MZ_OK \/ mz_ret r = MZ_BUF_ERROR -> next_in <> [] -> 0 < room ->
    0 < mz_used r \/ mz_out r <> [].

Section deflate.
Context {mz : Miniz} {mz_ok : MinizOk} {alloc : Allocator}.

(** What a round of a decoder leaves: an honest answer, or a decoder. *)
Definition honest_round (r : round) : Prop :=
  match r with
  | (Some st, _, b') => honest st b'
  | (None, s', b') => df_encoder s' = false /\ buffer_ok b'
  end.

Lemma starved_honest f b : avail_in b = 0 -> honest (starved f) b.
Proof. unfold starved. by split_if. Qed.

Lemma honest_header s b f :
  df_encoder s = false -> buffer_ok b -> honest_round (deflate_header s b f).
Proof.
  intros He Hb. unfold deflate_header. rewrite He.
  assert (Heat : avail_in b <> 0 -> buffer_ok (buf_consume b 1)).
  { intros Ha. pose proof (avail_in_nonneg b Hb).
    eapply buffer_step_ok; [exact Hb|]. apply buf_consume_step; [done|lia]. }
  destruct (is_gzip (df_wrap s)).
  - destruct (Z.eqb_spec (avail_in b) 0); [by apply starved_honest|].
    destruct (zu_int_gzip_header_feed _ _) as [ [hs gz] fin] eqn:Ef.
    destruct (gz_feed_status _ _ _ _ _ Ef) as [-> |Hf]; [split; [by destruct fin|auto]|].
    destruct hs; solve [by destruct Hf|exact I].
  - destruct (_ <? _); [destruct (Z.eqb_spec (avail_in b) 0); [by apply starved_honest|by split; [|auto]]|].
    destruct (check_header_status (df_hdr s)) as [-> |Hf]; [done|].
    destruct (zu_int_zlib_check_header _); solve [by destruct Hf|exact I].
Qed.

Lemma honest_trailer s b f :
  df_encoder s = false -> buffer_ok b -> honest_round (deflate_trailer s b f).
Proof.
  intros He Hb. unfold deflate_trailer. rewrite He. pose proof (avail_in_nonneg b Hb).
  destruct (_ <? _); [|by destruct (deflate_tail_matches s)].
  destruct (Z.eqb_spec (avail_in b) 0); [by apply starved_honest|]. split; [done|].
  eapply buffer_step_ok; [exact Hb|]. apply buf_consume_step; [done|lia].
Qed.

Lemma reset_status s level st s' :
  zu_int_deflate_reset s level = (st, s') ->
  (st = ZU_OK /\ df_encoder s' = df_encoder s) \/ failed st.
Proof.
  unfold zu_int_deflate_reset. destruct (deflate_restart s level) as [ [st1|] s1] eqn:E; intros [= <- <-].
  - right. by eapply restart_error.
  - left. split; [done|]. destruct (rearm_shape s1) as (_ & -> & _).
    by destruct (restart_shape _ _ _ _ E) as (_ & -> & _).
Qed.

Lemma honest_next_member s b held :
  df_encoder s = false -> buffer_ok b -> honest_round (deflate_next_member s b held).
Proof.
  intros He Hb. unfold deflate_next_member.
  destruct (zu_int_deflate_reset s ZU_LEVEL_DEFAULT) as [rs s1] eqn:Er.
  destruct (reset_status _ _ _ _ Er) as [ [-> He1]|Hf]; [|destruct rs; solve [by destruct Hf|exact I]].
  rewrite He in He1. destruct held; [|done].
  destruct (zu_int_gzip_header_feed _ _) as [ [hs gz] fin] eqn:Ef.
  destruct (gz_feed_status _ _ _ _ _ Ef) as [-> |Hf]; [done|]. destruct hs; solve [by destruct Hf|exact I].
Qed.

Lemma honest_member_end s b f :
  df_encoder s = false -> buffer_ok b -> honest_round (deflate_member_end s b f).
Proof.
  intros He Hb. unfold deflate_member_end. rewrite He. pose proof (avail_in_nonneg b Hb).
  pose proof (fun held => honest_next_member s b held He Hb) as Hnext.
  destruct (negb _ || (avail_in b =? 0)) eqn:Ec.
  { destruct (Z.eqb_spec (avail_in b) 0); cbn [andb]; repeat split_if; done. }
  apply orb_false_iff in Ec as [_ Ec%Z.eqb_neq]. rewrite Z.geb_leb.
  destruct (negb (df_probe_magic s)); [|by destruct (negb _)].
  destruct (negb _); [done|]. destruct (Z.leb_spec 2 (avail_in b)); [by destruct (negb _)|].
  destruct (is_finish f); [done|]. unfold honest_round, honest, avail_in in *. cbn. lia.
Qed.

Context {moves : MinizMoves}.

Lemma honest_body s b f :
  df_encoder s = false -> buffer_ok b -> honest_round (deflate_body s b f).
Proof.
  intros He Hb. rewrite deflate_body_eq, He. cbv zeta. rewrite andb_false_r.
  destruct (body_state_fields s b f) as (E1 & E2 & E3 & E4). rewrite He in E3.
  pose proof (moved_ok _ _ _ _ Hb (crank_moved s b f Hb)) as Hb'.
  destruct (Z.eqb_spec (mz_ret (mz_crank s b f)) MZ_STREAM_END) as [|Nend]; [by unfold deflate_body_end; destruct (is_wrapped _)|].
  destruct (_ && _) eqn:Ee.
  { apply failed_honest, from_mz_error; intros E; [|done|]; by rewrite E in Ee. }
  destruct ((mz_used _ =? 0) && _) eqn:Es; [|done].
  apply andb_prop in Es as [Eu%Z.eqb_eq Eo%Z.eqb_eq].
  destruct (moved_counts _ _ _ _ Hb (crank_moved s b f Hb)) as [Hi Ho].
  rewrite crank_taken_len, Eu in Hi by done. rewrite Eo in Ho.
  unfold honest_round, deflate_body_stuck. destruct (Z.eqb_spec (avail_out b) 0); [cbn; lia|].
  destruct (Z.eqb_spec (src_pos (crank_buffer s b f)) (src_size (crank_buffer s b f))) as [Ep|Ep].
  { rewrite E3. repeat split_if; try done. unfold honest, avail_in. lia. }
  assert (Hleft : avail_in (crank_buffer s b f) <> 0) by (unfold avail_in; lia).
  exfalso. revert Ee Eu Eo. unfold mz_crank. rewrite He.
  pose proof (avail_in_nonneg b Hb). pose proof (avail_out_nonneg b Hb).
  assert (Hin : 0 < mz_window (avail_in b) <= avail_in b).
  { unfold mz_window. split_if; zbool; lia. }
  assert (Hroom : 0 < mz_window (avail_out b)) by (unfold mz_window; split_if; zbool; lia).
  intros Ee Eu Eo.
  destruct (mz_inflate_moves (df_mz s) (sub (src_bytes b) (src_pos b) (mz_window (avail_in b)))
    (mz_window (avail_out b)) (mz_flush_of s f)) as [Hu|Hn]; [| |done|lia|].
  - apply andb_false_iff in Ee as [Ee|Ee]; apply negb_false_iff, Z.eqb_eq in Ee; auto.
  - intros E. apply (f_equal zlen) in E. rewrite (zlen_src_sub b) in E by (done || lia).
    rewrite (@zlen_nil Z) in E. lia.
  - by apply Hn, nil_length_inv; unfold zlen in Eo; lia.
Qed.

Lemma deflate_honest s : df_encoder s = false -> honest_at deflate_process s.
Proof.
  intros He b f st s' b' Hb E.
  pose proof (deflate_process_loop s b f Hb) as El. rewrite E in El.
  refine (process_loop_inv deflate_round (fun s1 b1 => df_encoder s1 = false /\ buffer_ok b1)
    (fun st1 _ b1 => honest st1 b1) f _ _ s b (st, s', b') (conj He Hb) El).
  intros s1 b1 [He1 Hb1]. enough (Hr : honest_round (deflate_round s1 b1 f)).
  { by destruct (deflate_round s1 b1 f) as [ [ [st1|] s2] b2]. }
  unfold deflate_round. destruct (df_state s1);
    auto using honest_header, honest_body, honest_trailer, honest_member_end. done.
Qed.

Lemma deflate_decoder_honest w flags s0 :
  zu_int_deflate_new w false ZU_LEVEL_DEFAULT flags = Ok s0 -> HonestRuns deflate_process s0.
Proof.
  intros E s taken given Hr. apply deflate_honest.
  assert (Hf : deflate_fresh w false s0) by (left; eauto).
  destruct (dec_run _ _ _ _ _ _ (fresh_dec _ _ Hf) Hr) as [ [_ He _ _ _ _ _ _] _ _ _ _ _]. done.
Qed.

#[export] Instance deflate_codec_honest w : HonestDecoder (deflate_codec w).
Proof.
  intros new process o s0 Hn Hp _ E.
  destruct w; cbn in *; injection Hn as <-; injection Hp as <-; by eapply deflate_decoder_honest.
Qed.
End deflate.

(** ** The framed decoders and the block decoder *)

#[export] Instance zstd_honest {zstd : Zstd} {zstd_ok : ZstdOk} {alloc : Allocator} :
  HonestDecoder zu_int_codec_zstd.
Proof.
  intros new process o s0 Hn Hp _ En s taken given Hr b f st s' b' Hb E. cbn in *.
  injection Hn as <-. injection Hp as <-. destruct (zstd_decoder_new_fields _ _ En) as [Hf Hd].
  destruct (zdec_call _ s b taken given f (zdec_run_inv _ _ _ _ _ _ Hd Hf Hr) Hb) as (i & o' & d & _ & _ & _ & Hh).
  by rewrite E in Hh.
Qed.

#[export] Instance lz4f_honest {lz4 : Lz4} {lz4_ok : Lz4FrameOk} {alloc : Allocator} :
  HonestDecoder zu_int_codec_lz4_frame.
Proof.
  intros new process o s0 Hn Hp _ En s taken given Hr b f st s' b' Hb E. cbn in *.
  injection Hn as <-. injection Hp as <-. destruct (lz4f_decoder_new_fields _ _ En) as [Hd Hf].
  destruct (ldec_call _ s b taken given f (ldec_run_inv _ _ _ _ _ _ Hd Hf Hr) Hb) as (i & o' & d & _ & _ & _ & Hh).
  by rewrite E in Hh.
Qed.

Lemma block_answer_honest `{Lz4} spec s' b' taken given st :
  block_answer spec s' b' taken given st -> honest st b'.
Proof. destruct st; cbn; try done; tauto. Qed.

#[export] Instance lz4b_honest {lz4 : Lz4} {block_ok : Lz4BlockOk} {alloc : Allocator} :
  HonestDecoder zu_int_codec_lz4_block.
Proof.
  intros new process o s0 Hn Hp Hfit En s taken given Hr b f st s' b' Hb E. cbn in *.
  injection Hn as <-. injection Hp as <-. destruct (lz4b_new_fields _ _ _ _ En) as [Hnew Hlim].
  assert (HP : forall s s', keeps s s' -> limits_ok s -> limits_ok s').
  { unfold limits_ok. by intros ? ? (_ & -> & _ & ->). }
  specialize (Hlim o eq_refl Hfit).
  destruct (block_run_inv lz4b_decoder_process bdec_spec limits_ok s0)
    with (s := s) (taken := taken) (given := given) as [Hk Hinv]; try done.
  { unfold bdec_spec. by intros ? ? ? ? (_ & -> & -> & ->). }
  { intros. by apply decoder_call. }
  destruct (decoder_call s b taken given f Hinv (HP _ _ Hk Hlim) Hb) as (i & o' & _ & _ & Ha).
  rewrite E in Ha. by eapply block_answer_honest.
Qed.

(** ** Every decode under a ceiling ends *)

Lemma builtin_honest {mz : Miniz} {mz_ok : MinizOk} {moves : MinizMoves} {zstd : Zstd}
    {zstd_ok : ZstdOk} {alloc : Allocator} {lz4 : Lz4} {lz4_ok : Lz4FrameOk} {block_ok : Lz4BlockOk} v :
  In v zu_int_builtin -> HonestDecoder v.
Proof.
  revert v. apply List.Forall_forall.
  apply builtin_forall; first [apply _|apply (deflate_codec_honest WRAP_NONE)
    |apply (deflate_codec_honest WRAP_ZLIB)|apply (deflate_codec_honest WRAP_GZIP)].
Qed.


Lemma toy_moves : @MinizMoves toy_miniz.
Proof.
  intros m l room flush r Hret Hl Hroom. subst r. revert Hret. cbn. unfold toy_inflate.
  destruct l as [|c l]; [done|]. repeat split_if; zbool; cbn; intros [?|?]; try done; try lia; by left.
Qed.

#[local] Existing Instances toy_miniz toy_miniz_ok toy_moves toy_zstd toy_zstd_ok toy_lz4 toy_lz4_ok toy_block_ok.
#[local] Instance some_alloc : Allocator := fun _ => true.
#[local] Instance some_heap : HeapBytes := fun _ => 0.
#[local] Existing Instance quiet.

