(* ===== verification/Statuses.v ===== *)
(** * Only the statuses the header names

    A [zu_status] is an int, and a codec could return any.  The built-in codecs return
    the values zukomp.h names, whatever their state and buffers, and so does a whole-buffer
    run over them: the integer the R entry points return identifies the status. *)
From S2P Require Import Prelude Types SizeArith ProcessLoop Registry Stream Identity StreamProps Session Whole WholeProps.
From S2P Require Import GzipHeader Deflate DeflateProps DeflateFraming DeflateDecode.
From S2P Require Import Frames FramedDecoder Zstd ZstdProps Lz4 Lz4Props Lz4Block Lz4BlockProps.
From S2P Require Import Builtins Liveness.

Definition named (st : zu_status) : Prop :=
  match st with
  | ZU_STATUS_OTHER _ => False
  | _ => True
  end.

Class NamedProcess {S} (process : S -> zu_buffer -> zu_flush -> zu_status * S * zu_buffer) : Prop :=
  process_named : forall s b f, named (process s b f).1.1.

Lemma failed_named st : failed st -> named st.
Proof. by destruct st. Qed.

Lemma named_code st st' : named st -> named st' -> status_code st = status_code st' -> st = st'.
Proof. by destruct st, st'. Qed.

(** The branches of a definition, as far as statuses go. *)
Ltac named_cases :=
  repeat (cbn [fst snd]; first
    [ exact I
    | match goal with
      | |- context [if ?x then _ else _] => destruct x
      | |- context [match ?x with Some _ => _ | None => _ end] =>
          lazymatch x with fst _ => fail | _ => destruct x end
      end ]).

(** ** Loops of rounds *)

Definition named_round {S} (r : option zu_status * S * zu_buffer) : Prop :=
  match r.1.1 with
  | Some st => named st
  | None => True
  end.

#[export] Instance run_process_named {S} (step : S -> zu_buffer -> zu_flush -> option zu_status * S * zu_buffer) fuel :
  (forall s b f, named_round (step s b f)) -> NamedProcess (run_process step fuel).
Proof.
  intros Hstep s b f. unfold run_process.
  destruct (process_loop step (fuel s b) s b f) as [r|] eqn:E; [|exact I]. cbn.
  refine (process_loop_inv step (fun _ _ => True) (fun st _ _ => named st) f _ _ s b r I E).
  intros s1 b1 _. specialize (Hstep s1 b1 f). unfold named_round in Hstep.
  by destruct (step s1 b1 f) as [ [ [st|] s2] b2].
Qed.

#[export] Instance identity_named : NamedProcess identity_process.
Proof. intros s b f. unfold identity_process. named_cases. Qed.

(** ** DEFLATE *)
Section deflate.
Context {mz : Miniz} {mz_ok : MinizOk}.

Lemma gz_feed_named h c : named (zu_int_gzip_header_feed h c).1.1.
Proof.
  destruct (zu_int_gzip_header_feed h c) as [ [st h'] fin] eqn:E.
  destruct (gz_feed_status _ _ _ _ _ E) as [-> |Hf]; [exact I|by apply failed_named].
Qed.

Lemma next_member_named s b held : named_round (deflate_next_member s b held).
Proof.
  unfold deflate_next_member. destruct (zu_int_deflate_reset s ZU_LEVEL_DEFAULT) as [rs s1] eqn:Er.
  assert (Hr : named rs) by (destruct (reset_status _ _ _ _ Er) as [ [-> _]|?]; [exact I|by apply failed_named]).
  pose proof (gz_feed_named (df_gz s1) 0x1f) as Hf.
  destruct rs; try solve [exact Hr]. destruct held; [|exact I].
  destruct (zu_int_gzip_header_feed _ _) as [ [st gz] fin].
  destruct st; solve [exact I|exact Hf].
Qed.

Lemma deflate_round_named s b f : named_round (deflate_round s b f).
Proof.
  assert (Hs : named (starved f)) by (unfold starved; by destruct (is_finish f)).
  unfold deflate_round, named_round. destruct (df_state s).
  - unfold deflate_header. pose proof (gz_feed_named (df_gz s) (src_at b 0)) as Hf.
    destruct (zu_int_gzip_header_feed _ _) as [ [hs gz] fin].
    cbn [fst] in Hf. unfold zu_int_zlib_check_header.
    named_cases; first [exact Hs|destruct hs; solve [exact I|exact Hf] ].
  - rewrite deflate_body_eq. unfold deflate_body_end, deflate_body_stuck, zu_int_from_mz. named_cases.
  - unfold deflate_trailer. named_cases; exact Hs.
  - unfold deflate_member_end. cbv zeta. pose proof (next_member_named s b false). pose proof (next_member_named s b true).
    named_cases; assumption.
  - exact I.
Qed.

#[export] Instance deflate_named : NamedProcess deflate_process.
Proof. apply run_process_named, deflate_round_named. Qed.
End deflate.

(** ** zstd and LZ4 *)

Section framed.
Context {lib : FrameLib} (lib_error : Z -> zu_status) (feed : fl_ctx -> bytes -> zu_status * fl_ctx).
Context (Herr : forall r, failed (lib_error r)) (Hfeed : forall c p, named (feed c p).1).

Lemma extend_named fuel : forall f b n,
  match frames_extend fuel f b n with inl (st, _, _) => named st | inr _ => True end.
Proof.
  induction fuel as [|fuel IH]; intros f b n; cbn [frames_extend]; [exact I|].
  destruct (_ && _); [|exact I]. destruct (negb _); [exact I|apply IH].
Qed.

Lemma between_named f b flush c : named (zu_int_frames_between feed f b flush c).1.1.1.
Proof.
  unfold zu_int_frames_between, frames_look. destruct (fr_state f); [exact I| |exact I].
  pose proof (extend_named 4 f b (avail_in b)) as He. pose proof (Hfeed c) as Hf.
  destruct (frames_extend _ _ _ _) as [ [ [st f1] b1]|[ [f1 b1] n] ]; [named_cases; exact He|].
  specialize (Hf (sub (fr_held f1) 0 4)). destruct (feed c _) as [ [] c1]; named_cases; exact Hf.
Qed.

Lemma stalled_named f ai ao flush c :
  named (zu_int_frames_stalled (framed_probe lib_error) f ai ao flush c).1.1.
Proof.
  unfold zu_int_frames_stalled, framed_probe. set (r := fl_decompress c [] 1). clearbody r.
  pose proof (failed_named _ (Herr (lo_ret r))). destruct (fl_isError (lo_ret r)); named_cases; assumption.
Qed.

Lemma framed_named : NamedProcess (framed_process lib_error feed).
Proof.
  apply run_process_named. intros [f c] b flush. unfold framed_round.
  destruct (zu_int_frames_pay f b) as [ [paid f1] b1]. destruct (negb paid); [exact I|].
  pose proof (between_named f1 b1 flush c) as Hb.
  assert (Hbt : named_round
    match zu_int_frames_between feed f1 b1 flush c with
    | (ZU_OK, f', buf', c') => (None, (f', c'), buf')
    | (fs, f', buf', c') => (Some fs, (f', c'), buf')
    end).
  { destruct (zu_int_frames_between _ _ _ _ _) as [ [ [st f2] b2] c2]. destruct st; exact Hb || exact I. }
  destruct (fr_state f1); [|exact Hbt..]. unfold framed_body.
  set (r := fl_decompress c _ _). clearbody r. destruct (fl_isError (lo_ret r)); [by apply failed_named|].
  destruct (_ =? 0); [exact I|]. destruct (_ && _); [|exact I].
  pose proof (stalled_named f1 (avail_in b1) (avail_out b1) flush (lo_next r)) as Hs.
  destruct (zu_int_frames_stalled _ _ _ _ _ _) as [ [st f2] c2]. destruct st; exact Hs || exact I.
Qed.
End framed.

#[export] Instance zstd_encoder_named {zstd : Zstd} : NamedProcess zstd_encoder_process.
Proof.
  intros s b f. unfold zstd_encoder_process. destruct (zs_done s); [exact I|].
  apply run_process_named. clear. intros s b f. unfold zstd_encoder_round, named_round.
  destruct (zs_cctx s) as [c|]; [|exact I]. cbv zeta. set (r := ZSTD_compressStream2 c _ _ _). clearbody r.
  pose proof (failed_named _ (zstd_error_failed s (lo_ret r))). named_cases. assumption.
Qed.

#[export] Instance zstd_decoder_named {zstd : Zstd} : NamedProcess zstd_decoder_process.
Proof.
  intros s b f. unfold zstd_decoder_process. destruct (zs_dctx s) as [d|]; [|exact I].
  assert (Hn : NamedProcess (framed_process (lib := zstd_lib) (zu_int_zstd_error s) (zstd_feed_held s))).
  { apply framed_named; [apply zstd_error_failed|]. intros c p. unfold zstd_feed_held. cbv zeta.
    pose proof (failed_named _ (zstd_error_failed s (lo_ret (ZSTD_decompressStream c p 0)))). named_cases. assumption. }
  specialize (Hn (zs_frames s, d) b f). by destruct (framed_process _ _ _ _ _) as [ [st [f1 d1] ] b1].
Qed.

#[export] Instance lz4f_encoder_named {lz4 : Lz4} : NamedProcess lz4f_encoder_process.
Proof.
  intros s b f. unfold lz4f_encoder_process.
  assert (Hn : NamedProcess (run_process lz4f_encoder_round lz4f_encoder_fuel)).
  { apply run_process_named. clear. intros [s flushed] b f. unfold lz4f_encoder_round.
    destruct (zu_int_lz4_drain s b) as [ [empty s1] b1]. destruct (negb empty); [exact I|].
    destruct (lz_done s1); [exact I|]. destruct (lz_ended s1); [exact I|].
    destruct (lz_cctx s1) as [c|]; [|exact I].
    destruct (lz4f_encoder_call s1 c b1 f flushed) as [ [ [ [ [ [r p] st] en] fl] t]|]; [|exact I].
    pose proof (failed_named _ (lz4f_error_failed s1 (lo_ret r))).
    by destruct (LZ4F_isError (lo_ret r)). }
  specialize (Hn (s, false) b f). by destruct (run_process _ _ _ _ _) as [ [st [s1 f1] ] b1].
Qed.

#[export] Instance lz4f_decoder_named {lz4 : Lz4} : NamedProcess lz4f_decoder_process.
Proof.
  intros s b f. unfold lz4f_decoder_process. destruct (lz_dctx s) as [d|]; [|exact I].
  assert (Hn : NamedProcess (framed_process (lib := lz4_lib) (zu_int_lz4f_error s) (lz4f_feed_held s))).
  { apply framed_named; [apply lz4f_error_failed|]. intros c p. unfold lz4f_feed_held. cbv zeta.
    pose proof (failed_named _ (lz4f_error_failed s (lo_ret (LZ4F_decompress c p 0)))). named_cases. assumption. }
  specialize (Hn (lz_frames s, d) b f). by destruct (framed_process _ _ _ _ _) as [ [st [f1 d1] ] b1].
Qed.

(** ** lz4-block *)

Lemma add_named a b out : match zu_int_add a b out with Err st => named st | Ok _ => True end.
Proof. unfold zu_int_add. repeat split_if; exact I. Qed.

Lemma grow_named a b out : match zu_int_grow a b out with Err st => named st | Ok _ => True end.
Proof.
  unfold zu_int_grow. pose proof (add_named a b true) as H. destruct (negb out); [exact I|].
  by destruct (zu_int_add a b true).
Qed.

Section block.
Context {lz4 : Lz4} {alloc : Allocator}.

Lemma gather_named s b : named (zu_int_lz4b_gather s b).1.1.
Proof.
  unfold zu_int_lz4b_gather. cbv zeta. destruct (avail_in b =? 0); [exact I|].
  pose proof (add_named (lz_in_len s) (avail_in b) true) as Ha.
  destruct (zu_int_add _ _ _) as [need|st]; [|exact Ha].
  pose proof (grow_named (lz_in_cap s) (need - lz_in_cap s) true) as Hg.
  destruct (zu_int_grow _ _ _); named_cases; exact Hg.
Qed.

Lemma stage_named s n : named (zu_int_lz4b_stage s n).1.
Proof. unfold zu_int_lz4b_stage. named_cases. Qed.

Lemma deliver_named s b : named (lz4b_deliver s b).1.1.
Proof. unfold lz4b_deliver. destruct (zu_int_lz4_drain s b) as [ [ [] s1] b1]; exact I. Qed.

Lemma search_loop_named fuel : forall s ceiling limited cap r,
  lz4b_search_loop fuel s ceiling limited cap = Some r ->
  match r.1 with Err st => named st | Ok _ => True end.
Proof.
  induction fuel as [|fuel IH]; intros s ceiling limited cap r; [done|]. cbn [lz4b_search_loop].
  pose proof (stage_named s cap) as Hs. destruct (zu_int_lz4b_stage s cap) as [st s1].
  destruct st; try (intros [= <-]; exact Hs).
  destruct (LZ4_decompress_safe _ _) as [v out]. destruct (_ >=? 0); [by intros [= <-]|].
  destruct (LZ4_decompress_safe_partial _ _ _) as [p part]. destruct (_ || _); [by intros [= <-]|].
  destruct (_ >=? _); [intros [= <-]; by destruct limited|apply IH].
Qed.

Lemma search_named s : match (zu_int_lz4b_search s).1 with Err st => named st | Ok _ => True end.
Proof.
  unfold zu_int_lz4b_search. destruct (lz4b_ceiling _ _) as [ceiling limited].
  destruct (lz4b_search_loop _ _ _ _ _) as [r|] eqn:E; [|exact I].
  exact (search_loop_named _ _ _ _ _ _ E).
Qed.

Lemma gathered_named s b (rest : lz4_state -> zu_buffer -> zu_status * lz4_state * zu_buffer) :
  (forall s1 b1, named (rest s1 b1).1.1) ->
  named (match zu_int_lz4b_gather s b with
         | (ZU_OK, s, buf) => rest s buf
         | r => r
         end).1.1.
Proof.
  intros Hr. pose proof (gather_named s b) as Hg.
  destruct (zu_int_lz4b_gather s b) as [ [st s1] b1]. destruct st; first [exact Hg|apply Hr].
Qed.

#[export] Instance lz4b_encoder_named : NamedProcess lz4b_encoder_process.
Proof.
  intros s b f. unfold lz4b_encoder_process. destruct (lz_done s); [apply deliver_named|].
  destruct (negb (is_finish f)); [by apply gathered_named|]. cbv zeta.
  destruct (_ && _); [destruct (zu_int_lz4b_compress _ _ _); named_cases|].
  unfold lz4b_encoder_staged. apply gathered_named. intros s1 b1. cbv zeta.
  destruct (_ <=? 0); [exact I|]. pose proof (stage_named s1 (LZ4_compressBound (lz_in_len s1))) as Hs.
  destruct (zu_int_lz4b_stage _ _) as [st s2]. destruct st; try solve [exact Hs].
  destruct (zu_int_lz4b_compress _ _ _) as [w out]. destruct (w <=? 0); [exact I|apply deliver_named].
Qed.

#[export] Instance lz4b_decoder_named : NamedProcess lz4b_decoder_process.
Proof.
  intros s b f. unfold lz4b_decoder_process. destruct (lz_done s); [apply deliver_named|].
  destruct (negb (is_finish f)); [by apply gathered_named|]. cbv zeta.
  assert (Hexp : forall want, named (lz4b_decoder_expected s b want).1.1).
  { intros want. unfold lz4b_decoder_expected. apply gathered_named. intros s1 b1.
    destruct (_ =? 0); [exact I|]. pose proof (stage_named s1 want) as Hs.
    destruct (zu_int_lz4b_stage _ _) as [st s2]. destruct st; try solve [exact Hs].
    destruct (LZ4_decompress_safe _ _) as [r out]. destruct (_ || _); [exact I|apply deliver_named]. }
  destruct (lz_has_expected s).
  - destruct (LZ4_decompress_safe _ _) as [r out]. named_cases. apply Hexp.
  - unfold lz4b_decoder_unknown. apply gathered_named. intros s1 b1. destruct (_ =? 0); [exact I|].
    pose proof (search_named s1) as Hs. destruct (zu_int_lz4b_search s1) as [ [got|st] s2]; [apply deliver_named|exact Hs].
Qed.
End block.

(** ** The driver and the drive loop *)

(** What a codec owes: no status but the header's, from either direction. *)
Record vtable_named (v : zu_codec_vtable) : Prop := {
  vn_fail : constructors_fail v;
  vn_encoder_new : is_Some (vt_encoder_new v);
  vn_decoder_new : is_Some (vt_decoder_new v);
  vn_encoder : exists process, vt_encoder_process v = Some process /\ NamedProcess process;
  vn_decoder : exists process, vt_decoder_process v = Some process /\ NamedProcess process;
}.

Lemma builtin_named {mz : Miniz} {mz_ok : MinizOk} {zstd : Zstd} {alloc : Allocator} {lz4 : Lz4} :
  Forall vtable_named zu_int_builtin.
Proof.
  pose proof builtin_constructors_fail as Hf. rewrite List.Forall_forall in Hf.
  enough (H : Forall (fun v => In v zu_int_builtin -> vtable_named v) zu_int_builtin).
  { rewrite List.Forall_forall in H |- *. auto. }
  apply builtin_forall; intros Hin; (constructor; [by apply Hf|by eexists|by eexists|..]);
    eexists; (split; [reflexivity|apply _]).
Qed.

Section driver.
Context {alloc : Allocator} (reg : registry) (Hreg : Forall vtable_named (reg_vtables reg)).

Lemma encoder_call_named e b f : vtable_named (enc_vtable e) ->
  named (encoder_process e b f).1.1 /\ enc_vtable (encoder_process e b f).1.2 = enc_vtable e.
Proof.
  intros [_ _ _ (process & Hp & Hn) _]. unfold encoder_process, zu_int_check_buffer, zu_int_check_flush.
  rewrite Hp. specialize (Hn (enc_state e) b f).
  destruct (process (enc_state e) b f) as [ [st s'] b'].
  destruct (_ || _); [by split|]. destruct (_ && _); [by split|].
  destruct f; repeat split_if; by split.
Qed.

Lemma over_status_named o : named (over_status o).
Proof.
  unfold over_status, decoder_ceiling. destruct (negb (do_max_output o =? 0)); cbv zeta; by repeat split_if.
Qed.

Lemma decoder_call_named d b f : vtable_named (dec_vtable d) ->
  named (decoder_process d b f).1.1 /\ dec_vtable (decoder_process d b f).1.2 = dec_vtable d.
Proof.
  intros [_ _ _ _ (process & Hp & Hn)]. unfold decoder_process, zu_int_check_buffer, zu_int_check_flush.
  rewrite Hp. destruct (decoder_window _ _ b) as [ [allowance capped] given].
  specialize (Hn (dec_state d) given f). pose proof (over_status_named (dec_opts d)).
  destruct (process (dec_state d) given f) as [ [st s'] b'].
  destruct (_ || _); [by split|]. destruct (_ && _); [by split|].
  destruct f; try (by split); repeat split_if; (split; [|done]); try exact I;
    unfold decoder_verdict; cbv zeta; repeat split_if; done.
Qed.

Lemma resolve_named codec direction :
  match zu_int_resolve reg codec direction with
  | Ok v => vtable_named v
  | Err st => named st
  end.
Proof.
  unfold zu_int_resolve. destruct (zu_int_registry_lookup reg codec) as [v|] eqn:El; [|exact I].
  rewrite List.Forall_forall in Hreg. pose proof (Hreg v (proj1 (lookup_some_in _ _ _ El))).
  by destruct (has_flag _ _).
Qed.

Lemma encoder_new_named m :
  match zu_encoder_new reg true m with
  | Ok e => vtable_named (enc_vtable e)
  | Err st => named st
  end.
Proof.
  unfold zu_encoder_new. destruct m as [m|]; [|exact I]. cbn [negb]. destruct (_ <? _); [exact I|].
  pose proof (resolve_named (eo_codec (encoder_opts_of m)) ZU_CAN_ENCODE) as Hv.
  destruct (zu_int_resolve _ _ _) as [v|st]; cbn [mbind result_bind]; [|exact Hv].
  assert (Hl : match zu_int_check_level v (eo_level (encoder_opts_of m)) with Err st => named st | Ok _ => True end)
    by (unfold zu_int_check_level; by repeat split_if).
  destruct (zu_int_check_level _ _); cbn [mbind result_bind]; [|exact Hl].
  destruct (negb (alloc_ok _)); [exact I|]. cbv zeta. pose proof Hv as [ [Hf _] [new Hn] _ _ _]. rewrite Hn.
  set (o := encoder_opts_of (zu_int_copy_opts _ _ _)). destruct (new o) as [s|st] eqn:En; [exact Hv|].
  apply failed_named. by eapply Hf.
Qed.

Lemma decoder_new_named m :
  match zu_decoder_new reg true m with
  | Ok d => vtable_named (dec_vtable d)
  | Err st => named st
  end.
Proof.
  unfold zu_decoder_new. destruct m as [m|]; [|exact I]. cbn [negb]. destruct (negb _); [exact I|].
  pose proof (resolve_named (do_codec (decoder_opts_of m)) ZU_CAN_DECODE) as Hv.
  destruct (zu_int_resolve _ _ _) as [v|st]; cbn [mbind result_bind]; [|exact Hv].
  destruct (negb (alloc_ok _)); [exact I|]. cbv zeta. pose proof Hv as [ [_ Hf] _ [new Hn] _ _]. rewrite Hn.
  set (o := decoder_opts_of (zu_int_copy_opts _ _ _)). destruct (new o) as [s|st] eqn:En; [exact Hv|].
  apply failed_named. by eapply Hf.
Qed.

Context {heap : HeapBytes} {ints : Interrupts}.

Lemma reserve_named w o extra : named (zu_int_reserve w o extra).1.1.
Proof.
  unfold zu_int_reserve. destruct (ob_owner o); [|exact I].
  pose proof (add_named (ob_used o) extra true) as Ha. destruct (zu_int_add _ _ _) as [needed|]; [|exact Ha].
  destruct (_ <=? _); [exact I|]. pose proof (grow_named (ob_size o) (needed - ob_size o) true) as Hg.
  destruct (zu_int_grow _ _ _); [|exact Hg]. destruct (negb _); [exact I|]. by destruct (sink_realloc _ _ _).
Qed.

Lemma loop_named {H} (P : H -> Prop) process r :
  (forall h b f, P h -> named (process h b f).1.1 /\ P (process h b f).1.2) ->
  forall fuel s st s', P (dr_handle s) ->
  whole_loop process r fuel s = Some (drive_break st, s') -> named st.
Proof.
  intros Hp fuel. induction fuel as [|fuel IH]; intros s st s' Hs; [done|]. cbn [whole_loop].
  destruct (whole_round process r s) as [ [e|] s1] eqn:E.
  - intros [= -> ->]. revert E. unfold whole_round.
    destruct (whole_refill _ _ _) as [buf fed]. pose proof (reserve_named (dr_world s) (dr_out s) (ro_out_chunk r)) as Hr.
    destruct (zu_int_reserve _ _ _) as [ [st0 w] out]. destruct (negb _); [intros [= <- _]; exact Hr|].
    pose proof (Hp (dr_handle s) (whole_window r out buf) (whole_flush r fed (dr_calls s)) Hs) as [Hn _].
    destruct (process _ _ _) as [ [st1 h1] b1]. cbn [fst snd] in *.
    repeat split_if; intros [= <- _]; first [exact Hn|exact I].
  - apply IH. revert E. unfold whole_round.
    destruct (whole_refill _ _ _) as [buf fed]. destruct (zu_int_reserve _ _ _) as [ [st0 w] out].
    destruct (negb _); [done|].
    pose proof (Hp (dr_handle s) (whole_window r out buf) (whole_flush r fed (dr_calls s)) Hs) as [_ Hn].
    destruct (process _ _ _) as [ [st1 h1] b1]. cbn [fst snd] in *. repeat split_if; by intros [= <-].
Qed.

(** The status of a whole-buffer run is one the header names. *)
Lemma run_whole_named fuel r w o res st :
  zu_int_run_whole reg fuel r w o = Some res -> wr_status res = Some st -> named st.
Proof.
  unfold zu_int_run_whole. destruct r as [r|]; [|by intros [= <-] [= <-] ].
  destruct o as [o|]; [|by intros [= <-] [= <-] ]. destruct (_ || _); [by intros [= <-] [= <-]|].
  unfold whole_drive. destruct (ro_encode r).
  - pose proof (encoder_new_named (Some (encoder_opts_bytes (run_encoder_opts r)))) as Hn.
    destruct (zu_encoder_new _ _ _) as [e|st0]; [|by intros [= <-] [= <-] ].
    destruct (whole_loop _ _ _ _) as [ [ [st1|] s1]|] eqn:El; [|by intros [= <-]|done].
    intros [= <-] [= <-].
    refine (loop_named (fun e => vtable_named (enc_vtable e)) encoder_process r _ fuel _ _ _ _ El); [|exact Hn].
    intros e1 b f He. destruct (encoder_call_named e1 b f He) as [? ->]. by split.
  - pose proof (decoder_new_named (Some (decoder_opts_bytes (run_decoder_opts r)))) as Hn.
    destruct (zu_decoder_new _ _ _) as [d|st0]; [|by intros [= <-] [= <-] ].
    destruct (whole_loop _ _ _ _) as [ [ [st1|] s1]|] eqn:El; [|by intros [= <-]|done].
    intros [= <-] [= <-].
    refine (loop_named (fun d => vtable_named (dec_vtable d)) decoder_process r _ fuel _ _ _ _ El); [|exact Hn].
    intros d1 b f Hd. destruct (decoder_call_named d1 b f Hd) as [? ->]. by split.
Qed.
End driver.
