(* ===== verification/RoundTrip.v ===== *)
(** * What zukomp writes, zukomp reads

    The round trip of a whole-buffer run through the registry package initialisation
    leaves: for every built-in codec, from the inverse laws of the libraries.  The
    instances are those of DeflateRuns.v and CodecRuns.v. *)
From stdpp Require Import gmap.
From S2P Require Import Prelude Types SizeArith ProcessLoop Registry Stream Identity StreamProps Session Whole WholeProps WholeRuns.
From S2P Require Import Deflate DeflateProps DeflateFraming Frames FramedDecoder Zstd ZstdProps Lz4 Lz4Props Lz4Block Lz4BlockProps Builtins DeflateRuns CodecRuns.

Section builtins.
Context {mz : Miniz} {mz_ok : MinizOk} {zstd : Zstd} {zstd_ok : ZstdOk}.
Context {alloc : Allocator} {lz4 : Lz4} {lz4_ok : Lz4FrameOk} {block_ok : Lz4BlockOk}.

Lemma builtin_directions v :
  In v zu_int_builtin ->
  is_Some (vt_encoder_new v) /\ is_Some (vt_encoder_process v) /\
  is_Some (vt_decoder_new v) /\ is_Some (vt_decoder_process v).
Proof.
  revert v. apply List.Forall_forall. apply builtin_forall; split_and!; by eexists.
Qed.

Context {mz_inv : MinizInverse} {zstd_inv : ZstdInverse} {lz4_inv : Lz4Inverse} {drains : MinizDrains}.

Lemma builtin_inverse v : In v zu_int_builtin -> CodecInverse v.
Proof.
  revert v. apply List.Forall_forall.
  apply builtin_forall; first [apply _|apply (deflate_inverse WRAP_NONE)
    |apply (deflate_inverse WRAP_ZLIB)|apply (deflate_inverse WRAP_GZIP)].
Qed.

Lemma builtin_takes_all v : In v zu_int_builtin -> EncoderTakesAll v mz_limit.
Proof.
  revert v. apply List.Forall_forall.
  apply builtin_forall; first [apply _|apply (deflate_takes_all WRAP_NONE)
    |apply (deflate_takes_all WRAP_ZLIB)|apply (deflate_takes_all WRAP_GZIP)].
Qed.

(** The instances, over the drive loop's round trip. *)
Lemma builtin_runs_roundtrip {heap : HeapBytes} {ints : Interrupts} v fuel1 fuel2 r1 r2 w1 w2 o1 o2 res1 res2 :
  In v zu_int_builtin ->
  runs builtin_registry fuel1 r1 w1 o1 res1 -> ro_encode r1 = true -> ro_codec r1 = vt_codec v ->
  encoder_opts_fit (run_encoder_opts r1) -> wr_status res1 = Some ZU_STREAM_END ->
  runs builtin_registry fuel2 r2 w2 o2 res2 -> ro_encode r2 = false -> ro_codec r2 = vt_codec v ->
  decoder_opts_fit (run_decoder_opts r2) -> wr_status res2 = Some ZU_STREAM_END ->
  run_input r2 = sink_written (wr_out res1) ->
  sink_written (wr_out res2) = take (Z.to_nat (ob_consumed (wr_out res1))) (run_input r1) /\
  ob_consumed (wr_out res2) = zlen (run_input r2) /\
  (ro_n r1 <= mz_limit -> ob_consumed (wr_out res1) = ro_n r1).
Proof.
  intros Hin Hrun1 Hdir1 Hc1 Hfit1 Hst1 Hrun2 Hdir2 Hc2 Hfit2 Hst2 Ein.
  destruct (builtin_directions v Hin) as (Hen & Hep & Hdn & Hdp).
  pose proof (builtin_lookup v Hin) as Hl.
  pose proof (builtin_inverse v Hin). pose proof (builtin_takes_all v Hin).
  destruct (runs_roundtrip builtin_registry builtin_decoders builtin_encoders builtin_constructors v
    _ _ _ _ _ _ _ _ _ _ Hen Hep Hdn Hdp Hl Hrun1 Hdir1 Hc1 Hfit1 Hst1 Hrun2 Hdir2 Hc2 Hfit2 Hst2 Ein)
    as [Hg Ht]. split; [done|]. split; [done|]. intros Hn.
  eapply (run_takes_all builtin_registry builtin_decoders builtin_encoders builtin_constructors v);
    try done. by rewrite Hc1.
Qed.
End builtins.


(** ** Small libraries that invert themselves

    The toy format of Deflate.v behind the other libraries' calling conventions: a frame
    is its items and the end mark.  A context that has ended refuses another frame. *)
Definition coded_write (st : Z) (next_in : bytes) (room op : Z) : lib_outcome Z :=
  if st =? 2 then mk_lib 200 0 [] st
  else
    let flush :=
      if op =? ZSTD_e_end then MZ_FINISH else if op =? ZSTD_e_flush then MZ_SYNC_FLUSH else MZ_NO_FLUSH in
    let r := toy_deflate st next_in room flush in
    mk_lib (if mz_ret r =? MZ_STREAM_END then 0 else 1) (mz_used r) (mz_out r) (mz_next r).

Definition coded_read (st : Z) (next_in : bytes) (room : Z) : lib_outcome Z :=
  if st =? 2 then mk_lib 200 0 [] st
  else
    let r := toy_inflate st next_in room MZ_NO_FLUSH in
    mk_lib (if mz_ret r =? MZ_STREAM_END then 0 else if mz_ret r =? MZ_DATA_ERROR then 200 else 1)
      (mz_used r) (mz_out r) (mz_next r).

Definition coded_zstd : Zstd := {|
  ZSTD_CCtx := Z;
  ZSTD_DCtx := Z;
  ZSTD_createCCtx := 0;
  ZSTD_createDCtx := 0;
  ZSTD_CCtx_setParameter := fun c _ _ => (0, c);
  ZSTD_DCtx_setParameter := fun d _ _ => (0, d);
  ZSTD_CCtx_reset := fun _ _ => (0, 0);
  ZSTD_DCtx_reset := fun _ _ => (0, 0);
  ZSTD_compressStream2 := coded_write;
  ZSTD_decompressStream := coded_read;
  ZSTD_isError := toy_isError;
  ZSTD_getErrorCode := fun r => r - 180;
  ZSTD_compressBound := fun n => 2 * n + 1;
|}.

Definition coded_items (l : bytes) : bytes := flat_map (fun c => [1; u8 c]) l.

Definition coded_lz4 : Lz4 := {|
  LZ4F_cctx := unit;
  LZ4F_dctx := Z;
  LZ4F_createCompressionContext := (0, tt);
  LZ4F_createDecompressionContext := (0, 0);
  LZ4F_resetDecompressionContext := fun _ => 0;
  LZ4F_compressBegin := fun _ cap _ => toy_write cap [2];
  LZ4F_compressUpdate := fun _ cap l => toy_write cap (coded_items l);
  LZ4F_flush := fun _ cap => toy_write cap [2];
  LZ4F_compressEnd := fun _ cap => toy_write cap [0];
  LZ4F_decompress := coded_read;
  LZ4F_compressBound := fun n _ => 2 * n + 32;
  LZ4F_compressFrameBound := fun n _ => 2 * n + 32;
  LZ4F_isError := toy_isError;
  LZ4F_getErrorCode := fun r => r - 184;
  LZ4_compress_HC := toy_block;
  LZ4_compress_fast := toy_block;
  LZ4_decompress_safe := @LZ4_decompress_safe toy_lz4;
  LZ4_decompress_safe_partial := @LZ4_decompress_safe_partial toy_lz4;
|}.

Lemma coded_read_ok st l room :
  0 <= room -> let r := coded_read st l room in toy_isError (lo_ret r) = false ->
  0 <= lo_used r <= zlen l /\ zlen (lo_out r) <= room.
Proof.
  intros Hr. unfold coded_read. destruct (st =? 2); [done|]. cbn.
  destruct (mz_inflate_ok (MinizOk := toy_miniz_ok) st l room MZ_NO_FLUSH Hr) as (H1 & H2 & _).
  by intros _.
Qed.

Lemma coded_read_ends st l room :
  let r := coded_read st l room in toy_isError (lo_ret r) = false -> lo_ret r = 0 ->
  0 < lo_used r + zlen (lo_out r).
Proof.
  unfold coded_read, toy_inflate. destruct (st =? 2) eqn:E; [done|].
  destruct l as [|c l]; [done|]. repeat split_if; cbn; try done; lia.
Qed.

Lemma coded_zstd_ok : @ZstdOk coded_zstd.
Proof.
  constructor; [constructor|].
  - exact coded_read_ok.
  - exact coded_read_ends.
  - intros st l room op Hr. cbn. unfold coded_write. destruct (st =? 2); [done|]. cbn.
    match goal with |- context [toy_deflate st l room ?f] =>
      destruct (mz_deflate_ok (MinizOk := toy_miniz_ok) st l room f Hr) as (H1 & H2 & _) end.
    by intros _.
Qed.

Lemma coded_lz4_ok : @Lz4FrameOk coded_lz4.
Proof.
  constructor; [constructor|intros; apply toy_wrote..]; [exact coded_read_ok|exact coded_read_ends].
Qed.

Definition coded_block_ok : @Lz4BlockOk coded_lz4.
Proof.
  refine {| lz4_decode := toy_unblock |};
    [exact (@lb_safe _ toy_block_ok)|exact (@lb_safe_fail _ toy_block_ok)|exact (@lb_partial _ toy_block_ok)
    |exact (@lb_partial_room _ toy_block_ok)|exact (@lb_ratio _ toy_block_ok)|exact (@lb_compress _ toy_block_ok)].
Defined.

(** An encoder's and a decoder's session are sessions of the toy format. *)
Lemma coded_writes c x p calls :
  @zstd_session coded_zstd 0 c x p calls ->
  exists fin, mz_session toy_deflate 0 c x p fin /\ (frame_complete calls -> fin = true).
Proof.
  unfold frame_complete. induction 1 as [|c i o calls next_in room op r Hs (fin & Hm & _) _ -> He];
    [by exists false; split; [constructor|]|].
  revert He. cbn. unfold coded_write. destruct (Z.eqb_spec c 2) as [->|Hne]; [done|]. cbn.
  destruct fin.
  { assert (Hf : forall m x p fin, mz_session toy_deflate 0 m x p fin -> fin = true -> m = 2).
    { destruct 1 as [|m ? ? l a f ? _ -> _]; [done|]. cbn. unfold toy_deflate.
      by destruct l as [|? l]; repeat split_if. }
    by rewrite (Hf _ _ _ _ Hm eq_refl) in Hne. }
  intros _. eexists. split.
  - eapply session_call; [exact Hm|reflexivity|]. unfold toy_deflate.
    rewrite (proj2 (Z.eqb_neq _ _) Hne). repeat split_if; destruct next_in; repeat split_if; cbn; auto.
  - cbn. intros [= _ E]. by destruct (_ =? MZ_STREAM_END).
Qed.

Definition coded_frame_lib : FrameLib :=
  {| fl_ctx := Z; fl_decompress := coded_read; fl_isError := toy_isError |}.

Lemma coded_reads d q o fin :
  lib_run (lib := coded_frame_lib) 0 d q o fin ->
  mz_session toy_inflate 0 d q o fin /\ (fin = true -> d = 2).
Proof.
  induction 1 as [|d i o fin next_in room r Hs [Hm Hend] _ -> He]; [by split; [constructor|]|].
  revert He. cbn. unfold coded_read. destruct (Z.eqb_spec d 2) as [|Hne]; [done|]. cbn. intros He.
  assert (fin = false) as -> by (destruct fin; [by rewrite Hend in Hne|done]).
  pose proof (session_call toy_inflate 0 d i o next_in room MZ_NO_FLUSH _ Hm eq_refl) as Hc.
  revert He Hc. unfold toy_inflate. rewrite (proj2 (Z.eqb_neq _ _) Hne).
  destruct next_in as [|c l]; repeat split_if; cbn; intros He Hc; try done; (split; [apply Hc; auto|done]).
Qed.

(** A complete frame parses to what it holds, from either side. *)
Lemma coded_read_parses d q o rest :
  lib_run (lib := coded_frame_lib) 0 d q o true -> bytes_ok q -> toy_parse (q ++ rest) = Some (o, rest).
Proof.
  intros [Hm Hend]%coded_reads Hq. specialize (Hend eq_refl). subst d.
  by apply (toy_inflate_session _ _ _ _ Hm Hq).
Qed.

Lemma coded_frame_read x p d q o rest :
  toy_parse p = Some (x, []) -> bytes_ok p -> lib_run (lib := coded_frame_lib) 0 d q o true ->
  p = q ++ rest -> rest = [] /\ o = x.
Proof.
  intros Hp Hb Hl ->. apply Forall_app in Hb as [Hq _].
  rewrite (coded_read_parses _ _ _ _ Hl Hq) in Hp. by injection Hp as -> ->.
Qed.

Lemma toy_deflate_bytes m x p fin : mz_session toy_deflate 0 m x p fin -> bytes_ok p.
Proof.
  induction 1 as [|m i o l a f r _ IH -> _]; [constructor|]. apply bytes_ok_app; [done|].
  unfold toy_deflate. destruct l as [|c l]; repeat split_if; cbn;
    repeat (apply Forall_cons_2; [first [apply byte_ok_u8|unfold byte_ok; lia]|]); apply Forall_nil_2.
Qed.

Lemma coded_zstd_inverse : @ZstdInverse coded_zstd.
Proof.
  constructor.
  - intros level c0 c x p calls window d q o rest Hx <- Hs _ Hdone Hl E. cbn in Hs, Hl.
    destruct (coded_writes _ _ _ _ Hs) as (fin & Hm & Hfin). specialize (Hfin Hdone). subst fin.
    destruct (toy_deflate_session _ _ _ _ Hm Hx) as [_ Hp]. specialize (Hp []).
    unfold toy_prefix in Hp. cbn in Hp. rewrite !app_nil_r in Hp.
    exact (coded_frame_read x p d q o rest Hp (toy_deflate_bytes _ _ _ _ Hm) Hl E).
  - intros c l room. cbn. unfold coded_write. destruct (c =? 2) eqn:Ec; [done|]. cbn.
    unfold toy_deflate. rewrite Ec. destruct l; repeat split_if; cbn; done.
Qed.

Lemma coded_items_parse x : bytes_ok x ->
  bytes_ok (coded_items x) /\ forall l, toy_parse (coded_items x ++ l) = toy_prefix x (toy_parse l).
Proof.
  induction 1 as [|c x Hc Hx [IHb IH] ]; [split; [constructor|]; intros l; by rewrite toy_prefix_nil|].
  cbn. split; [do 2 (apply Forall_cons_2; [first [apply byte_ok_u8|unfold byte_ok; lia]|]); done|].
  intros l. rewrite IH. unfold u8. rewrite Z.mod_small by (unfold byte_ok in Hc; lia).
  by destruct (toy_parse l) as [ [? ?]|].
Qed.

Lemma coded_lz4_session c x p ph :
  @lz4f_session coded_lz4 tt c x p ph -> bytes_ok x ->
  bytes_ok p /\ forall l, toy_parse (p ++ l) =
    toy_prefix x (match ph with frame_ended => Some ([], l) | _ => toy_parse l end).
Proof.
  assert (Hw : forall cap out, toy_isError (lo_ret (toy_write cap out)) = false -> lo_out (toy_write cap out) = out)
    by (intros cap out; unfold toy_write; by destruct (_ <=? _)).
  induction 1 as [|c cap prefs r Hs IH -> He|c cap i o ph l r Hs IH Hph -> He|c cap i o ph r Hs IH Hph -> He
    |c cap i o ph r Hs IH Hph -> He]; intros Hx; cbn [LZ4F_compressBegin LZ4F_compressUpdate
    LZ4F_flush LZ4F_compressEnd coded_lz4]; rewrite ?Hw by exact He.
  - split; [constructor|]. intros l. by rewrite toy_prefix_nil.
  - split; [by apply bytes_okb_ok|]. intros l. by rewrite toy_prefix_nil.
  - apply Forall_app in Hx as [Hi Hl]. destruct (IH Hi) as [Hb Hp].
    destruct (coded_items_parse l Hl) as [Hbl Hpl]. split; [by apply bytes_ok_app|]. intros l1.
    rewrite <- app_assoc, Hp, toy_prefix_app. f_equal. destruct Hph as [-> | ->]; by rewrite Hpl.
  - destruct (IH Hx) as [Hb Hp]. split; [apply bytes_ok_app; [done|by apply bytes_okb_ok]|].
    intros l1. rewrite <- app_assoc, Hp. by destruct Hph as [-> | ->].
  - destruct (IH Hx) as [Hb Hp]. split; [apply bytes_ok_app; [done|by apply bytes_okb_ok]|].
    intros l1. rewrite <- app_assoc, Hp. by destruct Hph as [-> | ->].
Qed.

Lemma coded_lz4_inverse : @Lz4Inverse coded_lz4.
Proof.
  intros c x p d q o rest Hx Hs Hl E. destruct (coded_lz4_session _ _ _ _ Hs Hx) as [Hb Hp].
  specialize (Hp []). unfold toy_prefix in Hp. cbn in Hp. rewrite !app_nil_r in Hp.
  exact (coded_frame_read x p d q o rest Hp Hb Hl E).
Qed.

Lemma toy_drains : @MinizDrains toy_miniz.
Proof.
  intros l m0 m x p next_in room flush Hi Hs. cbn in *. injection Hi as <-.
  assert (Hm : forall fin, mz_session toy_deflate 0 m x p fin -> fin = false -> m <> 2).
  { clear. induction 1 as [|m ? ? l a f ? ? IH -> _]; [done|]. cbn.
    unfold toy_deflate. by destruct l as [|? l]; repeat split_if. }
  specialize (Hm _ Hs eq_refl). unfold toy_deflate. rewrite (proj2 (Z.eqb_neq _ _) Hm).
  destruct next_in; repeat split_if; zbool; done.
Qed.

(** ** Witness: three bytes through every codec and back, in chunks of two *)

#[local] Existing Instances toy_miniz toy_miniz_ok toy_inverse toy_drains.
#[local] Existing Instances coded_zstd coded_zstd_ok coded_zstd_inverse.
#[local] Existing Instances coded_lz4 coded_lz4_ok coded_block_ok coded_lz4_inverse.
#[local] Instance some_alloc : Allocator := fun _ => true.
#[local] Instance some_heap : HeapBytes := fun _ => 0.
#[local] Existing Instance quiet.

Definition trip_run (codec : Z) (encode : bool) (input : bytes) : zu_int_run_opts :=
  mk_run_opts (Some input) (zlen input) encode codec ZU_LEVEL_DEFAULT 0 0 0 0 2 2 0.

Definition trip_result (codec : Z) (encode : bool) (input : bytes) : whole_result :=
  default no_result (zu_int_run_whole builtin_registry 60 (Some (trip_run codec encode input))
    toy_sink.1.2 (Some toy_sink.2)).

Definition trip_text : bytes := [104; 105; 106].

Lemma trip_run_ok codec encode input :
  bytes_okb input = true -> zlen input < 2 ^ 64 -> run_ok (trip_run codec encode input).
Proof.
  intros Hb%bytes_okb_ok Hn. pose proof (zlen_nonneg input).
  constructor; cbn; try done; lia.
Qed.

Lemma trip_runs codec encode input :
  run_ok (trip_run codec encode input) ->
  is_Some (zu_int_run_whole builtin_registry 60 (Some (trip_run codec encode input))
    toy_sink.1.2 (Some toy_sink.2)) ->
  runs builtin_registry 60 (trip_run codec encode input) toy_world toy_outbuf (trip_result codec encode input).
Proof.
  intros Hr [res E]. split; [done|]. split; [exact toy_world_fresh|]. unfold trip_result.
  change (zu_int_outbuf_owner toy_world toy_outbuf) with toy_sink. by rewrite E.
Qed.

(** Every built-in codec gives the three bytes back. *)
Definition trips (v : zu_codec_vtable) : bool :=
  let res1 := trip_result (vt_codec v) true trip_text in
  let res2 := trip_result (vt_codec v) false (sink_written (wr_out res1)) in
  bool_decide (wr_status res1 = Some ZU_STREAM_END) && bool_decide (wr_status res2 = Some ZU_STREAM_END) &&
  bool_decide (sink_written (wr_out res2) = trip_text).

Definition trip_packed : bytes := [1; 104; 1; 105; 1; 106; 0].

