(* ===== verification/OneShot.v ===== *)
(** * One call each way

    [zu_compress_one] and [zu_decompress_one] drive a handle over the caller's own two
    windows, every call told that the input is over.  When they succeed they ran a session
    of the codec over the whole input, so what one wrote the other gives back. *)
From S2P Require Import Prelude Types SizeArith ProcessLoop Registry Stream Identity StreamProps Session Whole WholeProps WholeRuns.
From S2P Require Import Deflate DeflateProps DeflateFraming Frames FramedDecoder Zstd ZstdProps Lz4 Lz4Props Lz4Block Lz4BlockProps.
From S2P Require Import Builtins DeflateRuns CodecRuns RoundTrip.

(** ** The loop is a session *)

Section loop.
Context {H : Type} (process : H -> zu_buffer -> zu_flush -> zu_status * H * zu_buffer)
  (P : H -> Prop) {Hdrive : Drivable P process}.
Context (x : bytes) (h0 : H).

Lemma one_shot_session fuel : forall fin h b taken h' b',
  one_shot_loop process fuel h b = Some (ZU_OK, h', b') ->
  P h -> ordered_run process x h0 fin h taken (dst_written b) -> buffer_ok b -> bytes_ok (src_bytes b) ->
  taken ++ src_window b = x ->
  exists taken', session process x h0 ZU_STREAM_END h' taken' (dst_written b') /\ taken' ++ src_window b' = x.
Proof.
  induction fuel as [|fuel IH]; intros fin h b taken h' b' E Hh Hrun Hb Hby Hx; [done|].
  cbn [one_shot_loop] in E. destruct (process h b ZU_FINISH) as [ [st h1] b1] eqn:Ep.
  destruct (drivable h b ZU_FINISH st h1 b1 Hh Hb ltac:(by right; right) Ep) as [Hstep Hh1].
  destruct (step_moved _ _ Hb Hstep) as (i & o & Hm). pose proof Hm as [_ Ht Hg].
  assert (Hx1 : (taken ++ i) ++ src_window b1 = x) by (by rewrite <- app_assoc, <- Ht).
  destruct (status_eqb st ZU_STREAM_END) eqn:Ee.
  { apply status_eqb_spec in Ee as ->. injection E as <- <-. exists (taken ++ i). split; [|done].
    rewrite Hg. eapply session_end; eauto. by right; right. }
  destruct (is_progress st) eqn:Epr; cbn [negb] in E; [|by injection E as -> _ _].
  destruct (_ && _); [done|]. destruct (_ && _); [done|].
  apply (IH true h1 b1 (taken ++ i) h' b' E Hh1); [|by eapply buffer_step_ok| |done].
  - rewrite Hg. change true with (is_finish ZU_FINISH). by eapply ordered_call.
  - destruct Hstep as [Es _ _ _ _ _]. unfold src_bytes. by rewrite Es.
Qed.

(** What a call that succeeded stored and reported. *)
Lemma one_shot_ok new src dst cap n out :
  one_shot_result new process (Some src) (zlen src) dst cap true = Some (ZU_OK, Some n, out) ->
  buffer_ok (one_shot_buffer (Some src) (zlen src) dst cap) -> bytes_ok src -> src = x ->
  new = Ok h0 -> P h0 ->
  exists h taken rest, session process x h0 ZU_STREAM_END h taken (sub (default [] out) 0 n) /\ x = taken ++ rest.
Proof.
  unfold one_shot_result. cbn [negb is_null andb orb]. intros E Hb Hby Hx -> Hh.
  destruct (is_null dst && negb (cap =? 0)); [done|].
  change (mk_buffer (Some src) (zlen src) 0 dst cap 0) with (one_shot_buffer (Some src) (zlen src) dst cap) in E.
  destruct (one_shot_loop _ _ _ _) as [ [ [st h] b'] |] eqn:El; [|done]. injection E as -> <- <-.
  destruct (one_shot_session _ false h0 _ [] h b' El Hh ltac:(apply ordered_start) Hb)
    as (taken & Hs & Hxe); [done| |].
  - rewrite <- Hx. unfold src_window, src_bytes, avail_in. cbn. by rewrite Z.sub_0_r, sub_all.
  - by exists h, taken, (src_window b').
Qed.

End loop.

(** ** Both directions, over a registry *)

Section directions.
Context {alloc : Allocator} (reg : registry) (v : zu_codec_vtable).
Context (Hdec : registry_contract reg) (Henc : Forall encoder_contract (reg_vtables reg))
  (Hfail : Forall constructors_fail (reg_vtables reg)) (Hl : zu_int_registry_lookup reg (vt_codec v) = Some v).

(** A handle that is not made is an error. *)
Lemma encoder_new_not_ok opts st : zu_encoder_new reg true opts = Err st -> st <> ZU_OK.
Proof.
  rewrite List.Forall_forall in Hfail. apply (encoder_new_errs (fun st => st <> ZU_OK)); try done.
  intros w new o st' Hin Hn E. eapply failed_not_ok, (proj1 (Hfail w Hin)); eauto.
Qed.

Lemma decoder_new_not_ok opts st : zu_decoder_new reg true opts = Err st -> st <> ZU_OK.
Proof.
  rewrite List.Forall_forall in Hfail. apply (decoder_new_errs (fun st => st <> ZU_OK)); try done.
  intros w new o st' Hin Hn E. eapply failed_not_ok, (proj2 (Hfail w Hin)); eauto.
Qed.

(** The options ask for this codec, in this header's struct. *)
Definition compresses (o : zu_encoder_opts) (x dst : bytes) (n : Z) (c : bytes) : Prop :=
  encoder_opts_fit o /\ eo_struct_size o = sizeof_encoder_opts /\ eo_codec o = vt_codec v /\
  bytes_ok x /\ zlen x < 2 ^ 64 /\ zlen dst < 2 ^ 64 /\
  exists out, zu_compress_one reg (Some (encoder_opts_bytes o)) (Some x) (zlen x) (Some dst) (zlen dst) true =
    Some (ZU_OK, Some n, Some out) /\ c = sub out 0 n.

Definition decompresses (o : zu_decoder_opts) (c dst : bytes) (n : Z) (y : bytes) : Prop :=
  decoder_opts_fit o /\ do_struct_size o = sizeof_decoder_opts /\ do_codec o = vt_codec v /\
  bytes_ok c /\ zlen c < 2 ^ 64 /\ zlen dst < 2 ^ 64 /\
  exists out, zu_decompress_one reg (Some (decoder_opts_bytes o)) (Some c) (zlen c) (Some dst) (zlen dst) true =
    Some (ZU_OK, Some n, Some out) /\ y = sub out 0 n.

Lemma windows_ok (src dst : bytes) :
  zlen src < 2 ^ 64 -> zlen dst < 2 ^ 64 -> buffer_ok (one_shot_buffer (Some src) (zlen src) (Some dst) (zlen dst)).
Proof. pose proof (zlen_nonneg src). pose proof (zlen_nonneg dst). constructor; cbn; try lia. Qed.

Lemma compresses_session en ep o x dst n c :
  vt_encoder_new v = Some en -> vt_encoder_process v = Some ep -> compresses o x dst n c ->
  exists s0 s taken rest, en o = Ok s0 /\ session ep x s0 ZU_STREAM_END s taken c /\ x = taken ++ rest.
Proof.
  intros Hen Hep (Hfit & Hsz & Hc & Hb & Hx & Hd & out & E & ->). unfold zu_compress_one in E.
  destruct (zu_encoder_new reg true (Some (encoder_opts_bytes o))) as [e|st] eqn:Enew.
  2:{ unfold one_shot_result in E. destruct (_ || _ || _); [done|]. injection E as -> _ _.
    by destruct (encoder_new_not_ok _ _ Enew). }
  destruct (encoder_new_codec reg v o e Hfit Hsz ltac:(by rewrite Hc) Enew) as (new & s0 & Hn & Es0 & ->).
  rewrite Hen in Hn. injection Hn as <-.
  destruct (one_shot_ok encoder_process (fun e => encoder_contract (enc_vtable e)) x
    (mk_encoder v s0 o false) _ x _ _ _ _ E (windows_ok _ _ Hx Hd) Hb eq_refl eq_refl) as (h & taken & rest & Hs & Hr).
  { rewrite List.Forall_forall in Henc. apply Henc. by apply lookup_some_in in Hl as [? _]. }
  destruct (encoder_session_codec v ep Hep _ _ _ _ _ _ Hs) as [s Hs']. by exists s0, s, taken, rest.
Qed.

Lemma decompresses_session dn dp o c dst n y :
  vt_decoder_new v = Some dn -> vt_decoder_process v = Some dp -> decompresses o c dst n y ->
  exists s0 s taken rest, dn o = Ok s0 /\ session dp c s0 ZU_STREAM_END s taken y /\ c = taken ++ rest /\
    (do_max_output o <> 0 -> zlen y <= do_max_output o) /\
    (has_expected o = true -> zlen y = do_expected_size o).
Proof.
  intros Hdn Hdp (Hfit & Hsz & Hc & Hb & Hx & Hd & out & E & ->). unfold zu_decompress_one in E.
  destruct (zu_decoder_new reg true (Some (decoder_opts_bytes o))) as [d|st] eqn:Enew.
  2:{ unfold one_shot_result in E. destruct (_ || _ || _); [done|]. injection E as -> _ _.
    by destruct (decoder_new_not_ok _ _ Enew). }
  assert (Hreach : decoder_reachable reg d) by (eapply dr_new; [apply decoder_opts_bytes_ok|exact Enew]).
  destruct (decoder_new_codec reg v o d Hfit Hsz ltac:(by rewrite Hc) Enew) as (new & s0 & Hn & Es0 & ->).
  rewrite Hdn in Hn. injection Hn as <-. pose proof (decoder_drivable reg Hdec) as Hdrv.
  destruct (one_shot_ok decoder_process (decoder_reachable reg) c
    (mk_decoder v s0 o false 0 0) _ c _ _ _ _ E (windows_ok _ _ Hx Hd) Hb eq_refl eq_refl Hreach)
    as (h & taken & rest & Hs & Hr).
  assert (Hcc : CursorContract dp).
  { pose proof (reachable_contract _ _ Hdec Hreach) as Hk. unfold codec_contract in Hk. cbn in Hk. by rewrite Hdp in Hk. }
  destruct (decoder_session_codec v dp Hdp Hcc _ Hfit _ _ _ _ _ Hs) as [s Hs'].
  exists s0, s, taken, rest. split_and!; try done; by apply (decoder_session_limits v dp Hdp Hcc _ Hfit _ _ _ _ _ Hs).
Qed.

(** The codec's laws, at one call each way. *)
Lemma one_shots_inverse {inverse : CodecInverse v} {limit} {takes : EncoderTakesAll v limit}
    eo do_ x c y dst1 dst2 n1 n2 :
  is_Some (vt_encoder_new v) -> is_Some (vt_encoder_process v) ->
  is_Some (vt_decoder_new v) -> is_Some (vt_decoder_process v) ->
  compresses eo x dst1 n1 c -> decompresses do_ c dst2 n2 y ->
  exists rest, x = y ++ rest /\ (zlen x <= limit -> rest = []).
Proof.
  intros [en Hen] [ep Hep] [dn Hdn] [dp Hdp] Hc Hd.
  destruct (compresses_session en ep _ _ _ _ _ Hen Hep Hc) as (s1 & s1' & taken & rest & En & Hs1 & Ex).
  destruct (decompresses_session dn dp _ _ _ _ _ Hdn Hdp Hd) as (s2 & s2' & took & left & Dn & Hs2 & Ec & _).
  pose proof Hc as (_ & _ & _ & Hbx & _). pose proof Hd as (Hfit & _ & _ & Hbc & _).
  destruct (codec_inverse v taken c dn dp do_ s2 s2' took y left) as [-> _]; try done.
  { rewrite Ex in Hbx. by apply Forall_app in Hbx as [? _]. }
  { by exists en, ep, eo, s1, s1', x. }
  exists rest. split; [done|]. intros Hle.
  pose proof (encoder_takes_all v x en ep eo s1 s1' taken c Hen Hep En Hle Hs1) as E.
  rewrite <- (app_nil_r taken), Ex in E. by apply app_inv_head in E.
Qed.

End directions.


(** ** Witness: three bytes through zstd's two calls *)

Section witness.
#[local] Existing Instances toy_miniz toy_miniz_ok toy_inverse toy_drains.
#[local] Existing Instances coded_zstd coded_zstd_ok coded_zstd_inverse.
#[local] Existing Instances coded_lz4 coded_lz4_ok coded_block_ok coded_lz4_inverse.
#[local] Instance some_alloc : Allocator := fun _ => true.

Definition shot_text : bytes := [104; 105; 106].
Definition shot_encoder : zu_encoder_opts := mk_encoder_opts 16 ZU_CODEC_ZSTD 3 0.
Definition shot_decoder : zu_decoder_opts :=
  mk_decoder_opts 32 ZU_CODEC_ZSTD 5 0 (Z.lor ZU_DEC_REJECT_TRAILING ZU_DEC_EXPECTED_SIZE) 3.


End witness.
