(* ===== verification/RValues.v ===== *)
(** * R values at the boundary

    The SEXPs the entry points take and return, the doubles among them, and the narrowing
    helpers of src/zukomp_r.c.  R's own coercions ([Rf_asReal], [Rf_asInteger],
    [Rf_asLogical]) are a parameter. *)
From Stdlib Require Import QArith Qround.
From S2P Require Import Prelude Types.

Local Open Scope Z_scope.
#[local] Set Warnings "-register-all".

(** A C [double]: a rational, an infinity or a NaN (of which R's NA is one). *)
Inductive r_real :=
  | R_NaN
  | R_Inf (negative : bool)
  | R_Fin (q : Q).

Inductive sexp :=
  | R_NilValue
  | STRSXP (l : list (option string))      (** [None] is [NA_STRING] *)
  | LGLSXP (l : list (option bool))
  | INTSXP (l : list (option Z))           (** [None] is [NA_INTEGER] *)
  | REALSXP (l : list r_real)
  | RAWSXP (l : bytes)
  | VECSXP (l : list sexp)
  | ATTRSXP (x : sexp) (name : string) (value : sexp).

(** [Rf_setAttrib(x, name, value)]. *)
Definition Rf_setAttrib (x : sexp) (name : string) (value : sexp) : sexp := ATTRSXP x name value.

Class RApi := {
  Rf_asReal : sexp -> r_real;
  Rf_asInteger : sexp -> option Z;
  Rf_asLogical : sexp -> option bool;
}.

Definition Rf_isNull (x : sexp) : bool :=
  match x with R_NilValue => true | _ => false end.

Fixpoint Rf_xlength (x : sexp) : Z :=
  match x with
  | R_NilValue => 0
  | STRSXP l => zlen l
  | LGLSXP l => zlen l
  | INTSXP l => zlen l
  | REALSXP l => zlen l
  | RAWSXP l => zlen l
  | VECSXP l => zlen l
  | ATTRSXP x _ _ => Rf_xlength x
  end.

Definition Rf_ScalarInteger (z : Z) : sexp := INTSXP [Some z].
Definition Rf_ScalarLogical (b : option bool) : sexp := LGLSXP [b].
Definition Rf_ScalarString (s : option string) : sexp := STRSXP [s].
(** [Rf_ScalarReal((double) z)] for an integer a double holds. *)
Definition Rf_ScalarReal (z : Z) : sexp := REALSXP [R_Fin (inject_Z z)].

(** [RAW(x)] and [CHAR(STRING_ELT(x, 0))]; [None] is R raising an error. *)
Definition r_raw (x : sexp) : option bytes :=
  match x with RAWSXP l => Some l | _ => None end.

Definition r_char (x : sexp) : option string :=
  match x with
  | STRSXP (Some s :: _) => Some s
  | STRSXP (None :: _) => Some "NA"%string
  | _ => None
  end.

(** ** Narrowing: non-zero when the value cannot be represented, and [*out] *)

Section narrowing.
Context {r : RApi}.

Definition zu_int_level_from_sexp (r_level : sexp) : Z * Z :=
  if Rf_isNull r_level || (Rf_xlength r_level =? 0) then (0, ZU_LEVEL_DEFAULT)
  else
    match Rf_asInteger r_level with
    | None => (1, ZU_LEVEL_DEFAULT)
    | Some lv => (0, lv)
    end.

End narrowing.

Definition two53 : Z := 9007199254740992.

(** [(uint64_t) v] of a double in range drops the fraction. *)
Definition zu_int_u64_from_real (v : r_real) : Z * Z :=
  match v with
  | R_NaN => (1, 0)
  | R_Inf _ => (1, 0)
  | R_Fin q =>
      if negb (Qle_bool 0 q) || negb (Qle_bool q (inject_Z two53)) then (1, 0)
      else
        let narrowed := Qfloor q in
        if negb (Qeq_bool (inject_Z narrowed) q) then (1, 0) else (0, narrowed)
  end.

Definition zu_int_u32_from_int (v : option Z) : Z * Z :=
  match v with
  | None => (1, 0)
  | Some v => if v <? 0 then (1, 0) else (0, u32 v)
  end.

Definition zu_int_size_from_real (v : r_real) : Z * Z :=
  match v with
  | R_NaN => (1, 0)
  | R_Inf _ => (1, 0)
  | R_Fin q =>
      if negb (Qle_bool 0 q) || negb (Qle_bool q (inject_Z two53)) then (1, 0)
      else if negb (Qle_bool q (inject_Z (SIZE_MAX + 1))) then (1, 0)
      else (0, Qfloor q)
  end.

(** ** Properties *)

Lemma Qle_bool_false a b : Qle_bool a b = false <-> (b < a)%Q.
Proof.
  split.
  - intros H. destruct (Qlt_le_dec b a) as [|Hle]; [done|]. apply Qle_bool_iff in Hle. congruence.
  - intros H. destruct (Qle_bool a b) eqn:E; [|done]. apply Qle_bool_iff in E.
    exfalso. eapply Qlt_not_le; eauto.
Qed.

Lemma floor_range q : (0 <= q)%Q -> (q <= inject_Z two53)%Q -> 0 <= Qfloor q <= two53.
Proof.
  intros H0 H1. split.
  - change 0 with (Qfloor 0). by apply Qfloor_resp_le.
  - rewrite <- (Qfloor_Z two53). by apply Qfloor_resp_le.
Qed.

(** The range test both helpers share. *)
Lemma range_test q :
  negb (Qle_bool 0 q) || negb (Qle_bool q (inject_Z two53)) = false <->
  (0 <= q)%Q /\ (q <= inject_Z two53)%Q.
Proof. by rewrite orb_false_iff, !negb_false_iff, !Qle_bool_iff. Qed.

Lemma u64_from_real_ok v n :
  zu_int_u64_from_real v = (0, n) <->
  exists q, v = R_Fin q /\ (q == inject_Z n)%Q /\ 0 <= n <= two53.
Proof.
  split.
  - destruct v as [| |q]; [done..|]. cbn.
    destruct (negb (Qle_bool 0 q) || _) eqn:E; [done|]. apply range_test in E as [H0 H1].
    destruct (Qeq_bool (inject_Z (Qfloor q)) q) eqn:Ef; [|done]. cbn. intros [= <-].
    exists q. split; [done|]. split; [symmetry; by apply Qeq_bool_iff|by apply floor_range].
  - intros (q & -> & Hq & Hn). cbn.
    assert (Hr : (0 <= q)%Q /\ (q <= inject_Z two53)%Q).
    { rewrite Hq. change 0%Q with (inject_Z 0). rewrite <- !Zle_Qle. lia. }
    apply range_test in Hr. rewrite Hr, (Qfloor_comp _ _ Hq), Qfloor_Z.
    by rewrite (Qeq_eq_bool _ _ (Qeq_sym _ _ Hq)).
Qed.

Lemma size_from_real_ok v n :
  zu_int_size_from_real v = (0, n) <->
  exists q, v = R_Fin q /\ (0 <= q)%Q /\ (q <= inject_Z two53)%Q /\ n = Qfloor q.
Proof.
  assert (Hbig : forall q, (q <= inject_Z two53)%Q -> Qle_bool q (inject_Z (SIZE_MAX + 1)) = true).
  { intros q Hq. apply Qle_bool_iff. eapply Qle_trans; [exact Hq|]. rewrite <- Zle_Qle.
    unfold two53, SIZE_MAX. lia. }
  split.
  - destruct v as [| |q]; [done..|]. cbn.
    destruct (negb (Qle_bool 0 q) || _) eqn:E; [done|]. apply range_test in E as [H0 H1].
    rewrite Hbig by done. cbn. intros [= <-]. by exists q.
  - intros (q & -> & H0 & H1 & ->). cbn. rewrite (proj2 (range_test q)) by done.
    by rewrite Hbig.
Qed.


(** Half a byte is not "no limit". *)
Example narrowing_half : zu_int_u64_from_real (R_Fin (1 # 2)) = (1, 0).
Proof. reflexivity. Qed.
