(* ===== verification/Build.v ===== *)
(** * What was built: the two entry points of src/zukomp_r.c that report it

    The vendored libraries' versions and the preprocessor definitions are facts of the
    build: the headers' strings and the macros are parameters. *)
From S2P Require Import Prelude Types RValues.

Class VendoredHeaders := {
  MZ_VERSION : string;
  ZSTD_VERSION_STRING : string;
  LZ4_VERSION_STRING : string;
}.

Definition zukomp_vendored {h : VendoredHeaders} : sexp :=
  Rf_setAttrib (STRSXP [Some MZ_VERSION; Some ZSTD_VERSION_STRING; Some LZ4_VERSION_STRING]) "names"
    (STRSXP [Some "miniz"; Some "zstd"; Some "lz4"])%string.

(** The macros: is it defined, or what it is defined as, if it is. *)
Class BuildMacros := {
  MINIZ_NO_ARCHIVE_APIS : bool;
  MINIZ_NO_ARCHIVE_WRITING_APIS : bool;
  MINIZ_NO_STDIO : bool;
  MINIZ_NO_TIME : bool;
  MINIZ_NO_ZLIB_COMPATIBLE_NAMES : bool;
  MINIZ_NO_PNG_APIS : bool;
  MINIZ_NO_ASSERT : bool;
  ZSTD_DISABLE_ASM : option Z;
  ZSTD_LEGACY_SUPPORT : option Z;
}.

Section build.
Context {b : BuildMacros}.

(** The names, each with the condition it is compiled under. *)
Definition all_defines : list (bool * string) :=
  [(MINIZ_NO_ARCHIVE_APIS, "MINIZ_NO_ARCHIVE_APIS");
   (MINIZ_NO_ARCHIVE_WRITING_APIS, "MINIZ_NO_ARCHIVE_WRITING_APIS");
   (MINIZ_NO_STDIO, "MINIZ_NO_STDIO");
   (MINIZ_NO_TIME, "MINIZ_NO_TIME");
   (MINIZ_NO_ZLIB_COMPATIBLE_NAMES, "MINIZ_NO_ZLIB_COMPATIBLE_NAMES");
   (MINIZ_NO_PNG_APIS, "MINIZ_NO_PNG_APIS");
   (MINIZ_NO_ASSERT, "MINIZ_NO_ASSERT");
   (match ZSTD_DISABLE_ASM with Some v => negb (v =? 0)%Z | None => false end, "ZSTD_DISABLE_ASM");
   (match ZSTD_LEGACY_SUPPORT with Some v => (v =? 0)%Z | None => false end, "ZSTD_LEGACY_SUPPORT=0")]%string.

(** The array [defines], with its terminator. *)
Definition defines : list (option string) :=
  (Some <$> (snd <$> List.filter fst all_defines)) ++ [None].

(** [while (defines[n] != NULL) { n++; }]; [None] is a read past the array. *)
Fixpoint count_defines (l : list (option string)) : option nat :=
  match l with
  | [] => None
  | None :: _ => Some O
  | Some _ :: l => S <$> count_defines l
  end.

Definition zukomp_build_info : option sexp :=
  n ← count_defines defines;
  l ← mapM (fun i => defines !! i) (seq 0 n);
  Some (STRSXP l).

Lemma count_defines_app (l : list string) : count_defines ((Some <$> l) ++ [None]) = Some (length l).
Proof. induction l as [|x l IH]; [done|]. cbn. by rewrite IH. Qed.

Lemma mapM_lookup {A} (l r : list A) : mapM (fun i => (l ++ r) !! i) (seq 0 (length l)) = Some l.
Proof.
  apply mapM_Some. apply Forall2_same_length_lookup. split; [by rewrite length_seq|].
  intros i n x Hi Hx. apply lookup_seq in Hi as [-> Hi]. rewrite Nat.add_0_l. by rewrite lookup_app_l.
Qed.

(** The scan stays in the array and stops at its terminator: the value is the names whose
    macros are on, in the source's order, none of them NA. *)
Theorem build_info_exact :
  zukomp_build_info = Some (STRSXP (Some <$> (snd <$> List.filter fst all_defines))).
Proof.
  unfold zukomp_build_info, defines. rewrite count_defines_app. cbn [mbind option_bind].
  rewrite <- (length_fmap Some), mapM_lookup. done.
Qed.

End build.

(** With the flags of src/Makevars every definition is reported. *)
Definition makevars_build : BuildMacros :=
  {| MINIZ_NO_ARCHIVE_APIS := true; MINIZ_NO_ARCHIVE_WRITING_APIS := true; MINIZ_NO_STDIO := true;
     MINIZ_NO_TIME := true; MINIZ_NO_ZLIB_COMPATIBLE_NAMES := true; MINIZ_NO_PNG_APIS := true;
     MINIZ_NO_ASSERT := true; ZSTD_DISABLE_ASM := Some 1; ZSTD_LEGACY_SUPPORT := Some 0 |}.

Example makevars_build_info :
  zukomp_build_info (b := makevars_build) =
    Some (STRSXP (Some <$>
      ["MINIZ_NO_ARCHIVE_APIS"; "MINIZ_NO_ARCHIVE_WRITING_APIS"; "MINIZ_NO_STDIO"; "MINIZ_NO_TIME";
       "MINIZ_NO_ZLIB_COMPATIBLE_NAMES"; "MINIZ_NO_PNG_APIS"; "MINIZ_NO_ASSERT"; "ZSTD_DISABLE_ASM";
       "ZSTD_LEGACY_SUPPORT=0"]%string)).
Proof. reflexivity. Qed.
