(* ===== verification/RGlue.v ===== *)
(** * The R entry points: src/zukomp_r.c

    The registry projected as the columns of komp_codecs(), detection, and the
    whole-buffer pair behind komp_compress() and komp_decompress(): narrowing, the choice
    of chunks, the drive loop and the release of the sink.  An entry point returns a SEXP,
    raises an R error while converting its arguments, or is left through an interrupt. *)
From stdpp Require Import gmap.
From S2P Require Import Prelude Types Registry Stream Identity StreamProps ProcessLoop Session Whole WholeProps RValues.

(** ** Statuses and the registry *)

(** [(zu_status) i]. *)
Definition status_of_code (i : Z) : zu_status :=
  match List.find (fun st => status_code st =? i)
    [ZU_OK; ZU_NEED_INPUT; ZU_NEED_OUTPUT; ZU_STREAM_END; ZU_ERR_INVALID_ARGUMENT;
     ZU_ERR_UNSUPPORTED; ZU_ERR_INVALID_DATA; ZU_ERR_TRUNCATED; ZU_ERR_CHECKSUM;
     ZU_ERR_TRAILING; ZU_ERR_MEMORY; ZU_ERR_OUTPUT_LIMIT; ZU_ERR_RATIO_LIMIT; ZU_ERR_INTERNAL]
  with
  | Some st => st
  | None => ZU_STATUS_OTHER i
  end.

Definition zukomp_all_status_strings : sexp :=
  let n := status_code ZU_ERR_INTERNAL + 1 in
  STRSXP ((fun i => Some (zu_status_string (status_of_code (Z.of_nat i)))) <$>
    List.seq 0 (Z.to_nat n)).

Definition zukomp_abi_version : sexp := Rf_ScalarInteger zu_abi_version.

Definition zu_int_str_or_na (s : option string) : option string := s.

Definition zu_int_codec_from_sexp (reg : registry) (name : sexp) : zu_codec :=
  match name with
  | STRSXP [Some s] => zu_codec_lookup reg (Some s)
  | _ => ZU_CODEC_NONE
  end.

Definition zukomp_codec_available (reg : registry) (name : sexp) : sexp :=
  let codec := zu_int_codec_from_sexp reg name in
  if codec =? ZU_CODEC_NONE then Rf_ScalarLogical None
  else Rf_ScalarLogical (Some (zu_codec_available reg codec)).

Definition zukomp_registry_generation (reg : registry) : sexp :=
  Rf_ScalarReal (zu_int_registry_generation reg).

(** ** The codec table *)

(** One row across the thirteen columns; [None] is NA. *)
Record codec_row := mk_row {
  cr_id : string;
  cr_avail : bool;
  cr_can_enc : option bool;
  cr_can_dec : option bool;
  cr_lvl_min : option Z;
  cr_lvl_max : option Z;
  cr_lvl_def : option Z;
  cr_lvl_fast : option Z;
  cr_lvl_best : option Z;
  cr_detect : option bool;
  cr_can_flu : option bool;
  cr_ce : option string;
  cr_source : option string;
}.

Definition undeclared (v : zu_codec_vtable) : bool := is_null (zu_int_declared_for (vt_codec v)).

(** [n_extra]. *)
Fixpoint count_extra (l : list zu_codec_vtable) : Z :=
  match l with
  | [] => 0
  | v :: l' => (if undeclared v then 1 else 0) + count_extra l'
  end.

(** The walk to the [want]-th undeclared codec, from [seen]. *)
Fixpoint find_extra (l : list zu_codec_vtable) (seen want : Z) : option zu_codec_vtable :=
  match l with
  | [] => None
  | cand :: l' =>
      if negb (undeclared cand) then find_extra l' seen want
      else if seen =? want then Some cand
      else find_extra l' (seen + 1) want
  end.

(** [v->name], which registration made sure is not NULL. *)
Definition row_name (decl : option zu_int_codec_decl) (v : option zu_codec_vtable) : string :=
  match v, decl with
  | Some v, _ => default EmptyString (vt_name v)
  | None, Some d => cd_name d
  | None, None => EmptyString
  end.

Definition absent_row (decl : option zu_int_codec_decl) : codec_row :=
  mk_row (row_name decl None) false None None None None None None None None None
    (zu_int_str_or_na (match decl with Some d => cd_content_encoding d | None => None end)) None.

Definition present_row (v : zu_codec_vtable) : codec_row :=
  let has_levels := negb ((vt_level_min v =? 0) && (vt_level_max v =? 0) && (vt_level_default v =? 0)) in
  let level z := if has_levels then Some z else None in
  mk_row (row_name None (Some v)) true
    (Some (has_flag (vt_flags v) ZU_CAN_ENCODE)) (Some (has_flag (vt_flags v) ZU_CAN_DECODE))
    (level (vt_level_min v)) (level (vt_level_max v)) (level (vt_level_default v))
    (level (zu_int_vtable_level_fast v)) (level (zu_int_vtable_level_best v))
    (Some (vtable_detectable v)) (Some (has_flag (vt_flags v) ZU_CAN_FLUSH))
    (zu_int_str_or_na (vt_content_encoding v)) (zu_int_str_or_na (vt_source v)).

Definition table_row (reg : registry) (row : Z) : codec_row :=
  let n_declared := zu_int_declared_count in
  let decl := if row <? n_declared then zu_int_declared_at row else None in
  let v :=
    if row <? n_declared
    then match decl with Some d => zu_int_registry_lookup reg (cd_codec d) | None => None end
    else find_extra (reg_vtables reg) 0 (row - n_declared) in
  match v with
  | Some v => present_row v
  | None => absent_row decl
  end.

Definition zukomp_codec_table (reg : registry) : list codec_row :=
  let n := zu_int_declared_count + count_extra (reg_vtables reg) in
  (fun i => table_row reg (Z.of_nat i)) <$> List.seq 0 (Z.to_nat n).

(** ** Detection *)

Definition sizeof_codec_info : Z := 64.

Definition info_zero (struct_size : Z) : zu_codec_info :=
  mk_info struct_size 0 None None None 0 0 0 0 false 0 0.

Definition zukomp_detect (reg : registry) (x : bytes) : sexp :=
  match zu_sniff reg (Some x) (zlen x) true with
  | (ZU_OK, Some codec) =>
      if codec =? ZU_CODEC_NONE then Rf_ScalarString None
      else
        match zu_codec_get_info reg codec (Some (info_zero sizeof_codec_info)) with
        | (ZU_OK, Some info) =>
            match ci_name info with
            | Some name => Rf_ScalarString (Some name)
            | None => Rf_ScalarString None
            end
        | _ => Rf_ScalarString None
        end
  | _ => Rf_ScalarString None
  end.

(** ** Whole-buffer entry points *)

(** src/zukomp_test.c: the (status, bytes) pair, named. *)
Definition zu_int_result (status : zu_status) (p : option bytes) (n : Z) : sexp :=
  Rf_setAttrib
    (VECSXP [Rf_ScalarInteger (status_code status);
             RAWSXP (if 0 <? n then sub (default [] p) 0 n else [])])
    "names" (STRSXP [Some "status"; Some "bytes"])%string.

(** How an entry point is left, with the sinks of the session: an interrupt leaves the
    guard and the sink to their finalizers. *)
Inductive r_outcome :=
  | r_return (v : sexp) (w : r_world)
  | r_error (w : r_world)
  | r_interrupt (owner : Z) (guard : option stream_handle) (w : r_world).

Section whole.
Context {r : RApi} {alloc : Allocator} {heap : HeapBytes} {ints : Interrupts}.
Context (reg : registry) (fuel : nat) (w : r_world).

(** [r.in_chunk] and [r.out_chunk] as this caller chooses them. *)
Definition whole_opts (src : bytes) (encode : bool) (codec : zu_codec) (level max_output max_ratio
    dec_flags : Z) : zu_int_run_opts :=
  mk_run_opts (Some src) (zlen src) encode codec level max_output max_ratio dec_flags 0
    (if encode then (if zlen src >? 0 then zlen src else 1) else 64 * 1024) (64 * 1024) 0.

(** The sink's life: owner, drive loop, result, release. *)
Definition drive_result (opts : zu_int_run_opts)
    (result : zu_status -> zu_int_outbuf -> sexp) : option r_outcome :=
  let '(owner, w1, out) := zu_int_outbuf_owner w (mk_outbuf None None 0 0 0) in
  match zu_int_run_whole reg fuel (Some opts) w1 (Some out) with
  | None => None
  | Some res =>
      Some match wr_status res with
           | Some st =>
               r_return (result st (wr_out res))
                 (zu_int_outbuf_release (wr_world res) (wr_out res)).1
           | None => r_interrupt owner (wr_guard res) (wr_world res)
           end
  end.

Definition zu_int_whole (r_bytes : sexp) (encode : bool) (r_codec r_level : sexp)
    (max_output : r_real) (max_ratio : option Z) (dec_flags : Z) : option r_outcome :=
  match r_raw r_bytes, r_char r_codec with
  | Some src, Some name =>
      let codec := zu_codec_lookup reg (Some name) in
      let '(bad_level, level) := zu_int_level_from_sexp r_level in
      let '(bad_output, max_output) := zu_int_u64_from_real max_output in
      let '(bad_ratio, max_ratio) := zu_int_u32_from_int max_ratio in
      if negb (bad_level =? 0) || negb (bad_output =? 0) || negb (bad_ratio =? 0)
      then Some (r_return (zu_int_result ZU_ERR_INVALID_ARGUMENT None 0) w)
      else if codec =? ZU_CODEC_NONE
      then Some (r_return (zu_int_result ZU_ERR_UNSUPPORTED None 0) w)
      else
        drive_result (whole_opts src encode codec level max_output max_ratio dec_flags)
          (fun st out => zu_int_result st (snd <$> ob_buf out) (ob_used out))
  | _, _ => Some (r_error w)
  end.

Definition zukomp_compress (bytes codec level : sexp) : option r_outcome :=
  zu_int_whole bytes true codec level (R_Fin (QArith_base.inject_Z 0)) (Some 0) 0.

Definition zukomp_decompress (bytes codec max_output max_ratio : sexp) : option r_outcome :=
  zu_int_whole bytes false codec R_NilValue (Rf_asReal max_output) (Rf_asInteger max_ratio)
    (Z.lor ZU_DEC_REJECT_TRAILING ZU_DEC_CONCAT_MEMBERS).

End whole.

(** ** The table is the registry *)

Definition declared_row (reg : registry) (d : zu_int_codec_decl) : codec_row :=
  match zu_int_registry_lookup reg (cd_codec d) with
  | Some v => present_row v
  | None => absent_row (Some d)
  end.

Definition extra_codecs (reg : registry) : list zu_codec_vtable :=
  List.filter undeclared (reg_vtables reg).

Lemma count_extra_filter l : count_extra l = zlen (List.filter undeclared l).
Proof.
  induction l as [|v l IH]; [done|]. cbn [count_extra List.filter]. rewrite IH.
  destruct (undeclared v); [by rewrite zlen_cons|lia].
Qed.

Lemma find_extra_filter l : forall seen want,
  seen <= want -> find_extra l seen want = List.filter undeclared l !! Z.to_nat (want - seen).
Proof.
  induction l as [|v l IH]; intros seen want Hle; [done|]. cbn [find_extra List.filter].
  destruct (undeclared v) eqn:Ev; cbn [negb]; [|by apply IH].
  destruct (Z.eqb_spec seen want) as [->|].
  - by rewrite Z.sub_diag.
  - rewrite IH by lia. replace (Z.to_nat (want - seen)) with (S (Z.to_nat (want - (seen + 1)))) by lia.
    done.
Qed.

Lemma table_row_declared reg i d :
  zu_int_declared !! i = Some d -> table_row reg (Z.of_nat i) = declared_row reg d.
Proof.
  intros Hd. pose proof (lookup_lt_Some _ _ _ Hd) as Hlt. unfold table_row, zu_int_declared_at.
  assert ((Z.of_nat i <? zu_int_declared_count) = true) as ->
    by (apply Z.ltb_lt; unfold zu_int_declared_count, zlen; lia).
  by rewrite Nat2Z.id, Hd.
Qed.

Lemma table_row_extra reg i v :
  extra_codecs reg !! i = Some v ->
  table_row reg (Z.of_nat (length zu_int_declared + i)) = present_row v.
Proof.
  intros Hv. unfold table_row.
  assert ((Z.of_nat (length zu_int_declared + i) <? zu_int_declared_count) = false) as ->
    by (apply Z.ltb_ge; unfold zu_int_declared_count, zlen; lia).
  rewrite find_extra_filter by (unfold zu_int_declared_count, zlen; lia).
  replace (Z.to_nat _) with i by (unfold zu_int_declared_count, zlen; lia).
  unfold extra_codecs in Hv. by rewrite Hv.
Qed.

Lemma codec_table_eq reg :
  zukomp_codec_table reg =
    (declared_row reg <$> zu_int_declared) ++ (present_row <$> extra_codecs reg).
Proof.
  unfold zukomp_codec_table. rewrite count_extra_filter. fold (extra_codecs reg).
  unfold zu_int_declared_count, zlen. rewrite <- Nat2Z.inj_add, Nat2Z.id.
  apply list_eq. intros i. rewrite list_lookup_fmap.
  destruct (Nat.lt_ge_cases i (length zu_int_declared)) as [Hi|Hi].
  - rewrite lookup_seq_lt by lia. cbn [fmap option_fmap option_map Nat.add].
    rewrite lookup_app_l by (by rewrite length_fmap). rewrite list_lookup_fmap.
    destruct (lookup_lt_is_Some_2 _ _ Hi) as [d Hd]. rewrite Hd. cbn. f_equal.
    by apply table_row_declared.
  - rewrite lookup_app_r by (by rewrite length_fmap). rewrite length_fmap, list_lookup_fmap.
    destruct (Nat.lt_ge_cases (i - length zu_int_declared) (length (extra_codecs reg))) as [Hj|Hj].
    + rewrite lookup_seq_lt by lia. destruct (lookup_lt_is_Some_2 _ _ Hj) as [v Hv]. rewrite Hv. cbn.
      f_equal. replace i with (length zu_int_declared + (i - length zu_int_declared))%nat by lia.
      apply table_row_extra. by replace (_ - _)%nat with (i - length zu_int_declared)%nat by lia.
    + rewrite lookup_seq_ge by lia. by rewrite (lookup_ge_None_2 _ _ Hj).
Qed.

Lemma declared_for_in d : In d zu_int_declared -> zu_int_declared_for (cd_codec d) = Some d.
Proof.
  revert d. apply List.Forall_forall. unfold zu_int_declared.
  repeat (apply Forall_cons_2; [reflexivity|]). apply Forall_nil_2.
Qed.

Section table.
Context (reg : registry) (Hok : registry_ok reg).

Lemma declared_row_id d : In d zu_int_declared -> cr_id (declared_row reg d) = cd_name d.
Proof.
  intros Hd. unfold declared_row. destruct (zu_int_registry_lookup reg (cd_codec d)) as [v|] eqn:El; [|done].
  apply lookup_some_in in El as [Hin Ec]. pose proof (registered_vtable_ok _ _ Hok Hin) as Hv.
  pose proof (vo_identity _ Hv) as Hid. unfold bad_identity in Hid.
  rewrite Ec, (declared_for_in d Hd) in Hid. apply negb_false_iff, same_name_spec in Hid as (s & Hs & Hn).
  injection Hn as ->. cbn. by rewrite Hs.
Qed.

Lemma extra_in v : In v (extra_codecs reg) <-> In v (reg_vtables reg) /\ undeclared v = true.
Proof. apply filter_In. Qed.

(** An undeclared codec has a name of its own. *)
Lemma extra_name v : In v (extra_codecs reg) ->
  vt_name v = Some (cr_id (present_row v)) /\
  forall d, In d zu_int_declared -> cd_name d <> cr_id (present_row v).
Proof.
  intros [Hin Hu]%extra_in. pose proof (registered_vtable_ok _ _ Hok Hin) as Hv.
  destruct (vo_name _ Hv) as [s Hs]. cbn. rewrite Hs. split; [done|]. cbn. intros d Hd <-.
  pose proof (vtable_ok_declared _ _ Hv Hd) as Hc. unfold conflicts_declared in Hc.
  rewrite Hs in Hc. cbn [same_name] in Hc. rewrite String.eqb_refl in Hc. cbn [andb] in Hc.
  apply orb_false_iff in Hc as [Hc _]. apply negb_false_iff, Z.eqb_eq in Hc.
  unfold undeclared in Hu. by rewrite <- Hc, (declared_for_in d Hd) in Hu.
Qed.

Lemma extra_ids : NoDup (cr_id <$> (present_row <$> extra_codecs reg)).
Proof.
  assert (Hname : forall v, In v (extra_codecs reg) -> vt_name v = Some (cr_id (present_row v)))
    by (intros v Hv; apply (extra_name v Hv)).
  unfold extra_codecs in *. pose proof (ro_distinct _ Hok) as Hd. revert Hname.
  induction Hd as [|v l Hhd Hd IH]; intros Hname; cbn [List.filter] in *; [constructor|].
  destruct (undeclared v); [|by apply IH]. rewrite !fmap_cons. apply NoDup_cons. split.
  - intros (row & E & (w & -> & Hw)%list_elem_of_fmap)%list_elem_of_fmap.
    apply list_elem_of_In in Hw. rewrite List.Forall_forall in Hhd.
    pose proof (Hname w (or_intror Hw)) as Ew. apply filter_In in Hw as [Hw _].
    pose proof (Hname v (or_introl eq_refl)) as Ev.
    specialize (Hhd w Hw). unfold conflicts_registered in Hhd. rewrite Ev, Ew in Hhd.
    cbn [same_name] in Hhd. rewrite <- E, String.eqb_refl in Hhd. done.
  - apply IH. intros w Hw. apply Hname. by right.
Qed.

End table.

(** C24: komp_codecs() is the registry.  The columns hold one row per declared name, in
    order, with the registered codec's capabilities or NA where none is registered, then
    one row per registered codec the table does not declare, in registration order; no two
    rows share an id, and every registered codec has its row. *)
Theorem codec_table_complete (reg : registry) :
  registry_ok reg ->
  zukomp_codec_table reg =
    (declared_row reg <$> zu_int_declared) ++ (present_row <$> extra_codecs reg) /\
  NoDup (cr_id <$> zukomp_codec_table reg) /\
  (forall v, In v (reg_vtables reg) -> present_row v ∈ zukomp_codec_table reg) /\
  (forall row, row ∈ zukomp_codec_table reg -> cr_avail row = true ->
     exists v, In v (reg_vtables reg) /\ row = present_row v).
Proof.
  intros Hok. pose proof (codec_table_eq reg) as Et. split; [done|]. rewrite Et. split; [|split].
  - rewrite fmap_app. apply NoDup_app. split; [|split].
    + replace (cr_id <$> (declared_row reg <$> zu_int_declared)) with (cd_name <$> zu_int_declared).
      * apply (bool_decide_unpack _). vm_compute. exact I.
      * rewrite <- list_fmap_compose. apply list_fmap_ext. intros i d Hd. symmetry.
        apply declared_row_id; [done|]. apply list_elem_of_In. by eapply list_elem_of_lookup_2.
    + intros s (row & -> & (d & -> & Hd)%list_elem_of_fmap)%list_elem_of_fmap
        (row' & E & (v & -> & Hv)%list_elem_of_fmap)%list_elem_of_fmap.
      apply list_elem_of_In in Hd, Hv. rewrite declared_row_id in E by done.
      by apply (proj2 (extra_name reg Hok v Hv) d Hd).
    + by apply extra_ids.
  - intros v Hin. apply elem_of_app. destruct (undeclared v) eqn:Hu.
    + right. apply list_elem_of_fmap_2, list_elem_of_In, extra_in. done.
    + left. unfold undeclared in Hu. apply is_null_false in Hu as [d Hd].
      unfold zu_int_declared_for in Hd. apply find_some in Hd as [Hd Ec]. apply Z.eqb_eq in Ec.
      apply list_elem_of_fmap. exists d. split; [|by apply list_elem_of_In].
      unfold declared_row. by rewrite Ec, (lookup_registered reg v Hok Hin).
  - intros row [(d & -> & _)%list_elem_of_fmap|(v & -> & Hv)%list_elem_of_fmap]%elem_of_app Ha.
    + revert Ha. unfold declared_row. destruct (zu_int_registry_lookup reg (cd_codec d)) as [v|] eqn:El; [|done].
      apply lookup_some_in in El as [? _]. eauto.
    + apply list_elem_of_In, extra_in in Hv as [? _]. eauto.
Qed.

Definition table_registry : registry := register_attempts empty_registry
  [Some (stub_vtable ZU_CODEC_GZIP "gzip" (Some "gzip") None None);
   Some (stub_vtable (ZU_CODEC_VENDOR_BASE + 5) "house" None None None)]%string.

Lemma codec_table_complete_witness :
  map cr_id (zukomp_codec_table table_registry) =
    ["identity"; "deflate-raw"; "zlib"; "gzip"; "brotli"; "zstd"; "lz4-frame"; "lz4-block";
     "snappy-frame"; "snappy-raw"; "house"]%string /\
  map cr_avail (zukomp_codec_table table_registry) =
    [false; false; false; true; false; false; false; false; false; false; true] /\
  NoDup (cr_id <$> zukomp_codec_table table_registry).
Proof.
  do 2 (split; [vm_compute; reflexivity|]).
  apply (codec_table_complete table_registry). apply register_attempts_ok.
Defined.

(** ** The entry points leave nothing behind *)

Section entry.
Context {rapi : RApi} {alloc : Allocator} {heap : HeapBytes} {ints : Interrupts}.
Context (reg : registry) (Hdec : registry_contract reg)
  (Henc : Forall encoder_contract (reg_vtables reg)).

Lemma whole_opts_ok src encode codec level max_output max_ratio flags :
  bytes_ok src -> zlen src < 2 ^ 64 ->
  run_ok (whole_opts src encode codec level max_output max_ratio flags).
Proof.
  intros Hb Hn. pose proof (zlen_nonneg src). constructor; cbn; try done; try lia.
  rewrite Z.gtb_ltb. destruct encode, (Z.ltb_spec 0 (zlen src)); lia.
Qed.

(** The bytes and status of a returned pair are those of one run of the drive loop. *)
Definition returns_run (opts : zu_int_run_opts) (v : sexp) : Prop :=
  exists st res, wr_status res = Some st /\ run_whole_spec reg opts res /\
    v = Rf_setAttrib (VECSXP [Rf_ScalarInteger (status_code st); RAWSXP (sink_written (wr_out res))])
          "names" (STRSXP [Some "status"; Some "bytes"])%string.

Definition outcome_clean (w : r_world) (returned : sexp -> Prop) (o : r_outcome) : Prop :=
  match o with
  | r_return v w' =>
      returned v /\ w_blocks w' = w_blocks w /\ w_live w' = w_live w /\ w_fault w' = w_fault w
  | r_error w' => w' = w
  | r_interrupt owner guard w' =>
      sink_gone w owner (zu_int_outbuf_finalizer w' owner) /\
      exists h, zu_int_encoder_finalizer guard = (handle_free h, None)
  end.

Lemma result_of_sink st out :
  sink_room out ->
  zu_int_result st (snd <$> ob_buf out) (ob_used out) =
    Rf_setAttrib (VECSXP [Rf_ScalarInteger (status_code st); RAWSXP (sink_written out)])
      "names" (STRSXP [Some "status"; Some "bytes"])%string.
Proof.
  intros [_ _ Hu _]. unfold zu_int_result, sink_written, sink_bytes.
  destruct (Z.ltb_spec 0 (ob_used out)); [done|].
  replace (ob_used out) with 0 by lia. by rewrite sub_0.
Qed.

Lemma drive_result_clean fuel w opts o :
  run_ok opts -> (forall a, a ∈ w_blocks w -> a < w_next w) ->
  drive_result reg fuel w opts (fun st out => zu_int_result st (snd <$> ob_buf out) (ob_used out)) = Some o ->
  outcome_clean w (returns_run opts) o.
Proof.
  intros Hr Hw. unfold drive_result.
  destruct (zu_int_outbuf_owner w (mk_outbuf None None 0 0 0)) as [ [owner w1] out] eqn:Eo.
  destruct (zu_int_run_whole reg fuel (Some opts) w1 (Some out)) as [res|] eqn:E; [|done].
  destruct (run_whole_post reg Hdec Henc _ _ _ _ _ _ _ _ Hr Hw Eo E) as (Hspec & Hroom & Hown).
  intros [= <-]. destruct (wr_status res) as [st|] eqn:Est; cbn.
  - split; [|by destruct (release_gone _ _ _ _ Hown) as (? & ? & ? & _)].
    exists st, res. split; [done|]. split; [done|]. by apply result_of_sink.
  - split; [by eapply finalizer_gone|]. revert Hspec. unfold run_whole_spec, whole_outcome.
    assert (Hg : forall H (new : result H) handle process, whole_outcome new handle process opts res ->
      exists h, zu_int_encoder_finalizer (wr_guard res) = (handle_free h, None)).
    { intros H new handle process. unfold whole_outcome. rewrite Est. destruct new as [h0|st].
      - intros (h & taken & given & rest & _ & _ & _ & -> & _). by exists (handle h).
      - by intros [? _]. }
    intros Hspec. destruct (ro_encode opts); by eapply Hg.
Qed.

End entry.


(** ** Witness: one decompression, one interrupted *)

Definition toy_rapi : RApi := {|
  Rf_asReal := fun x => match x with REALSXP (v :: _) => v | _ => R_NaN end;
  Rf_asInteger := fun x => match x with INTSXP (v :: _) => v | _ => None end;
  Rf_asLogical := fun x => match x with LGLSXP (v :: _) => v | _ => None end;
|}.

Definition toy_entry : option r_outcome :=
  zu_int_whole (r := toy_rapi) (alloc := fun _ => true) (heap := fun _ => 0) (ints := quiet)
    id_registry 20 toy_world (RAWSXP [7; 8; 9]) false (STRSXP [Some "identity"%string]) R_NilValue
    (R_Fin (QArith_base.inject_Z 2)) (Some 0) ZU_DEC_REJECT_TRAILING.

