(* ===== verification/KompRoundTrip.v ===== *)
(** * komp_decompress(komp_compress(x)) is x

    The round trip as the R functions see it: through the (status, bytes) pairs of the two
    entry points, over the registry zukomp loads with. *)
From stdpp Require Import gmap.
From S2P Require Import Prelude Types SizeArith ProcessLoop Registry Stream Identity StreamProps Session Whole WholeProps WholeRuns.
From S2P Require Import Deflate DeflateProps DeflateFraming Frames FramedDecoder Zstd ZstdProps Lz4 Lz4Props Lz4Block Lz4BlockProps Builtins.
From S2P Require Import DeflateRuns CodecRuns Liveness Statuses RoundTrip RValues RGlue.

(** An R integer is an [int]; NA is the least of them. *)
Class RApiOk `{RApi} : Prop :=
  asInteger_range : forall x i, Rf_asInteger x = Some i -> INT32_MIN < i < 2 ^ 31.

(** The pair a call that ends the stream returns. *)
Definition ended_with (bytes : bytes) : sexp := zu_int_result ZU_STREAM_END (Some bytes) (zlen bytes).

Section entry.
Context {rapi : RApi} {rapi_ok : RApiOk} {alloc : Allocator} {heap : HeapBytes} {ints : Interrupts}.
Context (reg : registry) (Hdec : registry_contract reg) (Henc : Forall encoder_contract (reg_vtables reg))
  (Hnamed : Forall vtable_named (reg_vtables reg)).

Lemma ended_with_bytes st b out :
  named st -> sink_room out ->
  zu_int_result st (snd <$> ob_buf out) (ob_used out) = ended_with b -> st = ZU_STREAM_END /\ sink_written out = b.
Proof.
  intros Hst Hroom. rewrite result_of_sink by done. unfold ended_with, zu_int_result, Rf_setAttrib.
  intros [= Hc Hb]. split; [by apply named_code|]. rewrite Hb. destruct (Z.ltb_spec 0 (zlen b)).
  - unfold zlen. cbn. unfold sub. by rewrite Nat2Z.id, firstn_all.
  - symmetry. apply nil_length_inv. pose proof (zlen_nonneg b). unfold zlen in *. lia.
Qed.

(** A call that returns such a pair drove one run that ended. *)
Lemma whole_ended fuel w src encode name level max_output max_ratio flags b w' :
  bytes_ok src -> zlen src < 2 ^ 64 -> (forall a, a ∈ w_blocks w -> a < w_next w) ->
  zu_int_whole reg fuel w (RAWSXP src) encode (STRSXP [Some name]) level max_output max_ratio flags =
    Some (r_return (ended_with b) w') ->
  exists lv limit ratio res,
    INT32_MIN <= lv < 2 ^ 31 /\ 0 <= limit < 2 ^ 64 /\ 0 <= ratio < 2 ^ 32 /\
    let opts := whole_opts src encode (zu_codec_lookup reg (Some name)) lv limit ratio flags in
    runs reg fuel opts w (mk_outbuf None None 0 0 0) res /\
    wr_status res = Some ZU_STREAM_END /\ sink_written (wr_out res) = b.
Proof.
  intros Hb Hn Hw. unfold zu_int_whole. cbn [r_raw r_char]. cbv zeta.
  assert (Hlv : INT32_MIN <= (zu_int_level_from_sexp level).2 < 2 ^ 31).
  { unfold zu_int_level_from_sexp. destruct (_ || _); [by vm_compute|].
    destruct (Rf_asInteger level) as [i|] eqn:Ei; [|by vm_compute].
    pose proof (asInteger_range _ _ Ei). cbn. lia. }
  destruct (zu_int_level_from_sexp level) as [bl lv]. cbn [snd] in Hlv.
  destruct (zu_int_u64_from_real max_output) as [bo limit] eqn:Elim.
  destruct (zu_int_u32_from_int max_ratio) as [br ratio] eqn:Erat.
  destruct (negb (bl =? 0) || negb (bo =? 0) || negb (br =? 0)) eqn:Ebad; [done|].
  apply orb_false_iff in Ebad as [ [_ ->%negb_false_iff%Z.eqb_eq]%orb_false_iff ->%negb_false_iff%Z.eqb_eq].
  destruct (_ =? ZU_CODEC_NONE); [done|]. unfold drive_result.
  set (opts := whole_opts _ _ _ _ _ _ _).
  assert (Hr : run_ok opts) by (by apply whole_opts_ok).
  destruct (zu_int_outbuf_owner w (mk_outbuf None None 0 0 0)) as [ [owner w1] out] eqn:Eo.
  destruct (zu_int_run_whole reg fuel (Some opts) w1 (Some out)) as [res|] eqn:E; [|done].
  destruct (run_whole_post reg Hdec Henc _ _ _ _ _ _ _ _ Hr Hw Eo E) as (_ & Hroom & _).
  destruct (wr_status res) as [st|] eqn:Est; [|done]. intros Heq.
  assert (Hv : zu_int_result st (snd <$> ob_buf (wr_out res)) (ob_used (wr_out res)) = ended_with b).
  { apply (f_equal (fun o => match o with Some (r_return v _) => v | _ => R_NilValue end)) in Heq. exact Heq. }
  pose proof (run_whole_named reg Hnamed _ _ _ _ _ _ E Est) as Hst.
  destruct (ended_with_bytes _ _ _ Hst Hroom Hv) as [-> Hs].
  exists lv, limit, ratio, res. split; [done|]. split; [|split; [|split] ].
  - apply u64_from_real_ok in Elim as (_ & _ & _ & Hl). unfold two53 in Hl. lia.
  - revert Erat. destruct max_ratio as [m|]; cbn; [|by intros [= ?] ].
    destruct (m <? 0); [by intros [= ?]|]. intros [= <-]. apply u32_range.
  - split; [done|]. split; [done|]. by rewrite Eo.
  - done.
Qed.
End entry.


(** ** Witness: three bytes through gzip *)

#[local] Existing Instances toy_miniz toy_miniz_ok toy_inverse toy_drains.
#[local] Existing Instances coded_zstd coded_zstd_ok coded_zstd_inverse.
#[local] Existing Instances coded_lz4 coded_lz4_ok coded_block_ok coded_lz4_inverse.
#[local] Instance some_alloc : Allocator := fun _ => true.
#[local] Instance some_heap : HeapBytes := fun _ => 0.
#[local] Existing Instance quiet.

#[local] Instance int_rapi : RApi := {|
  Rf_asReal := @Rf_asReal toy_rapi;
  Rf_asInteger := fun x =>
    match x with
    | INTSXP (Some i :: _) => if (INT32_MIN <? i) && (i <? 2 ^ 31) then Some i else None
    | _ => None
    end;
  Rf_asLogical := @Rf_asLogical toy_rapi;
|}.

#[local] Instance int_rapi_ok : RApiOk.
Proof.
  intros x i. cbn. destruct x as [|l|l|[|[j|] l]|l|l|l|? ? ?]; try done.
  destruct (Z.ltb_spec INT32_MIN j), (Z.ltb_spec j (2 ^ 31)); cbn; intros [= <-]; done.
Qed.

Definition trip_limit : sexp := REALSXP [R_Fin (QArith_base.inject_Z 3)].
Definition trip_ratio : sexp := INTSXP [Some 0].

Definition outcome_world (o : option r_outcome) : r_world :=
  match o with
  | Some (r_return _ w) => w
  | _ => toy_world
  end.


(** The second call does end so. *)
Example komp_decompress_ends :
  exists w2', zukomp_decompress builtin_registry 20 toy_world (RAWSXP gzip_packed) (STRSXP [Some "gzip"%string])
    trip_limit trip_ratio = Some (r_return (ended_with gzip_text) w2').
Proof. eexists. vm_compute. reflexivity. Qed.
