(* ===== verification/Api.v ===== *)
(** * The C-callable API table: src/zukomp_api.c and inst/include/zukomp-r.h

    The one versioned table other packages reach the library through.  An entry of the
    table is a function of the process's state it reads: the registry. *)
From S2P Require Import Prelude Types SizeArith Registry Stream RValues.

Section api.
Context {alloc : Allocator}.

Record zukomp_api_v1 := mk_api {
  api_abi_version : Z;
  api_struct_size : Z;
  api_codec_lookup : registry -> option string -> zu_codec;
  api_codec_from_content_encoding : registry -> option string -> zu_codec;
  api_codec_available : registry -> zu_codec -> bool;
  api_codec_get_info : registry -> zu_codec -> option zu_codec_info -> zu_status * option zu_codec_info;
  api_codec_list : registry -> option (list zu_codec) -> Z -> outp ->
    zu_status * option (list zu_codec) * option Z;
  api_sniff : registry -> option bytes -> Z -> outp -> zu_status * option zu_codec;
  api_encoder_new : registry -> outp -> option bytes -> result zu_encoder;
  api_encoder_process : option zu_encoder -> option zu_buffer -> zu_flush ->
    zu_status * option zu_encoder * option zu_buffer;
  api_encoder_reset : option zu_encoder -> option bytes -> zu_status * option zu_encoder;
  api_encoder_free : option zu_encoder -> list release;
  api_decoder_new : registry -> outp -> option bytes -> result zu_decoder;
  api_decoder_process : option zu_decoder -> option zu_buffer -> zu_flush ->
    zu_status * option zu_decoder * option zu_buffer;
  api_decoder_reset : option zu_decoder -> option bytes -> zu_status * option zu_decoder;
  api_decoder_free : option zu_decoder -> list release;
  api_compress_bound : registry -> zu_codec -> Z -> Z -> outp -> result Z;
  api_compress_one : registry -> option bytes -> option bytes -> Z -> option bytes -> Z -> outp ->
    option (zu_status * option Z * option bytes);
  api_decompress_one : registry -> option bytes -> option bytes -> Z -> option bytes -> Z -> outp ->
    option (zu_status * option Z * option bytes);
  api_status_string : zu_status -> string;
  api_abi : Z;
  api_register_codec : registry -> option zu_codec_vtable -> zu_status * registry;
}.

(** Two 32-bit fields and twenty function pointers. *)
Definition sizeof_api_v1 : Z := 4 + 4 + 20 * 8.

Definition zu_int_api_v1 : zukomp_api_v1 := {|
  api_abi_version := ZUKOMP_ABI_VERSION;
  api_struct_size := sizeof_api_v1;
  api_codec_lookup := zu_codec_lookup;
  api_codec_from_content_encoding := zu_codec_from_content_encoding;
  api_codec_available := zu_codec_available;
  api_codec_get_info := zu_codec_get_info;
  api_codec_list := zu_codec_list;
  api_sniff := zu_sniff;
  api_encoder_new := zu_encoder_new;
  api_encoder_process := zu_encoder_process;
  api_encoder_reset := zu_encoder_reset;
  api_encoder_free := zu_encoder_free;
  api_decoder_new := zu_decoder_new;
  api_decoder_process := zu_decoder_process;
  api_decoder_reset := zu_decoder_reset;
  api_decoder_free := zu_decoder_free;
  api_compress_bound := zu_compress_bound;
  api_compress_one := zu_compress_one;
  api_decompress_one := zu_decompress_one;
  api_status_string := zu_status_string;
  api_abi := zu_abi_version;
  api_register_codec := zu_register_codec;
|}.

Definition zukomp_get_api (requested : Z) : option zukomp_api_v1 :=
  if negb (requested =? ZUKOMP_ABI_VERSION) then None else Some zu_int_api_v1.

Definition zukomp_api_struct_size : sexp := Rf_ScalarInteger sizeof_api_v1.

(** The (version, size) pair of the table, or NULL. *)
Definition zukomp_get_api_r {r : RApi} (requested : sexp) : sexp :=
  match Rf_asInteger requested with
  | None => R_NilValue
  | Some v =>
      match zukomp_get_api (u32 v) with
      | None => R_NilValue
      | Some api =>
          Rf_setAttrib (INTSXP [Some (api_abi_version api); Some (api_struct_size api)]) "names"
            (STRSXP [Some "abi_version"; Some "struct_size"])%string
      end
  end.

(** A consumer's lazy, cached resolution.  [cached] is the static of its translation unit
    and [R_GetCCallable] what R's lookup of "zukomp_get_api" gives: [None] is NULL. *)
Definition zukomp_api (R_GetCCallable : option (Z -> option zukomp_api_v1))
    (cached : option zukomp_api_v1) : option zukomp_api_v1 * option zukomp_api_v1 :=
  let cached :=
    match cached with
    | Some _ => cached
    | None =>
        match R_GetCCallable with
        | Some get => get ZUKOMP_ABI_VERSION
        | None => None
        end
    end in
  (cached, cached).

(** Any number of resolutions, under any answers of R's lookup along the way. *)
Fixpoint resolve_all (lookups : list (option (Z -> option zukomp_api_v1)))
    (cached : option zukomp_api_v1) : list (option zukomp_api_v1) * option zukomp_api_v1 :=
  match lookups with
  | [] => ([], cached)
  | l :: rest =>
      let '(r, cached) := zukomp_api l cached in
      let '(rs, cached) := resolve_all rest cached in
      (r :: rs, cached)
  end.

Lemma zukomp_get_api_spec requested :
  zukomp_get_api requested = if requested =? ZUKOMP_ABI_VERSION then Some zu_int_api_v1 else None.
Proof. unfold zukomp_get_api. by destruct (requested =? _). Qed.

(** Once resolved, always the table, whatever R answers later. *)
Lemma resolve_all_cached lookups api :
  resolve_all lookups (Some api) = (replicate (length lookups) (Some api), Some api).
Proof. induction lookups as [|l rest IH]; [done|]. cbn. by rewrite IH. Qed.

Lemma resolve_all_spec lookups :
  Forall (fun l => l = None \/ l = Some zukomp_get_api) lookups ->
  Forall (fun r => r = None \/ r = Some zu_int_api_v1) (resolve_all lookups None).1.
Proof.
  induction 1 as [|l rest [->| ->] Hrest IH]; cbn; [constructor| |].
  - destruct (resolve_all rest None) as [rs c]. constructor; [by left|done].
  - change (zukomp_get_api ZUKOMP_ABI_VERSION) with (Some zu_int_api_v1).
    rewrite resolve_all_cached. cbn. constructor; [by right|]. apply Forall_replicate. by right.
Qed.

End api.
