(* ===== verification/Xor5a.v ===== *)
(** * A third-party codec: tools/zukomptest/src/codec_xor.c

    xor5a, registered from outside at a vendor identity, the stub that claims a declared
    one, the round trip through the API table's one-shot entry points, and the
    registrations that must be refused. *)
From S2P Require Import Prelude Types SizeArith ProcessLoop Registry Stream Identity StreamProps.
From S2P Require Import Deflate Zstd ZstdProps Lz4 Lz4Props Lz4Block Builtins Whole WholeProps RValues RGlue Api.

Definition XOR_KEY : Z := 0x5A.

(** The handle is the address of a static [int]; its pointee is never read. *)
Definition xor5a_new : result unit := Ok tt.
Definition xor5a_encoder_new (o : zu_encoder_opts) : result unit := xor5a_new.
Definition xor5a_decoder_new (o : zu_decoder_opts) : result unit := xor5a_new.

Definition xor5a_byte (c : Z) : Z := u8 (Z.lxor c XOR_KEY).

(** The [for] loop stores byte by byte; the windows do not overlap. *)
Definition xor5a_process (st : unit) (buf : zu_buffer) (flush : zu_flush) :
    zu_status * unit * zu_buffer :=
  let avail_in := src_size buf - src_pos buf in
  let avail_out := dst_size buf - dst_pos buf in
  let n := if avail_in <? avail_out then avail_in else avail_out in
  let buf' := buf_emit (buf_consume buf n) (List.map xor5a_byte (sub (src_bytes buf) (src_pos buf) n)) in
  (if avail_in >? n then ZU_NEED_OUTPUT
   else if is_finish flush then ZU_STREAM_END else ZU_NEED_INPUT, st, buf').

Definition xor5a_encoder_reset (st : unit) (o : zu_encoder_opts) : zu_status * unit := (ZU_OK, st).
Definition xor5a_decoder_reset (st : unit) (o : zu_decoder_opts) : zu_status * unit := (ZU_OK, st).
Definition xor5a_bound (level n : Z) : result Z := Ok n.

(** The initialisers stop at [bound]: the level names are zero. *)
Definition xor5a_vtable : zu_codec_vtable := {|
  vt_state := unit;
  vt_struct_size := sizeof_vtable;
  vt_codec := ZU_CODEC_VENDOR_BASE;
  vt_name := Some "xor5a"%string;
  vt_content_encoding := None;
  vt_source := Some "zukomptest"%string;
  vt_level_min := 0;
  vt_level_max := 0;
  vt_level_default := 0;
  vt_flags := Z.lor (Z.lor ZU_CAN_ENCODE ZU_CAN_DECODE) ZU_CAN_FLUSH;
  vt_magic := None;
  vt_magic_len := 0;
  vt_magic_offset := 0;
  vt_sniff := None;
  vt_encoder_new := Some xor5a_encoder_new;
  vt_encoder_process := Some xor5a_process;
  vt_encoder_reset := Some xor5a_encoder_reset;
  vt_encoder_free := true;
  vt_decoder_new := Some xor5a_decoder_new;
  vt_decoder_process := Some xor5a_process;
  vt_decoder_reset := Some xor5a_decoder_reset;
  vt_decoder_free := true;
  vt_bound := Some xor5a_bound;
  vt_level_fast := 0;
  vt_level_best := 0;
|}.

Definition snappy_stub_encoder_new := xor5a_encoder_new.
Definition snappy_stub_decoder_new := xor5a_decoder_new.

Definition snappy_stub_vtable : zu_codec_vtable := {|
  vt_state := unit;
  vt_struct_size := sizeof_vtable;
  vt_codec := ZU_CODEC_SNAPPY_RAW;
  vt_name := Some "snappy-raw"%string;
  vt_content_encoding := None;
  vt_source := Some "zukomptest"%string;
  vt_level_min := 0;
  vt_level_max := 0;
  vt_level_default := 0;
  vt_flags := Z.lor (Z.lor ZU_CAN_ENCODE ZU_CAN_DECODE) ZU_CAN_FLUSH;
  vt_magic := None;
  vt_magic_len := 0;
  vt_magic_offset := 0;
  vt_sniff := None;
  vt_encoder_new := Some snappy_stub_encoder_new;
  vt_encoder_process := Some xor5a_process;
  vt_encoder_reset := Some xor5a_encoder_reset;
  vt_encoder_free := true;
  vt_decoder_new := Some snappy_stub_decoder_new;
  vt_decoder_process := Some xor5a_process;
  vt_decoder_reset := Some xor5a_decoder_reset;
  vt_decoder_free := true;
  vt_bound := Some xor5a_bound;
  vt_level_fast := 0;
  vt_level_best := 0;
|}.

Definition zukomptest_vtable : zu_codec_vtable := xor5a_vtable.
Definition zukomptest_declared_vtable : zu_codec_vtable := snappy_stub_vtable.

(** ** The round trip through the table *)

(** What an entry point of the consumer package does: return a value, or [Rf_error]. *)
Inductive consumer_result :=
  | consumer_value (v : sexp)
  | consumer_error (why : string).

Section roundtrip.
Context {alloc : Allocator} {heap : HeapBytes} (api : option zukomp_api_v1) (reg : registry).

Definition roundtrip_eopts : zu_encoder_opts :=
  mk_encoder_opts sizeof_encoder_opts ZU_CODEC_VENDOR_BASE ZU_LEVEL_DEFAULT 0.
Definition roundtrip_dopts : zu_decoder_opts :=
  mk_decoder_opts sizeof_decoder_opts ZU_CODEC_VENDOR_BASE 0 0 0 0.

(** A fresh RAWSXP of [n] bytes, whatever it holds. *)
Definition alloc_raw (n : Z) : bytes := heap_junk n.

(** [None] is a one-shot call that did not return. *)
Definition zukomptest_roundtrip_via_c (x : bytes) : option consumer_result :=
  match api with
  | None => Some (consumer_error "could not resolve zukomp's API table"%string)
  | Some api =>
      let n := zlen x in
      match api_compress_bound api reg (eo_codec roundtrip_eopts) (eo_level roundtrip_eopts) n true with
      | Err _ => Some (consumer_error "compress_bound failed"%string)
      | Ok cap =>
          match api_compress_one api reg (Some (encoder_opts_bytes roundtrip_eopts)) (Some x) n
                  (Some (alloc_raw cap)) cap true with
          | None => None
          | Some (st, written, mid) =>
              let written := default 0 written in
              if negb (status_eqb st ZU_OK) then Some (consumer_error (api_status_string api st))
              else
                match api_decompress_one api reg (Some (decoder_opts_bytes roundtrip_dopts)) mid written
                        (Some (alloc_raw n)) n true with
                | None => None
                | Some (st, back, out) =>
                    let back := default 0 back in
                    if negb (status_eqb st ZU_OK) || negb (back =? n)
                    then Some (consumer_error (api_status_string api st))
                    else Some (consumer_value (RAWSXP (default [] out)))
                end
          end
      end
  end.

End roundtrip.

(** ** Registrations that must be refused *)

Definition vtable_poisoned (v : zu_codec_vtable) (codec : zu_codec) (name : string)
    (token : option string) (struct_size : Z) : zu_codec_vtable :=
  mk_vtable (vt_state v) struct_size codec (Some name) token (vt_source v) (vt_level_min v)
    (vt_level_max v) (vt_level_default v) (vt_flags v) (vt_magic v) (vt_magic_len v)
    (vt_magic_offset v) (vt_sniff v) (vt_encoder_new v) (vt_encoder_process v) (vt_encoder_reset v)
    (vt_encoder_free v) (vt_decoder_new v) (vt_decoder_process v) (vt_decoder_reset v)
    (vt_decoder_free v) (vt_bound v) (vt_level_fast v) (vt_level_best v).

(** The vtable of each case of the [switch]; [None] is [default:]. *)
Definition bad_vtable (which : Z) : option zu_codec_vtable :=
  let v := vtable_poisoned snappy_stub_vtable in
  let base := ZU_CODEC_VENDOR_BASE in
  match which with
  | 0 => Some (v (base + 7) "gzip" None sizeof_vtable)
  | 1 => Some (v ZU_CODEC_SNAPPY_RAW "not-snappy-raw" None sizeof_vtable)
  | 2 => Some (v 900 "reserved-gap" None sizeof_vtable)
  | 3 => Some (v (base + 8) "brotli" None sizeof_vtable)
  | 4 => Some (v (base + 9) "xor5a" None sizeof_vtable)
  | 5 => Some (v base "some-other-name" None sizeof_vtable)
  | 6 => Some (v (base + 10) "fresh-name" (Some "gzip") sizeof_vtable)
  | 8 => Some (v ZU_CODEC_SNAPPY_RAW "snappy-raw" (Some "br") sizeof_vtable)
  | 9 => Some (v ZU_CODEC_SNAPPY_RAW "snappy-raw" (Some "GZIP") sizeof_vtable)
  | 7 => Some (v (base + 11) "stunted" None 8)
  | _ => None
  end%string.

Definition zukomptest_try_bad_registration {alloc : Allocator} (api : option zukomp_api_v1)
    (reg : registry) (which : Z) : consumer_result * registry :=
  match api with
  | None => (consumer_error "could not resolve zukomp's API table"%string, reg)
  | Some api =>
      match bad_vtable which with
      | None => (consumer_value (Rf_ScalarInteger (-1)), reg)
      | Some v =>
          let '(st, reg) := api_register_codec api reg (Some v) in
          (consumer_value (Rf_ScalarInteger (status_code st)), reg)
      end
  end.

(** ** The codec is its own inverse *)

#[export] Instance xor5a_pointwise : Pointwise xor5a_byte xor5a_process.
Proof.
  intros [] b f Hb. unfold xor5a_process, pointwise_status. cbv zeta. rewrite if_ltb_min.
  change (Z.min (src_size b - src_pos b) (dst_size b - dst_pos b)) with (pointwise_count b).
  repeat f_equal. rewrite Z.gtb_ltb. unfold pointwise_count, avail_in, avail_out.
  replace (Z.min _ _ <? src_size b - src_pos b)
    with (dst_size b - dst_pos b <? src_size b - src_pos b); [done|].
  zcase; lia.
Qed.

Lemma xor5a_codec : pointwise_codec xor5a_byte xor5a_vtable.
Proof.
  constructor; try reflexivity;
    first [exists xor5a_encoder_new|exists xor5a_decoder_new|exists xor5a_process];
    (split; [reflexivity|]); first [by intros; exists tt|exact xor5a_pointwise].
Qed.

Lemma xor5a_byte_involutive c : byte_ok c -> xor5a_byte (xor5a_byte c) = c.
Proof.
  intros Hc. unfold byte_ok in Hc. unfold xor5a_byte, u8, XOR_KEY.
  pose proof (lxor_range c 0x5A 8 ltac:(lia) ltac:(lia) ltac:(lia)) as Hr.
  rewrite (Z.mod_small (Z.lxor c _)) by lia.
  rewrite Z.lxor_assoc, Z.lxor_nilpotent, Z.lxor_0_r. apply Z.mod_small. lia.
Qed.

Lemma xor5a_bytes_involutive l : bytes_ok l -> List.map xor5a_byte (List.map xor5a_byte l) = l.
Proof.
  intros Hl. rewrite map_map. induction Hl as [|c l Hc Hl IH]; [done|]. cbn.
  by rewrite xor5a_byte_involutive, IH.
Qed.

Lemma zlen_alloc_raw {heap : HeapBytes} n : 0 <= n -> zlen (alloc_raw n) = n.
Proof. apply zlen_heap_junk. Qed.

Lemma memcpy_all m bs : zlen m = zlen bs -> memcpy_at m 0 bs = bs.
Proof. intros H. rewrite memcpy_at_0, drop_ge by (unfold zlen in *; lia). by rewrite app_nil_r. Qed.

(** C23: a satellite codec through the table.  Once xor5a is registered at its vendor
    identity, the consumer's round trip -- bound, one-shot compression into a buffer of
    that size, one-shot decompression into a buffer of the input's -- returns exactly the
    bytes it was given, for every input, although the library knows nothing of the codec. *)
Theorem xor5a_roundtrip_via_c {alloc : Allocator} {heap : HeapBytes} (reg : registry) (x : bytes) :
  zu_int_registry_lookup reg ZU_CODEC_VENDOR_BASE = Some xor5a_vtable ->
  alloc_ok req_encoder = true -> alloc_ok req_decoder = true ->
  bytes_ok x -> zlen x < 2 ^ 64 ->
  zukomptest_roundtrip_via_c (zukomp_get_api ZUKOMP_ABI_VERSION) reg x =
    Some (consumer_value (RAWSXP x)).
Proof.
  intros Hl Hae Had Hx Hn. pose proof (zlen_nonneg x) as H0. pose proof xor5a_codec as Hpc.
  change ZU_CODEC_VENDOR_BASE with (vt_codec xor5a_vtable) in Hl.
  rewrite zukomp_get_api_spec, Z.eqb_refl. unfold zukomptest_roundtrip_via_c.
  cbn [api_compress_bound api_compress_one api_decompress_one zu_int_api_v1].
  unfold zu_compress_bound, zu_int_resolve. cbn [negb eo_codec eo_level roundtrip_eopts].
  change ZU_CODEC_VENDOR_BASE with (vt_codec xor5a_vtable). rewrite Hl, (pc_encodes _ _ Hpc).
  cbn [mbind result_bind]. rewrite check_level_default. cbn [mbind result_bind vt_bound xor5a_vtable].
  change (xor5a_bound ZU_LEVEL_DEFAULT (zlen x)) with (Ok (zlen x)). cbv iota.
  pose proof (one_shot_buffer_ok x (alloc_raw (zlen x)) (zlen x) Hn) as Hb1.
  rewrite zlen_alloc_raw in Hb1 by done.
  rewrite (pointwise_compress_one reg _ _ Hpc Hl) by
    first [reflexivity|done|apply Hb1; lia|vm_compute; repeat split; discriminate].
  rewrite Z.leb_refl, Z.min_id. cbn [default from_option id]. status_simpl. cbv iota.
  cbn [fmap option_fmap option_map]. rewrite sub_all.
  assert (Hz : zlen (List.map xor5a_byte x) = zlen x) by (unfold zlen; by rewrite length_map).
  rewrite memcpy_all by (by rewrite zlen_alloc_raw, Hz).
  pose proof (one_shot_buffer_ok (List.map xor5a_byte x) (alloc_raw (zlen x)) (zlen x)) as Hb2.
  rewrite Hz, zlen_alloc_raw in Hb2 by done.
  rewrite (pointwise_decompress_one reg _ _ Hpc Hl) by
    first [reflexivity|done|apply Hb2; lia|vm_compute; repeat split; discriminate].
  change (one_shot_limit roundtrip_dopts (zlen x)) with (zlen x).
  rewrite Z.min_id. unfold one_shot_decode_status.
  change (one_shot_limit roundtrip_dopts (zlen x)) with (zlen x). rewrite Z.leb_refl.
  change (has_expected roundtrip_dopts) with false. cbn [andb default from_option id]. status_simpl.
  rewrite Z.eqb_refl. cbn [negb orb fmap option_fmap option_map default from_option id].
  rewrite <- Hz, sub_all, xor5a_bytes_involutive by done.
  by rewrite Hz, memcpy_all by (by rewrite zlen_alloc_raw).
Qed.

(** ** The registry with the consumer's codecs in it *)

Section consumer.
Context {mz : Miniz} {zstd : Zstd} {alloc : Allocator} {lz4 : Lz4}.

Definition consumer_registries : list registry :=
  [(register_all builtin_registry [xor5a_vtable]).2;
   (register_all builtin_registry [xor5a_vtable; snappy_stub_vtable]).2].

(** One satellite cannot poison discovery for the others.  With the built-in codecs and
    xor5a registered, and with the snappy stub registered too, every one of the ten
    malformed registrations -- a taken or mismatched name, a reserved or duplicate
    identity, another codec's content-coding token in any case, a vtable too short -- is
    answered with an invalid argument and changes nothing; and both satellites themselves
    are accepted. *)
Theorem bad_registrations_refused (which : Z) (v : zu_codec_vtable) (reg : registry) :
  bad_vtable which = Some v -> In reg consumer_registries ->
  (register_all builtin_registry [xor5a_vtable; snappy_stub_vtable]).1 = ZU_OK /\
  zukomptest_try_bad_registration (zukomp_get_api ZUKOMP_ABI_VERSION) reg which =
    (consumer_value (Rf_ScalarInteger (status_code ZU_ERR_INVALID_ARGUMENT)), reg).
Proof.
  intros Hv Hreg. split; [vm_compute; reflexivity|].
  assert (Hst : (zu_register_codec reg (Some v)).1 = ZU_ERR_INVALID_ARGUMENT).
  { assert (Hw : 0 <= which < 10).
    { destruct (Z.le_gt_cases 0 which), (Z.lt_ge_cases which 10); try lia; exfalso; revert Hv;
        destruct which as [|p|p]; try lia; try done.
      do 4 (destruct p as [p|p|]; try done; try lia). }
    assert (Hc : which = 0 \/ which = 1 \/ which = 2 \/ which = 3 \/ which = 4 \/ which = 5 \/
      which = 6 \/ which = 7 \/ which = 8 \/ which = 9) by lia.
    destruct Hreg as [<-|[<-|[] ] ];
      repeat (destruct Hc as [->|Hc]; [injection Hv as <-; vm_compute; reflexivity|]);
      subst which; injection Hv as <-; vm_compute; reflexivity. }
  rewrite zukomp_get_api_spec, Z.eqb_refl. unfold zukomptest_try_bad_registration. rewrite Hv.
  cbn [api_register_codec zu_int_api_v1].
  destruct (register_cases reg (Some v)) as [E|[ [E _]|(w & _ & _ & _ & _ & _ & E)] ].
  - by rewrite E.
  - by rewrite E in Hst.
  - by rewrite E in Hst.
Qed.

End consumer.

#[local] Instance consumer_alloc : Allocator := fun _ => true.
#[local] Instance consumer_heap : HeapBytes := fun i => Z.of_nat i mod 256.

Definition toy_consumer_registry : registry :=
  (register_all toy_builtin_registry [xor5a_vtable; snappy_stub_vtable]).2.

Lemma xor5a_roundtrip_via_c_witness :
  (xor5a_process tt (mk_buffer (Some [1; 2; 255]) 3 0 (Some [0; 0; 0]) 3 0) ZU_FINISH).2 =
    mk_buffer (Some [1; 2; 255]) 3 3 (Some [91; 88; 165]) 3 3 /\
  zukomptest_roundtrip_via_c (zukomp_get_api ZUKOMP_ABI_VERSION)
    toy_consumer_registry [1; 2; 255] = Some (consumer_value (RAWSXP [1; 2; 255])).
Proof.
  split; [vm_compute; reflexivity|].
  apply (xor5a_roundtrip_via_c toy_consumer_registry [1; 2; 255]);
    [reflexivity|reflexivity|reflexivity|apply bytes_okb_ok; reflexivity|reflexivity].
Defined.

Lemma bad_registrations_refused_witness :
  exists v, bad_vtable 9 = Some v /\ vt_content_encoding v = Some "GZIP"%string /\
  zukomptest_try_bad_registration (zukomp_get_api ZUKOMP_ABI_VERSION)
    toy_consumer_registry 9 = (consumer_value (Rf_ScalarInteger 4), toy_consumer_registry).
Proof.
  eexists. split; [reflexivity|]. split; [reflexivity|].
  apply (bad_registrations_refused (mz := toy_miniz) (zstd := toy_zstd)
    (lz4 := toy_lz4) 9 _ toy_consumer_registry eq_refl (or_intror (or_introl eq_refl))).
Defined.
