(* ===== verification/Lifetimes.v ===== *)
(** * What is on the heap: the lives of a handle's blocks

    Every handle owns a small tree of blocks: itself, the codec's state, and what the state
    points at -- a miniz stream's internals, a library context, the staged output, the
    gathered input.  Here the operations are given with a trace of what they allocate and
    free, the trace is replayed against the blocks that are live, and the driver's handles
    (src/zu_stream.c) are run unmodified over codecs that carry their trace in their state.
    The codecs' own traces are in CodecLifetimes.v. *)
From stdpp Require Import gmap.
From S2P Require Import Prelude Types SizeArith Registry Stream StreamProps.

(** ** Blocks *)

(** One constructor per pointer that owns what it points at. *)
Inductive block :=
  | bl_handle      (** zu_encoder, zu_decoder *)
  | bl_state       (** [handle->state] *)
  | bl_mz          (** [state->mz.state] *)
  | bl_cctx        (** [state->cctx] *)
  | bl_dctx        (** [state->dctx] *)
  | bl_stage       (** [state->stage] *)
  | bl_in.         (** [state->in] *)

#[export] Instance block_eq_dec : EqDecision block.
Proof. solve_decision. Defined.

Definition block_index (b : block) : nat :=
  match b with
  | bl_handle => 0 | bl_state => 1 | bl_mz => 2 | bl_cctx => 3 | bl_dctx => 4 | bl_stage => 5 | bl_in => 6
  end.

Definition all_blocks : list block := [bl_handle; bl_state; bl_mz; bl_cctx; bl_dctx; bl_stage; bl_in].

#[export] Instance block_countable : Countable block.
Proof.
  refine (inj_countable' block_index (fun n => nth n all_blocks bl_handle) _). by intros [].
Defined.

(** Where the only pointer to a block is kept. *)
Definition kept_in (b : block) : option block :=
  match b with
  | bl_handle => None
  | bl_state => Some bl_handle
  | _ => Some bl_state
  end.

Inductive event :=
  | get (b : block)       (** allocated, and the pointer to it stored *)
  | put (b : block).      (** freed *)

(** [None] is an error no C program survives unharmed: a pointer that is overwritten while
    it owns a block, or that is kept in a block that is not live; a block freed twice, or
    freed while it keeps the only pointer to another. *)
Definition heap_step (h : gset block) (e : event) : option (gset block) :=
  match e with
  | get b =>
      if bool_decide (b ∈ h) then None
      else if match kept_in b with Some p => bool_decide (p ∈ h) | None => true end
      then Some ({[b]} ∪ h)
      else None
  | put b =>
      if bool_decide (b ∉ h) then None
      else if existsb (fun c => bool_decide (kept_in c = Some b /\ c ∈ h)) all_blocks then None
      else Some (h ∖ {[b]})
  end.

Fixpoint life (h : gset block) (ev : list event) : option (gset block) :=
  match ev with
  | [] => Some h
  | e :: ev => h ← heap_step h e; life h ev
  end.

Lemma life_app h ev1 ev2 : life h (ev1 ++ ev2) = h ← life h ev1; life h ev2.
Proof.
  revert h. induction ev1 as [|e ev1 IH]; intros h; [done|]. cbn [life app].
  destruct (heap_step h e); cbn [mbind option_bind]; [apply IH|done].
Qed.

Lemma life_trans h h1 h2 ev1 ev2 :
  life h ev1 = Some h1 -> life h1 ev2 = Some h2 -> life h (ev1 ++ ev2) = Some h2.
Proof. intros H1 H2. by rewrite life_app, H1. Qed.

(** The blocks of a handle whose state has the given pointers set. *)
Definition owned (mz cctx dctx stage in_ : bool) : gset block :=
  list_to_set ([bl_handle; bl_state] ++ (if mz then [bl_mz] else []) ++ (if cctx then [bl_cctx] else []) ++
    (if dctx then [bl_dctx] else []) ++ (if stage then [bl_stage] else []) ++ (if in_ then [bl_in] else [])).

(** A life between two such sets is a matter of evaluating it in each case. *)
Ltac life_cases :=
  repeat match goal with
  | |- context [if ?b then _ else _] => is_var b; destruct b
  | |- context [owned ?m ?c ?d ?s ?i] =>
      first [ is_var m; destruct m | is_var c; destruct c | is_var d; destruct d
            | is_var s; destruct s | is_var i; destruct i ]
  end; by vm_compute.

(** ** Operations with their trace *)

Definition traced (A : Type) : Type := A * list event.

#[export] Instance traced_ret : MRet traced := fun A a => (a, []).
#[export] Instance traced_bind : MBind traced := fun A B k m =>
  let '(a, ev) := m in let '(b, ev') := k a in (b, ev ++ ev').

Definition tell (ev : list event) : traced unit := (tt, ev).

Lemma traced_bind_fst {A B} (m : traced A) (k : A -> traced B) : (m ≫= k).1 = (k m.1).1.
Proof. destruct m as [a ev]. cbn. by destruct (k a). Qed.

Lemma traced_bind_snd {A B} (m : traced A) (k : A -> traced B) : (m ≫= k).2 = m.2 ++ (k m.1).2.
Proof. destruct m as [a ev]. cbn. by destruct (k a). Qed.

Section accounted.
Context {S : Type} (owns : S -> gset block) (ok : S -> Prop).

(** From a state that owns what it should, the operation's trace is a life that ends with
    what its result owns. *)
Definition accounted {X : Type} (s : S) (m : traced X) (state : X -> S) : Prop :=
  life (owns s) m.2 = Some (owns (state m.1)) /\ ok (state m.1).

Lemma accounted_ret {X} s (x : X) state :
  owns (state x) = owns s -> ok (state x) -> accounted s (mret x) state.
Proof. intros E Ho. split; [by rewrite <- E|done]. Qed.

Lemma accounted_bind {X Y} s (m : traced X) (k : X -> traced Y) fx fy :
  accounted s m fx -> (ok (fx m.1) -> accounted (fx m.1) (k m.1) fy) -> accounted s (m ≫= k) fy.
Proof.
  intros [Hl Ho] Hk. destruct (Hk Ho) as [Hl' Ho']. split; rewrite traced_bind_fst; [|done].
  rewrite traced_bind_snd. by eapply life_trans.
Qed.

(** Steps of the state alone, then a trace that takes what is owned before to what is owned
    after. *)
Lemma accounted_tell {X} s ev (x : X) state :
  life (owns s) ev = Some (owns (state x)) -> ok (state x) ->
  accounted s (_ ← tell ev; mret x) state.
Proof.
  intros Hl Ho. split; rewrite traced_bind_fst; [|done]. rewrite traced_bind_snd. cbn. by rewrite app_nil_r.
Qed.

(** A constructor that succeeds leaves what its state owns, one that fails nothing. *)
Definition new_accounted (m : traced (result S)) : Prop :=
  match m with
  | (Ok s, ev) => life {[bl_handle]} ev = Some (owns s) /\ ok s
  | (Err _, ev) => life {[bl_handle]} ev = Some {[bl_handle]}
  end.

End accounted.

(** ** A codec's callbacks with their traces *)

(** [hv_owns] is what a state keeps live, the handle included; [hv_ok] its invariant. *)
Record heap_view (v : zu_codec_vtable) := mk_view {
  hv_owns : vt_state v -> gset block;
  hv_ok : vt_state v -> Prop;
  hv_encoder_new : zu_encoder_opts -> traced (result (vt_state v));
  hv_encoder_process : vt_state v -> zu_buffer -> zu_flush -> traced (zu_status * vt_state v * zu_buffer);
  hv_encoder_reset : vt_state v -> zu_encoder_opts -> traced (zu_status * vt_state v);
  hv_encoder_free : vt_state v -> list event;
  hv_decoder_new : zu_decoder_opts -> traced (result (vt_state v));
  hv_decoder_process : vt_state v -> zu_buffer -> zu_flush -> traced (zu_status * vt_state v * zu_buffer);
  hv_decoder_reset : vt_state v -> zu_decoder_opts -> traced (zu_status * vt_state v);
  hv_decoder_free : vt_state v -> list event;
}.
Arguments mk_view {v}.
Arguments hv_owns {v}.
Arguments hv_ok {v}.
Arguments hv_encoder_new {v}.
Arguments hv_encoder_process {v}.
Arguments hv_encoder_reset {v}.
Arguments hv_encoder_free {v}.
Arguments hv_decoder_new {v}.
Arguments hv_decoder_process {v}.
Arguments hv_decoder_reset {v}.
Arguments hv_decoder_free {v}.

(** Without their traces the callbacks are the vtable's. *)
Definition erases {X Y} (callback : option (X -> Y)) (t : X -> traced Y) : Prop :=
  exists f, callback = Some f /\ forall x, (t x).1 = f x.
Definition erases2 {X Y Z} (callback : option (X -> Y -> Z)) (t : X -> Y -> traced Z) : Prop :=
  exists f, callback = Some f /\ forall x y, (t x y).1 = f x y.
Definition erases3 {W X Y Z} (callback : option (W -> X -> Y -> Z)) (t : W -> X -> Y -> traced Z) : Prop :=
  exists f, callback = Some f /\ forall x y z, (t x y z).1 = f x y z.

Class Erases (v : zu_codec_vtable) (hv : heap_view v) : Prop := {
  er_encoder_new : erases (vt_encoder_new v) (hv_encoder_new hv);
  er_encoder_process : erases3 (vt_encoder_process v) (hv_encoder_process hv);
  er_encoder_reset : erases2 (vt_encoder_reset v) (hv_encoder_reset hv);
  er_encoder_free : vt_encoder_free v = true;
  er_decoder_new : erases (vt_decoder_new v) (hv_decoder_new hv);
  er_decoder_process : erases3 (vt_decoder_process v) (hv_decoder_process hv);
  er_decoder_reset : erases2 (vt_decoder_reset v) (hv_decoder_reset hv);
  er_decoder_free : vt_decoder_free v = true;
}.

Class Balances (v : zu_codec_vtable) (hv : heap_view v) : Prop := {
  ba_encoder_new o : new_accounted (hv_owns hv) (hv_ok hv) (hv_encoder_new hv o);
  ba_encoder_process s b f : hv_ok hv s -> buffer_ok b ->
    accounted (hv_owns hv) (hv_ok hv) s (hv_encoder_process hv s b f) (fun r => r.1.2);
  ba_encoder_reset s o : hv_ok hv s ->
    accounted (hv_owns hv) (hv_ok hv) s (hv_encoder_reset hv s o) snd;
  ba_encoder_free s : hv_ok hv s -> life (hv_owns hv s) (hv_encoder_free hv s) = Some {[bl_handle]};
  ba_decoder_new o : decoder_opts_fit o -> new_accounted (hv_owns hv) (hv_ok hv) (hv_decoder_new hv o);
  ba_decoder_process s b f : hv_ok hv s -> buffer_ok b ->
    accounted (hv_owns hv) (hv_ok hv) s (hv_decoder_process hv s b f) (fun r => r.1.2);
  ba_decoder_reset s o : hv_ok hv s -> decoder_opts_fit o ->
    accounted (hv_owns hv) (hv_ok hv) s (hv_decoder_reset hv s o) snd;
  ba_decoder_free s : hv_ok hv s -> life (hv_owns hv s) (hv_decoder_free hv s) = Some {[bl_handle]};
}.

(** ** Handles over a codec that carries its trace *)

Section handles.
Context {alloc : Allocator} (v : zu_codec_vtable) (hv : heap_view v).

(** The state with the trace so far. *)
Definition ghost_process (p : vt_state v -> zu_buffer -> zu_flush -> traced (zu_status * vt_state v * zu_buffer))
    (s : vt_state v * list event) (b : zu_buffer) (f : zu_flush) :
    zu_status * (vt_state v * list event) * zu_buffer :=
  let '((st, s', b'), ev) := p s.1 b f in (st, (s', s.2 ++ ev), b').

Definition ghost_reset {O} (p : vt_state v -> O -> traced (zu_status * vt_state v))
    (s : vt_state v * list event) (o : O) : zu_status * (vt_state v * list event) :=
  let '((st, s'), ev) := p s.1 o in (st, (s', s.2 ++ ev)).

Definition ghost_new {O} (p : O -> traced (result (vt_state v))) (o : O) : result (vt_state v * list event) :=
  s ← (p o).1; Ok (s, (p o).2).

(** The same codec, its trace kept beside its state. *)
Definition ghost : zu_codec_vtable := {|
  vt_state := vt_state v * list event;
  vt_struct_size := vt_struct_size v;
  vt_codec := vt_codec v;
  vt_name := vt_name v;
  vt_content_encoding := vt_content_encoding v;
  vt_source := vt_source v;
  vt_level_min := vt_level_min v;
  vt_level_max := vt_level_max v;
  vt_level_default := vt_level_default v;
  vt_flags := vt_flags v;
  vt_magic := vt_magic v;
  vt_magic_len := vt_magic_len v;
  vt_magic_offset := vt_magic_offset v;
  vt_sniff := vt_sniff v;
  vt_encoder_new := Some (ghost_new (hv_encoder_new hv));
  vt_encoder_process := Some (ghost_process (hv_encoder_process hv));
  vt_encoder_reset := Some (ghost_reset (hv_encoder_reset hv));
  vt_encoder_free := vt_encoder_free v;
  vt_decoder_new := Some (ghost_new (hv_decoder_new hv));
  vt_decoder_process := Some (ghost_process (hv_decoder_process hv));
  vt_decoder_reset := Some (ghost_reset (hv_decoder_reset hv));
  vt_decoder_free := vt_decoder_free v;
  vt_bound := vt_bound v;
  vt_level_fast := vt_level_fast v;
  vt_level_best := vt_level_best v;
|}.

(** [zu_encoder_new] and [zu_decoder_new] once the codec is resolved: the handle, the
    constructor, and the handle freed again when that fails. *)
Definition open_handle {O H} (req : alloc_req) (new : O -> traced (result (vt_state v)))
    (handle : vt_state v -> O -> H) (o : O) : traced (result H) :=
  if negb (alloc_ok req) then mret (Err ZU_ERR_MEMORY)
  else
    _ ← tell [get bl_handle];
    r ← new o;
    match r with
    | Ok s => mret (Ok (handle s o))
    | Err st => _ ← tell [put bl_handle]; mret (Err st)
    end.

Definition encoder_open (m : bytes) : traced (result zu_encoder) :=
  open_handle req_encoder (hv_encoder_new hv) (fun s o => mk_encoder ghost (s, []) o false)
    (encoder_opts_of (zu_int_copy_opts sizeof_encoder_opts m (opts_struct_size m))).

Definition decoder_open (m : bytes) : traced (result zu_decoder) :=
  open_handle req_decoder (hv_decoder_new hv) (fun s o => mk_decoder ghost (s, []) o false 0 0)
    (decoder_opts_of (zu_int_copy_opts sizeof_decoder_opts m (opts_struct_size m))).

(** What is freed when a handle is: [free] is the vtable's callback. *)
Definition close_events (free : list event) (l : list release) : list event :=
  flat_map (fun r => match r with release_state => free | release_handle => [put bl_handle] end) l.

(** A client's calls between the two. *)
Inductive handle_op :=
  | op_process (b : zu_buffer) (f : zu_flush)
  | op_reset (opts : option bytes).

Definition op_ok (p : handle_op) : Prop :=
  match p with
  | op_process b _ => buffer_ok b
  | op_reset opts => forall m, opts = Some m -> bytes_ok m
  end.

Definition encoder_does (e : zu_encoder) (p : handle_op) : zu_encoder :=
  match p with
  | op_process b f => (encoder_process e b f).1.2
  | op_reset opts => (encoder_reset e opts).2
  end.

Definition decoder_does (d : zu_decoder) (p : handle_op) : zu_decoder :=
  match p with
  | op_process b f => (decoder_process d b f).1.2
  | op_reset opts => (decoder_reset d opts).2
  end.

Definition encoder_calls (e : zu_encoder) (l : list handle_op) : zu_encoder := fold_left encoder_does l e.
Definition decoder_calls (d : zu_decoder) (l : list handle_op) : zu_decoder := fold_left decoder_does l d.

End handles.

(** ** Every handle's blocks are accounted for *)

Lemma decoder_window_ok o total b :
  decoder_opts_fit o -> buffer_ok b -> buffer_ok (decoder_window o total b).2.
Proof.
  intros Hfit Hb. destruct (decoder_window_cases o total b) as [->|(c & st & rem & Hc & -> & Hlt & ->)];
    cbn [snd]; [done|].
  pose proof (ceiling_bounds _ _ _ Hfit Hc) as (Hcr & _). apply window_buffer_ok; [done|].
  destruct (Z.ltb_spec total c); lia.
Qed.

Lemma given_opts_fit size m n : bytes_ok m -> decoder_opts_fit (decoder_opts_of (zu_int_copy_opts size m n)).
Proof. intros. by apply decoder_opts_of_fit, bytes_ok_copy_opts. Qed.

Section laws.
Context {alloc : Allocator} (v : zu_codec_vtable) (hv : heap_view v) {Her : Erases v hv} {Hba : Balances v hv}.

(** What a client can see of a handle does not depend on the trace, which grows by a life
    of the codec's blocks. *)
Definition encoder_moves (s : vt_state v) (log : list event) (e' plain : zu_encoder) : Prop :=
  exists s' ev o f, e' = mk_encoder (ghost v hv) (s', log ++ ev) o f /\ plain = mk_encoder v s' o f /\
    life (hv_owns hv s) ev = Some (hv_owns hv s') /\ hv_ok hv s'.

Definition decoder_moves (s : vt_state v) (log : list event) (d' plain : zu_decoder) : Prop :=
  exists s' ev o f i n, d' = mk_decoder (ghost v hv) (s', log ++ ev) o f i n /\
    plain = mk_decoder v s' o f i n /\ decoder_opts_fit o /\
    life (hv_owns hv s) ev = Some (hv_owns hv s') /\ hv_ok hv s'.

Lemma encoder_rests s log o f : hv_ok hv s ->
  encoder_moves s log (mk_encoder (ghost v hv) (s, log) o f) (mk_encoder v s o f).
Proof. intros. exists s, [], o, f. by rewrite app_nil_r. Qed.

Lemma decoder_rests s log o f i n : hv_ok hv s -> decoder_opts_fit o ->
  decoder_moves s log (mk_decoder (ghost v hv) (s, log) o f i n) (mk_decoder v s o f i n).
Proof. intros. exists s, [], o, f, i, n. by rewrite app_nil_r. Qed.

Lemma encoder_does_ghost s log o f p : hv_ok hv s -> op_ok p ->
  encoder_moves s log (encoder_does (mk_encoder (ghost v hv) (s, log) o f) p)
    (encoder_does (mk_encoder v s o f) p).
Proof.
  intros Hs Hp. pose proof (encoder_rests s log o f Hs) as Hrest.
  destruct p as [b fl|opts]; cbn [encoder_does op_ok] in *.
  - unfold encoder_process. cbn [enc_vtable enc_state enc_opts enc_finished ghost vt_flags vt_encoder_process].
    destruct (er_encoder_process (Erases := Her)) as (process & -> & E).
    destruct (zu_int_check_buffer _); try done. destruct (zu_int_check_flush fl); try done.
    destruct f; [done|]. destruct (_ && _); [done|].
    destruct (ba_encoder_process (Balances := Hba) s b fl Hs Hp) as [Hl Ho].
    rewrite <- E. unfold ghost_process. cbn [fst snd].
    destruct (hv_encoder_process hv s b fl) as [ [ [st s'] b'] ev]. cbn [fst snd] in *.
    eexists s', ev, _, _. by split_and!.
  - unfold encoder_reset. cbn [enc_vtable enc_state enc_opts enc_finished].
    destruct (_ <? _); [done|]. destruct (negb _); [done|].
    change (zu_int_check_level (ghost v hv)) with (zu_int_check_level v).
    destruct (zu_int_check_level _ _); [|done]. cbn [ghost vt_encoder_reset].
    destruct (er_encoder_reset (Erases := Her)) as (reset & -> & E).
    set (use := encoder_opts_of _).
    destruct (ba_encoder_reset (Balances := Hba) s use Hs) as [Hl Ho].
    rewrite <- E. unfold ghost_reset. cbn [fst snd].
    destruct (hv_encoder_reset hv s use) as [ [st s'] ev]. cbn [fst snd] in *.
    destruct st; (eexists s', ev, _, _; by split_and!).
Qed.

Lemma decoder_does_ghost s log o f i n p : hv_ok hv s -> decoder_opts_fit o -> op_ok p ->
  decoder_moves s log (decoder_does (mk_decoder (ghost v hv) (s, log) o f i n) p)
    (decoder_does (mk_decoder v s o f i n) p).
Proof.
  intros Hs Hfit Hp. pose proof (decoder_rests s log o f i n Hs Hfit) as Hrest.
  destruct p as [b fl|opts]; cbn [decoder_does op_ok] in *.
  - unfold decoder_process.
    cbn [dec_vtable dec_state dec_opts dec_finished dec_total_in dec_total_out ghost vt_flags vt_decoder_process].
    destruct (er_decoder_process (Erases := Her)) as (process & -> & E).
    destruct (zu_int_check_buffer _); try done. destruct (zu_int_check_flush fl); try done.
    destruct f; [done|]. destruct (_ && _); [done|].
    pose proof (decoder_window_ok o n b Hfit Hp) as Hg.
    destruct (decoder_window o n b) as [ [allowance capped] given]. cbn [snd] in Hg.
    destruct (ba_decoder_process (Balances := Hba) s given fl Hs Hg) as [Hl Ho].
    rewrite <- E. unfold ghost_process. cbn [fst snd].
    destruct (hv_decoder_process hv s given fl) as [ [ [st s'] b'] ev]. cbn [fst snd] in *.
    eexists s', ev, _, _, _, _. by split_and!.
  - unfold decoder_reset. cbn [dec_vtable dec_state dec_opts dec_finished dec_total_in dec_total_out].
    set (given := default _ opts). destruct (negb _); [done|]. destruct (negb _); [done|].
    cbn [ghost vt_decoder_reset].
    destruct (er_decoder_reset (Erases := Her)) as (reset & -> & E).
    assert (Hu : forall size k, decoder_opts_fit (decoder_opts_of (zu_int_copy_opts size given k))).
    { intros. apply given_opts_fit. subst given. destruct opts; cbn; [by apply Hp|apply decoder_opts_bytes_ok]. }
    set (use := decoder_opts_of _).
    destruct (ba_decoder_reset (Balances := Hba) s use Hs ltac:(apply Hu)) as [Hl Ho].
    rewrite <- E. unfold ghost_reset. cbn [fst snd].
    destruct (hv_decoder_reset hv s use) as [ [st s'] ev]. cbn [fst snd] in *.
    destruct st; (eexists s', ev, _, _, _, _; split_and!; try done; apply Hu).
Qed.

Lemma encoder_calls_ghost l : forall s log o f, hv_ok hv s -> Forall op_ok l ->
  encoder_moves s log (encoder_calls (mk_encoder (ghost v hv) (s, log) o f) l)
    (encoder_calls (mk_encoder v s o f) l).
Proof.
  induction l as [|p l IH]; intros s log o f Hs Hl; [by apply encoder_rests|].
  apply Forall_cons in Hl as [Hp Hl]. cbn [encoder_calls fold_left].
  destruct (encoder_does_ghost s log o f p Hs Hp) as (s1 & ev1 & o1 & f1 & -> & -> & Hl1 & Hs1).
  destruct (IH s1 (log ++ ev1) o1 f1 Hs1 Hl) as (s2 & ev2 & o2 & f2 & E & E' & Hl2 & Hs2).
  exists s2, (ev1 ++ ev2), o2, f2. split_and!; [by rewrite app_assoc|done| |done].
  by eapply life_trans.
Qed.

Lemma decoder_calls_ghost l : forall s log o f i n, hv_ok hv s -> decoder_opts_fit o -> Forall op_ok l ->
  decoder_moves s log (decoder_calls (mk_decoder (ghost v hv) (s, log) o f i n) l)
    (decoder_calls (mk_decoder v s o f i n) l).
Proof.
  induction l as [|p l IH]; intros s log o f i n Hs Hfit Hl; [by apply decoder_rests|].
  apply Forall_cons in Hl as [Hp Hl]. cbn [decoder_calls fold_left].
  destruct (decoder_does_ghost s log o f i n p Hs Hfit Hp)
    as (s1 & ev1 & o1 & f1 & i1 & n1 & -> & -> & Hfit1 & Hl1 & Hs1).
  destruct (IH s1 (log ++ ev1) o1 f1 i1 n1 Hs1 Hfit1 Hl)
    as (s2 & ev2 & o2 & f2 & i2 & n2 & E & E' & Hfit2 & Hl2 & Hs2).
  exists s2, (ev1 ++ ev2), o2, f2, i2, n2. split_and!; [by rewrite app_assoc|done|done| |done].
  by eapply life_trans.
Qed.

(** A handle that opens owns its state's blocks, one that does not nothing. *)
Lemma open_accounted {O H} req (new : O -> traced (result (vt_state v))) (handle : vt_state v -> O -> H) o :
  new_accounted (hv_owns hv) (hv_ok hv) (new o) ->
  match open_handle v req new handle o with
  | (Ok h, ev) => exists s, (new o).1 = Ok s /\ h = handle s o /\ life ∅ ev = Some (hv_owns hv s) /\ hv_ok hv s
  | (Err _, ev) => life ∅ ev = Some ∅
  end.
Proof.
  assert (Hg : life ∅ [get bl_handle] = Some {[bl_handle]}) by (by vm_compute).
  intros Hn. unfold open_handle. destruct (negb (alloc_ok req)); [done|]. unfold new_accounted in Hn.
  destruct (new o) as [ [s|st] ev]; cbn -[life].
  - destruct Hn as [Hl Hs]. exists s. split_and!; [done|done| |done].
    rewrite app_nil_r. by apply (life_trans _ _ _ [_] _ Hg).
  - apply (life_trans _ _ _ [_] _ Hg). apply (life_trans _ _ _ _ _ Hn). by vm_compute.
Qed.

(** The free that ends it. *)
Lemma closed log s free : life ∅ log = Some (hv_owns hv s) ->
  life (hv_owns hv s) free = Some {[bl_handle]} ->
  life ∅ (log ++ close_events free [release_state; release_handle]) = Some ∅.
Proof.
  intros H1 H2. apply (life_trans _ _ _ _ _ H1). cbn [close_events flat_map].
  apply (life_trans _ _ _ _ _ H2). by vm_compute.
Qed.

(** From [zu_encoder_new] through the calls [l] to [zu_encoder_free]: the plain handle goes
    where the traced one goes, and in the end nothing is live. *)
Definition encoder_lives (m : bytes) (l : list handle_op) : Prop :=
  match encoder_open v hv m with
  | (Ok e, ev) => exists s0 o0 s log o f,
      e = mk_encoder (ghost v hv) (s0, []) o0 false /\
      encoder_calls e l = mk_encoder (ghost v hv) (s, log) o f /\
      encoder_calls (mk_encoder v s0 o0 false) l = mk_encoder v s o f /\
      life ∅ ((ev ++ log) ++ close_events (hv_encoder_free hv s) (zu_encoder_free (Some (mk_encoder v s o f))))
        = Some ∅
  | (Err _, ev) => life ∅ ev = Some ∅
  end.

Definition decoder_lives (m : bytes) (l : list handle_op) : Prop :=
  match decoder_open v hv m with
  | (Ok d, ev) => exists s0 o0 s log o f i n,
      d = mk_decoder (ghost v hv) (s0, []) o0 false 0 0 /\
      decoder_calls d l = mk_decoder (ghost v hv) (s, log) o f i n /\
      decoder_calls (mk_decoder v s0 o0 false 0 0) l = mk_decoder v s o f i n /\
      life ∅ ((ev ++ log) ++ close_events (hv_decoder_free hv s) (zu_decoder_free (Some (mk_decoder v s o f i n))))
        = Some ∅
  | (Err _, ev) => life ∅ ev = Some ∅
  end.

Lemma encoder_balanced m l : Forall op_ok l -> encoder_lives m l.
Proof.
  intros Hl. unfold encoder_lives, encoder_open. set (o := encoder_opts_of _). set (handle := fun s _ => _).
  pose proof (open_accounted req_encoder (hv_encoder_new hv) handle o (ba_encoder_new o)) as Ho.
  destruct (open_handle _ _ _ _ _) as [ [e|st] ev]; [|done].
  destruct Ho as (s0 & _ & -> & Hl0 & Hs0).
  destruct (encoder_calls_ghost l s0 [] o false Hs0 Hl) as (s & ev' & o' & f' & E & E' & Hl1 & Hs).
  exists s0, o, s, ev', o', f'. split_and!; [done..|].
  unfold zu_encoder_free. cbn [enc_vtable]. rewrite (er_encoder_free (Erases := Her)).
  apply closed with s; [by eapply life_trans|by apply ba_encoder_free].
Qed.

Lemma decoder_balanced m l : bytes_ok m -> Forall op_ok l -> decoder_lives m l.
Proof.
  intros Hm Hl. unfold decoder_lives, decoder_open.
  pose proof (given_opts_fit sizeof_decoder_opts m (opts_struct_size m) Hm) as Hfit.
  set (o := decoder_opts_of _) in *. set (handle := fun s _ => _).
  pose proof (open_accounted req_decoder (hv_decoder_new hv) handle o (ba_decoder_new o Hfit)) as Ho.
  destruct (open_handle _ _ _ _ _) as [ [d|st] ev]; [|done].
  destruct Ho as (s0 & _ & -> & Hl0 & Hs0).
  destruct (decoder_calls_ghost l s0 [] o false 0 0 Hs0 Hfit Hl)
    as (s & ev' & o' & f' & i & n & E & E' & _ & Hl1 & Hs).
  exists s0, o, s, ev', o', f', i, n. split_and!; [done..|].
  unfold zu_decoder_free. cbn [dec_vtable]. rewrite (er_decoder_free (Erases := Her)).
  apply closed with s; [by eapply life_trans|by apply ba_decoder_free].
Qed.

(** Opening is what [zu_encoder_new] and [zu_decoder_new] do once they have found the codec
    and the options pass. *)
Lemma encoder_open_new reg m :
  ZU_ENCODER_OPTS_REQUIRED_SIZE <= opts_struct_size m ->
  zu_int_resolve reg (eo_codec (encoder_opts_of m)) ZU_CAN_ENCODE = Ok v ->
  zu_int_check_level v (eo_level (encoder_opts_of m)) = Ok tt ->
  match (encoder_open v hv m).1, zu_encoder_new reg true (Some m) with
  | Ok e, Ok e' => exists s o, e = mk_encoder (ghost v hv) (s, []) o false /\ e' = mk_encoder v s o false
  | Err st, Err st' => st = st'
  | _, _ => False
  end.
Proof.
  intros Hsz Hres Hlv. unfold encoder_open, open_handle, zu_encoder_new. cbn [negb].
  destruct (Z.ltb_spec (opts_struct_size m) ZU_ENCODER_OPTS_REQUIRED_SIZE); [lia|].
  rewrite Hres. cbn [mbind result_bind]. rewrite Hlv. cbn [result_bind].
  destruct (negb (alloc_ok req_encoder)); [done|]. rewrite !traced_bind_fst.
  destruct (er_encoder_new (Erases := Her)) as (new & -> & E). set (o := encoder_opts_of _). rewrite <- E.
  destruct (hv_encoder_new hv o) as [ [s|st] ev]; cbn; [|done]. by exists s, o.
Qed.

Lemma decoder_open_new reg m :
  zu_int_check_dec_opts m = ZU_OK ->
  zu_int_resolve reg (do_codec (decoder_opts_of m)) ZU_CAN_DECODE = Ok v ->
  match (decoder_open v hv m).1, zu_decoder_new reg true (Some m) with
  | Ok d, Ok d' => exists s o, d = mk_decoder (ghost v hv) (s, []) o false 0 0 /\ d' = mk_decoder v s o false 0 0
  | Err st, Err st' => st = st'
  | _, _ => False
  end.
Proof.
  intros Hck Hres. unfold decoder_open, open_handle, zu_decoder_new. cbn [negb]. rewrite Hck.
  cbn [status_eqb]. change (negb (status_eqb ZU_OK ZU_OK)) with false. cbv iota.
  rewrite Hres. cbn [mbind result_bind].
  destruct (negb (alloc_ok req_decoder)); [done|]. rewrite !traced_bind_fst.
  destruct (er_decoder_new (Erases := Her)) as (new & -> & E). set (o := decoder_opts_of _). rewrite <- E.
  destruct (hv_decoder_new hv o) as [ [s|st] ev]; cbn; [|done]. by exists s, o.
Qed.

End laws.
