(* ===== verification/CodecLifetimes.v ===== *)
(** * What each codec allocates and frees

    The constructors, resets, process functions and [*_free] callbacks of the codecs, with
    their traces; that without the traces they are the definitions of Deflate.v, Zstd.v,
    Lz4.v, Lz4Block.v, Identity.v and Xor5a.v; and that every handle's blocks are freed
    exactly once, whatever was called between. *)
From stdpp Require Import gmap.
From S2P Require Import Prelude Types SizeArith ProcessLoop Registry Stream StreamProps Identity GzipHeader Deflate Frames FramedDecoder.
From S2P Require Import Zstd ZstdProps Lz4 Lz4Props Lz4Block Lz4BlockProps Builtins Xor5a Lifetimes.

(** ** DEFLATE *)

Section deflate.
Context {mz : Miniz} {alloc : Allocator}.

Definition deflate_owns (s : deflate_state) : gset block := owned (df_mz_live s) false false false false.

(** A stream [mz_deflateInit2] refused has no internals. *)
Definition deflate_new_t (wrap : wrap_kind) (encoder : bool) (level dec_flags : Z) :
    traced (result deflate_state) :=
  if negb (alloc_ok req_state) then mret (Err ZU_ERR_MEMORY)
  else
    _ ← tell [get bl_state];
    let l := if level =? ZU_LEVEL_DEFAULT then MZ_DEFAULT_LEVEL else level in
    let r := (if encoder then mz_deflateInit2 mz_stream_zero l else mz_inflateInit2 mz_stream_zero).1 in
    if negb (r =? MZ_OK)
    then _ ← tell [put bl_state]; mret (Err (zu_int_from_mz r))
    else _ ← tell [get bl_mz]; mret (zu_int_deflate_new wrap encoder level dec_flags).

Definition deflate_free (s : deflate_state) : list event :=
  (if df_mz_live s then [put bl_mz] else []) ++ [put bl_state].

(** [mz_deflateEnd] does nothing to a stream that has no internals. *)
Definition deflate_reset_t (s : deflate_state) (level : Z) : traced (zu_status * deflate_state) :=
  let want := deflate_want s level in
  if df_encoder s && negb (want =? df_level s)
  then
    _ ← tell (if df_mz_live s then [put bl_mz] else []);
    _ ← tell (if (mz_deflateInit2 mz_stream_zero want).1 =? MZ_OK then [get bl_mz] else []);
    mret (zu_int_deflate_reset s level)
  else mret (zu_int_deflate_reset s level).

(** The status of the miniz call a constructor makes. *)
Definition deflate_init (encoder : bool) (level : Z) : Z :=
  let l := if level =? ZU_LEVEL_DEFAULT then MZ_DEFAULT_LEVEL else level in
  (if encoder then mz_deflateInit2 mz_stream_zero l else mz_inflateInit2 mz_stream_zero).1.

Lemma deflate_new_cases wrap encoder level flags :
  match zu_int_deflate_new wrap encoder level flags with
  | Ok s => alloc_ok req_state = true /\ deflate_init encoder level = MZ_OK /\ df_mz_live s = true
  | Err st => alloc_ok req_state = false /\ st = ZU_ERR_MEMORY \/
      alloc_ok req_state = true /\ deflate_init encoder level <> MZ_OK /\
      st = zu_int_from_mz (deflate_init encoder level)
  end.
Proof.
  unfold zu_int_deflate_new, deflate_init. destruct (alloc_ok req_state); cbn [negb]; [|by left].
  cbv zeta. destruct (if encoder then _ else _) as [r m]. cbn [fst].
  destruct (Z.eqb_spec r MZ_OK); cbn [negb]; [by destruct wrap|by right].
Qed.

Lemma deflate_new_erases wrap encoder level flags :
  (deflate_new_t wrap encoder level flags).1 = zu_int_deflate_new wrap encoder level flags.
Proof.
  unfold deflate_new_t. pose proof (deflate_new_cases wrap encoder level flags) as H.
  fold (deflate_init encoder level). revert H.
  destruct (zu_int_deflate_new _ _ _ _) as [s|st]; [by intros (-> & -> & _)|].
  intros [ [-> ->] |(-> & Hne & ->)]; [done|]. cbn [negb]. rewrite traced_bind_fst.
  by destruct (Z.eqb_spec (deflate_init encoder level) MZ_OK).
Qed.

Lemma deflate_new_accounted wrap encoder level flags :
  new_accounted deflate_owns (fun _ => True) (deflate_new_t wrap encoder level flags).
Proof.
  unfold new_accounted, deflate_new_t. pose proof (deflate_new_cases wrap encoder level flags) as H.
  fold (deflate_init encoder level). revert H.
  destruct (zu_int_deflate_new _ _ _ _) as [s|st];
    [intros (-> & -> & Hs)|intros [ [-> ->] |(-> & Hne & ->)] ]; cbn [negb]; cbv zeta.
  - unfold deflate_owns. cbn -[life owned]. rewrite Hs. split; [by vm_compute|done].
  - by vm_compute.
  - destruct (Z.eqb_spec (deflate_init encoder level) MZ_OK); [done|]. by vm_compute.
Qed.

Lemma rearm_live s : df_mz_live (deflate_rearm s) = df_mz_live s.
Proof. unfold deflate_rearm. cbv zeta. cbn. by destruct (df_wrap s), (df_encoder s). Qed.

Lemma deflate_reset_live s level :
  df_mz_live (zu_int_deflate_reset s level).2 =
    if df_encoder s && negb (deflate_want s level =? df_level s)
    then (mz_deflateInit2 mz_stream_zero (deflate_want s level)).1 =? MZ_OK else df_mz_live s.
Proof.
  unfold zu_int_deflate_reset, deflate_restart. cbv zeta. destruct (df_encoder s && _).
  - destruct (mz_deflateInit2 _ _) as [r m]. cbn [fst]. destruct (r =? MZ_OK); [apply rearm_live|done].
  - destruct (if df_encoder s then _ else _) as [r m].
    destruct (negb (r =? MZ_OK)); [done|]. etrans; [apply rearm_live|done].
Qed.

Lemma deflate_reset_erases s level : (deflate_reset_t s level).1 = zu_int_deflate_reset s level.
Proof. unfold deflate_reset_t. cbv zeta. destruct (_ && _); [|done]. by rewrite !traced_bind_fst. Qed.

Lemma next_member_live s b held : df_encoder s = false ->
  df_mz_live (deflate_next_member s b held).1.2 = df_mz_live s.
Proof.
  intros He. unfold deflate_next_member. pose proof (deflate_reset_live s ZU_LEVEL_DEFAULT) as E.
  rewrite He in E. cbn [andb] in E. destruct (zu_int_deflate_reset s ZU_LEVEL_DEFAULT) as [st s']. cbn [snd] in E.
  destruct st; try done. destruct held; [|done].
  destruct (zu_int_gzip_header_feed _ _) as [ [rs gz] d]. by destruct rs.
Qed.

Lemma deflate_round_live f s b : df_mz_live (deflate_round s b f).1.2 = df_mz_live s.
Proof.
  unfold deflate_round. destruct (df_state s); [|..|done].
  - unfold deflate_header. repeat split_if; try done.
    + destruct (zu_int_gzip_header_feed _ _) as [ [hs gz] d]. by destruct hs, d.
    + by destruct (zu_int_zlib_check_header _).
  - unfold deflate_body, deflate_body_end. cbv zeta. split_if; [done|].
    assert (E : forall s0 t g, df_mz_live (deflate_account s0 t g) = df_mz_live s0).
    { intros. unfold deflate_account. by destruct (is_wrapped _). }
    repeat split_if; cbn [fst snd df_mz_live df_set_state df_set_tail]; by rewrite E.
  - unfold deflate_trailer. repeat split_if; done.
  - unfold deflate_member_end. cbv zeta. destruct (df_encoder s) eqn:He.
    + rewrite !andb_false_r. cbn [negb orb andb]. repeat split_if; done.
    + repeat split_if; try done; by apply next_member_live.
Qed.

Lemma deflate_process_live s b f : df_mz_live (deflate_process s b f).1.2 = df_mz_live s.
Proof. apply (run_process_field df_mz_live). intros. apply deflate_round_live. Qed.

Lemma deflate_reset_accounted s level :
  accounted deflate_owns (fun _ => True) s (deflate_reset_t s level) snd.
Proof.
  pose proof (deflate_reset_live s level) as E. rewrite <- deflate_reset_erases in E.
  unfold accounted, deflate_owns. rewrite E. split; [|done].
  unfold deflate_reset_t. cbv zeta. destruct (df_encoder s && _); rewrite ?traced_bind_snd.
  - cbn [tell snd mret traced_ret]. rewrite !app_nil_r.
    generalize ((mz_deflateInit2 mz_stream_zero (deflate_want s level)).1 =? MZ_OK), (df_mz_live s).
    intros i l. life_cases.
  - done.
Qed.

Lemma deflate_free_accounted s : life (deflate_owns s) (deflate_free s) = Some {[bl_handle]}.
Proof. unfold deflate_owns, deflate_free. generalize (df_mz_live s). intros l. life_cases. Qed.

Lemma deflate_process_accounted s b f :
  accounted deflate_owns (fun _ => True) s (mret (deflate_process s b f)) (fun r => r.1.2).
Proof. apply accounted_ret; [|done]. unfold deflate_owns. by rewrite deflate_process_live. Qed.

(** The three vtables differ in the wrapper. *)
Definition deflate_raw_view : heap_view zu_int_codec_deflate_raw :=
  mk_view (v := zu_int_codec_deflate_raw) deflate_owns (fun _ => True)
    (fun o => deflate_new_t WRAP_NONE true (eo_level o) 0)
    (fun s b f => mret (deflate_process s b f)) (fun s o => deflate_reset_t s (eo_level o)) deflate_free
    (fun o => deflate_new_t WRAP_NONE false ZU_LEVEL_DEFAULT (do_flags o))
    (fun s b f => mret (deflate_process s b f))
    (fun s o => deflate_reset_t (df_set_dec_flags s (do_flags o)) ZU_LEVEL_DEFAULT) deflate_free.

Definition zlib_view : heap_view zu_int_codec_zlib :=
  mk_view (v := zu_int_codec_zlib) deflate_owns (fun _ => True)
    (fun o => deflate_new_t WRAP_ZLIB true (eo_level o) 0)
    (fun s b f => mret (deflate_process s b f)) (fun s o => deflate_reset_t s (eo_level o)) deflate_free
    (fun o => deflate_new_t WRAP_ZLIB false ZU_LEVEL_DEFAULT (do_flags o))
    (fun s b f => mret (deflate_process s b f))
    (fun s o => deflate_reset_t (df_set_dec_flags s (do_flags o)) ZU_LEVEL_DEFAULT) deflate_free.

Definition gzip_view : heap_view zu_int_codec_gzip :=
  mk_view (v := zu_int_codec_gzip) deflate_owns (fun _ => True)
    (fun o => deflate_new_t WRAP_GZIP true (eo_level o) 0)
    (fun s b f => mret (deflate_process s b f)) (fun s o => deflate_reset_t s (eo_level o)) deflate_free
    (fun o => deflate_new_t WRAP_GZIP false ZU_LEVEL_DEFAULT (do_flags o))
    (fun s b f => mret (deflate_process s b f))
    (fun s o => deflate_reset_t (df_set_dec_flags s (do_flags o)) ZU_LEVEL_DEFAULT) deflate_free.

Ltac deflate_erases :=
  constructor; try done; eexists; (split; [reflexivity|]); intros;
  first [apply deflate_new_erases|apply deflate_reset_erases|done].

#[export] Instance deflate_raw_erases : Erases zu_int_codec_deflate_raw deflate_raw_view.
Proof. deflate_erases. Qed.
#[export] Instance zlib_erases : Erases zu_int_codec_zlib zlib_view.
Proof. deflate_erases. Qed.
#[export] Instance gzip_erases : Erases zu_int_codec_gzip gzip_view.
Proof. deflate_erases. Qed.

Ltac deflate_balances :=
  constructor; intros;
  first [ apply deflate_new_accounted | apply deflate_process_accounted | apply deflate_free_accounted
        | apply deflate_reset_accounted | apply (deflate_reset_accounted (df_set_dec_flags _ _)) ].

#[export] Instance deflate_raw_balances : Balances zu_int_codec_deflate_raw deflate_raw_view.
Proof. deflate_balances. Qed.
#[export] Instance zlib_balances : Balances zu_int_codec_zlib zlib_view.
Proof. deflate_balances. Qed.
#[export] Instance gzip_balances : Balances zu_int_codec_gzip gzip_view.
Proof. deflate_balances. Qed.

End deflate.

(** ** zstd *)

Section zstd.
Context {zstd : Zstd} {alloc : Allocator}.

Definition zstd_owns (s : zstd_state) : gset block :=
  owned false (bool_decide (is_Some (zs_cctx s))) (bool_decide (is_Some (zs_dctx s))) false false.

(** [ZSTD_freeCCtx] and [ZSTD_freeDCtx] accept NULL. *)
Definition zstd_free (s : zstd_state) : list event :=
  (if bool_decide (is_Some (zs_cctx s)) then [put bl_cctx] else []) ++
  (if bool_decide (is_Some (zs_dctx s)) then [put bl_dctx] else []) ++ [put bl_state].

(** [r] is what the constructor returns: an error past the context's creation comes from
    the parameters set on it. *)
Definition zstd_new_t (ctx : block) (r : result zstd_state) : traced (result zstd_state) :=
  if negb (alloc_ok req_state) then mret (Err ZU_ERR_MEMORY)
  else
    _ ← tell [get bl_state];
    if negb (alloc_ok req_library) then _ ← tell [put bl_state]; mret (Err ZU_ERR_MEMORY)
    else
      _ ← tell [get ctx];
      match r with
      | Ok s => mret (Ok s)
      | Err st => _ ← tell [put ctx; put bl_state]; mret (Err st)
      end.

Definition zstd_encoder_new_t (o : zu_encoder_opts) : traced (result zstd_state) :=
  zstd_new_t bl_cctx (zstd_encoder_new o).
Definition zstd_decoder_new_t (o : zu_decoder_opts) : traced (result zstd_state) :=
  zstd_new_t bl_dctx (zstd_decoder_new o).

Lemma zstd_new_erases ctx (r : result zstd_state) :
  (alloc_ok req_state = false -> r = Err ZU_ERR_MEMORY) ->
  (alloc_ok req_library = false -> r = Err ZU_ERR_MEMORY) -> (zstd_new_t ctx r).1 = r.
Proof.
  intros H1 H2. unfold zstd_new_t. destruct (alloc_ok req_state); [|by rewrite H1].
  cbn [negb]. rewrite traced_bind_fst. destruct (alloc_ok req_library); [|by rewrite H2].
  by destruct r.
Qed.

Lemma zstd_encoder_new_erases o : (zstd_encoder_new_t o).1 = zstd_encoder_new o.
Proof.
  apply zstd_new_erases; unfold zstd_encoder_new; [by intros ->|].
  by destruct (alloc_ok req_state); intros ->.
Qed.

Lemma zstd_decoder_new_erases o : (zstd_decoder_new_t o).1 = zstd_decoder_new o.
Proof.
  apply zstd_new_erases; unfold zstd_decoder_new; [by intros ->|].
  by destruct (alloc_ok req_state); intros ->.
Qed.

(** The contexts a call leaves are those it found. *)
Definition zstd_same (s s' : zstd_state) : Prop :=
  (is_Some (zs_cctx s') <-> is_Some (zs_cctx s)) /\ (is_Some (zs_dctx s') <-> is_Some (zs_dctx s)).

Lemma zstd_same_owns s s' : zstd_same s s' -> zstd_owns s' = zstd_owns s.
Proof. intros [H1 H2]. unfold zstd_owns. f_equal; by apply bool_decide_ext. Qed.

Lemma zstd_same_trans s s1 s2 : zstd_same s s1 -> zstd_same s1 s2 -> zstd_same s s2.
Proof. unfold zstd_same. tauto. Qed.

Lemma set_cctx_same s c level : is_Some (zs_cctx s) -> zstd_same s (zs_set_cctx s c level).
Proof. by intros []. Qed.

Lemma set_dctx_same s d f : is_Some (zs_dctx s) -> zstd_same s (zs_set_dctx s d f).
Proof. by intros []. Qed.

Lemma zstd_level_cctx s c level :
  zs_cctx s <> None -> zstd_same s (zu_int_zstd_level s c level).2.
Proof.
  intros Hc%not_eq_None_Some. unfold zu_int_zstd_level. destruct (ZSTD_CCtx_setParameter _ _ _) as [r c'].
  destruct (ZSTD_isError r); by apply set_cctx_same.
Qed.

Lemma zstd_new_accounted ctx r s0 :
  (ctx = bl_cctx /\ zstd_owns s0 = owned false true false false false \/
   ctx = bl_dctx /\ zstd_owns s0 = owned false false true false false) ->
  (forall s, r = Ok s -> zstd_owns s = zstd_owns s0) ->
  new_accounted zstd_owns (fun _ => True) (zstd_new_t ctx r).
Proof.
  intros Hctx Hr. unfold new_accounted, zstd_new_t.
  destruct (alloc_ok req_state); [|by vm_compute]. cbn [negb].
  destruct (alloc_ok req_library); [|by vm_compute]. cbn [negb].
  destruct r as [s|st]; cbn -[life owned zstd_owns].
  - rewrite (Hr s) by done. split; [|done]. by destruct Hctx as [ [-> ->] | [-> ->] ]; vm_compute.
  - by destruct Hctx as [ [-> _] | [-> _] ]; vm_compute.
Qed.

Lemma zstd_encoder_new_owns o s : zstd_encoder_new o = Ok s -> zstd_owns s = owned false true false false false.
Proof.
  unfold zstd_encoder_new. destruct (negb _); [done|]. destruct (negb _); [done|]. cbv zeta.
  set (s0 := mk_zstd _ _ _ _ _ _ _). pose proof (zstd_level_cctx s0 ZSTD_createCCtx (eo_level o) ltac:(done)) as H.
  destruct (zu_int_zstd_level _ _ _) as [st s1]. cbn [snd] in H. destruct st; try done.
  destruct (ZSTD_CCtx_setParameter _ _ _) as [r c]. destruct (ZSTD_isError r); [done|]. intros [= <-].
  transitivity (zstd_owns s0); [|done]. apply zstd_same_owns.
  eapply zstd_same_trans; [exact H|]. apply set_cctx_same. destruct H as [H _]. by apply H.
Qed.

Lemma zstd_decoder_new_owns o s : zstd_decoder_new o = Ok s -> zstd_owns s = owned false false true false false.
Proof.
  unfold zstd_decoder_new. destruct (negb _); [done|]. destruct (negb _); [done|]. cbv zeta.
  unfold zu_int_zstd_window. destruct (ZSTD_DCtx_setParameter _ _ _) as [r d].
  destruct (ZSTD_isError r); [done|]. by intros [= <-].
Qed.

Lemma zstd_encoder_reset_same s o : zstd_same s (zstd_encoder_reset s o).2.
Proof.
  unfold zstd_encoder_reset. destruct (zs_cctx s) as [c|] eqn:Ec; [|by split].
  destruct (ZSTD_CCtx_reset _ _) as [r c']. cbv zeta.
  assert (H0 : zstd_same s (zs_set_cctx s c' (zs_level s))) by (apply set_cctx_same; by rewrite Ec).
  destruct (ZSTD_isError r); [done|]. destruct (_ && _); [|done].
  pose proof (zstd_level_cctx (zs_set_cctx s c' (zs_level s)) c' (eo_level o) ltac:(done)) as H1.
  destruct (zu_int_zstd_level _ _ _) as [rs s1]. cbn [snd] in H1.
  destruct rs; by apply (zstd_same_trans _ _ _ H0).
Qed.

Lemma zstd_decoder_reset_same s o : zstd_same s (zstd_decoder_reset s o).2.
Proof.
  unfold zstd_decoder_reset. destruct (zs_dctx s) as [d|] eqn:Ed; [|by split].
  destruct (ZSTD_DCtx_reset _ _) as [r d']. unfold zu_int_zstd_window. cbv zeta.
  assert (Hd : is_Some (zs_dctx s)) by (by rewrite Ed).
  destruct (ZSTD_isError r); [by apply set_dctx_same|].
  destruct (ZSTD_DCtx_setParameter _ _ _) as [r' d'']. cbn [snd]. by split; cbn.
Qed.

Lemma zstd_encoder_process_owns s b f : zstd_owns (zstd_encoder_process s b f).1.2 = zstd_owns s.
Proof.
  unfold zstd_encoder_process. destruct (zs_done s); [done|]. apply run_process_field. clear s b. intros s b.
  unfold zstd_encoder_round. destruct (zs_cctx s) as [c|] eqn:Ec; [|done]. cbv zeta.
  assert (H : forall c' l, zstd_owns (zs_set_cctx s c' l) = zstd_owns s).
  { intros. apply zstd_same_owns, set_cctx_same. by rewrite Ec. }
  repeat split_if; cbn [fst snd]; apply H.
Qed.

Lemma zstd_decoder_process_owns s b f : zstd_owns (zstd_decoder_process s b f).1.2 = zstd_owns s.
Proof.
  unfold zstd_decoder_process. destruct (zs_dctx s) as [d|] eqn:Ed; [|done].
  destruct (framed_process _ _ _ _ _) as [ [st [f' d'] ] b']. cbn [fst snd].
  apply zstd_same_owns, set_dctx_same. by rewrite Ed.
Qed.

Lemma zstd_free_accounted s : life (zstd_owns s) (zstd_free s) = Some {[bl_handle]}.
Proof.
  unfold zstd_owns, zstd_free. generalize (bool_decide (is_Some (zs_cctx s))), (bool_decide (is_Some (zs_dctx s))).
  intros c d. life_cases.
Qed.

Definition zstd_view : heap_view zu_int_codec_zstd :=
  mk_view (v := zu_int_codec_zstd) zstd_owns (fun _ => True)
    zstd_encoder_new_t (fun s b f => mret (zstd_encoder_process s b f))
    (fun s o => mret (zstd_encoder_reset s o)) zstd_free
    zstd_decoder_new_t (fun s b f => mret (zstd_decoder_process s b f))
    (fun s o => mret (zstd_decoder_reset s o)) zstd_free.

#[export] Instance zstd_erases : Erases zu_int_codec_zstd zstd_view.
Proof.
  constructor; try done; eexists; (split; [reflexivity|]); intros;
    first [apply zstd_encoder_new_erases|apply zstd_decoder_new_erases|done].
Qed.

#[export] Instance zstd_balances : Balances zu_int_codec_zstd zstd_view.
Proof.
  constructor; intros.
  - apply zstd_new_accounted with (mk_zstd true (Some ZSTD_createCCtx) None 0 0 frames_zero false);
      [by left|apply zstd_encoder_new_owns].
  - apply accounted_ret; [apply zstd_encoder_process_owns|done].
  - apply accounted_ret; [apply zstd_same_owns, zstd_encoder_reset_same|done].
  - apply zstd_free_accounted.
  - apply zstd_new_accounted with (mk_zstd false None (Some ZSTD_createDCtx) 0 0 frames_zero false);
      [by right|apply zstd_decoder_new_owns].
  - apply accounted_ret; [apply zstd_decoder_process_owns|done].
  - apply accounted_ret; [apply zstd_same_owns, zstd_decoder_reset_same|done].
  - apply zstd_free_accounted.
Qed.

End zstd.

(** ** LZ4 *)

Section lz4.
Context {lz4 : Lz4} {alloc : Allocator}.

(** A buffer's pointer is set when its capacity is not zero. *)
Definition has_cctx (s : lz4_state) : bool := bool_decide (is_Some (lz_cctx s)).
Definition has_dctx (s : lz4_state) : bool := bool_decide (is_Some (lz_dctx s)).
Definition has_stage (s : lz4_state) : bool := negb (lz_stage_cap s =? 0).
Definition has_in (s : lz4_state) : bool := negb (lz_in_cap s =? 0).

Definition lz4_owns (s : lz4_state) : gset block :=
  owned false (has_cctx s) (has_dctx s) (has_stage s) (has_in s).

Definition lz4_free (s : lz4_state) : list event :=
  (if has_cctx s then [put bl_cctx] else []) ++ (if has_dctx s then [put bl_dctx] else []) ++
  (if has_stage s then [put bl_stage] else []) ++ (if has_in s then [put bl_in] else []) ++ [put bl_state].

(** [realloc] that succeeds, of a pointer that may be NULL. *)
Definition realloc_events (set : bool) (b : block) : list event := (if set then [put b] else []) ++ [get b].

Lemma lz4_free_accounted s : life (lz4_owns s) (lz4_free s) = Some {[bl_handle]}.
Proof.
  unfold lz4_owns, lz4_free. generalize (has_cctx s), (has_dctx s), (has_stage s), (has_in s).
  intros c d st i. life_cases.
Qed.

(** *** lz4-frame *)

Definition lz4f_encoder_new_t (o : zu_encoder_opts) : traced (result lz4_state) :=
  if negb (alloc_ok req_state) then mret (Err ZU_ERR_MEMORY)
  else
    _ ← tell [get bl_state];
    let s := lz4_state_zero true (eo_level o) in
    let prefs := zu_int_lz4f_prefs s in
    let '(r, c) := LZ4F_createCompressionContext in
    if LZ4F_isError r then _ ← tell (lz4_free s); mret (Err ZU_ERR_MEMORY)
    else
      _ ← tell [get bl_cctx];
      let s := lz_set_frame s (Some c) prefs false false in
      let cap := LZ4F_compressBound ZU_INT_LZ4F_CHUNK prefs in
      let cap := if cap <? LZ4F_HEADER_SIZE_MAX then LZ4F_HEADER_SIZE_MAX else cap in
      if negb (alloc_ok (req_bytes cap)) then _ ← tell (lz4_free s); mret (Err ZU_ERR_MEMORY)
      else _ ← tell [get bl_stage]; mret (Ok (lz_set_stage s (replicate (Z.to_nat cap) 0) cap 0 0)).

Definition lz4f_decoder_new_t (o : zu_decoder_opts) : traced (result lz4_state) :=
  if negb (alloc_ok req_state) then mret (Err ZU_ERR_MEMORY)
  else
    _ ← tell [get bl_state];
    let s := lz4_state_zero false 0 in
    let '(r, d) := LZ4F_createDecompressionContext in
    if LZ4F_isError r then _ ← tell (lz4_free s); mret (Err ZU_ERR_MEMORY)
    else _ ← tell [get bl_dctx];
      mret (Ok (lz_set_dctx s d (zu_int_frames_init ZU_INT_FRAMES_LZ4 (do_flags o)))).

Lemma lz4f_encoder_new_erases o : (lz4f_encoder_new_t o).1 = lz4f_encoder_new o.
Proof.
  unfold lz4f_encoder_new_t, lz4f_encoder_new. destruct (negb (alloc_ok req_state)); [done|].
  rewrite traced_bind_fst. cbv zeta. destruct LZ4F_createCompressionContext as [r c].
  destruct (LZ4F_isError r); [done|]. rewrite traced_bind_fst. by destruct (negb _).
Qed.

Lemma lz4f_decoder_new_erases o : (lz4f_decoder_new_t o).1 = lz4f_decoder_new o.
Proof.
  unfold lz4f_decoder_new_t, lz4f_decoder_new. destruct (negb (alloc_ok req_state)); [done|].
  rewrite traced_bind_fst. cbv zeta. destruct LZ4F_createDecompressionContext as [r c].
  by destruct (LZ4F_isError r).
Qed.

(** The stage is never empty: a frame header fits. *)
Lemma lz4f_encoder_new_accounted o :
  new_accounted lz4_owns (fun _ => True) (lz4f_encoder_new_t o).
Proof.
  unfold new_accounted, lz4f_encoder_new_t. destruct (negb (alloc_ok req_state)); [by vm_compute|].
  cbv zeta. destruct LZ4F_createCompressionContext as [r c]. destruct (LZ4F_isError r); [by vm_compute|].
  set (cap := if _ <? _ then _ else _).
  assert (Hcap : LZ4F_HEADER_SIZE_MAX <= cap).
  { subst cap. destruct (Z.ltb_spec (LZ4F_compressBound ZU_INT_LZ4F_CHUNK
      (zu_int_lz4f_prefs (lz4_state_zero true (eo_level o)))) LZ4F_HEADER_SIZE_MAX); lia. }
  clearbody cap. destruct (negb _); [by vm_compute|]. cbn -[life lz4_owns].
  split; [|done]. unfold lz4_owns. cbn -[life owned has_stage].
  unfold has_stage. cbn [lz_stage_cap lz_set_stage].
  unfold LZ4F_HEADER_SIZE_MAX in Hcap. destruct (Z.eqb_spec cap 0); [lia|by vm_compute].
Qed.

Lemma lz4f_decoder_new_accounted o :
  new_accounted lz4_owns (fun _ => True) (lz4f_decoder_new_t o).
Proof.
  unfold new_accounted, lz4f_decoder_new_t. destruct (negb (alloc_ok req_state)); [by vm_compute|].
  cbv zeta. destruct LZ4F_createDecompressionContext as [r c]. destruct (LZ4F_isError r); [by vm_compute|].
  split; [by vm_compute|done].
Qed.

Lemma drain_owns s b : lz4_owns (zu_int_lz4_drain s b).1.2 = lz4_owns s.
Proof. unfold zu_int_lz4_drain. cbv zeta. by destruct (_ >? 0); destruct (_ =? _). Qed.

Lemma set_frame_owns s c prefs started ended :
  is_Some (lz_cctx s) -> lz4_owns (lz_set_frame s (Some c) prefs started ended) = lz4_owns s.
Proof. intros [c' E]. unfold lz4_owns, has_cctx. by rewrite E. Qed.

Lemma set_dctx_owns s d f : is_Some (lz_dctx s) -> lz4_owns (lz_set_dctx s d f) = lz4_owns s.
Proof. intros [d' E]. unfold lz4_owns, has_dctx. by rewrite E. Qed.

Lemma lz4f_encoder_round_owns sf b f : lz4_owns (lz4f_encoder_round sf b f).1.2.1 = lz4_owns sf.1.
Proof.
  unfold lz4f_encoder_round. destruct sf as [s flushed]. pose proof (drain_owns s b) as Hd.
  destruct (zu_int_lz4_drain s b) as [ [empty s1] b1]. cbn [fst snd] in *. rewrite <- Hd.
  destruct (negb empty); [done|]. destruct (lz_done s1); [done|]. destruct (lz_ended s1); [done|].
  destruct (lz_cctx s1) as [c|] eqn:Ec; [|done].
  assert (Hc : is_Some (lz_cctx s1)) by (by rewrite Ec).
  destruct (lz4f_encoder_call _ _ _ _ _) as [ [ [ [ [ [r prefs] st] en] fl] t] |]; [|done].
  destruct (LZ4F_isError _); cbv zeta; cbn [fst snd]; [by apply set_frame_owns|].
  transitivity (lz4_owns (lz_set_frame s1 (Some (lo_next r)) prefs st en)); [done|by apply set_frame_owns].
Qed.

Lemma lz4f_encoder_process_owns s b f : lz4_owns (lz4f_encoder_process s b f).1.2 = lz4_owns s.
Proof.
  unfold lz4f_encoder_process.
  pose proof (run_process_field (fun sf => lz4_owns sf.1) lz4f_encoder_round lz4f_encoder_fuel (s, false) b f
    (fun sf b => lz4f_encoder_round_owns sf b f)) as H.
  destruct (run_process _ _ _ _ _) as [ [st [s' fl] ] b']. exact H.
Qed.

Lemma lz4f_encoder_reset_owns s o : lz4_owns (lz4f_encoder_reset s o).2 = lz4_owns s.
Proof.
  unfold lz4f_encoder_reset. destruct (lz_cctx s) as [c|] eqn:Ec; [|done]. cbv zeta. cbn [snd].
  transitivity (lz4_owns (lz_set_frame s (lz_cctx s) (zu_int_lz4f_prefs s) false false)).
  - by destruct (negb _).
  - rewrite Ec. apply set_frame_owns. by rewrite Ec.
Qed.

Lemma lz4f_decoder_reset_owns s o : lz4_owns (lz4f_decoder_reset s o).2 = lz4_owns s.
Proof.
  unfold lz4f_decoder_reset. destruct (lz_dctx s) as [d|] eqn:Ed; [|done]. apply set_dctx_owns. by rewrite Ed.
Qed.

Lemma lz4f_decoder_process_owns s b f : lz4_owns (lz4f_decoder_process s b f).1.2 = lz4_owns s.
Proof.
  unfold lz4f_decoder_process. destruct (lz_dctx s) as [d|] eqn:Ed; [|done].
  destruct (framed_process _ _ _ _ _) as [ [st [f' d'] ] b']. apply set_dctx_owns. by rewrite Ed.
Qed.

Definition lz4f_view : heap_view zu_int_codec_lz4_frame :=
  mk_view (v := zu_int_codec_lz4_frame) lz4_owns (fun _ => True)
    lz4f_encoder_new_t (fun s b f => mret (lz4f_encoder_process s b f))
    (fun s o => mret (lz4f_encoder_reset s o)) lz4_free
    lz4f_decoder_new_t (fun s b f => mret (lz4f_decoder_process s b f))
    (fun s o => mret (lz4f_decoder_reset s o)) lz4_free.

#[export] Instance lz4f_erases : Erases zu_int_codec_lz4_frame lz4f_view.
Proof.
  constructor; try done; eexists; (split; [reflexivity|]); intros;
    first [apply lz4f_encoder_new_erases|apply lz4f_decoder_new_erases|done].
Qed.

#[export] Instance lz4f_balances : Balances zu_int_codec_lz4_frame lz4f_view.
Proof.
  constructor; intros; try (apply accounted_ret; [|done]).
  - apply lz4f_encoder_new_accounted.
  - apply lz4f_encoder_process_owns.
  - apply lz4f_encoder_reset_owns.
  - apply lz4_free_accounted.
  - apply lz4f_decoder_new_accounted.
  - apply lz4f_decoder_process_owns.
  - apply lz4f_decoder_reset_owns.
  - apply lz4_free_accounted.
Qed.

(** *** lz4-block *)

(** Sizes are sizes, and a capacity is zero only before the first allocation. *)
Record lz4b_sizes (s : lz4_state) : Prop := {
  bz_stage : 0 <= lz_stage_cap s;
  bz_len : 0 <= lz_in_len s <= lz_in_cap s;
  bz_cap : lz_in_cap s < 2 ^ 64;
  bz_max : lz_in_len s <= LZ4_MAX_INPUT_SIZE;
  bz_limit : 0 <= lz_max_output s < 2 ^ 64;
}.

Definition lz4b_new_t (encoder : bool) (level : Z) (d : option zu_decoder_opts) : traced (result lz4_state) :=
  if negb (alloc_ok req_state) then mret (Err ZU_ERR_MEMORY)
  else _ ← tell [get bl_state]; mret (lz4b_new encoder level d).

Definition gather_t (s : lz4_state) (buf : zu_buffer) : traced (zu_status * lz4_state * zu_buffer) :=
  let avail := avail_in buf in
  let append s :=
    (ZU_OK,
     lz_set_in s (memcpy_at (lz_in s) (lz_in_len s) (sub (src_bytes buf) (src_pos buf) avail))
       (lz_in_cap s) (lz_in_len s + avail),
     buf_consume buf avail) in
  if avail =? 0 then mret (ZU_OK, s, buf)
  else
    match zu_int_add (lz_in_len s) avail true with
    | Err st => mret (st, s, buf)
    | Ok need =>
        if need >? LZ4_MAX_INPUT_SIZE
        then mret (if lz_encoder s then ZU_ERR_INVALID_ARGUMENT else ZU_ERR_INVALID_DATA, s, buf)
        else if need >? lz_in_cap s
        then
          match zu_int_grow (lz_in_cap s) (need - lz_in_cap s) true with
          | Err st => mret (st, s, buf)
          | Ok next =>
              if negb (alloc_ok (req_bytes next)) then mret (ZU_ERR_MEMORY, s, buf)
              else
                _ ← tell (realloc_events (has_in s) bl_in);
                mret (append (lz_set_in s (realloc_bytes (lz_in s) next) next (lz_in_len s)))
          end
        else mret (append s)
    end.

Definition stage_t (s : lz4_state) (n : Z) : traced (zu_status * lz4_state) :=
  if n >? lz_stage_cap s
  then
    if negb (alloc_ok (req_bytes (if n =? 0 then 1 else n))) then mret (ZU_ERR_MEMORY, s)
    else
      _ ← tell (realloc_events (has_stage s) bl_stage);
      mret (ZU_OK, lz_set_stage s (realloc_bytes (lz_stage s) n) n (lz_stage_len s) (lz_stage_pos s))
  else mret (ZU_OK, s).

(** [free(s->in); s->in = NULL;] *)
Definition staged_t (s : lz4_state) (stage : bytes) (len : Z) (buf : zu_buffer) :
    traced (zu_status * lz4_state * zu_buffer) :=
  _ ← tell (if has_in s then [put bl_in] else []);
  mret (lz4b_staged s stage len buf).

Definition encoder_staged_t (s : lz4_state) (buf : zu_buffer) : traced (zu_status * lz4_state * zu_buffer) :=
  g ← gather_t s buf;
  match g with
  | (ZU_OK, s, buf) =>
      let bound := LZ4_compressBound (lz_in_len s) in
      if bound <=? 0 then mret (ZU_ERR_INVALID_ARGUMENT, s, buf)
      else
        g ← stage_t s bound;
        match g with
        | (ZU_OK, s) =>
            let '(w, out) := zu_int_lz4b_compress s (lz4b_input s) bound in
            if w <=? 0 then mret (ZU_ERR_INTERNAL, s, buf)
            else staged_t s (memcpy_at (lz_stage s) 0 out) w buf
        | (gs, s) => mret (gs, s, buf)
        end
  | r => mret r
  end.

Definition gather_only_t (s : lz4_state) (buf : zu_buffer) : traced (zu_status * lz4_state * zu_buffer) :=
  g ← gather_t s buf;
  match g with
  | (ZU_OK, s, buf) => mret (ZU_NEED_INPUT, s, buf)
  | r => mret r
  end.

(** The one-shot paths touch no block of the codec's. *)
Definition lz4b_encoder_process_t (s : lz4_state) (buf : zu_buffer) (flush : zu_flush) :
    traced (zu_status * lz4_state * zu_buffer) :=
  if lz_done s then mret (lz4b_deliver s buf)
  else if negb (is_finish flush) then gather_only_t s buf
  else
    let bound := LZ4_compressBound (avail_in buf) in
    if (lz_in_len s =? 0) && (avail_in buf <=? LZ4_MAX_INPUT_SIZE) && (bound >? 0) &&
       (avail_out buf >=? bound)
    then mret (lz4b_encoder_process s buf flush)
    else encoder_staged_t s buf.

Fixpoint search_loop_t (fuel : nat) (s : lz4_state) (ceiling : Z) (limited : bool) (cap : Z) :
    traced (option (result Z * lz4_state)) :=
  match fuel with
  | O => mret None
  | S fuel' =>
      g ← stage_t s cap;
      match g with
      | (ZU_OK, s) =>
          let '(r, out) := LZ4_decompress_safe (lz4b_input s) cap in
          if r >=? 0
          then mret (Some (Ok r, lz_set_stage s (memcpy_at (lz_stage s) 0 out) (lz_stage_cap s)
                             (lz_stage_len s) (lz_stage_pos s)))
          else
            let '(p, part) := LZ4_decompress_safe_partial (lz4b_input s) cap cap in
            let s := lz_set_stage s (memcpy_at (lz_stage s) 0 part) (lz_stage_cap s)
                       (lz_stage_len s) (lz_stage_pos s) in
            if (p <? 0) || (p <? cap) then mret (Some (Err ZU_ERR_INVALID_DATA, s))
            else if cap >=? ceiling
            then mret (Some (Err (if limited then ZU_ERR_OUTPUT_LIMIT else ZU_ERR_INVALID_DATA), s))
            else search_loop_t fuel' s ceiling limited (if cap >? ceiling / 4 then ceiling else cap * 4)
      | (st, s) => mret (Some (Err st, s))
      end
  end.

Definition search_t (s : lz4_state) : traced (result Z * lz4_state) :=
  let '(ceiling, limited) := lz4b_ceiling (lz_in_len s) (lz_max_output s) in
  r ← search_loop_t lz4b_search_fuel s ceiling limited (lz4b_first_cap (lz_in_len s) ceiling);
  mret (default (Err ZU_ERR_INTERNAL, s) r).

Definition decoder_expected_t (s : lz4_state) (buf : zu_buffer) (want : Z) :
    traced (zu_status * lz4_state * zu_buffer) :=
  g ← gather_t s buf;
  match g with
  | (ZU_OK, s, buf) =>
      if lz_in_len s =? 0 then mret (ZU_ERR_INVALID_DATA, s, buf)
      else
        g ← stage_t s want;
        match g with
        | (ZU_OK, s) =>
            let '(r, out) := LZ4_decompress_safe (lz4b_input s) want in
            if (r <? 0) || negb (r =? want) then mret (ZU_ERR_INVALID_DATA, s, buf)
            else staged_t s (memcpy_at (lz_stage s) 0 out) want buf
        | (gs, s) => mret (gs, s, buf)
        end
  | r => mret r
  end.

Definition decoder_unknown_t (s : lz4_state) (buf : zu_buffer) : traced (zu_status * lz4_state * zu_buffer) :=
  g ← gather_t s buf;
  match g with
  | (ZU_OK, s, buf) =>
      if lz_in_len s =? 0 then mret (ZU_ERR_INVALID_DATA, s, buf)
      else
        g ← search_t s;
        match g with
        | (Ok got, s) => staged_t s (lz_stage s) got buf
        | (Err gs, s) => mret (gs, s, buf)
        end
  | r => mret r
  end.

Definition lz4b_decoder_process_t (s : lz4_state) (buf : zu_buffer) (flush : zu_flush) :
    traced (zu_status * lz4_state * zu_buffer) :=
  if lz_done s then mret (lz4b_deliver s buf)
  else if negb (is_finish flush) then gather_only_t s buf
  else if lz_has_expected s
  then
    if negb (lz_max_output s =? 0) && (lz_expected s >? lz_max_output s)
    then mret (ZU_ERR_OUTPUT_LIMIT, s, buf)
    else if lz_expected s >? INT_MAX then mret (ZU_ERR_INVALID_DATA, s, buf)
    else if (lz_in_len s =? 0) && (avail_out buf >=? lz_expected s)
    then mret (lz4b_decoder_process s buf flush)
    else decoder_expected_t s buf (lz_expected s)
  else decoder_unknown_t s buf.

Lemma gather_erases s b : (gather_t s b).1 = zu_int_lz4b_gather s b.
Proof.
  unfold gather_t, zu_int_lz4b_gather. cbv zeta. split_if; [done|].
  destruct (zu_int_add _ _ _); [|done]. repeat split_if; try done.
  destruct (zu_int_grow _ _ _); [|done]. by split_if.
Qed.

Lemma stage_erases s n : (stage_t s n).1 = zu_int_lz4b_stage s n.
Proof. unfold stage_t, zu_int_lz4b_stage. by destruct (n >? _); [destruct (negb (alloc_ok _))|]. Qed.

Lemma staged_erases s stage len b : (staged_t s stage len b).1 = lz4b_staged s stage len b.
Proof. unfold staged_t. by rewrite traced_bind_fst. Qed.

Lemma gather_only_erases s b :
  (gather_only_t s b).1 =
    match zu_int_lz4b_gather s b with (ZU_OK, s, buf) => (ZU_NEED_INPUT, s, buf) | r => r end.
Proof.
  unfold gather_only_t. rewrite traced_bind_fst, gather_erases.
  by destruct (zu_int_lz4b_gather s b) as [ [ [] ?] ?].
Qed.

Lemma encoder_staged_erases s b : (encoder_staged_t s b).1 = lz4b_encoder_staged s b.
Proof.
  unfold encoder_staged_t, lz4b_encoder_staged. rewrite traced_bind_fst, gather_erases.
  destruct (zu_int_lz4b_gather s b) as [ [ [] s1] b1]; try done. cbv zeta. split_if; [done|].
  rewrite traced_bind_fst, stage_erases. destruct (zu_int_lz4b_stage _ _) as [ [] s2]; try done.
  destruct (zu_int_lz4b_compress _ _ _) as [w out]. split_if; [done|apply staged_erases].
Qed.

Lemma lz4b_encoder_process_erases s b f : (lz4b_encoder_process_t s b f).1 = lz4b_encoder_process s b f.
Proof.
  unfold lz4b_encoder_process_t, lz4b_encoder_process. destruct (lz_done s); [done|].
  destruct (negb _); [apply gather_only_erases|]. cbv zeta. destruct (_ && _); [done|].
  apply encoder_staged_erases.
Qed.

Lemma search_loop_erases ceiling limited : forall fuel s cap,
  (search_loop_t fuel s ceiling limited cap).1 = lz4b_search_loop fuel s ceiling limited cap.
Proof.
  induction fuel as [|fuel IH]; intros s cap; [done|]. cbn [search_loop_t lz4b_search_loop].
  rewrite traced_bind_fst, stage_erases. destruct (zu_int_lz4b_stage _ _) as [ [] s1]; try done.
  destruct (LZ4_decompress_safe _ _) as [r out]. split_if; [done|].
  destruct (LZ4_decompress_safe_partial _ _ _) as [p part]. cbv zeta.
  split_if; [done|]. split_if; [done|]. apply IH.
Qed.

Lemma search_erases s : (search_t s).1 = zu_int_lz4b_search s.
Proof.
  unfold search_t, zu_int_lz4b_search. destruct (lz4b_ceiling _ _) as [ceiling limited].
  by rewrite traced_bind_fst, search_loop_erases.
Qed.

Lemma decoder_expected_erases s b want : (decoder_expected_t s b want).1 = lz4b_decoder_expected s b want.
Proof.
  unfold decoder_expected_t, lz4b_decoder_expected. rewrite traced_bind_fst, gather_erases.
  destruct (zu_int_lz4b_gather s b) as [ [ [] s1] b1]; try done. split_if; [done|].
  rewrite traced_bind_fst, stage_erases. destruct (zu_int_lz4b_stage _ _) as [ [] s2]; try done.
  destruct (LZ4_decompress_safe _ _) as [r out]. split_if; [done|apply staged_erases].
Qed.

Lemma decoder_unknown_erases s b : (decoder_unknown_t s b).1 = lz4b_decoder_unknown s b.
Proof.
  unfold decoder_unknown_t, lz4b_decoder_unknown. rewrite traced_bind_fst, gather_erases.
  destruct (zu_int_lz4b_gather s b) as [ [ [] s1] b1]; try done. split_if; [done|].
  rewrite traced_bind_fst, search_erases. destruct (zu_int_lz4b_search _) as [ [got|gs] s2]; [|done].
  apply staged_erases.
Qed.

Lemma lz4b_decoder_process_erases s b f : (lz4b_decoder_process_t s b f).1 = lz4b_decoder_process s b f.
Proof.
  unfold lz4b_decoder_process_t, lz4b_decoder_process. destruct (lz_done s); [done|].
  destruct (negb (is_finish f)); [apply gather_only_erases|].
  destruct (lz_has_expected s); [|apply decoder_unknown_erases].
  destruct (negb (lz_max_output s =? 0) && _); [done|]. destruct (_ >? INT_MAX); [done|]. cbv zeta.
  destruct ((lz_in_len s =? 0) && _); [done|apply decoder_expected_erases].
Qed.

(** Growing a buffer leaves it live, and no other block touched. *)
Lemma realloc_stage_life c d st i : life (owned false c d st i) (realloc_events st bl_stage) = Some (owned false c d true i).
Proof. unfold realloc_events. life_cases. Qed.

Lemma realloc_in_life c d st i : life (owned false c d st i) (realloc_events i bl_in) = Some (owned false c d st true).
Proof. unfold realloc_events. life_cases. Qed.

Lemma free_in_life c d st i :
  life (owned false c d st i) (if i then [put bl_in] else []) = Some (owned false c d st false).
Proof. life_cases. Qed.

Lemma gather_accounted s b : lz4b_sizes s -> buffer_ok b -> accounted lz4_owns lz4b_sizes s (gather_t s b) (fun r => r.1.2).
Proof.
  intros [H1 H2 H3 H4 H5] Hb. pose proof (avail_in_nonneg b Hb) as Hn. unfold gather_t. cbv zeta.
  destruct (avail_in b =? 0); [by apply accounted_ret|].
  assert (Hsz : is_size (avail_in b)) by (unfold is_size, SIZE_MAX, avail_in in *; destruct Hb; lia).
  destruct (zu_int_add _ _ _) as [need|st] eqn:Ea; [|by apply accounted_ret].
  apply zu_int_add_inv in Ea as [-> Hneed]; [|unfold is_size, SIZE_MAX in *; lia|done].
  unfold LZ4_MAX_INPUT_SIZE in *. rewrite !Z.gtb_ltb.
  destruct (Z.ltb_spec 0x7E000000 (lz_in_len s + avail_in b)); [by apply accounted_ret|].
  destruct (Z.ltb_spec (lz_in_cap s) (lz_in_len s + avail_in b)) as [Hg|Hg];
    [|apply accounted_ret; [done|constructor; cbn; unfold LZ4_MAX_INPUT_SIZE; lia] ].
  destruct (zu_int_grow_cases (lz_in_cap s) (lz_in_len s + avail_in b - lz_in_cap s))
    as [ [_ ->] | [_ ->] ]; [unfold is_size, SIZE_MAX; lia..| |by apply accounted_ret].
  set (next := Z.max _ _).
  assert (Hnx : lz_in_len s + avail_in b <= next < 2 ^ 64)
    by (unfold next, ZU_INT_MIN_BUFFER, SIZE_MAX; split_if; zbool; unfold SIZE_MAX in *; lia).
  clearbody next. destruct (negb (alloc_ok _)); [by apply accounted_ret|].
  apply accounted_tell; [|constructor; cbn; unfold LZ4_MAX_INPUT_SIZE; lia].
  unfold lz4_owns at 1. rewrite realloc_in_life. unfold lz4_owns, has_in. cbn [fst snd lz_in_cap lz_set_in].
  by destruct (Z.eqb_spec next 0); [lia|].
Qed.

Lemma stage_accounted s n : lz4b_sizes s -> accounted lz4_owns lz4b_sizes s (stage_t s n) snd.
Proof.
  intros [H1 H2 H3 H4 H5]. unfold stage_t. rewrite Z.gtb_ltb.
  destruct (Z.ltb_spec (lz_stage_cap s) n); [|by apply accounted_ret].
  destruct (negb (alloc_ok _)); [by apply accounted_ret|].
  apply accounted_tell; [|constructor; cbn; lia].
  unfold lz4_owns at 1. rewrite realloc_stage_life. unfold lz4_owns, has_stage. cbn [snd lz_stage_cap lz_set_stage].
  by destruct (Z.eqb_spec n 0); [lia|].
Qed.

(** Delivering moves the cursors of the stage, nothing else. *)
Lemma drain_sizes s b : lz4b_sizes s -> lz4b_sizes (zu_int_lz4_drain s b).1.2.
Proof.
  intros []. unfold zu_int_lz4_drain. cbv zeta. destruct (_ >? 0); destruct (_ =? _); by constructor.
Qed.

Lemma deliver_accounted s b : lz4b_sizes s -> accounted lz4_owns lz4b_sizes s (mret (lz4b_deliver s b)) (fun r => r.1.2).
Proof.
  intros Hs. pose proof (drain_owns s b) as Ho. pose proof (drain_sizes s b Hs) as Hz.
  apply accounted_ret; unfold lz4b_deliver; by destruct (zu_int_lz4_drain s b) as [ [e s'] b'].
Qed.

Lemma staged_accounted s stage len b :
  lz4b_sizes s -> accounted lz4_owns lz4b_sizes s (staged_t s stage len b) (fun r => r.1.2).
Proof.
  intros [H1 H2 H3 H4 H5]. unfold staged_t, lz4b_staged.
  set (s1 := lz_set_in _ [] 0 0). assert (Hz : lz4b_sizes s1) by (constructor; cbn; lia).
  destruct (deliver_accounted s1 b Hz) as [Hl Ho]. cbn [fst snd mret traced_ret life] in Hl, Ho.
  apply accounted_tell; [|done]. injection Hl as E. rewrite <- E. apply free_in_life.
Qed.

Lemma gather_only_accounted s b :
  lz4b_sizes s -> buffer_ok b -> accounted lz4_owns lz4b_sizes s (gather_only_t s b) (fun r => r.1.2).
Proof.
  intros Hs Hb. eapply accounted_bind; [by apply gather_accounted|].
  destruct (gather_t s b).1 as [ [st s1] b1]. intros H1. by destruct st; apply accounted_ret.
Qed.

Lemma encoder_staged_accounted s b :
  lz4b_sizes s -> buffer_ok b -> accounted lz4_owns lz4b_sizes s (encoder_staged_t s b) (fun r => r.1.2).
Proof.
  intros Hs Hb. eapply accounted_bind; [by apply gather_accounted|].
  destruct (gather_t s b).1 as [ [st s1] b1]. intros H1. destruct st; try by apply accounted_ret.
  cbv zeta. destruct (_ <=? 0); [by apply accounted_ret|].
  eapply accounted_bind; [by apply stage_accounted|].
  destruct (stage_t _ _).1 as [gs s2]. intros H2. destruct gs; try by apply accounted_ret.
  destruct (zu_int_lz4b_compress _ _ _) as [w out]. destruct (w <=? 0); [by apply accounted_ret|].
  by apply staged_accounted.
Qed.

Lemma lz4b_encoder_process_accounted s b f : lz4b_sizes s -> buffer_ok b ->
  accounted lz4_owns lz4b_sizes s (lz4b_encoder_process_t s b f) (fun r => r.1.2).
Proof.
  intros Hs Hb. unfold lz4b_encoder_process_t. destruct (lz_done s) eqn:Ed; [by apply deliver_accounted|].
  destruct (negb (is_finish f)) eqn:Ef; [by apply gather_only_accounted|]. cbv zeta.
  destruct ((lz_in_len s =? 0) && _ && _ && _) eqn:Ec; [|by apply encoder_staged_accounted].
  unfold lz4b_encoder_process. rewrite Ed, Ef, Ec. destruct (zu_int_lz4b_compress _ _ _) as [w out].
  by destruct (w <=? 0); apply accounted_ret; try destruct Hs.
Qed.

(** The search returns, and its stage is the only block it touches. *)
Definition search_done (s : lz4_state) (m : traced (option (result Z * lz4_state))) : Prop :=
  exists r, m.1 = Some r /\ accounted lz4_owns lz4b_sizes s m (fun _ => r.2).

Lemma search_ret s r : lz4b_sizes r.2 -> lz4_owns r.2 = lz4_owns s -> search_done s (mret (Some r)).
Proof. intros. exists r. split; [done|]. by apply accounted_ret. Qed.

Lemma search_round ceiling limited fuel s cap :
  lz4b_sizes s ->
  (cap < ceiling -> forall s', lz4b_sizes s' ->
     search_done s' (search_loop_t fuel s' ceiling limited (if cap >? ceiling / 4 then ceiling else cap * 4))) ->
  search_done s (search_loop_t (S fuel) s ceiling limited cap).
Proof.
  intros Hs Hnext. cbn [search_loop_t]. destruct (stage_accounted s cap Hs) as [Hl H1].
  assert (Hk : forall k : _ -> traced (option (result Z * lz4_state)),
    search_done (stage_t s cap).1.2 (k (stage_t s cap).1) -> search_done s (stage_t s cap ≫= k)).
  { intros k (r & E & Hk). exists r. split; [by rewrite traced_bind_fst|].
    destruct (accounted_bind lz4_owns lz4b_sizes s (stage_t s cap) k snd (fun _ => r.2)) as [? ?]; done. }
  apply Hk. clear Hk Hl. destruct (stage_t s cap).1 as [gs s1]. cbn [snd] in *.
  destruct gs; try by apply search_ret. destruct (LZ4_decompress_safe _ _) as [r out].
  assert (Hz : forall p, lz4b_sizes (lz_set_stage s1 p (lz_stage_cap s1) (lz_stage_len s1) (lz_stage_pos s1)))
    by (intros p; destruct H1; by constructor).
  destruct (r >=? 0); [apply search_ret; [apply Hz|done]|].
  destruct (LZ4_decompress_safe_partial _ _ _) as [p part]. cbv zeta.
  destruct (_ || _); [apply search_ret; [apply Hz|done]|]. rewrite Z.geb_leb.
  destruct (Z.leb_spec ceiling cap); [apply search_ret; [apply Hz|done]|].
  apply (Hnext ltac:(lia) (lz_set_stage s1 _ _ _ _)), Hz.
Qed.

Lemma search_loop_done ceiling limited : forall fuel s cap,
  lz4b_sizes s -> cap = ceiling \/ 0 < cap <= ceiling /\ ceiling <= cap * 4 ^ Z.of_nat fuel ->
  search_done s (search_loop_t (S fuel) s ceiling limited cap).
Proof.
  induction fuel as [|fuel IH]; intros s cap Hs Hcap; apply search_round; try done; intros Hlt s' Hs'; [lia|].
  apply IH; [done|]. rewrite Nat2Z.inj_succ, Z.pow_succ_r in Hcap by lia.
  pose proof (Z.pow_pos_nonneg 4 (Z.of_nat fuel)). pose proof (Z.mul_div_le ceiling 4). rewrite Z.gtb_ltb.
  destruct (Z.ltb_spec (ceiling / 4) cap); [by left|right; nia].
Qed.

Lemma search_accounted s : lz4b_sizes s -> accounted lz4_owns lz4b_sizes s (search_t s) snd.
Proof.
  intros Hs. pose proof Hs as [H1 H2 H3 H4 H5]. unfold search_t.
  pose proof (lz4b_ceiling_spec (lz_in_len s) (lz_max_output s) ltac:(lia) H5) as Hceil.
  destruct (lz4b_ceiling _ _) as [ceiling limited]. destruct Hceil as (base & Hb & El & Ec).
  assert (Hle : 0 <= ceiling <= INT_MAX).
  { unfold INT_MAX in *. rewrite Ec, El. destruct (Z.eqb_spec (lz_max_output s) 0); cbn [negb andb]; [lia|].
    destruct (Z.ltb_spec (lz_max_output s) base); lia. }
  clear Hb El Ec. rewrite lz4b_first_cap_spec by lia. unfold INT_MAX in Hle.
  destruct (search_loop_done ceiling limited 11 s (Z.min ceiling (Z.max 4096 (lz_in_len s * 4))) Hs)
    as (r & E & Ha); [cbn; lia|]. change lz4b_search_fuel with 12%nat.
  eapply accounted_bind; [exact Ha|]. rewrite E. intros. by apply accounted_ret.
Qed.

Lemma decoder_expected_accounted s b want : lz4b_sizes s -> buffer_ok b ->
  accounted lz4_owns lz4b_sizes s (decoder_expected_t s b want) (fun r => r.1.2).
Proof.
  intros Hs Hb. eapply accounted_bind; [by apply gather_accounted|].
  destruct (gather_t s b).1 as [ [st s1] b1]. intros H1. destruct st; try by apply accounted_ret.
  destruct (lz_in_len s1 =? 0); [by apply accounted_ret|].
  eapply accounted_bind; [by apply stage_accounted|].
  destruct (stage_t _ _).1 as [gs s2]. intros H2. destruct gs; try by apply accounted_ret.
  destruct (LZ4_decompress_safe _ _) as [r out]. destruct (_ || _); [by apply accounted_ret|].
  by apply staged_accounted.
Qed.

Lemma decoder_unknown_accounted s b : lz4b_sizes s -> buffer_ok b ->
  accounted lz4_owns lz4b_sizes s (decoder_unknown_t s b) (fun r => r.1.2).
Proof.
  intros Hs Hb. eapply accounted_bind; [by apply gather_accounted|].
  destruct (gather_t s b).1 as [ [st s1] b1]. intros H1. destruct st; try by apply accounted_ret.
  destruct (lz_in_len s1 =? 0); [by apply accounted_ret|].
  eapply accounted_bind; [by apply search_accounted|].
  destruct (search_t _).1 as [ [got|gs] s2]; intros H2; [by apply staged_accounted|by apply accounted_ret].
Qed.

Lemma lz4b_decoder_process_accounted s b f : lz4b_sizes s -> buffer_ok b ->
  accounted lz4_owns lz4b_sizes s (lz4b_decoder_process_t s b f) (fun r => r.1.2).
Proof.
  intros Hs Hb. unfold lz4b_decoder_process_t. destruct (lz_done s) eqn:Ed; [by apply deliver_accounted|].
  destruct (negb (is_finish f)) eqn:Ef; [by apply gather_only_accounted|].
  destruct (lz_has_expected s) eqn:Ee; [|by apply decoder_unknown_accounted].
  destruct (negb (lz_max_output s =? 0) && _) eqn:E1; [by apply accounted_ret|].
  destruct (_ >? INT_MAX) eqn:E2; [by apply accounted_ret|].
  destruct ((lz_in_len s =? 0) && _) eqn:E3; [|by apply decoder_expected_accounted].
  unfold lz4b_decoder_process. rewrite Ed, Ef, Ee, E1, E2. cbv zeta. rewrite E3.
  destruct (_ || _); [by apply accounted_ret|]. destruct (LZ4_decompress_safe _ _) as [r out].
  by destruct (_ || _); apply accounted_ret; try destruct Hs.
Qed.

Lemma lz4b_new_erases encoder level d : (lz4b_new_t encoder level d).1 = lz4b_new encoder level d.
Proof. unfold lz4b_new_t, lz4b_new. by destruct (negb _). Qed.

Lemma lz4b_new_accounted encoder level d :
  (forall o, d = Some o -> decoder_opts_fit o) ->
  new_accounted lz4_owns lz4b_sizes (lz4b_new_t encoder level d).
Proof.
  intros Hd. unfold new_accounted, lz4b_new_t, lz4b_new. destruct (negb (alloc_ok req_state)); [by vm_compute|].
  destruct d as [o|]; (split; [by vm_compute|]); constructor; cbn; unfold LZ4_MAX_INPUT_SIZE; try lia.
  by destruct (Hd o eq_refl) as (_ & _ & ? & _).
Qed.

Definition lz4b_view : heap_view zu_int_codec_lz4_block :=
  mk_view (v := zu_int_codec_lz4_block) lz4_owns lz4b_sizes
    (fun o => lz4b_new_t true (eo_level o) None) lz4b_encoder_process_t
    (fun s o => mret (lz4b_encoder_reset s o)) lz4_free
    (fun o => lz4b_new_t false ZU_LEVEL_DEFAULT (Some o)) lz4b_decoder_process_t
    (fun s o => mret (lz4b_decoder_reset s o)) lz4_free.

#[export] Instance lz4b_erases : Erases zu_int_codec_lz4_block lz4b_view.
Proof.
  constructor; try done; eexists; (split; [reflexivity|]); intros;
    first [ apply lz4b_new_erases | apply lz4b_encoder_process_erases | apply lz4b_decoder_process_erases | done ].
Qed.

#[export] Instance lz4b_balances : Balances zu_int_codec_lz4_block lz4b_view.
Proof.
  constructor; intros.
  - by apply lz4b_new_accounted.
  - by apply lz4b_encoder_process_accounted.
  - apply accounted_ret; unfold lz4b_encoder_reset; cbn [snd]; [by destruct (negb _)|].
    destruct H. by destruct (negb _); constructor; cbn; try lia.
  - apply lz4_free_accounted.
  - apply lz4b_new_accounted. by intros ? [= <-].
  - by apply lz4b_decoder_process_accounted.
  - apply accounted_ret; [done|]. destruct H, H0 as (_ & _ & ? & _). constructor; cbn; lia.
  - apply lz4_free_accounted.
Qed.

End lz4.

(** ** The codecs that allocate nothing, and the table *)

(** Their state is static storage. *)
Definition identity_free (s : unit) : list event := [].
Definition xor5a_free (s : unit) : list event := [].

Definition identity_view : heap_view zu_int_codec_identity :=
  mk_view (v := zu_int_codec_identity) (fun _ => {[bl_handle]}) (fun _ => True)
    (fun o => mret (identity_encoder_new o)) (fun s b f => mret (identity_process s b f))
    (fun s o => mret (identity_encoder_reset s o)) identity_free
    (fun o => mret (identity_decoder_new o)) (fun s b f => mret (identity_process s b f))
    (fun s o => mret (identity_decoder_reset s o)) identity_free.

Definition xor5a_view : heap_view xor5a_vtable :=
  mk_view (v := xor5a_vtable) (fun _ => {[bl_handle]}) (fun _ => True)
    (fun o => mret (xor5a_encoder_new o)) (fun s b f => mret (xor5a_process s b f))
    (fun s o => mret (xor5a_encoder_reset s o)) xor5a_free
    (fun o => mret (xor5a_decoder_new o)) (fun s b f => mret (xor5a_process s b f))
    (fun s o => mret (xor5a_decoder_reset s o)) xor5a_free.

#[export] Instance identity_erases : Erases zu_int_codec_identity identity_view.
Proof. constructor; try done; by eexists. Qed.
#[export] Instance xor5a_erases : Erases xor5a_vtable xor5a_view.
Proof. constructor; try done; by eexists. Qed.
#[export] Instance identity_balances : Balances zu_int_codec_identity identity_view.
Proof. by constructor. Qed.
#[export] Instance xor5a_balances : Balances xor5a_vtable xor5a_view.
Proof. by constructor. Qed.

Section table.
Context {mz : Miniz} {zstd : Zstd} {lz4 : Lz4} {alloc : Allocator}.

Definition codec_views : list {v : zu_codec_vtable & heap_view v} :=
  [existT _ identity_view; existT _ deflate_raw_view; existT _ zlib_view; existT _ gzip_view;
   existT _ zstd_view; existT _ lz4f_view; existT _ lz4b_view; existT _ xor5a_view].

(** Every codec of the two packages has its view. *)
Lemma codec_views_complete : projT1 <$> codec_views = zu_int_builtin ++ [xor5a_vtable].
Proof. done. Qed.

Lemma codec_views_lawful v hv : In (existT v hv) codec_views -> Erases v hv /\ Balances v hv.
Proof.
  intros Hin. pose (P := fun p : {v : zu_codec_vtable & heap_view v} => Erases (projT1 p) (projT2 p) /\ Balances (projT1 p) (projT2 p)).
  assert (H : Forall P codec_views).
  { repeat (apply Forall_cons_2; [split; cbn [projT1 projT2]; apply _|]). apply Forall_nil_2. }
  rewrite List.Forall_forall in H. exact (H _ Hin).
Qed.

End table.

(** ** Properties *)

(** C7: every codec's handles free what they allocate, once.  For each built-in codec and
    the satellite's, and any allocator: opening an encoder or a decoder either fails with
    nothing left allocated, or gives a handle that, after any calls and resets with any
    well-formed buffers and any option structs, whatever those calls returned, is freed
    with every block freed exactly once, none while it holds the only pointer to another,
    and none overwritten by an allocation -- also when a reset could not restart the
    library, when a gathered input was freed early, and when [realloc] failed.  The traced
    callbacks are the vtable's. *)
Theorem handles_balanced {mz : Miniz} {zstd : Zstd} {lz4 : Lz4} {alloc : Allocator} v (hv : heap_view v) m l
    (Hv : In (existT v hv) codec_views) (Hm : bytes_ok m) (Hl : Forall op_ok l) :
  Erases v hv /\ encoder_lives v hv m l /\ decoder_lives v hv m l.
Proof.
  destruct (codec_views_lawful v hv Hv) as [He Hb]. split_and!; [done| |].
  - by apply encoder_balanced.
  - by apply decoder_balanced.
Qed.

Section witness.
#[local] Instance some_alloc : Allocator := fun _ => true.
#[local] Existing Instance toy_miniz.
#[local] Existing Instance toy_zstd.
#[local] Existing Instance toy_lz4.

(** A block decoded in two calls, the output delivered a byte at a time, the handle then
    reset and left with input it never decodes. *)
Definition life_opts : bytes := decoder_opts_bytes (mk_decoder_opts 32 ZU_CODEC_LZ4_BLOCK 100 0 0 0).
Definition life_buffer (src : bytes) (room : nat) : zu_buffer :=
  mk_buffer (Some src) (zlen src) 0 (Some (replicate room 0)) (Z.of_nat room) 0.
Definition life_ops : list handle_op :=
  [op_process (life_buffer [0; 65] 0) ZU_RUN; op_process (life_buffer [66] 1) ZU_FINISH;
   op_reset None; op_process (life_buffer [0] 4) ZU_RUN].

(** What the two calls allocate and free. *)
Example life_trace :
  let o := decoder_opts_of life_opts in
  let m1 := lz4b_decoder_process_t (lz_set_limits (lz4_state_zero false ZU_LEVEL_DEFAULT) o)
              (life_buffer [0; 65] 0) ZU_RUN in
  let m2 := lz4b_decoder_process_t m1.1.1.2 (life_buffer [66] 1) ZU_FINISH in
  (m1.1.1.1, m1.2, m2.1.1.1, m2.2) =
    (ZU_NEED_INPUT, [get bl_in], ZU_NEED_OUTPUT, [get bl_stage; put bl_in]).
Proof. vm_compute. reflexivity. Qed.

Lemma handles_balanced_witness :
  bytes_ok life_opts /\ Forall op_ok life_ops /\
  encoder_lives zu_int_codec_lz4_block lz4b_view life_opts life_ops /\
  decoder_lives zu_int_codec_lz4_block lz4b_view life_opts life_ops.
Proof.
  assert (Hm : bytes_ok life_opts) by apply decoder_opts_bytes_ok.
  assert (Hl : Forall op_ok life_ops).
  { repeat (apply Forall_cons_2; [first [constructor; vm_compute; by intuition discriminate | intros ? [=] ]|]).
    apply Forall_nil_2. }
  split; [exact Hm|]. split; [exact Hl|].
  apply (handles_balanced zu_int_codec_lz4_block lz4b_view life_opts life_ops); [|exact Hm|exact Hl].
  do 6 right. by left.
Defined.

End witness.

(** Nothing is left of a handle whose last allocation failed. *)
Section failing.
#[local] Instance no_stage : Allocator := fun r => match r with req_bytes _ => false | _ => true end.
#[local] Existing Instance toy_lz4.

Example failed_open_trace :
  encoder_open zu_int_codec_lz4_frame lz4f_view (encoder_opts_bytes (mk_encoder_opts 16 ZU_CODEC_LZ4_FRAME 1 0)) =
    (Err ZU_ERR_MEMORY,
     [get bl_handle; get bl_state; get bl_cctx; put bl_cctx; put bl_state; put bl_handle]).
Proof. reflexivity. Qed.

End failing.
