(* ===== verification/Consumer.v ===== *)
(** * Consumers of the API table: tools/zukomptest/src/http_spike.c and oneshot.c

    An HTTP client's use of the library -- tokens from the registry, a body decoded piece
    by piece into one reused window, limits left to the library -- and the one-shot shape
    of a columnar-format reader.  Everything goes through the table. *)
From Stdlib Require Import QArith Qround.
From S2P Require Import Prelude Types SizeArith ProcessLoop Registry Stream Identity StreamProps Session.
From S2P Require Import Whole RValues RGlue Api Xor5a.

Local Open Scope Z_scope.

Section http.
Context {rapi : RApi} {alloc : Allocator} {heap : HeapBytes} {ints : Interrupts}.

(** ** Tokens *)

(** The tokens of the codecs that can decode, in registration order. *)
Fixpoint collect_tokens (api : zukomp_api_v1) (reg : registry) (ids : list zu_codec) :
    list (option string) :=
  match ids with
  | [] => []
  | id :: rest =>
      match api_codec_get_info api reg id (Some (info_zero sizeof_codec_info)) with
      | (ZU_OK, Some info) =>
          if negb (has_flag (ci_flags info) ZU_CAN_DECODE) || is_null (ci_content_encoding info)
          then collect_tokens api reg rest
          else ci_content_encoding info :: collect_tokens api reg rest
      | _ => collect_tokens api reg rest
      end
  end.

Definition zukomptest_decodable_tokens (api : option zukomp_api_v1) (reg : registry) : consumer_result :=
  match api with
  | None => consumer_error "table unavailable"%string
  | Some api =>
      match api_codec_list api reg (Some (replicate 64 0)) 64 true with
      | (ZU_OK, Some ids, Some n) =>
          consumer_value (STRSXP (collect_tokens api reg (sub ids 0 n)))
      | _ => consumer_error "codec_list failed"%string
      end
  end.

Definition zukomptest_codec_for_token (api : option zukomp_api_v1) (reg : registry) (token : sexp) :
    consumer_result :=
  match api, r_char token with
  | None, _ => consumer_error "table unavailable"%string
  | _, None => consumer_error "R"%string
  | Some api, Some t =>
      let codec := api_codec_from_content_encoding api reg (Some t) in
      if codec =? ZU_CODEC_NONE then consumer_value (Rf_ScalarString None)
      else
        match api_codec_get_info api reg codec (Some (info_zero sizeof_codec_info)) with
        | (ZU_OK, Some info) => consumer_value (Rf_ScalarString (ci_name info))
        | _ => consumer_value (Rf_ScalarString None)
        end
  end.

(** ** Narrowing at the consumer's boundary *)

(** A fraction is dropped here, unlike in the library's own helper. *)
Definition spike_u64 (v : sexp) : Z * Z :=
  match Rf_asReal v with
  | R_NaN => (1, 0)
  | R_Inf _ => (1, 0)
  | R_Fin d =>
      if negb (Qle_bool 0 d) || negb (Qle_bool d (inject_Z two53)) then (1, 0) else (0, Qfloor d)
  end.

Definition spike_u32 (v : sexp) : Z * Z :=
  match Rf_asInteger v with
  | None => (1, 0)
  | Some i => if i <? 0 then (1, 0) else (0, u32 i)
  end.

(** ** The incremental decode *)

Record spike := mk_spike {
  sp_dec : zu_decoder;
  sp_buf : zu_buffer;
  sp_sink : bytes;       (** the one window, reused *)
  sp_fed : Z;
  sp_total : Z;
  sp_sum : Z;
  sp_spins : Z;
}.

(** [sum = sum * 31u + out[i]] over the bytes of the window. *)
Definition rolling_sum (sum : Z) (out : bytes) : Z :=
  fold_left (fun s b => u32 (u32 (s * 31) + b)) out sum.

Definition spike_refill (src : bytes) (chunk : Z) (buf : zu_buffer) (fed : Z) : zu_buffer * Z :=
  let n := zlen src in
  if (src_pos buf =? src_size buf) && (fed <? n) then
    let take := n - fed in
    let take := if take >? chunk then chunk else take in
    (mk_buffer (Some (ptr_add src fed)) take 0 (dst buf) (dst_size buf) (dst_pos buf), fed + take)
  else (buf, fed).

(** The library call through the table; the handle and the buffer are never NULL here. *)
Definition api_decode (api : zukomp_api_v1) (d : zu_decoder) (b : zu_buffer) (f : zu_flush) :
    zu_status * zu_decoder * zu_buffer :=
  match api_decoder_process api (Some d) (Some b) f with
  | (st, Some d', Some b') => (st, d', b')
  | (st, _, _) => (st, d, b)
  end.

Definition spike_round (api : zukomp_api_v1) (src : bytes) (chunk : Z) (s : spike) :
    option drive_exit * spike :=
  let '(buf, fed) := spike_refill src chunk (sp_buf s) (sp_fed s) in
  let last := (fed >=? zlen src) && (src_pos buf =? src_size buf) in
  let win := mk_buffer (Types.src buf) (src_size buf) (src_pos buf) (Some (sp_sink s)) chunk 0 in
  let '(st, d, buf) := api_decode api (sp_dec s) win (if last then ZU_FINISH else ZU_RUN) in
  let out := default [] (dst buf) in
  let s1 := mk_spike d buf out fed (u64 (sp_total s + dst_pos buf))
              (rolling_sum (sp_sum s) (sub out 0 (dst_pos buf))) (sp_spins s) in
  if status_eqb st ZU_STREAM_END then (Some (drive_break st), s1)
  else if negb (is_progress st) then (Some (drive_break st), s1)
  else if (dst_pos buf =? 0) && last && status_eqb st ZU_NEED_INPUT then (Some (drive_break st), s1)
  else
    let spins := u32 (sp_spins s + 1) in
    let s2 := mk_spike d buf out fed (sp_total s1) (sp_sum s1) spins in
    if (spins mod 64 =? 0) && interrupted spins then (Some drive_longjmp, s2) else (None, s2).

Fixpoint spike_loop (api : zukomp_api_v1) (src : bytes) (chunk : Z) (fuel : nat) (s : spike) :
    option (drive_exit * spike) :=
  match fuel with
  | O => None
  | S fuel' =>
      match spike_round api src chunk s with
      | (Some e, s') => Some (e, s')
      | (None, s') => spike_loop api src chunk fuel' s'
      end
  end.

(** How the entry point is left: a value with the handle freed, an R error before the
    handle exists, or an interrupt with the handle still behind its guard. *)
Inductive spike_outcome :=
  | spike_value (ok : bool) (bytes checksum : Z) (status : string) (freed : list release)
  | spike_error (why : string)
  | spike_interrupted (guard : option zu_decoder).

Definition spike_decoder_finalizer (api : option zukomp_api_v1) (ptr : option zu_decoder) :
    list release * option zu_decoder :=
  match ptr, api with
  | Some d, Some api => (api_decoder_free api (Some d), None)
  | _, _ => ([], ptr)
  end.

Definition spike_opts (codec : zu_codec) (max_output max_ratio : Z) : zu_decoder_opts :=
  mk_decoder_opts sizeof_decoder_opts codec max_output max_ratio
    (Z.lor ZU_DEC_CONCAT_MEMBERS ZU_DEC_REJECT_TRAILING) 0.

(** From the decoder on. *)
Definition spike_run (api : zukomp_api_v1) (reg : registry) (fuel : nat) (src : bytes) (codec : zu_codec)
    (chunk max_output max_ratio : Z) : option spike_outcome :=
  match api_decoder_new api reg true (Some (decoder_opts_bytes (spike_opts codec max_output max_ratio))) with
  | Err st => Some (spike_error (api_status_string api st))
  | Ok dec =>
      match spike_loop api src chunk fuel
              (mk_spike dec (mk_buffer None 0 0 None 0 0) (alloc_raw chunk) 0 0 0 0) with
      | None => None
      | Some (drive_break st, s) =>
          Some (spike_value (status_eqb st ZU_STREAM_END) (sp_total s) (sp_sum s)
                  (api_status_string api st) (api_decoder_free api (Some (sp_dec s))))
      | Some (drive_longjmp, s) => Some (spike_interrupted (Some (sp_dec s)))
      end
  end.

Definition zukomptest_decode_incremental (api : option zukomp_api_v1) (reg : registry) (fuel : nat)
    (body codec_name r_chunk r_max_output r_max_ratio : sexp) : option spike_outcome :=
  match api with
  | None => Some (spike_error "table unavailable"%string)
  | Some api =>
      match r_raw body, r_char codec_name with
      | Some src, Some name =>
          let codec := api_codec_lookup api reg (Some name) in
          if codec =? ZU_CODEC_NONE then Some (spike_error "unknown codec"%string)
          else
            match Rf_asInteger r_chunk with
            | None => Some (spike_error "chunk"%string)
            | Some chunk =>
                if chunk <? 1 then Some (spike_error "chunk"%string)
                else
                  let '(bad_output, max_output) := spike_u64 r_max_output in
                  let '(bad_ratio, max_ratio) := spike_u32 r_max_ratio in
                  if negb (bad_output =? 0) then Some (spike_error "max_output"%string)
                  else if negb (bad_ratio =? 0) then Some (spike_error "max_ratio"%string)
                  else spike_run api reg fuel src codec chunk max_output max_ratio
            end
      | _, _ => Some (spike_error "R"%string)
      end
  end.

(** ** One-shot, as a columnar-format reader does it *)

Definition status_names : list string :=
  ["ZU_OK"; "ZU_NEED_INPUT"; "ZU_NEED_OUTPUT"; "ZU_STREAM_END"; "ZU_ERR_INVALID_ARGUMENT";
   "ZU_ERR_UNSUPPORTED"; "ZU_ERR_INVALID_DATA"; "ZU_ERR_TRUNCATED"; "ZU_ERR_CHECKSUM";
   "ZU_ERR_TRAILING"; "ZU_ERR_MEMORY"; "ZU_ERR_OUTPUT_LIMIT"; "ZU_ERR_RATIO_LIMIT";
   "ZU_ERR_INTERNAL"]%string.

(** [inl] is the text of an R error. *)
Definition oneshot_api (api : option zukomp_api_v1) : string + zukomp_api_v1 :=
  match api with
  | None => inl "zukomptest: zukomp's API table is unavailable"%string
  | Some api => inr api
  end.

Definition oneshot_result (st : zu_status) (p : bytes) (n : Z) : sexp :=
  let code := status_code st in
  let nm := if (0 <=? code) && (code <? 14) then nth (Z.to_nat code) status_names EmptyString
            else "unknown"%string in
  Rf_setAttrib (VECSXP [STRSXP [Some nm]; RAWSXP (if 0 <? n then sub p 0 n else [])]) "names"
    (STRSXP [Some "status"; Some "bytes"])%string.

Definition size_error : string := "zukomptest: a size must be a finite non-negative number".

Definition oneshot_size (v : sexp) : string + Z :=
  match Rf_asReal v with
  | R_NaN => inl size_error
  | R_Inf _ => inl size_error
  | R_Fin d =>
      if negb (Qle_bool 0 d) || negb (Qle_bool d (inject_Z two53)) then inl size_error else inr (Qfloor d)
  end.

Definition r_alloc (cap : Z) : bytes := alloc_raw (if cap >? 0 then cap else 1).

(** [None] is a call that did not return. *)
Definition zukomptest_compress_one (api : option zukomp_api_v1) (reg : registry) (bytes : bytes)
    (codec_name : string) (level : sexp) : option (string + sexp) :=
  match oneshot_api api with
  | inl err => Some (inl err)
  | inr api =>
      let codec := api_codec_lookup api reg (Some codec_name) in
      let lv := if Rf_isNull level then ZU_LEVEL_DEFAULT else default INT32_MIN (Rf_asInteger level) in
      let opts := mk_encoder_opts sizeof_encoder_opts codec lv 0 in
      let n := zlen bytes in
      match api_compress_bound api reg codec lv n true with
      | Err st => Some (inr (oneshot_result st [] 0))
      | Ok cap =>
          match api_compress_one api reg (Some (encoder_opts_bytes opts)) (Some bytes) n
                  (Some (r_alloc cap)) cap true with
          | None => None
          | Some (st, written, dst) => Some (inr (oneshot_result st (default [] dst) (default 0 written)))
          end
      end
  end.

Definition oneshot_dopts (codec : zu_codec) (max_output : Z) (expected : option Z) (old_struct : bool) :
    zu_decoder_opts :=
  mk_decoder_opts (if old_struct then ZU_DECODER_OPTS_REQUIRED_SIZE else sizeof_decoder_opts) codec
    max_output 0
    (match expected with
     | None => Z.lor ZU_DEC_REJECT_TRAILING ZU_DEC_CONCAT_MEMBERS
     | Some _ => Z.lor (Z.lor ZU_DEC_REJECT_TRAILING ZU_DEC_CONCAT_MEMBERS) ZU_DEC_EXPECTED_SIZE
     end) (default 0 expected).

(** [None] is a call that did not return. *)
Definition zukomptest_decompress_one (api : option zukomp_api_v1) (reg : registry) (bytes : bytes)
    (codec_name : string) (cap_r max_output expected old_struct : sexp) : option (string + sexp) :=
  let old := match Rf_asLogical old_struct with Some true => true | _ => false end in
  match oneshot_api api with
  | inl err => Some (inl err)
  | inr api =>
      let codec := api_codec_lookup api reg (Some codec_name) in
      match oneshot_size max_output with
      | inl err => Some (inl err)
      | inr limit =>
          match (if Rf_isNull expected then inr None
                 else match oneshot_size expected with inl err => inl err | inr x => inr (Some x) end) with
          | inl err => Some (inl err)
          | inr want =>
              match oneshot_size cap_r with
              | inl err => Some (inl err)
              | inr cap =>
                  match api_decompress_one api reg
                          (Some (decoder_opts_bytes (oneshot_dopts codec limit want old))) (Some bytes)
                          (zlen bytes) (Some (r_alloc cap)) cap true with
                  | None => None
                  | Some (st, written, dst) =>
                      Some (inr (oneshot_result st (default [] dst) (default 0 written)))
                  end
              end
          end
      end
  end.

Definition zukomptest_codec_levels (api : option zukomp_api_v1) (reg : registry) (codec_name : string) :
    string + sexp :=
  match oneshot_api api with
  | inl err => inl err
  | inr api =>
      let codec := api_codec_lookup api reg (Some codec_name) in
      match api_codec_get_info api reg codec (Some (info_zero sizeof_codec_info)) with
      | (ZU_OK, Some info) =>
          inr (Rf_setAttrib (INTSXP [Some (ci_codec info); Some (ci_level_min info); Some (ci_level_max info);
            Some (ci_level_default info); Some (ci_level_fast info); Some (ci_level_best info)]) "names"
            (STRSXP [Some "id"; Some "min"; Some "max"; Some "default"; Some "fast"; Some "best"])%string)
      | _ => inr R_NilValue
      end
  end.

End http.
