(* ===== verification/ConsumerProps.v ===== *)
(** * What the HTTP consumer is promised

    The incremental decode of tools/zukomptest/src/http_spike.c, against the sessions of
    a stream handle: whatever the chunk, the size and checksum it reports are those of the
    bytes one session gave, and the handle is freed on each way out. *)
From S2P Require Import Prelude Types SizeArith ProcessLoop Registry Stream Identity StreamProps Session.
From S2P Require Import Whole WholeProps RValues RGlue Api Xor5a Consumer.

Lemma rolling_sum_app s a b : rolling_sum s (a ++ b) = rolling_sum (rolling_sum s a) b.
Proof. unfold rolling_sum. apply fold_left_app. Qed.

Section spike.
Context {alloc : Allocator} {heap : HeapBytes} {ints : Interrupts}.
Context (reg : registry) (Hreg : registry_contract reg).
Context (input : bytes) (chunk : Z).
Context (Hby : bytes_ok input) (Hn : zlen input < 2 ^ 64) (Hc : 1 <= chunk < 2 ^ 64).
Context (d0 : zu_decoder) (Hd0 : decoder_reachable reg d0).

(** Between rounds: what was taken and given so far, the rest of the input split between
    the slice in hand and what was not fed yet. *)
Record spike_inv (s : spike) (taken given : bytes) : Prop := {
  si_handle : decoder_reachable reg (sp_dec s);
  si_input : input = taken ++ src_window (sp_buf s) ++ drop (Z.to_nat (sp_fed s)) input;
  si_pos : 0 <= src_pos (sp_buf s) <= src_size (sp_buf s);
  si_size : src_size (sp_buf s) < 2 ^ 64;
  si_src : object_covers (src (sp_buf s)) (src_size (sp_buf s));
  si_bytes : bytes_ok (src_bytes (sp_buf s));
  si_fed : 0 <= sp_fed s <= zlen input;
  si_sink : zlen (sp_sink s) = chunk;
  si_total : sp_total s = u64 (zlen given);
  si_sum : sp_sum s = rolling_sum 0 given;
}.

Lemma spike_refill_inv s taken given :
  spike_inv s taken given ->
  let '(buf, fed) := spike_refill input chunk (sp_buf s) (sp_fed s) in
  spike_inv (mk_spike (sp_dec s) buf (sp_sink s) fed (sp_total s) (sp_sum s) (sp_spins s)) taken given.
Proof.
  intros Hi. unfold spike_refill.
  destruct (Z.eqb_spec (src_pos (sp_buf s)) (src_size (sp_buf s))) as [Ee|]; cbn [andb];
    [|by destruct Hi; constructor].
  destruct (Z.ltb_spec (sp_fed s) (zlen input)) as [Hlt|]; [|by destruct Hi; constructor].
  set (take := if zlen input - sp_fed s >? chunk then chunk else zlen input - sp_fed s).
  assert (Ht : 0 <= take <= zlen input - sp_fed s).
  { subst take. rewrite Z.gtb_ltb. destruct (Z.ltb_spec chunk (zlen input - sp_fed s)); lia. }
  clearbody take. destruct Hi as [? Hi Hp Hz Hs Hb Hf ? ? ?].
  constructor; cbn; try done; try lia.
  - rewrite Hi at 1. f_equal. unfold src_window at 1, avail_in. rewrite Ee, Z.sub_diag, sub_0. cbn.
    unfold src_window, avail_in, src_bytes. cbn. rewrite Z.sub_0_r.
    unfold sub, ptr_add. rewrite !drop_0.
    replace (Z.to_nat (sp_fed s + take)) with (Z.to_nat (sp_fed s) + Z.to_nat take)%nat by lia.
    rewrite <- drop_drop. by rewrite take_drop.
  - unfold ptr_add, zlen in *. rewrite length_drop. lia.
  - unfold src_bytes. cbn. by apply bytes_ok_drop.
Qed.

(** One call on a window of the sink. *)
Definition spike_window (s : spike) : zu_buffer :=
  mk_buffer (src (sp_buf s)) (src_size (sp_buf s)) (src_pos (sp_buf s)) (Some (sp_sink s)) chunk 0.

Lemma spike_window_ok s taken given : spike_inv s taken given -> buffer_ok (spike_window s).
Proof. intros []. constructor; cbn; try done; lia. Qed.

Lemma spike_call_inv s taken given d b i o fed spins :
  spike_inv s taken given -> decoder_reachable reg d -> moved (spike_window s) b i o ->
  fed = sp_fed s ->
  spike_inv (mk_spike d b (default [] (dst b)) fed (u64 (sp_total s + dst_pos b))
    (rolling_sum (sp_sum s) (sub (default [] (dst b)) 0 (dst_pos b))) spins) (taken ++ i) (given ++ o).
Proof.
  intros Hi Hd Hm ->. pose proof (spike_window_ok _ _ _ Hi) as Hb.
  pose proof (moved_ok _ _ _ _ Hb Hm) as Hb'.
  destruct (moved_counts _ _ _ _ Hb Hm) as [_ Hcount]. unfold avail_out in Hcount.
  destruct Hm as [ [Es Ez Ed _ _ Hch] Ht Hg]. cbn in Es, Ez, Ed, Hcount.
  unfold dst_written in Hg. cbn in Hg. rewrite sub_0 in Hg. cbn in Hg.
  assert (Hpos : dst_pos b = zlen o) by lia.
  assert (Hw : exists m, dst b = Some m /\ zlen m = chunk).
  { cbn in Hch. destruct (dst b) as [m|]; [|done]. destruct Hch as [Hl _]. exists m. split; [done|].
    unfold zlen. rewrite <- Hl. by destruct Hi. }
  destruct Hw as (m & Em & Hm). rewrite Em in *. cbn [default] in *. rewrite Hg.
  destruct Hi as [? Hi ? ? ? ? ? ? Htot Hsum], Hb'.
  constructor; cbn; try done; try lia.
  - rewrite Hi at 1. change (src_window (spike_window s)) with (src_window (sp_buf s)) in Ht.
    by rewrite Ht, <- !app_assoc.
  - unfold src_bytes. by rewrite Es.
  - rewrite Htot, zlen_app, Hpos. unfold u64. apply Z.add_mod_idemp_l. done.
  - by rewrite Hsum, rolling_sum_app.
Qed.

(** How a decode ends: the codec's own status ends the session, or it asked for more after
    the end and was left with nothing to write. *)
Definition spike_ended (st : zu_status) (d : zu_decoder) (taken given : bytes) : Prop :=
  session decoder_process input d0 st d taken given \/
  st = ZU_NEED_INPUT /\ session_stuck decoder_process input d0 d taken given.

(** Nothing left to feed or take. *)
Definition spike_last (s : spike) : bool :=
  (sp_fed s >=? zlen input) && (src_pos (sp_buf s) =? src_size (sp_buf s)).

(** The calls so far, told that the input is over only once nothing was left. *)
Definition spike_calls (s : spike) (taken given : bytes) : Prop :=
  exists fin, ordered_run decoder_process input d0 fin (sp_dec s) taken given /\
    (fin = true -> spike_last s = true).

Lemma spike_refill_last s buf fed :
  spike_refill input chunk (sp_buf s) (sp_fed s) = (buf, fed) -> spike_last s = true ->
  buf = sp_buf s /\ fed = sp_fed s.
Proof.
  unfold spike_refill, spike_last. intros E [Hl%Z.geb_le _]%andb_prop. revert E.
  destruct (Z.ltb_spec (sp_fed s) (zlen input)); [lia|]. rewrite andb_false_r. by intros [= <- <-].
Qed.

Lemma spike_round_spec s taken given :
  spike_inv s taken given -> spike_calls s taken given ->
  let r := spike_round zu_int_api_v1 input chunk s in
  exists i o, spike_inv r.2 (taken ++ i) (given ++ o) /\
    match r.1 with
    | Some (drive_break st) => spike_ended st (sp_dec r.2) (taken ++ i) (given ++ o)
    | _ => spike_calls r.2 (taken ++ i) (given ++ o)
    end.
Proof.
  intros Hi (fin & Hrun & Hfin). pose proof (spike_refill_inv _ _ _ Hi) as Hi2. unfold spike_round.
  destruct (spike_refill input chunk (sp_buf s) (sp_fed s)) as [buf fed] eqn:Erf. clear Hi.
  set (s1 := mk_spike _ _ _ _ _ _ _) in Hi2. set (last := (fed >=? zlen input) && _).
  assert (Hall : (if last then ZU_FINISH else ZU_RUN) = ZU_FINISH -> taken ++ src_window buf = input).
  { destruct last eqn:El; [|done]. intros _. pose proof (si_input _ _ _ Hi2) as Hin. cbn in Hin.
    apply andb_prop in El as [Hl _]. rewrite Z.geb_leb in Hl. apply Z.leb_le in Hl.
    rewrite (drop_ge input) in Hin; [by rewrite app_nil_r in Hin|]. unfold zlen in Hl. lia. }
  assert (Hstick : fin = true -> last = true /\ (if last then ZU_FINISH else ZU_RUN) = ZU_FINISH).
  { intros Ef%Hfin. destruct (spike_refill_last _ _ _ Erf Ef) as [-> ->].
    fold (spike_last s) in last. subst last. by rewrite Ef. }
  pose proof (spike_window_ok _ _ _ Hi2) as Hb. change (spike_window s1) with
    (mk_buffer (src buf) (src_size buf) (src_pos buf) (Some (sp_sink s)) chunk 0) in Hb.
  unfold api_decode. cbn [zu_int_api_v1 api_decoder_process zu_decoder_process].
  destruct (decoder_process (sp_dec s) _ _) as [ [st d] b'] eqn:Ep. cbv zeta.
  assert (Hf : valid_flush (if last then ZU_FINISH else ZU_RUN))
    by (destruct last; [by right; right|by left]).
  pose proof (decoder_drivable reg Hreg) as Hdrive.
  destruct (drivable _ _ _ _ _ _ (si_handle _ _ _ Hi2) Hb Hf Ep) as [Hstep Hd].
  destruct (step_moved _ _ Hb Hstep) as (i & o & Hm). exists i, o.
  pose proof (fun k => spike_call_inv s1 _ _ d b' i o fed k Hi2 Hd Hm eq_refl) as Hi3.
  pose proof (si_bytes _ _ _ Hi2) as Hbs. cbn in Hi3, Hbs.
  destruct (is_progress st) eqn:Hpr; cbn [negb].
  2:{ assert (Hs : session decoder_process input d0 st d (taken ++ i) (given ++ o))
        by (eapply session_end; try done; by intros [_ ?]%Hstick).
      destruct (status_eqb st ZU_STREAM_END); (split; [by apply Hi3|by left]). }
  assert (Hrun' : ordered_run decoder_process input d0 last d (taken ++ i) (given ++ o)).
  { replace last with (is_finish (if last then ZU_FINISH else ZU_RUN)) by (by destruct last).
    eapply ordered_call; try done. by intros [_ ?]%Hstick. }
  destruct (status_eqb st ZU_STREAM_END) eqn:Ee; [apply status_eqb_spec in Ee as ->; done|].
  destruct ((dst_pos b' =? 0) && last && status_eqb st ZU_NEED_INPUT) eqn:Estuck.
  { apply andb_prop in Estuck as [ [Ed El]%andb_prop Es]. apply status_eqb_spec in Es as ->.
    split; [by apply Hi3|]. right. split; [done|].
    assert (o = []) as ->.
    { destruct (moved_counts _ _ _ _ Hb Hm) as [_ Hcount]. unfold avail_out in Hcount.
      destruct Hstep as [_ _ Hds _ _ _]. rewrite Hds in Hcount. cbn in Hcount. zbool.
      destruct o; [done|]. rewrite zlen_cons in Hcount. pose proof (zlen_nonneg o). lia. }
    rewrite app_nil_r. rewrite El in Ep. eapply session_starved; try done. by apply Hall; rewrite El. }
  assert (Hcalls : forall k, spike_calls (mk_spike d b' (default [] (dst b')) fed
    (u64 (sp_total s + dst_pos b'))
    (rolling_sum (sp_sum s) (sub (default [] (dst b')) 0 (dst_pos b'))) k) (taken ++ i) (given ++ o)).
  { intros k. exists last. split; [done|]. unfold last, spike_last. cbn.
    intros [-> Ep2%Z.eqb_eq]%andb_prop. destruct Hstep as [_ Ess _ Hsp _ _]. cbn in Ess, Hsp.
    rewrite Ess. apply Z.eqb_eq. lia. }
  destruct (_ && interrupted _); (split; [by apply Hi3|by apply Hcalls]).
Qed.

Lemma spike_loop_spec fuel : forall s taken given e s',
  spike_inv s taken given -> spike_calls s taken given ->
  spike_loop zu_int_api_v1 input chunk fuel s = Some (e, s') ->
  exists taken given, spike_inv s' taken given /\
    match e with
    | drive_break st => spike_ended st (sp_dec s') taken given
    | drive_longjmp => spike_calls s' taken given
    end.
Proof.
  induction fuel as [|fuel IH]; intros s taken given e s' Hi Hrun E; [done|]. cbn [spike_loop] in E.
  destruct (spike_round_spec _ _ _ Hi Hrun) as (i & o & Hi' & He). cbv zeta in *.
  destruct (spike_round zu_int_api_v1 input chunk s) as [ [e1|] s1]; cbn in *.
  - injection E as <- <-. exists (taken ++ i), (given ++ o). split; [done|]. by destruct e1.
  - by eapply IH.
Qed.

Lemma spike_start_inv :
  spike_inv (mk_spike d0 (mk_buffer None 0 0 None 0 0) (alloc_raw chunk) 0 0 0 0) [] [].
Proof.
  pose proof (zlen_nonneg input). constructor; cbn; try done; try lia.
  - constructor.
  - apply zlen_alloc_raw. lia.
Qed.

Lemma spike_start_calls :
  spike_calls (mk_spike d0 (mk_buffer None 0 0 None 0 0) (alloc_raw chunk) 0 0 0 0) [] [].
Proof. exists false. by split; [constructor|]. Qed.

End spike.

(** What the client is told, in terms of the body alone. *)
Definition spike_spec (reg : registry) {alloc : Allocator} (input : bytes) (opts : zu_decoder_opts)
    (out : spike_outcome) : Prop :=
  match out with
  | spike_error why =>
      exists st, zu_decoder_new reg true (Some (decoder_opts_bytes opts)) = Err st /\
        why = zu_status_string st
  | spike_value ok n sum status freed =>
      exists d0 d st taken given rest,
        zu_decoder_new reg true (Some (decoder_opts_bytes opts)) = Ok d0 /\
        spike_ended input d0 st d taken given /\ input = taken ++ rest /\
        ok = status_eqb st ZU_STREAM_END /\ n = u64 (zlen given) /\ sum = rolling_sum 0 given /\
        status = zu_status_string st /\ freed = zu_decoder_free (Some d)
  | spike_interrupted guard =>
      exists d0 d taken given rest,
        zu_decoder_new reg true (Some (decoder_opts_bytes opts)) = Ok d0 /\
        codec_run decoder_process d0 d taken given /\ input = taken ++ rest /\
        (spike_decoder_finalizer (Some zu_int_api_v1) guard).1 = zu_decoder_free (Some d)
  end.

(** C20: an HTTP client's incremental decode.  Driving a body of any size through one window
    of [chunk] bytes reports success exactly when one session of a fresh decoder over the
    front of that body reached the end of the stream; the size is the number of bytes that
    session gave (modulo 2^64), the checksum is the rolling sum of those bytes in order, the
    text is the session's own status; and the decoder is freed, by the function when it
    returns and by the guard's finalizer when an interrupt leaves it. *)
Theorem spike_decode_is_session {alloc : Allocator} {heap : HeapBytes} {ints : Interrupts}
    (reg : registry) (fuel : nat) (input : bytes) (codec : zu_codec)
    (chunk max_output max_ratio : Z) (out : spike_outcome) :
  registry_contract reg -> bytes_ok input -> zlen input < 2 ^ 64 -> 1 <= chunk < 2 ^ 64 ->
  spike_run zu_int_api_v1 reg fuel input codec chunk max_output max_ratio = Some out ->
  spike_spec reg input (spike_opts codec max_output max_ratio) out.
Proof.
  intros Hreg Hby Hn Hc. unfold spike_run. cbn [zu_int_api_v1 api_decoder_new].
  destruct (zu_decoder_new reg true _) as [d0|st] eqn:En.
  2:{ intros [= <-]. by exists st. }
  assert (Hd0 : decoder_reachable reg d0) by (eapply dr_new; [apply decoder_opts_bytes_ok|exact En]).
  destruct (spike_loop _ _ _ _ _) as [ [e s]|] eqn:El; [|done].
  destruct (spike_loop_spec reg Hreg input chunk Hby Hn Hc d0 fuel _ [] [] e s
    (spike_start_inv reg input chunk Hc d0 Hd0) (spike_start_calls input chunk d0) El) as (taken & given & Hi & He).
  destruct Hi. destruct e as [st|]; intros [= <-]; cbn.
  - exists d0, (sp_dec s), st, taken, given. eexists. by split_and!.
  - destruct He as (fin & Hrun & _). exists d0, (sp_dec s), taken, given. eexists.
    split_and!; [done|by eapply ordered_codec_run|done..].
Qed.

#[local] Instance every_alloc : Allocator := fun _ => true.
#[local] Instance nine_heap : HeapBytes := fun _ => 9.
#[local] Instance quiet_session : Interrupts := fun _ => false.

Lemma spike_decode_is_session_witness :
  let input := [1; 2; 3; 4; 5; 6; 7] in
  let out := spike_run zu_int_api_v1 id_registry 50 input ZU_CODEC_IDENTITY 2 0 0 in
  let res := spike_value true 7 (rolling_sum 0 input) (zu_status_string ZU_STREAM_END)
               [release_state; release_handle] in
  out = Some res /\ spike_spec id_registry input (spike_opts ZU_CODEC_IDENTITY 0 0) res.
Proof.
  intros input out res. assert (E : out = Some res) by (vm_compute; reflexivity).
  split; [exact E|]. apply (spike_decode_is_session id_registry 50 input ZU_CODEC_IDENTITY 2 0 0 res).
  - exact id_registry_contract.
  - apply bytes_okb_ok. vm_compute. reflexivity.
  - vm_compute. reflexivity.
  - vm_compute. split; [discriminate|reflexivity].
  - exact E.
Defined.
