(* ===== verification/Harness.v ===== *)
(** * The test harness: src/zukomp_test.c

    The entry points that drive the stream driver, the one-shot pair, the bounds, reset and
    the capability projection at caller-chosen shapes, under R's narrowing rules.  A
    handle's life in them is explicit: they free what they made on every path. *)
From Stdlib Require Import QArith Qround.
From stdpp Require Import gmap.
From S2P Require Import Prelude Types SizeArith Registry Stream Identity StreamProps ProcessLoop Session.
From S2P Require Import Whole WholeProps RValues RGlue.

Local Open Scope Z_scope.

(** [zu_int_result(st, NULL, 0)]. *)
Definition no_bytes (st : zu_status) : sexp := zu_int_result st None 0.

(** [Rf_asLogical(x) == TRUE]. *)
Definition r_true {r : RApi} (x : sexp) : bool :=
  match Rf_asLogical x with Some true => true | _ => false end.

Section harness.
Context {r : RApi} {alloc : Allocator} {heap : HeapBytes} {ints : Interrupts}.
Context (reg : registry).

(** ** The drive loop at chosen chunk sizes *)

(** The flags and the expected size; [None] is an expected size that cannot be narrowed. *)
Definition stream_flags (reject_trailing concat_members expected_size : sexp) : option (Z * Z) :=
  let flags := 0 in
  let flags := if r_true reject_trailing then Z.lor flags ZU_DEC_REJECT_TRAILING else flags in
  let flags := if r_true concat_members then Z.lor flags ZU_DEC_CONCAT_MEMBERS else flags in
  if negb (Rf_isNull expected_size)
  then
    let '(bad, size) := zu_int_u64_from_real (Rf_asReal expected_size) in
    if negb (bad =? 0) then None else Some (Z.lor flags ZU_DEC_EXPECTED_SIZE, size)
  else Some (flags, 0).

(** The pair with the [consumed] attribute. *)
Definition stream_result (st : zu_status) (out : zu_int_outbuf) : sexp :=
  Rf_setAttrib (zu_int_result st (snd <$> ob_buf out) (ob_used out)) "consumed"
    (Rf_ScalarReal (ob_consumed out)).

Definition zukomp_test_stream (fuel : nat) (w : r_world)
    (r_bytes r_codec r_encode r_in_chunk r_out_chunk r_max_output r_max_ratio r_flush_every r_level
     r_reject_trailing r_concat_members r_expected_size : sexp) : option r_outcome :=
  match r_raw r_bytes, r_char r_codec with
  | Some src, Some name =>
      let codec := zu_codec_lookup reg (Some name) in
      let '(bad_level, level) := zu_int_level_from_sexp r_level in
      let '(bad_output, max_output) := zu_int_u64_from_real (Rf_asReal r_max_output) in
      let '(bad_ratio, max_ratio) := zu_int_u32_from_int (Rf_asInteger r_max_ratio) in
      let '(bad_in, in_chunk) := zu_int_size_from_real (Rf_asReal r_in_chunk) in
      let '(bad_out, out_chunk) := zu_int_size_from_real (Rf_asReal r_out_chunk) in
      let '(bad_every, flush_every) := zu_int_u64_from_real (Rf_asReal r_flush_every) in
      if negb (bad_level =? 0) || negb (bad_output =? 0) || negb (bad_ratio =? 0) ||
         negb (bad_in =? 0) || negb (bad_out =? 0) || negb (bad_every =? 0)
      then Some (r_return (no_bytes ZU_ERR_INVALID_ARGUMENT) w)
      else
        match stream_flags r_reject_trailing r_concat_members r_expected_size with
        | None => Some (r_return (no_bytes ZU_ERR_INVALID_ARGUMENT) w)
        | Some (flags, expected) =>
            if codec =? ZU_CODEC_NONE
            then Some (r_return (no_bytes ZU_ERR_UNSUPPORTED) w)
            else
              drive_result reg fuel w
                (mk_run_opts (Some src) (zlen src) (r_true r_encode) codec level max_output max_ratio
                   flags expected in_chunk out_chunk flush_every) stream_result
        end
  | _, _ => Some (r_error w)
  end.

(** ** One-shot at a chosen capacity *)

(** [(cap == 0) ? NULL : R_alloc(cap, 1)]: what the memory holds is arbitrary. *)
Definition test_sink (cap : Z) : option bytes :=
  if cap =? 0 then None else Some (heap_junk cap).

Definition decompress_test_opts (codec : zu_codec) (expected : option Z) : zu_decoder_opts :=
  mk_decoder_opts sizeof_decoder_opts codec 0 0
    (match expected with
     | None => Z.lor ZU_DEC_REJECT_TRAILING ZU_DEC_CONCAT_MEMBERS
     | Some _ => Z.lor (Z.lor ZU_DEC_REJECT_TRAILING ZU_DEC_CONCAT_MEMBERS) ZU_DEC_EXPECTED_SIZE
     end) (default 0 expected).

(** The outer [None] is a call that did not return. *)
Definition zukomp_test_decompress_one (src : bytes) (codec_name : string) (r_cap r_expected_size : sexp) :
    option sexp :=
  let codec := zu_codec_lookup reg (Some codec_name) in
  if codec =? ZU_CODEC_NONE then Some (no_bytes ZU_ERR_UNSUPPORTED)
  else
    let '(bad_cap, cap) := zu_int_size_from_real (Rf_asReal r_cap) in
    if negb (bad_cap =? 0) then Some (no_bytes ZU_ERR_INVALID_ARGUMENT)
    else
      let '(bad_size, expected) :=
        if Rf_isNull r_expected_size then (0, None)
        else let '(bad, n) := zu_int_u64_from_real (Rf_asReal r_expected_size) in (bad, Some n) in
      if negb (bad_size =? 0) then Some (no_bytes ZU_ERR_INVALID_ARGUMENT)
      else
        match zu_decompress_one reg (Some (decoder_opts_bytes (decompress_test_opts codec expected)))
                (Some src) (zlen src) (test_sink cap) cap true with
        | None => None
        | Some (st, written, dst) => Some (zu_int_result st dst (default 0 written))
        end.

Definition encoder_test_opts (codec : zu_codec) (level : Z) : zu_encoder_opts :=
  mk_encoder_opts sizeof_encoder_opts codec level 0.

Definition zukomp_test_compress_bound (codec_name : string) (r_level r_n : sexp) : sexp :=
  let codec := zu_codec_lookup reg (Some codec_name) in
  if codec =? ZU_CODEC_NONE then no_bytes ZU_ERR_UNSUPPORTED
  else
    let '(bad_level, level) := zu_int_level_from_sexp r_level in
    if negb (bad_level =? 0) then no_bytes ZU_ERR_INVALID_ARGUMENT
    else
      let '(bad_n, n) := zu_int_size_from_real (Rf_asReal r_n) in
      if negb (bad_n =? 0) then no_bytes ZU_ERR_INVALID_ARGUMENT
      else
        let '(st, bound) :=
          match zu_compress_bound reg codec level n true with
          | Ok bound => (ZU_OK, bound)
          | Err st => (st, 0)
          end in
        Rf_setAttrib (no_bytes st) "bound" (Rf_ScalarReal bound).

(** [delta < 0], [delta > 0] and [delta < 0 ? -delta : delta] of a double. *)
Definition real_neg (v : r_real) : bool :=
  match v with R_NaN => false | R_Inf negative => negative | R_Fin q => negb (Qle_bool 0 q) end.
Definition real_pos (v : r_real) : bool :=
  match v with R_NaN => false | R_Inf negative => negb negative | R_Fin q => negb (Qle_bool q 0) end.
Definition real_abs (v : r_real) : r_real :=
  match v with
  | R_NaN => R_NaN
  | R_Inf _ => R_Inf false
  | R_Fin q => if real_neg v then R_Fin (Qopp q) else R_Fin q
  end.

(** The capacity asked for, relative to the bound: clamped below, wrapping above. *)
Definition delta_cap (bound : Z) (delta : r_real) (magnitude : Z) : Z :=
  if real_neg delta then (if magnitude >=? bound then 0 else bound - magnitude)
  else if real_pos delta then u64 (bound + magnitude)
  else bound.

Definition zukomp_test_compress_one (src : bytes) (codec_name : string) (r_level r_cap_delta : sexp) :
    option sexp :=
  let codec := zu_codec_lookup reg (Some codec_name) in
  if codec =? ZU_CODEC_NONE then Some (no_bytes ZU_ERR_UNSUPPORTED)
  else
    let '(bad_level, level) := zu_int_level_from_sexp r_level in
    if negb (bad_level =? 0) then Some (no_bytes ZU_ERR_INVALID_ARGUMENT)
    else
      match zu_compress_bound reg codec level (zlen src) true with
      | Err st => Some (no_bytes st)
      | Ok bound =>
          let delta := Rf_asReal r_cap_delta in
          let '(bad_delta, magnitude) := zu_int_size_from_real (real_abs delta) in
          if negb (bad_delta =? 0) then Some (no_bytes ZU_ERR_INVALID_ARGUMENT)
          else
            let cap := delta_cap bound delta magnitude in
            match zu_compress_one reg (Some (encoder_opts_bytes (encoder_test_opts codec level)))
                    (Some src) (zlen src) (test_sink cap) cap true with
            | None => None
            | Some (st, written, dst) =>
                Some (Rf_setAttrib (zu_int_result st dst (default 0 written)) "bound"
                        (Rf_ScalarReal bound))
            end
      end.

(** ** Two streams through one encoder handle *)

(** The [for (;;)] of a pass: [ZU_FINISH] until the end, an error, or a call that moves
    neither cursor. *)
Fixpoint finish_loop (fuel : nat) (e : zu_encoder) (buf : zu_buffer) :
    option (zu_status * zu_encoder * zu_buffer) :=
  match fuel with
  | O => None
  | S fuel' =>
      let '(ps, e', buf') := encoder_process e buf ZU_FINISH in
      if status_eqb ps ZU_STREAM_END then Some (ZU_OK, e', buf')
      else if negb (is_progress ps) then Some (ps, e', buf')
      else if (dst_pos buf' =? dst_pos buf) && (src_pos buf' =? src_pos buf)
      then Some (ZU_ERR_INTERNAL, e', buf')
      else finish_loop fuel' e' buf'
  end.

(** One pass over the whole input into the same sink. *)
Definition encoder_pass (e : zu_encoder) (src dst : bytes) (cap : Z) :
    option (zu_status * zu_encoder * zu_buffer) :=
  finish_loop (one_shot_fuel (zlen src) cap) e (mk_buffer (Some src) (zlen src) 0 (Some dst) cap 0).

(** From the handle on; the second component is what freeing the handle released. *)
Definition encoder_reset_passes (e : zu_encoder) (src dst : bytes) (cap : Z) (opts : zu_encoder_opts)
    (r_level2 : sexp) : option (sexp * list release) :=
  match encoder_pass e src dst cap with
  | None => None
  | Some (st, e1, buf) =>
      if negb (status_eqb st ZU_OK)
      then Some (zu_int_result st (Types.dst buf) (dst_pos buf), zu_encoder_free (Some e1))
      else
        let '(bad_level, level) := zu_int_level_from_sexp r_level2 in
        if negb (bad_level =? 0)
        then Some (no_bytes ZU_ERR_INVALID_ARGUMENT, zu_encoder_free (Some e1))
        else
          let '(st, e2) := encoder_reset e1 (Some (encoder_opts_bytes
                             (mk_encoder_opts (eo_struct_size opts) (eo_codec opts) level (eo_flags opts)))) in
          if negb (status_eqb st ZU_OK) then Some (no_bytes st, zu_encoder_free (Some e2))
          else
            match encoder_pass e2 src (default [] (Types.dst buf)) cap with
            | None => None
            | Some (st, e3, buf) =>
                Some (zu_int_result st (Types.dst buf) (dst_pos buf), zu_encoder_free (Some e3))
            end
  end.

Definition zukomp_test_encoder_reset (src : bytes) (codec_name : string) (r_level1 r_level2 : sexp) :
    option (sexp * list release) :=
  let codec := zu_codec_lookup reg (Some codec_name) in
  if codec =? ZU_CODEC_NONE then Some (no_bytes ZU_ERR_UNSUPPORTED, [])
  else
    let '(bad_level, level) := zu_int_level_from_sexp r_level1 in
    if negb (bad_level =? 0) then Some (no_bytes ZU_ERR_INVALID_ARGUMENT, [])
    else
      let opts := encoder_test_opts codec level in
      match zu_compress_bound reg codec level (zlen src) true with
      | Err st => Some (no_bytes st, [])
      | Ok cap =>
          match zu_encoder_new reg true (Some (encoder_opts_bytes opts)) with
          | Err st => Some (no_bytes st, [])
          | Ok e =>
              encoder_reset_passes e src (heap_junk (if cap =? 0 then 1 else cap)) cap opts r_level2
          end
      end.

(** ** Two messages through one decoder handle *)

(** [size_t cap = 1u << 20]. *)
Definition MESSAGE_SINK : Z := 2 ^ 20.

Section sink.
Context (cap : Z).

(** One message into what is left of the sink, [used] bytes in. *)
Fixpoint message_loop (fuel : nat) (d : zu_decoder) (src : bytes) (pos : Z) (sink : bytes) (used : Z) :
    option (zu_status * zu_decoder * bytes * Z) :=
  match fuel with
  | O => None
  | S fuel' =>
      if used >=? cap then Some (ZU_ERR_INTERNAL, d, sink, used)
      else
        let '(ps, d', buf) := decoder_process d
          (mk_buffer (Some src) (zlen src) pos (Some (ptr_add sink used)) (cap - used) 0)
          ZU_FINISH in
        let sink' := take (Z.to_nat used) sink ++ default [] (Types.dst buf) in
        let used' := u64 (used + dst_pos buf) in
        if status_eqb ps ZU_STREAM_END then Some (ZU_OK, d', sink', used')
        else if negb (is_progress ps) then Some (ps, d', sink', used')
        else if (dst_pos buf =? 0) && status_eqb ps ZU_NEED_INPUT
        then Some (ZU_ERR_INTERNAL, d', sink', used')
        else message_loop fuel' d' src (src_pos buf) sink' used'
  end.

Record messages := mk_messages {
  ms_status : zu_status;
  ms_decoder : zu_decoder;
  ms_sink : bytes;
  ms_used : Z;
  ms_first_status : zu_status;
  ms_first_n : Z;
}.

(** The second message is decoded whatever became of the first, after a reset. *)
Definition decode_messages (fuel : nat) (d : zu_decoder) (a b : bytes) (opts : zu_decoder_opts) :
    option messages :=
  match message_loop fuel d a 0 (heap_junk cap) 0 with
  | None => None
  | Some (first_st, d1, sink, first_n) =>
      match decoder_reset d1 (Some (decoder_opts_bytes opts)) with
      | (ZU_OK, d2) =>
          match message_loop fuel d2 b 0 sink first_n with
          | None => None
          | Some (st, d3, sink, used) => Some (mk_messages st d3 sink used first_st first_n)
          end
      | (st, d2) => Some (mk_messages st d2 sink first_n first_st first_n)
      end
  end.

End sink.

Definition messages_opts (codec : zu_codec) (max_output : Z) : zu_decoder_opts :=
  mk_decoder_opts sizeof_decoder_opts codec max_output 0
    (Z.lor ZU_DEC_REJECT_TRAILING ZU_DEC_CONCAT_MEMBERS) 0.

Definition zukomp_test_decoder_reset (fuel : nat) (a b : bytes) (codec_name : string) (r_max_output : sexp) :
    option (sexp * list release) :=
  let codec := zu_codec_lookup reg (Some codec_name) in
  if codec =? ZU_CODEC_NONE then Some (no_bytes ZU_ERR_UNSUPPORTED, [])
  else
    let '(bad_output, max_output) := zu_int_u64_from_real (Rf_asReal r_max_output) in
    if negb (bad_output =? 0) then Some (no_bytes ZU_ERR_INVALID_ARGUMENT, [])
    else
      match zu_decoder_new reg true (Some (decoder_opts_bytes (messages_opts codec max_output))) with
      | Err st => Some (no_bytes st, [])
      | Ok d =>
          match decode_messages MESSAGE_SINK fuel d a b (messages_opts codec max_output) with
          | None => None
          | Some m =>
              Some (Rf_setAttrib
                      (Rf_setAttrib (zu_int_result (ms_status m) (Some (ms_sink m)) (ms_used m))
                         "first_status" (Rf_ScalarInteger (status_code (ms_first_status m))))
                      "first_n" (Rf_ScalarReal (ms_first_n m)),
                    zu_decoder_free (Some (ms_decoder m)))
          end
      end.

(** A reset that names another codec. *)
Definition zukomp_test_decoder_reset_codec (from_name to_name : string) : sexp * list release :=
  let from := zu_codec_lookup reg (Some from_name) in
  let to := zu_codec_lookup reg (Some to_name) in
  if (from =? ZU_CODEC_NONE) || (to =? ZU_CODEC_NONE) then (no_bytes ZU_ERR_UNSUPPORTED, [])
  else
    let opts codec := mk_decoder_opts sizeof_decoder_opts codec 0 0 0 0 in
    match zu_decoder_new reg true (Some (decoder_opts_bytes (opts from))) with
    | Err st => (no_bytes st, [])
    | Ok d =>
        let '(st, d') := decoder_reset d (Some (decoder_opts_bytes (opts to))) in
        (no_bytes st, zu_decoder_free (Some d'))
    end.

(** ** Single functions at chosen arguments *)

Definition zukomp_test_grow (r_near_size_max : sexp) : sexp :=
  let current := if r_true r_near_size_max then SIZE_MAX - 16 else 1024 in
  match zu_int_grow current 4096 true with
  | Ok _ => no_bytes ZU_OK
  | Err st => no_bytes st
  end.

(** A zeroed vtable but for its size and levels. *)
Definition levels_vtable (struct_size level_fast level_best : Z) : zu_codec_vtable :=
  mk_vtable unit struct_size 0 None None None 0 9 6 0 None 0 0 None None None None false None None
    None false None level_fast level_best.

Definition zukomp_test_vtable_levels (r_case : sexp) : sexp :=
  let v :=
    match Rf_asInteger r_case with
    | Some 0 => Some (levels_vtable sizeof_vtable 1 9)
    | Some 1 => Some (levels_vtable sizeof_vtable 0 0)
    | Some 2 => Some (levels_vtable ZU_VTABLE_REQUIRED_SIZE 12345 54321)
    | _ => None
    end in
  match v with
  | None => R_NilValue
  | Some v => INTSXP [Some (zu_int_vtable_level_fast v); Some (zu_int_vtable_level_best v)]
  end.

Definition zukomp_test_info_short (codec_name : string) (r_short : sexp) : sexp :=
  let codec := zu_codec_lookup reg (Some codec_name) in
  let size := if r_true r_short then info_required_size else sizeof_codec_info in
  let info := mk_info size 0 None None None 0 0 0 0 false (-999) (-888) in
  let '(st, out) := zu_codec_get_info reg codec (Some info) in
  let info := default info out in
  INTSXP [Some (status_code st); Some (ci_level_min info); Some (ci_level_default info);
          Some (ci_level_fast info); Some (ci_level_best info)].

Definition zukomp_test_outbuf_live (w : r_world) : sexp := Rf_ScalarReal (zu_int_outbuf_live_count w).

Definition status_values : list (string * zu_status) :=
  [("ZU_OK", ZU_OK); ("ZU_NEED_INPUT", ZU_NEED_INPUT); ("ZU_NEED_OUTPUT", ZU_NEED_OUTPUT);
   ("ZU_STREAM_END", ZU_STREAM_END); ("ZU_ERR_INVALID_ARGUMENT", ZU_ERR_INVALID_ARGUMENT);
   ("ZU_ERR_UNSUPPORTED", ZU_ERR_UNSUPPORTED); ("ZU_ERR_INVALID_DATA", ZU_ERR_INVALID_DATA);
   ("ZU_ERR_TRUNCATED", ZU_ERR_TRUNCATED); ("ZU_ERR_CHECKSUM", ZU_ERR_CHECKSUM);
   ("ZU_ERR_TRAILING", ZU_ERR_TRAILING); ("ZU_ERR_MEMORY", ZU_ERR_MEMORY);
   ("ZU_ERR_OUTPUT_LIMIT", ZU_ERR_OUTPUT_LIMIT); ("ZU_ERR_RATIO_LIMIT", ZU_ERR_RATIO_LIMIT);
   ("ZU_ERR_INTERNAL", ZU_ERR_INTERNAL)]%string.

Definition zukomp_status_codes : sexp :=
  Rf_setAttrib (INTSXP ((fun p => Some (status_code p.2)) <$> status_values)) "names"
    (STRSXP ((fun p => Some p.1) <$> status_values)).

End harness.

(** ** Lemmas *)

(** The three vtable shapes, and the older info struct, read as the header says. *)
Example vtable_levels_cases {r : RApi} x n :
  Rf_asInteger x = Some n ->
  zukomp_test_vtable_levels x =
    if n =? 0 then INTSXP [Some 1; Some 9]
    else if (n =? 1) || (n =? 2) then INTSXP [Some 6; Some 6] else R_NilValue.
Proof.
  intros E. unfold zukomp_test_vtable_levels. rewrite E.
  destruct n as [|[ [p|p|]|[p|p|]|]|p]; reflexivity.
Qed.

(** Near the top of the address space growth refuses; elsewhere it does not. *)
Lemma test_grow_spec {r : RApi} x :
  zukomp_test_grow x = no_bytes (if r_true x then ZU_ERR_MEMORY else ZU_OK).
Proof. unfold zukomp_test_grow. by destruct (r_true x). Qed.

(** A pass over an encoder ends: every round but the last moves a cursor. *)
Lemma finish_loop_total fuel : forall e b,
  encoder_contract (enc_vtable e) -> buffer_ok b -> avail_in b + avail_out b < Z.of_nat fuel ->
  exists st e' b', finish_loop fuel e b = Some (st, e', b') /\ buffer_step b b' /\
    enc_vtable e' = enc_vtable e /\ is_final st.
Proof.
  unfold is_final. induction fuel as [|fuel IH]; intros e b He Hb Hfuel.
  { pose proof (avail_in_nonneg b Hb). pose proof (avail_out_nonneg b Hb). lia. }
  cbn [finish_loop]. destruct (encoder_process e b ZU_FINISH) as [ [st e1] b1] eqn:Hp.
  destruct (encoder_process_step _ _ _ _ _ _ He Hb Hp) as [Hs Hv].
  destruct (status_eqb st ZU_STREAM_END) eqn:E1; [by eauto 10|].
  destruct (is_progress st) eqn:E2; cbn [negb].
  2:{ exists st, e1, b1. split_and!; try done; intros ->; done. }
  destruct (Z.eqb_spec (dst_pos b1) (dst_pos b)), (Z.eqb_spec (src_pos b1) (src_pos b));
    cbn [andb]; [by eauto 10|..].
  all: destruct (IH e1 b1) as (st' & e' & b' & -> & Hs' & Hv' & Hfin);
    [by rewrite Hv|by eapply buffer_step_ok| |exists st', e', b'; rewrite <- Hv; by eauto with zu].
  all: destruct Hs; unfold avail_in, avail_out in *; lia.
Qed.

Lemma encoder_pass_total e src dst cap :
  encoder_contract (enc_vtable e) -> zlen src < 2 ^ 64 -> 0 <= cap < 2 ^ 64 -> cap <= zlen dst ->
  exists st e' b', encoder_pass e src dst cap = Some (st, e', b') /\
    buffer_step (mk_buffer (Some src) (zlen src) 0 (Some dst) cap 0) b' /\
    enc_vtable e' = enc_vtable e /\ is_final st.
Proof.
  intros He Hn Hc Hd. pose proof (zlen_nonneg src). apply finish_loop_total; [done| |].
  - constructor; cbn; try done; lia.
  - unfold one_shot_fuel, avail_in, avail_out. cbn. lia.
Qed.

(** ** Two messages on one connection *)

Section messages.
Context {alloc : Allocator} {heap : HeapBytes}.
Context (reg : registry) (Hreg : registry_contract reg) (cap : Z) (Hcap : 0 <= cap < 2 ^ 64).

(** A message's calls: what they add to [used] is what the decoder gave, and the sink
    below [used] is left alone. *)
Lemma message_loop_calls src (Hn : zlen src < 2 ^ 64) fuel : forall d pos sink used st d' sink' used',
  decoder_reachable reg d -> 0 <= pos <= zlen src -> 0 <= used <= cap ->
  zlen sink = cap ->
  message_loop cap fuel d src pos sink used = Some (st, d', sink', used') ->
  decoder_reachable reg d' /\ used <= used' <= cap /\ zlen sink' = cap /\
  sub sink' 0 used = sub sink 0 used /\
  exists calls, Forall (fun c => buffer_ok c.1) calls /\ decoder_run d calls = (d', used' - used).
Proof.
  induction fuel as [|fuel IH]; intros d pos sink used st d' sink' used' Hd Hpos Hused Hsink; [done|].
  cbn [message_loop].
  destruct (Z.geb_spec used cap).
  { intros [= _ <- <- <-]. split_and!; try done; try lia. exists []. split; [constructor|].
    cbn. f_equal. lia. }
  set (b := mk_buffer _ _ _ _ _ _). destruct (decoder_process d b ZU_FINISH) as [ [ps d1] b1] eqn:Ep.
  assert (Hb : buffer_ok b).
  { constructor; cbn; try done; try lia.
    unfold ptr_add, zlen in *. rewrite length_drop. lia. }
  destruct (decoder_process_limits _ _ _ _ _ _ (reachable_contract _ _ Hreg Hd)
    (reachable_limits _ _ Hreg Hd) Hb Ep) as (_ & Hs & _).
  assert (Hd1 : decoder_reachable reg d1) by (eapply dr_process; eauto; by right; right).
  pose proof Hs as [_ _ _ Hsp Hdp Hch]. cbn in Hsp, Hdp, Hch.
  set (sink1 := take (Z.to_nat used) sink ++ default [] (Types.dst b1)).
  assert (Hs1 : zlen sink1 = cap /\ sub sink1 0 used = sub sink 0 used).
  { subst sink1. destruct (Types.dst b1) as [m|]; [|done]. destruct Hch as [Hl _]. cbn.
    unfold ptr_add in Hl. rewrite length_drop in Hl. split.
    - rewrite zlen_app. unfold zlen in *. rewrite length_take. lia.
    - unfold sub. rewrite !drop_0, take_app, take_take, length_take. unfold zlen in Hsink.
      replace (Z.to_nat used - _)%nat with 0%nat by lia. rewrite take_0, app_nil_r. f_equal. lia. }
  destruct Hs1 as [Hz1 Hpre].
  assert (Hu : u64 (used + dst_pos b1) = used + dst_pos b1)
    by (apply u64_small; lia).
  rewrite Hu. clearbody sink1. intros E.
  assert (Hone : forall d2 u2 sk, d2 = d1 -> u2 = used + dst_pos b1 -> sk = sink1 ->
    decoder_reachable reg d2 /\ used <= u2 <= cap /\ zlen sk = cap /\
    sub sk 0 used = sub sink 0 used /\
    exists calls, Forall (fun c => buffer_ok c.1) calls /\ decoder_run d calls = (d2, u2 - used)).
  { intros ? ? ? -> -> ->. split_and!; try done; try lia. exists [(b, ZU_FINISH)].
    split; [constructor; [exact Hb|constructor]|]. cbn. rewrite Ep. f_equal. cbn. lia. }
  destruct (status_eqb ps ZU_STREAM_END); [injection E as _ <- <- <-; by apply Hone|].
  destruct (negb (is_progress ps)); [injection E as _ <- <- <-; by apply Hone|].
  destruct (_ && _); [injection E as _ <- <- <-; by apply Hone|]. clear Hone.
  apply IH in E as (Hr & Hle & Hz & Hk & calls & Hall & Hrun); [|done|lia|lia|done].
  split_and!; try done; try lia.
  - rewrite <- Hpre. apply (f_equal (fun l => sub l 0 used)) in Hk. unfold sub in *.
    rewrite !drop_0 in *. rewrite !take_take in Hk. by rewrite Nat.min_l in Hk by lia.
  - exists ((b, ZU_FINISH) :: calls). split; [by constructor|]. cbn [decoder_run]. rewrite Ep, Hrun.
    f_equal. cbn. lia.
Qed.

(** One message on a decoder that has spent nothing of its budget. *)
Lemma message_budget src fuel d sink used st d' sink' used' :
  zlen src < 2 ^ 64 -> decoder_reachable reg d -> dec_total_out d = 0 ->
  0 <= used <= cap -> zlen sink = cap ->
  message_loop cap fuel d src 0 sink used = Some (st, d', sink', used') ->
  do_max_output (dec_opts d) <> 0 -> used' - used <= do_max_output (dec_opts d).
Proof.
  intros Hn Hd H0 Hu Hs E Hne. pose proof (zlen_nonneg src).
  apply message_loop_calls in E as (_ & _ & _ & _ & calls & Hall & Hrun); [|done..|lia|done|done].
  destruct (decoder_run_limits _ _ _ _ (reachable_contract _ _ Hreg Hd) (reachable_limits _ _ Hreg Hd)
    Hall Hrun) as ([_ Hm _ _] & Ho & Ht).
  rewrite Ho, H0, Z.add_0_l in *. rewrite <- Ht by (by apply ceiling_some_max). auto.
Qed.

End messages.

(** C25: two messages through one decoder handle.  Whatever became of the first, a decoder
    that was reset decodes the second under a budget of its own: neither message yields more
    than [max_output] bytes, the bytes of the first are those it left in the sink, and the
    second's follow them inside the sink. *)
Theorem messages_keep_budget {alloc : Allocator} {heap : HeapBytes} (reg : registry) (fuel : nat)
    (cap codec max_output : Z) (d : zu_decoder) (a b : bytes) (m : messages) :
  registry_contract reg -> 0 <= cap < 2 ^ 64 -> 0 <= codec < 2 ^ 32 -> 0 < max_output < 2 ^ 64 ->
  zlen a < 2 ^ 64 -> zlen b < 2 ^ 64 ->
  zu_decoder_new reg true (Some (decoder_opts_bytes (messages_opts codec max_output))) = Ok d ->
  decode_messages cap fuel d a b (messages_opts codec max_output) = Some m ->
  0 <= ms_first_n m <= max_output /\ 0 <= ms_used m - ms_first_n m <= max_output /\
  ms_used m <= cap /\
  exists d1 sink,
    message_loop cap fuel d a 0 (heap_junk cap) 0 = Some (ms_first_status m, d1, sink, ms_first_n m) /\
    sub (ms_sink m) 0 (ms_first_n m) = sub sink 0 (ms_first_n m).
Proof.
  intros Hreg Hcap Hc Hm Ha Hb Hnew. set (o := messages_opts codec max_output) in *.
  assert (Hfit : decoder_opts_fit o) by (unfold decoder_opts_fit; cbn; split_and!; by first [done|lia]).
  assert (Hd : decoder_reachable reg d) by (eapply dr_new; [apply decoder_opts_bytes_ok|exact Hnew]).
  pose proof (zlen_nonneg a). pose proof (zlen_nonneg b).
  assert (HM : 0 <= 0 <= cap) by lia.
  unfold decode_messages. assert (Hz : zlen (heap_junk cap) = cap)
    by (apply zlen_heap_junk; lia).
  revert Hz. generalize (heap_junk cap). intros sink0 Hz.
  apply decoder_new_inv in Hnew as (_ & _ & Eo & _ & _ & Et). rewrite decoder_opts_copied in Eo by done.
  destruct (message_loop cap fuel d a 0 sink0 0) as [ [ [ [st1 d1] sink] n1]|] eqn:E1; [|done].
  pose proof (message_budget reg Hreg cap Hcap _ _ _ _ _ _ _ _ _ Ha Hd Et HM Hz E1) as Hn1.
  apply (message_loop_calls reg Hreg cap Hcap a Ha) in E1 as (Hd1 & Hle1 & Hz1 & _ & _); [|exact Hd|lia|exact HM|exact Hz].
  rewrite Eo in Hn1. cbn in Hn1. destruct (decoder_reset d1 _) as [st d2] eqn:Er.
  assert (Hd2 : decoder_reachable reg d2).
  { eapply dr_reset; [exact Hd1| |exact Er]. intros ? [= <-]. apply decoder_opts_bytes_ok. }
  destruct (decide (st = ZU_OK)) as [->|Hne].
  - apply decoder_reset_cases in Er as [_ [(_ & _ & _ & Et2 & _ & Eo2 & _)|[? _] ] ]; [|done].
    cbn [from_option id] in Eo2. rewrite decoder_opts_copied in Eo2 by done.
    destruct (message_loop cap fuel d2 b 0 sink n1) as [ [ [ [st2 d3] sink2] n2]|] eqn:E2; [|done].
    intros [= <-]. cbn.
    pose proof (message_budget reg Hreg cap Hcap _ _ _ _ _ _ _ _ _ Hb Hd2 Et2 Hle1 Hz1 E2) as Hn2.
    rewrite Eo2 in Hn2. cbn in Hn2.
    apply (message_loop_calls reg Hreg cap Hcap b Hb) in E2 as (_ & Hle2 & _ & Hpre & _); [|done|lia|lia|done].
    split_and!; try lia. eauto.
  - intros E. assert (Em : m = mk_messages st d2 sink n1 st1 n1) by (destruct st; try done; by injection E).
    subst m. cbn. split_and!; try lia. eauto.
Qed.

(** The first message breaks its limit; the second is decoded all the same. *)
#[local] Instance test_alloc : Allocator := fun _ => true.
#[local] Instance test_heap : HeapBytes := fun _ => 0.

Definition toy_messages : option messages :=
  d ← (match zu_decoder_new id_registry true
               (Some (decoder_opts_bytes (messages_opts ZU_CODEC_IDENTITY 3))) with
       | Ok d => Some d | Err _ => None end);
  decode_messages 16 20 d [1; 2; 3; 4; 5] [9; 8] (messages_opts ZU_CODEC_IDENTITY 3).

Lemma messages_keep_budget_witness :
  exists d m, toy_messages = Some m /\
    zu_decoder_new id_registry true (Some (decoder_opts_bytes (messages_opts ZU_CODEC_IDENTITY 3))) = Ok d /\
    ms_first_status m = ZU_ERR_OUTPUT_LIMIT /\ ms_status m = ZU_OK /\
    sub (ms_sink m) 0 (ms_used m) = [1; 2; 3; 9; 8] /\ ms_first_n m = 3 /\
    0 <= ms_used m - ms_first_n m <= 3.
Proof.
  eexists _, _. split; [vm_compute; reflexivity|]. split; [vm_compute; reflexivity|].
  do 4 (split; [reflexivity|]).
  refine (proj1 (proj2 (messages_keep_budget id_registry 20 16 ZU_CODEC_IDENTITY 3 _ [1; 2; 3; 4; 5] [9; 8] _
    id_registry_contract _ _ _ _ _ _ _))).
  all: try (vm_compute; reflexivity).
  all: vm_compute; split; first [discriminate|reflexivity].
Defined.
