(* ===== verification/ZipConsume.v ===== *)
(** * The archive consumer: tools/zukomplink/src/zip_consume.c

    A package that links the installed archive and uses miniz's ZIP reader, as three entry
    points: a sizing pass over the file, an R allocation, then a filling pass over the file
    opened again.  The reader is a parameter; the order of what is opened, ended, allocated
    and raised is modelled as a trace, because that order is what the file is careful of. *)
From S2P Require Import Prelude Types Identity Whole WholeProps RValues RGlue.

(** ** The reader *)

Record zip_stat := mk_stat {
  m_filename : string;
  m_comp_size : Z;
  m_uncomp_size : Z;
  m_time : Z;
}.

(** [mz_zip_reader_*]: an archive opened at the given pass (the file may have changed
    between two), its error texts, and the extraction iterator. *)
Class MzZip := {
  zip_archive : Type;
  zip_iter : Type;
  mz_zip_reader_init_file : nat -> string -> option zip_archive;
  zip_init_last_error : nat -> string -> Z;      (** after an init that failed *)
  mz_zip_get_last_error : zip_archive -> Z;
  mz_zip_get_error_string : Z -> string;
  mz_zip_reader_get_num_files : zip_archive -> Z;
  mz_zip_reader_file_stat : zip_archive -> Z -> option zip_stat;
  mz_zip_reader_locate_file : zip_archive -> string -> option Z;
  mz_zip_extract_iter_new : zip_archive -> Z -> option zip_iter;
  mz_zip_extract_iter_read : zip_iter -> Z -> Z * bytes * zip_iter;
  mz_zip_extract_iter_free : zip_iter -> bool;
  mz_version : string;
}.

(** A read gives at most what was asked for, and says how much. *)
Class MzZipReads (z : MzZip) : Prop :=
  iter_read_bounded : forall it ask got bs it', 0 <= ask ->
    mz_zip_extract_iter_read it ask = (got, bs, it') -> 0 <= got <= ask /\ zlen bs = got.

(** What an entry point does to the world, in order. *)
Inductive zl_event :=
  | zl_init (ok : bool)
  | zl_end
  | zl_iter_new
  | zl_iter_free
  | zl_alloc               (** R memory is allocated: it may longjmp *)
  | zl_raise.              (** [Rf_error] *)

Definition ZL_MAX_OUTPUT : Z := 16 * 1024 * 1024.
Definition ZL_MAX_MEMBERS : Z := 1024.

Section zip.
Context {z : MzZip} {heap : HeapBytes}.

Definition zl_last_error (zip : zip_archive) : string := mz_zip_get_error_string (mz_zip_get_last_error zip).
(** The same, of the archive an init left behind when it failed. *)
Definition zip_init_error (pass : nat) (path : string) : string :=
  mz_zip_get_error_string (zip_init_last_error pass path).

Definition zl_count (path : string) : (string + Z) * list zl_event :=
  match mz_zip_reader_init_file 0 path with
  | None => (inl (zip_init_error 0 path), [zl_init false; zl_end])
  | Some zip =>
      let n := mz_zip_reader_get_num_files zip in
      ((if n >? ZL_MAX_MEMBERS then inl "archive claims more members than this fixture will read"%string
        else inr n), [zl_init true; zl_end])
  end.

(** The columns are filled up to the first member that cannot be described; a name is an
    R string, allocated while the reader is open. *)
Fixpoint zl_fill (zip : zip_archive) (fuel : nat) (i : Z) :
    (string + list zip_stat) * list zl_event :=
  match fuel with
  | O => (inr [], [])
  | S fuel' =>
      match mz_zip_reader_file_stat zip i with
      | None => (inl (zl_last_error zip), [])
      | Some st =>
          let '(rest, ev) := zl_fill zip fuel' (i + 1) in
          (match rest with inl err => inl err | inr l => inr (st :: l) end, zl_alloc :: ev)
      end
  end.

Definition members_value (l : list zip_stat) : sexp :=
  Rf_setAttrib
    (VECSXP [STRSXP ((fun s => Some (m_filename s)) <$> l);
             REALSXP ((fun s => R_Fin (QArith_base.inject_Z (m_uncomp_size s))) <$> l);
             REALSXP ((fun s => R_Fin (QArith_base.inject_Z (m_comp_size s))) <$> l);
             REALSXP ((fun s => R_Fin (QArith_base.inject_Z (m_time s))) <$> l)]) "names"
    (STRSXP [Some "name"; Some "uncomp_size"; Some "comp_size"; Some "mtime"])%string.

(** [inl] is the text of an R error. *)
Definition C_zip_members (path : string) : (string + sexp) * list zl_event :=
  let '(count, ev) := zl_count path in
  match count with
  | inl err => (inl err, ev ++ [zl_raise])
  | inr n =>
      let ev := ev ++ [zl_alloc; zl_alloc; zl_alloc; zl_alloc] in
      match mz_zip_reader_init_file 1 path with
      | None => (inl (zip_init_error 1 path), ev ++ [zl_init false; zl_end; zl_raise])
      | Some zip =>
          let '(rows, fev) := zl_fill zip (Z.to_nat n) 0 in
          let ev := ev ++ [zl_init true] ++ fev ++ [zl_end] in
          match rows with
          | inl err => (inl err, ev ++ [zl_raise])
          | inr l => (inr (members_value l), ev ++ [zl_alloc; zl_alloc])
          end
      end
  end.

(** Index and declared size of a member. *)
Definition zl_locate (path name : string) : (string + Z * Z) * list zl_event :=
  match mz_zip_reader_init_file 0 path with
  | None => (inl (zip_init_error 0 path), [zl_init false; zl_end])
  | Some zip =>
      let ev := [zl_init true; zl_end] in
      match mz_zip_reader_locate_file zip name with
      | None => (inl "no such member in the archive"%string, ev)
      | Some index =>
          match mz_zip_reader_file_stat zip index with
          | None => (inl (zl_last_error zip), ev)
          | Some st =>
              if m_uncomp_size st >? ZL_MAX_OUTPUT
              then (inl "member claims to decompress past this fixture's output cap"%string, ev)
              else (inr (index, m_uncomp_size st), ev)
          end
      end
  end.

(** The [for (;;)]: [None] is out of fuel. *)
Fixpoint zl_read_loop (fuel : nat) (it : zip_iter) (want chunk total : Z) (ans : bytes) :
    option (zip_iter * Z * bytes) :=
  match fuel with
  | O => None
  | S fuel' =>
      let room := u64 (want - total) in
      let ask := if room <? chunk then room else chunk in
      if ask =? 0 then Some (it, total, ans)
      else
        let '(got, bs, it') := mz_zip_extract_iter_read it ask in
        if got =? 0 then Some (it', total, ans)
        else zl_read_loop fuel' it' want chunk (u64 (total + got)) (memcpy_at ans total bs)
  end.

Definition zl_chunk (chunk_arg : option Z) (want : Z) : Z :=
  let chunk := match chunk_arg with
               | Some c => if c >? 0 then c else want
               | None => want            (** NA_INTEGER is negative *)
               end in
  if chunk =? 0 then 1 else chunk.

Definition C_zip_extract {r : RApi} (path name : string) (chunk_ : sexp) :
    option ((string + bytes) * list zl_event) :=
  let '(located, ev) := zl_locate path name in
  match located with
  | inl err => Some (inl err, ev ++ [zl_raise])
  | inr (index, want) =>
      let chunk := zl_chunk (Rf_asInteger chunk_) want in
      let ev := ev ++ [zl_alloc] in
      match mz_zip_reader_init_file 1 path with
      | None => Some (inl (zip_init_error 1 path), ev ++ [zl_init false; zl_end; zl_raise])
      | Some zip =>
          match mz_zip_extract_iter_new zip index with
          | None => Some (inl (zl_last_error zip), ev ++ [zl_init true; zl_end; zl_raise])
          | Some it =>
              match zl_read_loop (S (Z.to_nat want)) it want chunk 0 (heap_junk want) with
              | None => None
              | Some (it', total, ans) =>
                  let ev := ev ++ [zl_init true; zl_iter_new; zl_iter_free; zl_end] in
                  if negb (mz_zip_extract_iter_free it')
                  then Some (inl "member failed its CRC-32 check"%string, ev ++ [zl_raise])
                  else if negb (total =? want)
                  then Some (inl "member decompressed to a different size than it declared"%string,
                             ev ++ [zl_raise])
                  else Some (inr ans, ev)
              end
          end
      end
  end.

Definition C_miniz_version : sexp := STRSXP [Some mz_version].

End zip.

(** ** Loading it: the table of native routines, and what the DLL answers to *)

Definition zukomplink_call_methods : list (string * Z) :=
  [("C_zip_members", 1); ("C_zip_extract", 3); ("C_miniz_version", 0)]%string.

(** [R_registerRoutines], [R_useDynamicSymbols] and [R_forceSymbols]. *)
Record dll_info := mk_dll {
  dll_routines : list (string * Z);
  dll_dynamic : bool;
  dll_forced : bool;
}.

Definition R_init_zukomplink (dll : dll_info) : dll_info := mk_dll zukomplink_call_methods false true.

(** [.Call] by name, when no symbol is looked up dynamically. *)
Definition dll_arity (dll : dll_info) (name : string) : option Z :=
  snd <$> List.find (fun r => String.eqb (fst r) name) (dll_routines dll).

(** Loaded, only the three entry points can be called, each with its own arity. *)
Lemma zukomplink_routines dll name n :
  dll_arity (R_init_zukomplink dll) name = Some n <-> (name, n) ∈ zukomplink_call_methods.
Proof.
  unfold dll_arity, R_init_zukomplink, zukomplink_call_methods. cbn [dll_routines List.find fst].
  rewrite !elem_of_cons, elem_of_nil.
  repeat match goal with |- context [String.eqb ?a ?b] => destruct (String.eqb_spec a b) as [<-|] end;
    cbn; naive_solver.
Qed.

(** ** What the traces promise *)

(** Reader and iterator as a trace leaves them, and whether R could have left through a
    longjmp while either was live.  [None] is a trace no careful caller has: an iterator
    outliving its reader, a second open over a live reader. *)
Record zl_live := mk_live {
  lv_reader : bool;
  lv_iter : bool;
  lv_exposed : bool;
}.

Definition zl_step (s : zl_live) (e : zl_event) : option zl_live :=
  match e with
  | zl_init ok => if lv_reader s then None else Some (mk_live ok (lv_iter s) (lv_exposed s))
  | zl_end => if lv_iter s then None else Some (mk_live false false (lv_exposed s))
  | zl_iter_new => if lv_reader s && negb (lv_iter s)
                   then Some (mk_live true true (lv_exposed s)) else None
  | zl_iter_free => if lv_iter s then Some (mk_live (lv_reader s) false (lv_exposed s)) else None
  | zl_alloc | zl_raise =>
      Some (mk_live (lv_reader s) (lv_iter s) (lv_exposed s || lv_reader s || lv_iter s))
  end.

Fixpoint zl_run (s : zl_live) (ev : list zl_event) : option zl_live :=
  match ev with
  | [] => Some s
  | e :: rest => s' ← zl_step s e; zl_run s' rest
  end.

Definition zl_start : zl_live := mk_live false false false.

Lemma zl_run_app ev1 ev2 s : zl_run s (ev1 ++ ev2) = s' ← zl_run s ev1; zl_run s' ev2.
Proof.
  revert s. induction ev1 as [|e ev1 IH]; intros s; [done|]. cbn.
  destruct (zl_step s e); cbn; [apply IH|done].
Qed.

Section traces.
Context {z : MzZip} {heap : HeapBytes} {Hreads : MzZipReads z}.

(** The sizing passes open and end the reader and do nothing else. *)
Lemma zl_count_trace path : exists ok, (zl_count path).2 = [zl_init ok; zl_end].
Proof. unfold zl_count. destruct (mz_zip_reader_init_file 0 path); eexists; reflexivity. Qed.

Lemma zl_locate_trace path name : exists ok, (zl_locate path name).2 = [zl_init ok; zl_end].
Proof.
  unfold zl_locate. destruct (mz_zip_reader_init_file 0 path) as [zip|]; [|by eexists].
  destruct (mz_zip_reader_locate_file zip name) as [i|]; [|by eexists].
  destruct (mz_zip_reader_file_stat zip i) as [st|]; [|by eexists].
  destruct (m_uncomp_size st >? ZL_MAX_OUTPUT); by eexists.
Qed.

Lemma zl_locate_bounded path name index want ev :
  zl_locate path name = (inr (index, want), ev) -> want <= ZL_MAX_OUTPUT.
Proof.
  unfold zl_locate. destruct (mz_zip_reader_init_file 0 path) as [zip|]; [|done].
  destruct (mz_zip_reader_locate_file zip name) as [i|]; [|done].
  destruct (mz_zip_reader_file_stat zip i) as [st|]; [|done].
  destruct (m_uncomp_size st >? ZL_MAX_OUTPUT) eqn:E; [done|]. intros [= _ <- _]. zbool. lia.
Qed.

(** The bytes a sequence of reads delivered. *)
Inductive zl_reads : zip_iter -> bytes -> zip_iter -> Prop :=
  | zl_reads_nil it : zl_reads it [] it
  | zl_reads_stop it ask bs it' :
      mz_zip_extract_iter_read it ask = (0, bs, it') -> zl_reads it [] it'
  | zl_reads_more it ask got bs it1 rest it2 :
      mz_zip_extract_iter_read it ask = (got, bs, it1) -> 0 < got ->
      zl_reads it1 rest it2 -> zl_reads it (bs ++ rest) it2.

(** The loop ends, within one read per byte; what it stored are the bytes read, in order,
    and it never writes past the vector. *)
Lemma zl_read_loop_spec want chunk (Hw : 0 <= want < 2 ^ 64) (Hc : 0 < chunk) fuel :
  forall it total ans,
  0 <= total <= want -> zlen ans = want -> want - total < Z.of_nat fuel ->
  exists it' total' ans' bs,
    zl_read_loop fuel it want chunk total ans = Some (it', total', ans') /\
    total <= total' <= want /\ zlen ans' = want /\ zl_reads it bs it' /\
    zlen bs = total' - total /\ sub ans' 0 total' = sub ans 0 total ++ bs.
Proof.
  induction fuel as [|fuel IH]; intros it total ans Ht Hz Hf; [lia|]. cbn [zl_read_loop].
  rewrite (u64_small (want - total)) by lia.
  set (ask := if want - total <? chunk then want - total else chunk).
  assert (Ha : 0 <= ask <= want - total) by (subst ask; destruct (Z.ltb_spec (want - total) chunk); lia).
  destruct (Z.eqb_spec ask 0).
  { exists it, total, ans, []. rewrite app_nil_r, zlen_nil.
    split_and!; try done; try lia. apply zl_reads_nil. }
  destruct (mz_zip_extract_iter_read it ask) as [ [got bs] it1] eqn:Er.
  destruct (iter_read_bounded _ _ _ _ _ (proj1 Ha) Er) as [Hg Hl].
  destruct (Z.eqb_spec got 0) as [->|Hne].
  { exists it1, total, ans, []. rewrite app_nil_r, zlen_nil.
    split_and!; try done; try lia. by eapply zl_reads_stop. }
  rewrite (u64_small (total + got)) by lia.
  assert (Hz1 : zlen (memcpy_at ans total bs) = want) by (rewrite zlen_memcpy_at; lia).
  destruct (IH it1 (total + got) (memcpy_at ans total bs) ltac:(lia) Hz1 ltac:(lia))
    as (it2 & t2 & ans2 & rest & -> & Ht2 & Hz2 & Hr & Hlr & Hs).
  exists it2, t2, ans2, (bs ++ rest). split_and!; try done; try lia.
  - eapply zl_reads_more; [exact Er|lia|done].
  - rewrite zlen_app. lia.
  - rewrite Hs, app_assoc. f_equal. rewrite (sub_split _ 0 total) by lia.
    rewrite sub_memcpy_at_before by lia. f_equal.
    rewrite Z.add_0_l, <- Hl. by rewrite sub_memcpy_at by lia.
Qed.

(** Whatever a reader that is closed does next, a trace of both passes leaves it closed. *)
Lemma extract_value want total (ans bs : bytes) :
  total = want -> zlen ans = want -> 0 <= want -> sub ans 0 total = bs -> ans = bs.
Proof. intros -> <- _ <-. by rewrite sub_all. Qed.

(** Extraction returns, with everything it opened ended and freed and no R allocation or
    error while the reader was open; a value is exactly the bytes the iterator gave, of the
    declared size and under the cap, after a passed CRC-32 check. *)
Theorem zip_extract_careful {r : RApi} path name chunk_ :
  (forall zip i st, mz_zip_reader_file_stat zip i = Some st -> 0 <= m_uncomp_size st < 2 ^ 64) ->
  exists res ev, C_zip_extract path name chunk_ = Some (res, ev) /\
    zl_run zl_start ev = Some zl_start /\
    match res with
    | inl _ => last ev = Some zl_raise
    | inr ans => exists index zip it it',
        (zl_locate path name).1 = inr (index, zlen ans) /\ zlen ans <= ZL_MAX_OUTPUT /\
        mz_zip_reader_init_file 1 path = Some zip /\ mz_zip_extract_iter_new zip index = Some it /\
        zl_reads it ans it' /\ mz_zip_extract_iter_free it' = true
    end.
Proof.
  intros Hstat. unfold C_zip_extract. destruct (zl_locate_trace path name) as [ok Eev].
  destruct (zl_locate path name) as [located ev] eqn:El. cbn in Eev. subst ev.
  destruct located as [err|[index want] ].
  { eexists _, _. split; [done|]. by destruct ok. }
  pose proof (zl_locate_bounded _ _ _ _ _ El) as Hmax.
  assert (Hw : 0 <= want < 2 ^ 64).
  { unfold zl_locate in El. destruct (mz_zip_reader_init_file 0 path) as [zip|]; [|done].
    destruct (mz_zip_reader_locate_file zip name) as [i|]; [|done].
    destruct (mz_zip_reader_file_stat zip i) as [st|] eqn:Es; [|done].
    destruct (m_uncomp_size st >? ZL_MAX_OUTPUT); [done|]. injection El as _ <- _. by eapply Hstat. }
  destruct (mz_zip_reader_init_file 1 path) as [zip|]; [|eexists _, _; split; [done|by destruct ok] ].
  destruct (mz_zip_extract_iter_new zip index) as [it|] eqn:En;
    [|eexists _, _; split; [done|by destruct ok] ].
  set (chunk := zl_chunk _ want).
  assert (Hc : 0 < chunk).
  { subst chunk. unfold zl_chunk. destruct (Rf_asInteger chunk_) as [c|].
    - destruct (c >? 0) eqn:E; zbool; [destruct (Z.eqb_spec c 0); lia|destruct (Z.eqb_spec want 0); lia].
    - destruct (Z.eqb_spec want 0); lia. }
  destruct (zl_read_loop_spec want chunk Hw Hc (S (Z.to_nat want)) it 0 (heap_junk want))
    as (it' & total & ans & bs & E & Ht & Hz & Hr & Hl & Hs); [lia|apply zlen_heap_junk; lia|lia|].
  rewrite E. rewrite sub_0, app_nil_l in Hs.
  destruct (mz_zip_extract_iter_free it') eqn:Ef; cbn [negb];
    [|eexists _, _; split; [done|by destruct ok] ].
  destruct (Z.eqb_spec total want) as [He|]; cbn [negb]; [|eexists _, _; split; [done|by destruct ok] ].
  eexists _, _. split; [done|]. split; [by destruct ok|].
  pose proof (extract_value _ _ _ _ He Hz (proj1 Hw) Hs) as <-.
  exists index, zip, it, it'. rewrite Hz. by split_and!.
Qed.

(** Listing the members closes what it opened, but the names become R strings while the
    reader is open: with a member to list, a failed allocation there leaks the reader. *)
Lemma zl_fill_trace zip fuel : forall i, exists k,
  (zl_fill zip fuel i).2 = replicate k zl_alloc /\
  (forall l, (zl_fill zip fuel i).1 = inr l -> k = fuel).
Proof.
  induction fuel as [|fuel IH]; intros i; cbn; [by exists 0%nat|].
  destruct (mz_zip_reader_file_stat zip i) as [st|]; [|by exists 0%nat].
  destruct (IH (i + 1)) as (k & Ek & Hk). destruct (zl_fill zip fuel (i + 1)) as [rest ev].
  cbn in *. exists (S k). rewrite Ek. split; [done|]. intros l. destruct rest as [|l']; [done|].
  intros _. by rewrite (Hk l').
Qed.

Lemma zl_run_allocs k s :
  zl_run s (replicate k zl_alloc) =
    Some (mk_live (lv_reader s) (lv_iter s)
      (lv_exposed s || (negb (k =? 0)%nat && (lv_reader s || lv_iter s)))).
Proof.
  revert s. induction k as [|k IH]; intros [a b c]; cbn; [by rewrite orb_false_r|].
  rewrite IH. cbn. f_equal. destruct a, b, c, (k =? 0)%nat; done.
Qed.

Theorem zip_members_exposed path v ev n :
  C_zip_members path = (inr v, ev) -> (zl_count path).1 = inr n ->
  zl_run zl_start ev = Some (mk_live false false (0 <? n)).
Proof.
  unfold C_zip_members. destruct (zl_count_trace path) as [ok Eev].
  destruct (zl_count path) as [count ev0]. cbn in Eev. subst ev0.
  destruct count as [|n']; [done|]. destruct (mz_zip_reader_init_file 1 path) as [zip|]; [|done].
  destruct (zl_fill_trace zip (Z.to_nat n') 0) as (k & Ek & Hk).
  destruct (zl_fill zip (Z.to_nat n') 0) as [rows fev]. cbn in Ek, Hk. subst fev.
  destruct rows as [|l]; [done|]. rewrite (Hk l eq_refl). intros [= _ <-] [= <-].
  destruct ok; cbn; rewrite <- ?app_assoc, zl_run_app, zl_run_allocs; cbn;
    (destruct (Nat.eqb_spec (Z.to_nat n') 0), (Z.ltb_spec 0 n'); (done || lia)).
Qed.

End traces.

(** ** A reader of one stored member *)

#[local] Instance toy_zip : MzZip := {|
  zip_archive := bytes;
  zip_iter := bytes;
  mz_zip_reader_init_file _ path := if String.eqb path "a.zip" then Some [5; 6; 7] else None;
  zip_init_last_error _ _ := 16;
  mz_zip_get_last_error _ := 24;
  mz_zip_get_error_string e := if e =? 16 then "file open failed"%string else "invalid parameter"%string;
  mz_zip_reader_get_num_files _ := 1;
  mz_zip_reader_file_stat a i := if i =? 0 then Some (mk_stat "m" (zlen a) (zlen a) 0) else None;
  mz_zip_reader_locate_file _ name := if String.eqb name "m" then Some 0 else None;
  mz_zip_extract_iter_new a _ := Some a;
  mz_zip_extract_iter_read it ask := (zlen (sub it 0 ask), sub it 0 ask, ptr_add it ask);
  mz_zip_extract_iter_free _ := true;
  mz_version := "11.0.2"%string;
|}.

#[local] Instance toy_zip_reads : MzZipReads toy_zip.
Proof.
  intros it ask got bs it' Ha [= <- <- _]. split; [|done].
  unfold zlen, sub. rewrite length_take. lia.
Qed.

#[local] Instance toy_zip_heap : HeapBytes := fun _ => 0.

Example toy_extract :
  (fun p => p.1) <$> C_zip_extract (r := toy_rapi) "a.zip" "m" (Rf_ScalarInteger 1) = Some (inr [5; 6; 7]) /\
  (fun p => p.1) <$> C_zip_extract (r := toy_rapi) "a.zip" "x" (Rf_ScalarInteger 1) =
    Some (inl "no such member in the archive"%string).
Proof. split; vm_compute; reflexivity. Qed.

Example toy_members :
  zl_run zl_start (C_zip_members "a.zip").2 = Some (mk_live false false true).
Proof. vm_compute. reflexivity. Qed.
