(* ===== verification/Load.v ===== *)
(** * Loading the packages: src/init.c and tools/zukomptest/src/init.c

    The registry is written here and nowhere else: zukomp registers its built-in codecs and
    then the callable that resolves the API table; a satellite resolves the table and
    registers its own codecs through it. *)
From S2P Require Import Prelude Types Registry Stream Identity Deflate Zstd Lz4 Lz4Block FramedDecoder.
From S2P Require Import Builtins RValues RGlue Api Xor5a.
From S2P Require Import DeflateProps ZstdProps Lz4Props Lz4BlockProps.

(** ** The tables of native routines: name and number of arguments *)

Definition call_methods : list (string * Z) :=
  [("zukomp_vendored", 0); ("zukomp_all_status_strings", 0); ("zukomp_abi_version", 0);
   ("zukomp_codec_table", 0); ("zukomp_codec_available", 1); ("zukomp_status_codes", 0);
   ("zukomp_test_stream", 12); ("zukomp_test_grow", 1); ("zukomp_test_encoder_reset", 4);
   ("zukomp_test_decompress_one", 4); ("zukomp_registry_generation", 0);
   ("zukomp_test_compress_one", 4); ("zukomp_test_compress_bound", 3);
   ("zukomp_test_decoder_reset", 4); ("zukomp_test_decoder_reset_codec", 2);
   ("zukomp_test_vtable_levels", 1); ("zukomp_test_outbuf_live", 0); ("zukomp_test_info_short", 2);
   ("zukomp_compress", 3); ("zukomp_decompress", 4); ("zukomp_build_info", 0); ("zukomp_detect", 1);
   ("zukomp_api_struct_size", 0); ("zukomp_get_api_r", 1)]%string.

Definition zukomptest_call_methods : list (string * Z) :=
  [("zukomptest_roundtrip_via_c", 1); ("zukomptest_decodable_tokens", 0);
   ("zukomptest_codec_for_token", 1); ("zukomptest_decode_incremental", 5);
   ("zukomptest_try_bad_registration", 1); ("zukomptest_compress_one", 3);
   ("zukomptest_decompress_one", 6); ("zukomptest_codec_levels", 1)]%string.

(** Routines are found by name, so no name is given twice. *)
Example call_methods_distinct :
  NoDup (fst <$> call_methods) /\ NoDup (fst <$> zukomptest_call_methods).
Proof. split; apply (bool_decide_unpack _); vm_compute; exact I. Qed.

(** ** The process *)

(** The registry, and what [R_GetCCallable("zukomp", "zukomp_get_api")] gives. *)
Record process := mk_process {
  pr_registry : registry;
  pr_callable : option (Z -> option zukomp_api_v1);
}.

Definition empty_process : process := mk_process empty_registry None.

Section load.
Context {mz : Miniz} {zstd : Zstd} {alloc : Allocator} {lz4 : Lz4}.

(** [inl] is [Rf_error], which refuses the load; what was registered stays. *)
Definition R_init_zukomp (p : process) : (string + unit) * process :=
  let '(st, reg) := zu_int_register_builtin_codecs (pr_registry p) in
  if negb (status_eqb st ZU_OK)
  then (inl "zukomp: failed to register built-in codecs"%string, mk_process reg (pr_callable p))
  else (inr tt, mk_process reg (Some zukomp_get_api)).

(** [declared_only] is [getenv("ZUKOMPTEST_DECLARED_ONLY")]. *)
Definition R_init_zukomptest (declared_only : option string) (p : process) : (string + unit) * process :=
  match (zukomp_api (pr_callable p) None).1 with
  | None => (inl "zukomptest: zukomp's API table is unavailable"%string, p)
  | Some api =>
      let '(st, reg) :=
        if match declared_only with None => true | Some s => String.eqb s "" end
        then api_register_codec api (pr_registry p) (Some zukomptest_vtable)
        else (ZU_OK, pr_registry p) in
      if negb (status_eqb st ZU_OK)
      then (inl "zukomptest: failed to register the xor5a codec"%string, mk_process reg (pr_callable p))
      else
        let '(st, reg) := api_register_codec api reg (Some zukomptest_declared_vtable) in
        if negb (status_eqb st ZU_OK)
        then (inl "zukomptest: failed to register the declared-codec stub"%string,
              mk_process reg (pr_callable p))
        else (inr tt, mk_process reg (pr_callable p))
  end.

Lemma load_zukomp :
  R_init_zukomp empty_process = (inr tt, mk_process builtin_registry (Some zukomp_get_api)).
Proof. unfold R_init_zukomp. cbn [pr_registry empty_process]. by rewrite builtin_registered. Qed.

(** A registration that succeeds appends. *)
Lemma registered_next reg v n :
  (zu_register_codec reg (Some v)).1 = ZU_OK -> reg_gen reg = n -> 0 <= n < 2 ^ 63 ->
  zu_register_codec reg (Some v) = (ZU_OK, mk_registry (reg_vtables reg ++ [v]) (n + 1)).
Proof.
  intros H Hg Hn. destruct (zu_register_codec reg (Some v)) as [st reg'] eqn:E. cbn in H. subst st.
  apply register_ok_inv in E as (_ & _ & _ & _ & ->). by rewrite Hg, u64_small by lia.
Qed.

Definition with_xor5a : registry := mk_registry (zu_int_builtin ++ [xor5a_vtable]) 8.
Definition with_snappy : registry := mk_registry (zu_int_builtin ++ [snappy_stub_vtable]) 8.
Definition with_both : registry := mk_registry ((zu_int_builtin ++ [xor5a_vtable]) ++ [snappy_stub_vtable]) 9.

Lemma register_xor5a : zu_register_codec builtin_registry (Some xor5a_vtable) = (ZU_OK, with_xor5a).
Proof. apply (registered_next builtin_registry xor5a_vtable 7); [vm_compute|..]; done. Qed.

Lemma register_snappy : zu_register_codec builtin_registry (Some snappy_stub_vtable) = (ZU_OK, with_snappy).
Proof. apply (registered_next builtin_registry snappy_stub_vtable 7); [vm_compute|..]; done. Qed.

Lemma register_both : zu_register_codec with_xor5a (Some snappy_stub_vtable) = (ZU_OK, with_both).
Proof. apply (registered_next with_xor5a snappy_stub_vtable 8); [vm_compute|..]; done. Qed.

(** The identity codec is already there. *)
Lemma register_again : zu_int_register_builtin_codecs builtin_registry = (ZU_ERR_INVALID_ARGUMENT, builtin_registry).
Proof.
  unfold zu_int_register_builtin_codecs, zu_int_builtin. cbn [register_all].
  destruct (register_cases builtin_registry (Some zu_int_codec_identity)) as [E|[ [E _]|(w & Ew & _ & _ & _ & _ & E)] ].
  - by rewrite E.
  - exfalso. assert (H : (zu_register_codec builtin_registry (Some zu_int_codec_identity)).1 =
      ZU_ERR_INVALID_ARGUMENT) by (vm_compute; reflexivity). by rewrite E in H.
  - exfalso. assert (H : (zu_register_codec builtin_registry (Some zu_int_codec_identity)).1 =
      ZU_ERR_INVALID_ARGUMENT) by (vm_compute; reflexivity). by rewrite E in H.
Qed.

(** Loading in order.  In a fresh process zukomp loads, and then the satellite: nine codecs,
    xor5a among them under its vendor identity and snappy-raw now available.  Without
    xor5a the satellite changes no row count of the codec table, only the generation that
    the R-side cache is keyed on.  A satellite loaded first is refused and registers
    nothing, and a second initialisation of zukomp in one process is refused. *)
Theorem packages_load :
  let p1 := mk_process builtin_registry (Some zukomp_get_api) in
  R_init_zukomp empty_process = (inr tt, p1) /\
  R_init_zukomptest None p1 = (inr tt, mk_process with_both (Some zukomp_get_api)) /\
  R_init_zukomptest (Some "1"%string) p1 = (inr tt, mk_process with_snappy (Some zukomp_get_api)) /\
  length (zukomp_codec_table with_both) = S (length (zukomp_codec_table builtin_registry)) /\
  length (zukomp_codec_table with_snappy) = length (zukomp_codec_table builtin_registry) /\
  zu_int_registry_generation with_snappy = zu_int_registry_generation builtin_registry + 1 /\
  R_init_zukomptest None empty_process =
    (inl "zukomptest: zukomp's API table is unavailable"%string, empty_process) /\
  R_init_zukomp p1 = (inl "zukomp: failed to register built-in codecs"%string, p1).
Proof.
  cbv zeta. split; [exact load_zukomp|].
  assert (Hapi : forall c, (zukomp_api (Some zukomp_get_api) c).1 = match c with Some _ => c | None => Some zu_int_api_v1 end)
    by (by intros []).
  split; [|split; [|split; [|split; [|split; [|split] ] ] ] ].
  - unfold R_init_zukomptest. cbn [pr_callable pr_registry]. rewrite Hapi. cbn [zu_int_api_v1 api_register_codec].
    unfold zukomptest_vtable, zukomptest_declared_vtable. rewrite register_xor5a. cbn [status_eqb negb].
    by rewrite register_both.
  - unfold R_init_zukomptest. cbn [pr_callable pr_registry]. rewrite Hapi. cbn [zu_int_api_v1 api_register_codec].
    unfold zukomptest_declared_vtable. cbn [String.eqb status_eqb negb]. by rewrite register_snappy.
  - vm_compute. reflexivity.
  - vm_compute. reflexivity.
  - reflexivity.
  - reflexivity.
  - unfold R_init_zukomp. cbn [pr_callable pr_registry]. by rewrite register_again.
Qed.

End load.
