(* ===== verification/Fuzz.v ===== *)
(** * The fuzz targets: fuzz/fuzz_common.h and fuzz/fuzz_*.c

    Drivers that must survive any input: a decode in chunks through one bounded window, the
    gzip header parser a byte at a time, and detection.  Every output byte is read back. *)
From S2P Require Import Prelude Types SizeArith ProcessLoop Registry Stream Identity StreamProps Session.
From S2P Require Import Checksum GzipHeader Whole WholeProps WholeRuns.
From S2P Require Import Deflate DeflateProps Frames FramedDecoder Zstd ZstdProps Lz4 Lz4Props Lz4Block Lz4BlockProps.
From S2P Require Import Builtins Liveness Load.

Definition ZU_FUZZ_MAX_OUTPUT : Z := 16 * 1024 * 1024.
Definition ZU_FUZZ_OUT_CHUNK : Z := 64 * 1024.

(** What is left in [zu_fuzz_sink]: the branch every byte reaches. *)
Definition zu_fuzz_consume (sink : Z) (out : bytes) (n : Z) : Z :=
  let acc := fold_left (fun acc b => u8 (Z.lxor acc b)) (sub out 0 n) 0 in
  if acc =? 0xA5 then u8 (sink + 1) else sink.

Definition fuzz_opts (codec : zu_codec) (flags : Z) : zu_decoder_opts :=
  mk_decoder_opts sizeof_decoder_opts codec ZU_FUZZ_MAX_OUTPUT 0 flags 0.

Lemma fuzz_opts_fit codec flags :
  0 <= codec < 2 ^ 32 -> 0 <= flags < 2 ^ 32 -> decoder_opts_fit (fuzz_opts codec flags).
Proof. intros. unfold decoder_opts_fit; cbn; split_and!; by first [done|lia]. Qed.

(** What outlives an input: the static [done], and the registry. *)
Record fuzz_static := mk_static {
  fs_done : bool;
  fs_registry : registry;
}.

Definition zu_fuzz_init {mz : Miniz} {zstd : Zstd} {alloc : Allocator} {lz4 : Lz4} (p : fuzz_static) :
    fuzz_static :=
  if fs_done p then p else mk_static true (zu_int_register_builtin_codecs (fs_registry p)).2.

(** [reg] is the registry after [zu_fuzz_init]. *)
Section fuzz.
Context {alloc : Allocator} {heap : HeapBytes} (reg : registry).

Record fuzz := mk_fuzz {
  fz_dec : zu_decoder;
  fz_buf : zu_buffer;
  fz_out : bytes;
  fz_fed : Z;
  fz_sink : Z;
}.

Definition fuzz_refill (data : bytes) (in_chunk : Z) (buf : zu_buffer) (fed : Z) : zu_buffer * Z :=
  let size := zlen data in
  if (src_pos buf =? src_size buf) && (fed <? size) then
    let take := size - fed in
    let take := if take >? in_chunk then in_chunk else take in
    (mk_buffer (Some (ptr_add data fed)) take 0 (dst buf) (dst_size buf) (dst_pos buf), fed + take)
  else (buf, fed).

(** One round; [true] is [break]. *)
Definition fuzz_round (data : bytes) (in_chunk out_chunk : Z) (s : fuzz) : bool * fuzz :=
  let '(buf, fed) := fuzz_refill data in_chunk (fz_buf s) (fz_fed s) in
  let last := (fed >=? zlen data) && (src_pos buf =? src_size buf) in
  let '(st, d, buf) := decoder_process (fz_dec s)
    (mk_buffer (src buf) (src_size buf) (src_pos buf) (Some (fz_out s)) out_chunk 0)
    (if last then ZU_FINISH else ZU_RUN) in
  let out := default [] (dst buf) in
  let s' := mk_fuzz d buf out fed (zu_fuzz_consume (fz_sink s) out (dst_pos buf)) in
  if negb (is_progress st) then (true, s')
  else if (dst_pos buf =? 0) && last && status_eqb st ZU_NEED_INPUT then (true, s')
  else (false, s').

Fixpoint fuzz_loop (fuel : nat) (data : bytes) (in_chunk out_chunk : Z) (s : fuzz) : option fuzz :=
  match fuel with
  | O => None
  | S fuel' =>
      match fuzz_round data in_chunk out_chunk s with
      | (true, s') => Some s'
      | (false, s') => fuzz_loop fuel' data in_chunk out_chunk s'
      end
  end.

Definition fuzz_in_chunk (data : bytes) (in_chunk : Z) : Z :=
  if in_chunk =? 0 then (if negb (zlen data =? 0) then zlen data else 1) else in_chunk.
Definition fuzz_out_chunk (out_chunk : Z) : Z :=
  if out_chunk =? 0 then ZU_FUZZ_OUT_CHUNK else out_chunk.

(** What was freed, or that no decoder was made; [None] is a run that did not end. *)
Definition zu_fuzz_decode (fuel : nat) (codec : zu_codec) (data : bytes) (in_chunk out_chunk flags sink : Z) :
    option (Z * list release) :=
  let in_chunk := fuzz_in_chunk data in_chunk in
  let out_chunk := fuzz_out_chunk out_chunk in
  match zu_decoder_new reg true (Some (decoder_opts_bytes (fuzz_opts codec flags))) with
  | Err _ => Some (sink, [])
  | Ok dec =>
      if negb (alloc_ok (req_bytes out_chunk)) then Some (sink, zu_decoder_free (Some dec))
      else
        match fuzz_loop fuel data in_chunk out_chunk
                (mk_fuzz dec (mk_buffer None 0 0 None 0 0) (heap_junk out_chunk) 0 sink) with
        | None => None
        | Some s => Some (fz_sink s, zu_decoder_free (Some (fz_dec s)))
        end
  end.

(** fuzz_decode_*.c: one codec each, the whole input at once. *)
Definition fuzz_decode_raw fuel data :=
  zu_fuzz_decode fuel ZU_CODEC_DEFLATE_RAW data 0 0 (Z.lor ZU_DEC_CONCAT_MEMBERS ZU_DEC_REJECT_TRAILING).
Definition fuzz_decode_zlib fuel data :=
  zu_fuzz_decode fuel ZU_CODEC_ZLIB data 0 0 (Z.lor ZU_DEC_CONCAT_MEMBERS ZU_DEC_REJECT_TRAILING).
Definition fuzz_decode_gzip fuel data :=
  zu_fuzz_decode fuel ZU_CODEC_GZIP data 0 0 (Z.lor ZU_DEC_CONCAT_MEMBERS ZU_DEC_REJECT_TRAILING).
Definition fuzz_decode_zstd fuel data :=
  zu_fuzz_decode fuel ZU_CODEC_ZSTD data 0 0 (Z.lor ZU_DEC_CONCAT_MEMBERS ZU_DEC_REJECT_TRAILING).
Definition fuzz_decode_lz4_frame fuel data :=
  zu_fuzz_decode fuel ZU_CODEC_LZ4_FRAME data 0 0 (Z.lor ZU_DEC_CONCAT_MEMBERS ZU_DEC_REJECT_TRAILING).
Definition fuzz_decode_lz4_block fuel data :=
  zu_fuzz_decode fuel ZU_CODEC_LZ4_BLOCK data 0 0 ZU_DEC_REJECT_TRAILING.

(** fuzz_stream_boundaries.c: the input chooses its own split and codec. *)
Definition boundaries_codec (b : Z) : zu_codec :=
  match b mod 7 with
  | 0 => ZU_CODEC_GZIP
  | 1 => ZU_CODEC_ZLIB
  | 2 => ZU_CODEC_DEFLATE_RAW
  | 3 => ZU_CODEC_ZSTD
  | 4 => ZU_CODEC_LZ4_FRAME
  | 5 => ZU_CODEC_LZ4_BLOCK
  | _ => ZU_CODEC_IDENTITY
  end.

Definition fuzz_stream_boundaries (fuel : nat) (data : bytes) (sink : Z) : option (Z * list release) :=
  match data with
  | b0 :: b1 :: b2 :: rest =>
      zu_fuzz_decode fuel (boundaries_codec b2) rest (b0 + 1) (b1 + 1) ZU_DEC_CONCAT_MEMBERS sink
  | _ => Some (sink, [])
  end.

(** fuzz_gzip_header.c: how many bytes the parser was fed. *)
Fixpoint fuzz_gzip_header (h : zu_int_gzip_header) (data : bytes) : Z :=
  match data with
  | [] => 0
  | b :: rest =>
      match zu_int_gzip_header_feed h b with
      | (ZU_OK, h', false) => 1 + fuzz_gzip_header h' rest
      | _ => 1
      end
  end.

(** fuzz_sniff.c. *)
Definition fuzz_sniff (data : bytes) : zu_status * option zu_codec :=
  zu_sniff reg (Some data) (zlen data) true.

(** ** Lemmas *)

Section bounded.
Context (Hreg : registry_contract reg).
Context (data : bytes) (Hn : zlen data < 2 ^ 64).
Context (in_chunk out_chunk : Z) (Hin : 1 <= in_chunk) (Hout : 1 <= out_chunk < 2 ^ 64).

(** Between rounds. *)
Record fuzz_inv (s : fuzz) : Prop := {
  fi_dec : decoder_reachable reg (fz_dec s);
  fi_pos : 0 <= src_pos (fz_buf s) <= src_size (fz_buf s);
  fi_size : src_size (fz_buf s) < 2 ^ 64;
  fi_src : object_covers (src (fz_buf s)) (src_size (fz_buf s));
  fi_fed : 0 <= fz_fed s <= zlen data;
  fi_out : zlen (fz_out s) = out_chunk;
  fi_bytes : bytes_ok data -> bytes_ok (src_bytes (fz_buf s));
}.

(** Input the decoder has not taken. *)
Definition fuzz_unread (fed : Z) (buf : zu_buffer) : Z := (zlen data - fed) + avail_in buf.

(** Feeding offers the next slice when the last is spent, if there is one. *)
Lemma fuzz_refill_ok s :
  fuzz_inv s ->
  let '(buf, fed) := fuzz_refill data in_chunk (fz_buf s) (fz_fed s) in
  0 <= src_pos buf <= src_size buf /\ src_size buf < 2 ^ 64 /\ object_covers (src buf) (src_size buf) /\
  0 <= fed <= zlen data /\ (bytes_ok data -> bytes_ok (src_bytes buf)) /\
  fuzz_unread fed buf = fuzz_unread (fz_fed s) (fz_buf s) /\ (avail_in buf = 0 -> fed = zlen data).
Proof.
  intros []. unfold fuzz_refill, fuzz_unread, avail_in.
  destruct (Z.eqb_spec (src_pos (fz_buf s)) (src_size (fz_buf s))); cbn [andb]; [|split_and!; done || lia].
  destruct (Z.ltb_spec (fz_fed s) (zlen data)); [|split_and!; done || lia].
  set (take := if zlen data - fz_fed s >? in_chunk then in_chunk else zlen data - fz_fed s).
  assert (1 <= take <= zlen data - fz_fed s).
  { subst take. rewrite Z.gtb_ltb. destruct (Z.ltb_spec in_chunk (zlen data - fz_fed s)); lia. }
  clearbody take. cbn. split_and!; try lia.
  - unfold ptr_add, zlen in *. rewrite length_drop. lia.
  - intros Hd. unfold src_bytes. cbn. by apply Forall_drop.
Qed.

(** A round gives the decoder a well-formed buffer with room, and keeps the invariant; it
    is not the last only if the decoder asked for another call, and, when it did so for
    want of input and there was none, wrote something. *)
Lemma fuzz_round_calls s :
  fuzz_inv s ->
  let s' := (fuzz_round data in_chunk out_chunk s).2 in
  fuzz_inv s' /\
  exists b f st b', buffer_ok b /\ decoder_process (fz_dec s) b f = (st, fz_dec s', b') /\
    fz_sink s' = zu_fuzz_consume (fz_sink s) (fz_out s') (dst_pos b' - dst_pos b) /\
    valid_flush f /\ 0 < avail_out b /\ (bytes_ok data -> bytes_ok (src_bytes b)) /\
    buffer_step b b' /\
    fuzz_unread (fz_fed s') (fz_buf s') = fuzz_unread (fz_fed s) (fz_buf s) - (src_pos b' - src_pos b) /\
    ((fuzz_round data in_chunk out_chunk s).1 = false ->
       is_progress st = true /\ (st = ZU_NEED_INPUT -> avail_in b = 0 -> dst_pos b < dst_pos b')).
Proof.
  intros Hi. unfold fuzz_round. pose proof (fuzz_refill_ok s Hi) as Hr.
  destruct (fuzz_refill data in_chunk (fz_buf s) (fz_fed s)) as [buf fed].
  destruct Hr as (Hp & Hz & Hs & Hf & Hby & Hun & Hend). set (last := (fed >=? zlen data) && _).
  set (b := mk_buffer _ _ _ _ _ _).
  assert (Hb : buffer_ok b) by (destruct Hi; constructor; cbn; try done; lia).
  assert (Hlast : avail_in b = 0 -> last = true).
  { unfold avail_in, last. cbn. intros Ha. rewrite (Hend Ha), Z.geb_leb, Z.leb_refl. apply Z.eqb_eq. lia. }
  assert (Hfl : valid_flush (if last then ZU_FINISH else ZU_RUN)) by (destruct last; [by right; right|by left]).
  destruct (decoder_process (fz_dec s) b _) as [ [st d] b'] eqn:Ep.
  destruct (decoder_process_limits _ _ _ _ _ _ (reachable_contract _ _ Hreg (fi_dec _ Hi))
    (reachable_limits _ _ Hreg (fi_dec _ Hi)) Hb Ep) as (_ & Hstep & _).
  assert (Hd : decoder_reachable reg d).
  { eapply dr_process; [apply (fi_dec _ Hi)|exact Hb|exact Hfl|exact Ep]. }
  pose proof Hstep as [Hs1 Hs2 Hds Hs3 Hs4 Hch]. cbn in Hs1, Hs2, Hs3, Hs4, Hch.
  assert (Hinv : fuzz_inv (mk_fuzz d b' (default [] (dst b')) fed
    (zu_fuzz_consume (fz_sink s) (default [] (dst b')) (dst_pos b')))).
  { constructor; cbn; try done; try lia.
    - by rewrite Hs1, Hs2.
    - destruct (dst b') as [m|]; [|done]. destruct Hch as [Hl _]. unfold zlen. cbn. rewrite <- Hl.
      apply (fi_out _ Hi).
    - unfold src_bytes in *. by rewrite Hs1. }
  assert (Hu : fuzz_unread fed b' = fuzz_unread (fz_fed s) (fz_buf s) - (src_pos b' - src_pos b)).
  { rewrite <- Hun. unfold fuzz_unread, avail_in. rewrite Hs2. cbn. lia. }
  cbv zeta. destruct (is_progress st) eqn:Est; cbn [negb];
    [destruct ((dst_pos b' =? 0) && last && status_eqb st ZU_NEED_INPUT) eqn:Estuck|];
    (split; [exact Hinv|]; exists b, (if last then ZU_FINISH else ZU_RUN), st, b';
     rewrite Z.sub_0_r; split_and!; try done; try (unfold avail_out; cbn; lia)).
  intros _. split; [done|]. intros -> Ha. rewrite (Hlast Ha), andb_true_r in Estuck. revert Estuck.
  status_simpl. rewrite andb_true_r. destruct (Z.eqb_spec (dst_pos b') 0); [done|]. intros _. cbn. cbn in Hs4. lia.
Qed.

(** A whole run is a run of the decoder, on well-formed buffers. *)
Lemma fuzz_loop_calls fuel : forall s s',
  fuzz_inv s -> fuzz_loop fuel data in_chunk out_chunk s = Some s' ->
  exists calls n, Forall (fun c => buffer_ok c.1) calls /\
    decoder_run (fz_dec s) calls = (fz_dec s', n).
Proof.
  induction fuel as [|fuel IH]; intros s s' Hi E; [done|]. cbn [fuzz_loop] in E.
  destruct (fuzz_round_calls s Hi) as (Hi' & b & f & st & b' & Hb & Ep & Hrest). clear Hrest.
  destruct (fuzz_round data in_chunk out_chunk s) as [ [] s1]; cbn in *.
  - injection E as <-. exists [(b, f)], (dst_pos b' - dst_pos b + 0). split.
    + constructor; [exact Hb|constructor].
    + cbn. by rewrite Ep.
  - destruct (IH _ _ Hi' E) as (calls & n & Hall & Hrun).
    exists ((b, f) :: calls), (dst_pos b' - dst_pos b + n). split; [by constructor|].
    cbn. by rewrite Ep, Hrun.
Qed.

(** The loop ends when each call that asks for another moves a byte and the output is
    bounded: every round but the last lowers what is unread plus what may still be
    written. *)
Context (Hbytes : bytes_ok data) (d0 : zu_decoder).
Context (Hlive : forall h taken given b f st h' b',
  codec_run decoder_process d0 h taken given -> buffer_ok b -> 0 < avail_out b -> valid_flush f ->
  decoder_process h b f = (st, h', b') -> is_progress st = true ->
  src_pos b < src_pos b' \/ dst_pos b < dst_pos b' \/ (st = ZU_NEED_INPUT /\ avail_in b = 0)).
Context (cap : Z) (Hcap : forall h taken given, codec_run decoder_process d0 h taken given -> zlen given <= cap).

Lemma fuzz_loop_returns fuel : forall s taken given,
  fuzz_inv s -> codec_run decoder_process d0 (fz_dec s) taken given ->
  (Z.to_nat (fuzz_unread (fz_fed s) (fz_buf s) + (cap - zlen given)) < fuel)%nat ->
  is_Some (fuzz_loop fuel data in_chunk out_chunk s).
Proof.
  induction fuel as [|fuel IH]; intros s taken given Hi Hrun Hf; [lia|]. cbn [fuzz_loop].
  destruct (fuzz_round_calls s Hi) as (Hi' & b & f & st & b' & Hb & Ep & _ & Hfl & Hroom & Hby & Hstep & Hu & Hgo).
  destruct (fuzz_round data in_chunk out_chunk s) as [ [] s1]; [by eexists|]. cbn [fst snd] in *.
  destruct (Hgo eq_refl) as [Hst Hwrote].
  destruct (step_moved _ _ Hb Hstep) as (i & o & Hm).
  assert (Hrun' : codec_run decoder_process d0 (fz_dec s1) (taken ++ i) (given ++ o))
    by (eapply run_call; eauto).
  pose proof (Hcap _ _ _ Hrun') as Hle. apply (IH s1 _ _ Hi' Hrun').
  destruct (moved_counts _ _ _ _ Hb Hm) as [Hci Hco]. destruct Hstep as [_ Es Ed Hsp Hdp _].
  unfold avail_in in Hci. unfold avail_out in Hco. rewrite Es in Hci. rewrite Ed in Hco.
  assert (Hmoved : src_pos b < src_pos b' \/ dst_pos b < dst_pos b').
  { destruct (Hlive _ _ _ _ _ _ _ _ Hrun Hb Hroom Hfl Ep Hst) as [?|[?|[? ?] ] ]; auto. }
  assert (0 <= fuzz_unread (fz_fed s1) (fz_buf s1)).
  { unfold fuzz_unread, avail_in. pose proof (fi_fed _ Hi'). pose proof (fi_pos _ Hi'). lia. }
  rewrite Hu in *. rewrite zlen_app in *. lia.
Qed.

End bounded.

(** Every decode target is bounded: whatever the input, its split and its codec, a run
    that ends has been given at most 16 MiB of output, through windows of the size it
    allocated, and has freed its decoder. *)
Theorem fuzz_decode_bounded fuel codec data in_chunk out_chunk flags sink sink' freed dec :
  registry_contract reg -> zlen data < 2 ^ 64 -> 0 <= in_chunk < 2 ^ 64 -> 0 <= out_chunk < 2 ^ 64 ->
  0 <= codec < 2 ^ 32 -> 0 <= flags < 2 ^ 32 ->
  zu_decoder_new reg true (Some (decoder_opts_bytes (fuzz_opts codec flags))) = Ok dec ->
  zu_fuzz_decode fuel codec data in_chunk out_chunk flags sink = Some (sink', freed) ->
  exists d calls n, Forall (fun c => buffer_ok c.1) calls /\ decoder_run dec calls = (d, n) /\
    n <= ZU_FUZZ_MAX_OUTPUT /\ freed = zu_decoder_free (Some d).
Proof.
  intros Hreg Hn Hin Hout Hc Hf Hnew. unfold zu_fuzz_decode. cbv zeta. rewrite Hnew.
  destruct (negb (alloc_ok _)).
  { intros [= _ <-]. exists dec, [], 0. split_and!; try done. }
  pose proof (zlen_nonneg data).
  assert (Hd : decoder_reachable reg dec) by (eapply dr_new; [apply decoder_opts_bytes_ok|exact Hnew]).
  assert (Hi : 1 <= fuzz_in_chunk data in_chunk).
  { unfold fuzz_in_chunk. destruct (Z.eqb_spec in_chunk 0), (Z.eqb_spec (zlen data) 0); cbn; lia. }
  assert (Ho : 1 <= fuzz_out_chunk out_chunk < 2 ^ 64).
  { unfold fuzz_out_chunk, ZU_FUZZ_OUT_CHUNK. destruct (Z.eqb_spec out_chunk 0); lia. }
  destruct (fuzz_loop _ _ _ _ _) as [s|] eqn:El; [|done]. intros [= _ <-].
  apply (fuzz_loop_calls Hreg data Hn _ _ Hi Ho) in El as (calls & n & Hall & Hrun).
  2:{ constructor; cbn; try done; try lia; [apply zlen_heap_junk; lia|constructor]. }
  exists (fz_dec s), calls, n. split_and!; try done.
  destruct (decoder_output_ceiling reg _ _ _ _ _ Hreg (decoder_opts_bytes_ok _) Hnew Hall Hrun) as [Hm _].
  apply decoder_new_inv in Hnew as (_ & _ & Eo & _). rewrite decoder_opts_copied in Eo; [|..].
  - rewrite Eo in Hm. by apply Hm.
  - by apply fuzz_opts_fit.
  - done.
Qed.

(** Rounds that are enough: each but the last reads or writes a byte. *)
Definition fuzz_fuel (data : bytes) : nat := S (Z.to_nat (zlen data + ZU_FUZZ_MAX_OUTPUT)).

(** ... over a codec whose decoders answer honestly. *)
Lemma fuzz_decode_ends v codec data in_chunk out_chunk flags sink :
  registry_contract reg -> bytes_ok data -> zlen data < 2 ^ 64 -> 0 <= in_chunk < 2 ^ 64 ->
  0 <= out_chunk < 2 ^ 64 -> 0 <= codec < 2 ^ 32 -> 0 <= flags < 2 ^ 32 ->
  zu_int_registry_lookup reg codec = Some v -> is_Some (vt_decoder_process v) -> HonestDecoder v ->
  is_Some (zu_fuzz_decode (fuzz_fuel data) codec data in_chunk out_chunk flags sink).
Proof.
  intros Hreg Hby Hn Hin Hout Hc Hf Hl [process Hp] Hlive. unfold zu_fuzz_decode. cbv zeta.
  destruct (zu_decoder_new _ _ _) as [dec|] eqn:Hnew; [|by eexists].
  destruct (negb (alloc_ok _)); [by eexists|].
  pose proof (fuzz_opts_fit codec flags Hc Hf) as Hfit.
  pose proof (zlen_nonneg data).
  assert (Hd : decoder_reachable reg dec) by (eapply dr_new; [apply decoder_opts_bytes_ok|exact Hnew]).
  destruct (decoder_new_codec reg v (fuzz_opts codec flags) _ Hfit eq_refl Hl Hnew) as (new & s0 & Hv & Es0 & ->).
  specialize (Hlive new process _ s0 Hv Hp Hfit Es0).
  assert (Hcc : CursorContract process).
  { pose proof (reachable_contract _ _ Hreg Hd) as Hk. unfold codec_contract in Hk. cbn in Hk. by rewrite Hp in Hk. }
  assert (Hi : 1 <= fuzz_in_chunk data in_chunk).
  { unfold fuzz_in_chunk. destruct (Z.eqb_spec in_chunk 0), (Z.eqb_spec (zlen data) 0); cbn; lia. }
  assert (Ho : 1 <= fuzz_out_chunk out_chunk < 2 ^ 64).
  { unfold fuzz_out_chunk, ZU_FUZZ_OUT_CHUNK. destruct (Z.eqb_spec out_chunk 0); lia. }
  destruct (fuzz_loop_returns Hreg data Hn _ _ Hi Ho Hby (mk_decoder v s0 (fuzz_opts codec flags) false 0 0))
    with (cap := ZU_FUZZ_MAX_OUTPUT) (fuel := fuzz_fuel data) (taken := @nil Z) (given := @nil Z)
    (s := mk_fuzz (mk_decoder v s0 (fuzz_opts codec flags) false 0 0) (mk_buffer None 0 0 None 0 0)
            (heap_junk (fuzz_out_chunk out_chunk)) 0 sink) as [s ->]; [..|by eexists].
  - intros h taken given b f st h' b' Hrun Hb Ha Hfl E Hst.
    destruct (decoder_run_codec v process Hp Hcc _ Hfit _ _ _ _ Hrun) as (s & tin & tout & -> & Hcrun).
    refine (decoder_live (mk_decoder v s (fuzz_opts codec flags) false tin tout) b f st h' b' _ Hfit Hb Ha Hfl E Hst).
    cbn. rewrite Hp. intros ? [= <-]. split; [exact (Hlive _ _ _ Hcrun)|done].
  - intros h taken given Hrun.
    destruct (decoder_run_counts v process Hp Hcc _ Hfit _ _ _ _ Hrun) as ([_ Hm _ _] & Eo & _ & Ht).
    rewrite Eo in Hm. rewrite <- Ht by (by apply ceiling_some_max). by apply Hm.
  - constructor; cbn; try done; try lia; [apply zlen_heap_junk; lia|constructor].
  - apply run_start.
  - unfold fuzz_unread, fuzz_fuel, avail_in. change (zlen (@nil Z)) with 0. cbn. lia.
Qed.

End fuzz.

(** The header target never feeds the parser more than the longest header it admits. *)
Lemma fuzz_gzip_header_fed data : forall h,
  fuzz_gzip_header h data <= zlen data /\
  (forall h', gz_run h data = gz_more h' -> fuzz_gzip_header h data = zlen data).
Proof.
  induction data as [|b rest IH]; intros h; [done|]. cbn [fuzz_gzip_header gz_run].
  rewrite zlen_cons. pose proof (zlen_nonneg rest).
  destruct (zu_int_gzip_header_feed h b) as [ [st h1] done1].
  destruct st; try (split; [lia|done]). destruct done1; [split; [lia|done]|].
  destruct (IH h1) as [Hle Heq]. split; [lia|]. intros h' E. rewrite (Heq h') by done. lia.
Qed.

(** ** Properties *)

(** However many inputs a process is given, the registry is written once. *)
Lemma fuzz_init_once {mz : Miniz} {zstd : Zstd} {alloc : Allocator} {lz4 : Lz4} n :
  Nat.iter (S n) zu_fuzz_init (mk_static false empty_registry) = mk_static true builtin_registry.
Proof.
  induction n as [|n IH]; [|cbn [Nat.iter nat_rect] in *; by rewrite IH].
  cbn [Nat.iter nat_rect]. unfold zu_fuzz_init. cbn [fs_done fs_registry]. by rewrite builtin_registered.
Qed.


Section witness.
#[local] Existing Instances toy_miniz toy_miniz_ok toy_moves toy_zstd toy_zstd_ok toy_lz4 toy_lz4_ok toy_block_ok.
#[local] Instance some_alloc : Allocator := fun _ => true.
#[local] Instance some_heap : HeapBytes := fun _ => 0.

(** A frame of the toy zstd format, in slices of two bytes. *)
Definition fuzz_frame : bytes := [40; 65; 66; 67; 0].


(** The run itself, with the fuel it needs. *)
Example fuzz_frame_run :
  zu_fuzz_decode builtin_registry 20 ZU_CODEC_ZSTD fuzz_frame 2 2 3 7 = Some (7, [release_state; release_handle]).
Proof. vm_compute. reflexivity. Qed.

End witness.

(** ** Example *)

(** Seven bytes of identity input in windows of two, freed at the end. *)
#[local] Instance fuzz_alloc : Allocator := fun _ => true.
#[local] Instance fuzz_heap : HeapBytes := fun _ => 0.

Example fuzz_identity :
  fuzz_stream_boundaries id_registry 50 [2; 1; 6; 1; 2; 3; 4; 5; 6; 7] 0 =
    Some (0, [release_state; release_handle]) /\
  zu_fuzz_consume 7 [0xA4; 1; 9] 2 = 8.
Proof. split; vm_compute; reflexivity. Qed.
