(* ===== verification/Findings.v ===== *)
(** * Where the code and its comments part

    Concrete runs of the model, one per finding about the code that a run can show. *)
From Stdlib Require Import QArith.
From S2P Require Import Prelude Types SizeArith ProcessLoop Registry Stream Identity StreamProps Session.
From S2P Require Import Checksum GzipHeader Deflate DeflateProps Zstd ZstdProps Lz4 Lz4Props Lz4Block Lz4BlockProps Builtins.
From S2P Require Import Whole WholeProps RValues Consumer Xor5a RGlue.

Local Open Scope Z_scope.

(** ** src/zu_gzip.c: a header checksum that does not match

    The parser reports the error but stays where it was, with both bytes of its two-byte
    [hcrc] used: the next byte it is fed goes past the end of the array. *)
Definition feed_all (h : zu_int_gzip_header) (l : bytes) : zu_status * zu_int_gzip_header :=
  fold_left (fun r b => let '(st, h', _) := zu_int_gzip_header_feed r.2 b in (st, h')) l (ZU_OK, h).

Theorem gzip_hcrc_overrun :
  let r := feed_all zu_int_gzip_header_init [0x1f; 0x8b; 8; 2; 0; 0; 0; 0; 0; 255; 0; 0] in
  r.1 = ZU_ERR_CHECKSUM /\ gz_state r.2 = ZU_INT_GZ_HCRC /\
  length (gz_hcrc r.2) = 2%nat /\ gz_hcrc_pos r.2 = 2.
Proof. vm_compute. by repeat split. Qed.

(** ** src/zu_stream.c: an error at the end of the stream

    The stream ends two bytes short of the expected size: the call fails, but the handle is
    marked finished, so the next call reports a clean end. *)
Theorem finished_after_error :
  let d := id_decoder 0 ZU_DEC_EXPECTED_SIZE 5 in
  let b := mk_buffer (Some [1; 2; 3]) 3 0 (Some (replicate 8 0)) 8 0 in
  let '(st1, d1, b1) := decoder_process d b ZU_FINISH in
  let '(st2, _, _) := decoder_process d1 b1 ZU_FINISH in
  st1 = ZU_ERR_INVALID_DATA /\ st2 = ZU_STREAM_END.
Proof. vm_compute. by split. Qed.

(** ** src/zu_whole.c *)

(** [ZU_FINISH] is sent with input in hand whenever the last slice was just handed over. *)
Theorem finish_beside_input (r : zu_int_run_opts) :
  0 < ro_n r <= ro_in_chunk r ->
  let '(buf, fed) := whole_refill r (mk_buffer None 0 0 None 0 0) 0 in
  avail_in buf = ro_n r /\ whole_flush r fed 0 = ZU_FINISH.
Proof.
  intros Hn. unfold whole_refill. cbn [src_pos src_size]. rewrite Z.eqb_refl. cbn [andb].
  destruct (Z.ltb_spec 0 (ro_n r)); [|lia]. rewrite Z.gtb_ltb, Z.sub_0_r.
  destruct (Z.ltb_spec (ro_in_chunk r) (ro_n r)); [lia|].
  unfold whole_flush, whole_last, avail_in. cbn [src_pos src_size]. rewrite Z.sub_0_r, Z.add_0_l.
  by replace (ro_n r >=? ro_n r) with true by (symmetry; apply Z.geb_le; lia).
Qed.

(** Bytes after a zlib stream are rejected or let through as the chunks happen to fall:
    with the stream in a slice of its own the loop ends before it has seen them. *)
#[local] Instance finding_heap : HeapBytes := fun _ => 0.

Definition zlib_run (input : bytes) (in_chunk : Z) : option whole_result :=
  zu_int_run_whole (alloc := fun _ => true) (ints := quiet) toy_builtin_registry 100
    (Some (mk_run_opts (Some input) (zlen input) false ZU_CODEC_ZLIB ZU_LEVEL_DEFAULT 0 0
       (Z.lor ZU_DEC_REJECT_TRAILING ZU_DEC_CONCAT_MEMBERS) 0 in_chunk 64 0))
    toy_sink.1.2 (Some toy_sink.2).

(** "hi" in the small stand-in for miniz's format, with its zlib header and Adler-32. *)
Definition zlib_hi : bytes :=
  [0x78; 0x9c; 1; 104; 1; 105; 0] ++ rev (le_bytes 4 (mz_adler32 1 (Some [104; 105]))).

Theorem trailing_by_chunk :
  let input := zlib_hi ++ [7; 7; 7] in
  (wr_status <$> zlib_run input (zlen input)) = Some (Some ZU_ERR_TRAILING) /\
  (wr_status <$> zlib_run input (zlen zlib_hi)) = Some (Some ZU_STREAM_END) /\
  ((fun r => ob_consumed (wr_out r)) <$> zlib_run input (zlen zlib_hi)) = Some (zlen zlib_hi).
Proof. vm_compute. by repeat split. Qed.

(** ** tools/zukomptest/src/http_spike.c: a limit below one

    The consumer's own narrowing drops the fraction the library's refuses, so a limit of one
    half byte becomes zero, which is no limit. *)
Theorem spike_limit_truncates :
  let half := REALSXP [R_Fin (1 # 2)] in
  spike_u64 (rapi := toy_rapi) half = (0, 0) /\
  fst (zu_int_u64_from_real (R_Fin (1 # 2))) = 1.
Proof. by split; vm_compute. Qed.
